(** * Verification of the AWS resource cleaner against its specification

    A shallow embedding of [update_logging.py], [aws_cleanup_gui.py]
    (the worker [run_cleanup]) and the seven modules of [cleaner/] into
    Rocq, followed by the properties of the specification.

    Conventions.  A Python [str] is a [string] holding the UTF-8 bytes
    of the text; a [dict] returned by the provider is a record with the
    fields the code reads, a field read with [.get] or tested with [in]
    being an [option]; the provider itself is an arbitrary state
    machine answering each request. *)

From Stdlib Require Import String Ascii List Arith Lia Bool DecimalString.
From stdpp Require Import base option list strings gmap.

Local Open Scope string_scope.

(** ** Python string operations *)

Module pystr.

(** [s.startswith(p)] *)
Fixpoint startswith (p s : string) : bool :=
  match p, s with
  | EmptyString, _ => true
  | String a p', String b s' => if Ascii.eqb a b then startswith p' s' else false
  | String _ _, EmptyString => false
  end.

(** [p in s] *)
Fixpoint contains (p s : string) : bool :=
  if startswith p s then true
  else match s with
       | EmptyString => false
       | String _ s' => contains p s'
       end.

(** The scan of [s.replace(old, new)] for a non-empty [old]: occurrences
    are taken from the left and do not overlap.  [skip] counts the
    characters of the occurrence just replaced that are still to be
    dropped. *)
Fixpoint replace_scan (old new s : string) (skip : nat) : string :=
  match s with
  | EmptyString => EmptyString
  | String c s' =>
      match skip with
      | S n => replace_scan old new s' n
      | O =>
          if startswith old s
          then new ++ replace_scan old new s' (String.length old - 1)
          else String c (replace_scan old new s' 0)
      end
  end.

(** With an empty [old], Python puts [new] before every character and
    at the end. *)
Fixpoint replace_empty (new s : string) : string :=
  match s with
  | EmptyString => new
  | String c s' => new ++ String c (replace_empty new s')
  end.

(** [s.replace(old, new)] *)
Definition replace (old new s : string) : string :=
  match old with
  | EmptyString => replace_empty new s
  | String _ _ => replace_scan old new s 0
  end.

(** [sep.join(parts)] *)
Fixpoint join (sep : string) (parts : list string) : string :=
  match parts with
  | [] => EmptyString
  | [x] => x
  | x :: rest => x ++ sep ++ join sep rest
  end.

Definition LF : ascii := ascii_of_nat 10.
Definition CR : ascii := ascii_of_nat 13.

(** Length in bytes of the line boundary at the head of [s], [0] when
    there is none.  The boundaries of [str.splitlines] are LF, CR, CR LF,
    VT, FF, FS, GS, RS, NEL (U+0085), LS (U+2028) and PS (U+2029); the
    last three are matched on their UTF-8 encodings. *)
Definition is_byte (n : nat) (c : ascii) : bool := Nat.eqb (nat_of_ascii c) n.

Definition boundary_len (s : string) : nat :=
  match s with
  | EmptyString => 0
  | String c s1 =>
      if is_byte 10 c || is_byte 11 c || is_byte 12 c
         || is_byte 28 c || is_byte 29 c || is_byte 30 c then 1
      else if is_byte 13 c then
        match s1 with
        | String d _ => if is_byte 10 d then 2 else 1
        | EmptyString => 1
        end
      else if is_byte 194 c then
        match s1 with
        | String d _ => if is_byte 133 d then 2 else 0
        | EmptyString => 0
        end
      else if is_byte 226 c then
        match s1 with
        | String d (String e _) =>
            if is_byte 128 d && (is_byte 168 e || is_byte 169 e) then 3 else 0
        | _ => 0
        end
      else 0
  end.

(** The scan of [s.splitlines()]: [cur] is the line being read, [skip]
    the bytes of the current boundary still to be dropped.  A last line
    is produced only when it is not empty. *)
Fixpoint splitlines_scan (s cur : string) (skip : nat) : list string :=
  match s with
  | EmptyString => match cur with EmptyString => [] | _ => [cur] end
  | String c s' =>
      match skip with
      | S n => splitlines_scan s' cur n
      | O =>
          match boundary_len s with
          | O => splitlines_scan s' (cur ++ String c EmptyString) 0
          | S n => cur :: splitlines_scan s' EmptyString n
          end
      end
  end.

(** [s.splitlines()] *)
Definition splitlines (s : string) : list string := splitlines_scan s EmptyString 0.

(** [str(n)] for a non-negative integer, and [str(b)] for a boolean *)
Definition str_nat (n : nat) : string := NilEmpty.string_of_uint (Nat.to_uint n).
Definition str_bool (b : bool) : string := if b then "True" else "False".

(** Truth value of an optional string: [None] and [''] are false. *)
Definition truthy (o : option string) : bool :=
  match o with
  | Some (String _ _) => true
  | _ => false
  end.

End pystr.


(** ** The log filter script, [update_logging.py] *)

Module posixpath.
Import pystr.

Definition sep : ascii := "/"%char.

Fixpoint endswith (suffix s : string) : bool :=
  if String.eqb s suffix then true
  else match s with
       | EmptyString => false
       | String _ s' => endswith suffix s'
       end.

(** [os.path.join(a, b)] *)
Definition join (a b : string) : string :=
  if startswith "/" b then b
  else if String.eqb a "" || endswith "/" a then a ++ b
  else a ++ "/" ++ b.

(** [p[:p.rfind('/') + 1]] *)
Fixpoint head_of (p : string) : string :=
  match p with
  | EmptyString => EmptyString
  | String c p' =>
      if contains "/" p' then String c (head_of p')
      else if Ascii.eqb c sep then "/" else EmptyString
  end.




End posixpath.

(** ** The files that the script works on *)

Module posix.
Import pystr.

(** A file system of directories and regular files, without links.
    A file holds bytes; the entries of a directory are in the order in
    which [os.scandir] lists them. *)
#[warnings="-register-all"]
Inductive node :=
  | File (content : string)
  | Dir (entries : list (string * node)).

(** The names from the root to a node. *)
Definition key : Type := list string.

Fixpoint find_entry (name : string) (entries : list (string * node)) : option node :=
  match entries with
  | [] => None
  | (n, child) :: rest => if String.eqb n name then Some child else find_entry name rest
  end.

Fixpoint node_at (n : node) (k : key) : option node :=
  match k with
  | [] => Some n
  | name :: rest =>
      match n with
      | Dir entries =>
          match find_entry name entries with
          | Some child => node_at child rest
          | None => None
          end
      | File _ => None
      end
  end.

Definition is_dir (r : node) (k : key) : bool :=
  match node_at r k with
  | Some (Dir _) => true
  | _ => false
  end.

(** The bytes of the regular file at [k]. *)
Definition file_at (r : node) (k : key) : option string :=
  match node_at r k with
  | Some (File content) => Some content
  | _ => None
  end.

Fixpoint set_entry (name : string) (child : node) (entries : list (string * node))
    : list (string * node) :=
  match entries with
  | [] => [(name, child)]
  | (n, c) :: rest =>
      if String.eqb n name then (n, child) :: rest else (n, c) :: set_entry name child rest
  end.

(** The file system after a regular file at [k] is created or
    truncated and [content] is written to it; [None] when [k] is a
    directory or is not in a directory. *)
Fixpoint store (n : node) (k : key) (content : string) : option node :=
  match k with
  | [] => match n with
          | File _ => Some (File content)
          | Dir _ => None
          end
  | name :: rest =>
      match n with
      | Dir entries =>
          match find_entry name entries with
          | Some child =>
              match store child rest content with
              | Some child' => Some (Dir (set_entry name child' entries))
              | None => None
              end
          | None =>
              match rest with
              | [] => Some (Dir (set_entry name (File content) entries))
              | _ :: _ => None
              end
          end
      | File _ => None
      end
  end.

(** *** Path resolution, as the kernel does it *)

(** One component of a path, met in the directory [cur].  A name is
    looked up in a directory that can be searched, and so are [.] and
    [..]; an empty component, which a slash at the start, a doubled
    slash or a slash at the end leaves, only asks for [cur] to be a
    directory.  The name itself need not exist: what it names is
    looked up by the next component, or by the caller. *)
Definition enter (searchable : key -> bool) (r : node) (cur : key) (name : string)
    : option key :=
  if String.eqb name "" then
    if is_dir r cur then Some cur else None
  else if is_dir r cur && searchable cur then
    if String.eqb name "." then Some cur
    else if String.eqb name ".." then Some (removelast cur)
    else Some (cur ++ [name])%list
  else None.

(** The rest [path] of a path, read from the directory [cur], where
    [name] is the part of the current component that is read already. *)
Fixpoint resolve_from (searchable : key -> bool) (r : node) (cur : key) (name path : string)
    : option key :=
  match path with
  | EmptyString => enter searchable r cur name
  | String c rest =>
      if Ascii.eqb c "/" then
        match enter searchable r cur name with
        | Some cur' => resolve_from searchable r cur' "" rest
        | None => None
        end
      else resolve_from searchable r cur (name ++ String c "") rest
  end.

(** *** Text files *)

(** The states of the decoder of UTF-8: between two characters, or
    inside one, before one, two or three continuation bytes of which
    the first is in the range that the first byte of the character
    leaves to it. *)
Inductive utf8_state :=
  | Between
  | Last                (* one byte 80..BF *)
  | Two | TwoE0 | TwoED       (* 80..BF, A0..BF after E0, 80..9F after ED; then one more *)
  | Three | ThreeF0 | ThreeF4. (* 80..BF, 90..BF after F0, 80..8F after F4; then two more *)

Definition in_range (lo hi b : nat) : bool := Nat.leb lo b && Nat.leb b hi.

Definition utf8_step (q : utf8_state) (b : nat) : option utf8_state :=
  match q with
  | Between =>
      if Nat.ltb b 128 then Some Between
      else if in_range 194 223 b then Some Last
      else if Nat.eqb b 224 then Some TwoE0
      else if in_range 225 236 b then Some Two
      else if Nat.eqb b 237 then Some TwoED
      else if in_range 238 239 b then Some Two
      else if Nat.eqb b 240 then Some ThreeF0
      else if in_range 241 243 b then Some Three
      else if Nat.eqb b 244 then Some ThreeF4
      else None
  | Last => if in_range 128 191 b then Some Between else None
  | Two => if in_range 128 191 b then Some Last else None
  | TwoE0 => if in_range 160 191 b then Some Last else None
  | TwoED => if in_range 128 159 b then Some Last else None
  | Three => if in_range 128 191 b then Some Two else None
  | ThreeF0 => if in_range 144 191 b then Some Two else None
  | ThreeF4 => if in_range 128 143 b then Some Two else None
  end.

Fixpoint utf8_run (q : utf8_state) (s : string) : option utf8_state :=
  match s with
  | EmptyString => Some q
  | String c rest =>
      match utf8_step q (nat_of_ascii c) with
      | Some q' => utf8_run q' rest
      | None => None
      end
  end.

(** Whether [bytes.decode('utf-8')] succeeds. *)
Definition utf8_valid (bytes : string) : bool :=
  match utf8_run Between bytes with
  | Some Between => true
  | _ => false
  end.

(** The translation of line endings when a file is read in text mode
    with the default [newline=None]: CR LF and CR become LF. *)
Fixpoint universal_newlines (s : string) : string :=
  match s with
  | EmptyString => EmptyString
  | String c rest =>
      if Ascii.eqb c CR then
        match rest with
        | String d rest' =>
            if Ascii.eqb d LF then String LF (universal_newlines rest')
            else String LF (universal_newlines rest)
        | EmptyString => String LF EmptyString
        end
      else String c (universal_newlines rest)
  end.

(** What [f.read()] returns for a file opened with
    [open(path, 'r', encoding='utf-8')] that holds [bytes]; [None] when
    it raises [UnicodeDecodeError].  A [str] is held as the UTF-8 bytes
    of its text. *)
Definition decode (bytes : string) : option string :=
  if utf8_valid bytes then Some (universal_newlines bytes) else None.

End posix.

Module update_logging.
Import pystr posix.

(** The part of the operating system the script touches: a POSIX
    system, where text written with ['\n'] is stored as it is.  Console
    output is not part of the state. *)
Inductive io_event :=
  | IoRead (path : string)
  | IoWrite (path content : string).

Record os_state := {
  root : node;                  (* the file system *)
  clock : nat;                  (* calls of [datetime.now()] so far *)
  io_log : list io_event        (* the files read and written, by the paths given to [open] *)
}.

Record os_env := {
  cwd : key;                    (* the working directory of the process *)
  argv : list string;           (* [sys.argv] *)
  strftime_now : nat -> string; (* the n-th [datetime.now()], formatted %Y%m%d_%H%M%S *)
  searchable : key -> bool;     (* whether the directory can be passed through *)
  listable : key -> bool;       (* whether [os.scandir] of the directory succeeds *)
  readable : key -> bool;       (* whether the file can be opened and read *)
  writable : key -> bool;       (* whether the file can be opened for writing *)
  within_limits : string -> bool (* whether the path and its components are no longer
                                    than the system allows (PATH_MAX, NAME_MAX) *)
}.


Definition NUL : string := String (ascii_of_nat 0) "".

(** The node that the kernel finds for [path], if there is one to
    find: an empty path, a path with a NUL byte and a path that is too
    long name nothing, an absolute path is read from the root and any
    other from the working directory. *)
Definition resolve (env : os_env) (r : node) (path : string) : option key :=
  if String.eqb path "" || contains NUL path || negb (within_limits env path) then None
  else resolve_from (searchable env) r (if startswith "/" path then [] else cwd env) "" path.


(** [open(path, 'r', encoding='utf-8')] followed by [f.read()]: [None]
    when one of them raises an exception. *)
Definition read_text (env : os_env) (st : os_state) (path : string) : option string :=
  match resolve env (root st) path with
  | Some k =>
      match node_at (root st) k with
      | Some (File bytes) => if readable env k then decode bytes else None
      | _ => None
      end
  | None => None
  end.

(** [open(path, 'w', encoding='utf-8')] followed by [f.write(text)]:
    [None] when [open] raises an exception, and then nothing is
    written.  What is written to a file that is open is stored: the
    disk does not fill up. *)
Definition write_text (env : os_env) (st : os_state) (path text : string) : option node :=
  match resolve env (root st) path with
  | Some k => if writable env k then store (root st) k text else None
  | None => None
  end.

(** The loop of [filter_log_file] over [original_lines]. *)
Fixpoint filtered_lines (original_lines : list string) : list string :=
  match original_lines with
  | [] => []
  | line :: rest =>
      if contains " - INFO - Completed" line then
        let modified_line := replace " - INFO - " " - WARNING - " line in
        modified_line :: filtered_lines rest
      else if contains " - WARNING -" line then line :: filtered_lines rest
      else if contains "Successfully" line then line :: filtered_lines rest
      else filtered_lines rest
  end.

Definition backup_path_of (file_path timestamp : string) : string :=
  file_path ++ "." ++ timestamp ++ ".bak".

(** [filter_log_file(file_path)].  Every exception is caught by the
    function itself and ends it: a file that cannot be read as text
    leaves the state as it is, and a file that cannot be written stops
    the function there.  The statistics printed at the end (where an
    empty file raises [ZeroDivisionError], caught as well) change
    nothing in the state. *)
Definition filter_log_file (env : os_env) (file_path : string) (st : os_state) : os_state :=
  match read_text env st file_path with
  | None => st
  | Some content =>
      let st := {| root := root st; clock := clock st;
                   io_log := (io_log st ++ [IoRead file_path])%list |} in
      let original_lines := splitlines content in
      let timestamp := strftime_now env (clock st) in
      let st := {| root := root st; clock := S (clock st); io_log := io_log st |} in
      let backup_path := backup_path_of file_path timestamp in
      match write_text env st backup_path content with
      | None => st
      | Some written =>
          let st := {| root := written; clock := clock st;
                       io_log := (io_log st ++ [IoWrite backup_path content])%list |} in
          let filtered_content := join (String LF "") (filtered_lines original_lines) in
          match write_text env st file_path filtered_content with
          | None => st
          | Some written =>
              {| root := written; clock := clock st;
                 io_log := (io_log st ++ [IoWrite file_path filtered_content])%list |}
          end
      end
  end.




End update_logging.


(** ** The provider and the effects of the cleaners *)

Module aws.

(** *** Resource descriptors, with the fields the cleaners read *)

Record Tag := { Key : string; Value : string }.

(* EC2 *)
Record Instance := { instance_id : string; instance_state : string; instance_tags : list Tag }.
Record SecurityGroup := { GroupId : string; GroupName : string }.
Record Address := { AllocationId : option string; PublicIp : option string }.
Record Volume := { volume_id : string; volume_state : string; volume_tags : list Tag }.
Record Snapshot := { SnapshotId : string; Description : option string }.
(* a block device mapping holds the snapshot of its [Ebs] entry, when
   it has both *)
Record BlockDeviceMapping := { Ebs_SnapshotId : option string }.
Record Image := { ImageId : string; image_Name : option string;
                  BlockDeviceMappings : list BlockDeviceMapping }.

(* S3 *)
Record Bucket := { bucket_Name : string }.

(* Lambda *)
Record Function_ := { FunctionName : string; FunctionArn : string; Runtime : option string }.
Record EventSourceMapping := { UUID : string }.
Record Layer := { LayerName : string; LayerArn : option string }.
Record LayerVersion := { Version : option string; LayerVersionArn : option string }.

(* CloudFormation *)
Record StackSummary := { StackName : string; StackId : string; StackStatus : string;
                         RootId : option string }.
Record StackResource := { LogicalResourceId : string; ResourceStatus : option string }.

(* RDS *)
Record DBInstance := { DBInstanceIdentifier : string; dbi_Engine : option string;
                       DBInstanceStatus : option string;
                       dbi_DBClusterIdentifier : option string;
                       dbi_DeletionProtection : bool }.
Record DBCluster := { DBClusterIdentifier : string; dbc_Engine : option string;
                      dbc_Status : option string; dbc_DeletionProtection : bool }.
Record DBSnapshot := { DBSnapshotIdentifier : string; dbs_DBInstanceIdentifier : option string;
                       dbs_Status : option string }.
Record DBClusterSnapshot := { DBClusterSnapshotIdentifier : string;
                              dbcs_DBClusterIdentifier : option string;
                              dbcs_Status : option string }.
Record DBParameterGroup := { DBParameterGroupName : string }.
Record DBClusterParameterGroup := { DBClusterParameterGroupName : string }.
Record DBSubnetGroup := { DBSubnetGroupName : string }.
Record OptionGroup := { OptionGroupName : string }.
Record EventSubscription := { CustSubscriptionId : string }.

(* VPC *)
Record NatGateway := { NatGatewayId : string; nat_VpcId : string; nat_State : string }.
Record NetworkInterface := { NetworkInterfaceId : string; eni_Status : string;
                             eni_Description : option string }.
Record IgwAttachment := { igwa_VpcId : option string }.
Record InternetGateway := { InternetGatewayId : string; igw_Attachments : list IgwAttachment }.
Record VpnConnection := { VpnConnectionId : string; vpn_State : string }.
Record VgwAttachment := { vgwa_VpcId : option string; vgwa_State : option string }.
Record VpnGateway := { VpnGatewayId : string; vgw_State : string;
                       VpcAttachments : list VgwAttachment }.
Record TransitGatewayAttachment := { TransitGatewayAttachmentId : string; tga_State : string }.
Record TransitGateway := { TransitGatewayId : string; tgw_State : string }.
Record Vpc := { VpcId : string; vpc_IsDefault : bool }.
(* a route table association: [Main] (false when absent), and the
   association id when the entry has a [SubnetId] *)
Record RtAssociation := { rta_Main : bool; rta_SubnetId : option string;
                          RouteTableAssociationId : string }.
Record RouteTable := { RouteTableId : string; rt_Associations : list RtAssociation }.
(* a subnet that has IPv6 addresses only has no [CidrBlock] *)
Record Subnet := { SubnetId : string; CidrBlock : option string; AvailabilityZone : string }.
Record NetworkAcl := { NetworkAclId : string; acl_IsDefault : bool }.
Record VpcEndpoint := { VpcEndpointId : string; VpcEndpointType : string; ServiceName : string }.
Record VpcPeeringConnection := { VpcPeeringConnectionId : string;
                                 peer_Status_Code : option string;
                                 AccepterVpcId : option string;
                                 RequesterVpcId : option string }.

(* IAM *)
Record User := { UserName : string }.
Record AccessKey := { AccessKeyId : string }.
Record AttachedPolicy := { PolicyArn : string }.
Record Group := { iam_GroupName : string }.
Record MFADevice := { SerialNumber : string }.
Record Role := { RoleName : string; role_Path : option string }.
Record InstanceProfile := { InstanceProfileName : string }.
Record Policy := { PolicyName : string; policy_Arn : string }.
Record PolicyEntities := { PolicyUsers : list User; PolicyGroups : list Group;
                           PolicyRoles : list Role }.
Record PolicyVersion := { VersionId : string; IsDefaultVersion : bool }.

(** *** Exceptions and results *)

Inductive exn :=
  | ClientError (msg : string)    (* [botocore.exceptions.ClientError], with [str(e)] *)
  | OtherError (msg : string).    (* any other subclass of [Exception] *)

Definition str_exn (e : exn) : string :=
  match e with ClientError msg | OtherError msg => msg end.

Inductive result (R : Type) :=
  | Ok (x : R)
  | Fail (e : exn).
Arguments Ok {R} x.
Arguments Fail {R} e.

(** What iterating a paginator or a resource collection produces: the
    pages it yields and the exception that ends the iteration, if any. *)
Definition pages (X : Type) : Type := (list (list X) * option exn)%type.

(** *** Requests *)

(** Requests that only read: one constructor for each listing,
    describing or getting method the code calls, indexed by the part of
    the answer the code uses. *)
Inductive read : Type -> Type :=
  (* boto3 / EC2 regions, in [run_cleanup] *)
  | create_session (profile_name : string) : read unit
  | describe_regions : read (list string)
  (* EC2 *)
  | instances_all : read (pages Instance)
  | describe_security_groups (vpc_id : option string) : read (list SecurityGroup)
  | describe_addresses : read (list Address)
  | volumes_all : read (pages Volume)
  | get_caller_identity : read (option string)
  | describe_snapshots (OwnerId : option string) : read (list Snapshot)
  | describe_images (Owner : option string) : read (list Image)
  (* S3 *)
  | list_buckets : read (list Bucket)
  | get_bucket_location (Bucket : string) : read (option string)
  | get_bucket_versioning (Bucket : string) : read (option string)
  | get_object_lock_configuration (Bucket : string) : read bool
  (* Lambda *)
  | list_functions : read (pages Function_)
  | list_event_source_mappings (FunctionName : string) : read (list EventSourceMapping)
  | list_layers : read (pages Layer)
  | list_layer_versions (LayerName : string) : read (pages LayerVersion)
  (* CloudFormation *)
  | list_stacks (StackStatusFilter : list string) : read (pages StackSummary)
  | list_stack_resources (StackName : string) : read (list StackResource)
  (* RDS *)
  | describe_db_instances : read (pages DBInstance)
  | describe_db_clusters : read (pages DBCluster)
  | describe_db_snapshots : read (pages DBSnapshot)
  | describe_db_cluster_snapshots : read (pages DBClusterSnapshot)
  | describe_db_parameter_groups : read (pages DBParameterGroup)
  | describe_db_cluster_parameter_groups : read (pages DBClusterParameterGroup)
  | describe_db_subnet_groups : read (pages DBSubnetGroup)
  | describe_option_groups : read (pages OptionGroup)
  | describe_event_subscriptions : read (list EventSubscription)
  (* VPC *)
  | describe_nat_gateways : read (list NatGateway)
  | describe_network_interfaces : read (list NetworkInterface)
  | describe_internet_gateways : read (list InternetGateway)
  | describe_vpn_connections : read (list VpnConnection)
  | describe_vpn_gateways : read (list VpnGateway)
  | describe_transit_gateway_attachments : read (list TransitGatewayAttachment)
  | describe_transit_gateways : read (list TransitGateway)
  | describe_vpcs : read (list Vpc)
  | describe_route_tables (vpc_id : string) : read (list RouteTable)
  | describe_subnets (vpc_id : string) : read (list Subnet)
  | describe_network_acls (vpc_id : string) : read (list NetworkAcl)
  | describe_vpc_endpoints (vpc_id : string) : read (list VpcEndpoint)
  | describe_vpc_peering_connections : read (list VpcPeeringConnection)
  (* IAM *)
  | list_account_aliases : read (list string)
  | list_users : read (pages User)
  | list_access_keys (UserName : string) : read (list AccessKey)
  | list_user_policies (UserName : string) : read (list string)
  | list_attached_user_policies (UserName : string) : read (list AttachedPolicy)
  | list_groups_for_user (UserName : string) : read (list Group)
  | list_mfa_devices (UserName : string) : read (list MFADevice)
  | get_login_profile (UserName : string) : read unit
  | list_groups : read (pages Group)
  | list_group_policies (GroupName : string) : read (list string)
  | list_attached_group_policies (GroupName : string) : read (list AttachedPolicy)
  | list_roles : read (pages Role)
  | list_role_policies (RoleName : string) : read (list string)
  | list_attached_role_policies (RoleName : string) : read (list AttachedPolicy)
  | list_instance_profiles_for_role (RoleName : string) : read (list InstanceProfile)
  | list_policies_local : read (pages Policy)
  | list_entities_for_policy (PolicyArn : string) : read PolicyEntities
  | list_policy_versions (PolicyArn : string) : read (list PolicyVersion).

(** Requests that change the account: the method and its arguments. *)
Record mutation := Mutation { method : string; arguments : list string }.

Global Instance mutation_eq_dec : EqDecision mutation.
Proof. solve_decision. Defined.

(** *** Events *)

Inductive level := INFO | WARNING | ERROR.

Inductive cleaner_id := EC2 | S3 | Lambda | CloudFormation | RDS | VPC | IAM.

Global Instance cleaner_id_eq_dec : EqDecision cleaner_id.
Proof. solve_decision. Defined.

Local Set Warnings "-register-all".

(** What a run does, in order.  The scope of a request is the region of
    the client that sends it, or [None] for a client without region. *)
Inductive event :=
  | EvLog (lvl : level) (msg : string)
  | EvRead {R : Type} (scope : option string) (q : read R) (r : result R)
  | EvMutate (scope : option string) (m : mutation) (r : result unit)
  | EvSleep (seconds : nat)
  (* a call of [module.clean], with what it did and the exception that
     left it *)
  | EvClean (module : cleaner_id) (scope : option string) (dry_run : bool)
            (inner : list event) (raised : option exn).

(** *** The provider *)

(** What a session creates: the object of [session.client(service,
    region_name=...)] or of [session.resource(service,
    region_name=...)]. *)
Inductive handle :=
  | Client (service : string)
  | Resource (service : string).

(** The provider answers every request from its current state, and
    botocore creates a client or refuses to, with the message of its
    exception.  Nothing is assumed about them. *)
Class Provider (S : Type) := {
  answer : forall R : Type, option string -> read R -> S -> result R * S;
  perform : option string -> mutation -> S -> result unit * S;
  refuses : handle -> option string -> S -> option string
}.
Arguments answer {S _ R} scope q s.

(** *** The effects of the Python code *)

Inductive outcome (A : Type) :=
  | Done (a : A)          (* ran to its end *)
  | Raised (e : exn)      (* left by an exception *)
  | Returned.             (* left by [return] *)
Arguments Done {A} a.
Arguments Raised {A} e.
Arguments Returned {A}.

Record run (S A : Type) := Run { out : outcome A; final : S; trace : list event }.
Arguments Run {S A} out final trace.
Arguments out {S A} r.
Arguments final {S A} r.
Arguments trace {S A} r.

Definition M (S A : Type) : Type := S -> run S A.

Section effects.
Context {S : Type} `{Provider S}.

Definition ret {A} (a : A) : M S A := fun s => Run (Done a) s [].

Definition bind {A B} (m : M S A) (f : A -> M S B) : M S B :=
  fun s =>
    let r := m s in
    match out r with
    | Done a => let r' := f a (final r) in
                Run (out r') (final r') (trace r ++ trace r')
    | Raised e => Run (Raised e) (final r) (trace r)
    | Returned => Run Returned (final r) (trace r)
    end.

Definition raise {A} (e : exn) : M S A := fun s => Run (Raised e) s [].

(** [return] inside a function body *)
Definition return_ {A} : M S A := fun s => Run Returned s [].

(** The body of a [def]: a [return] ends it normally. *)
Definition def (body : M S unit) : M S unit :=
  fun s =>
    let r := body s in
    match out r with
    | Returned => Run (Done tt) (final r) (trace r)
    | _ => r
    end.

Definition log (lvl : level) (msg : string) : M S unit :=
  fun s => Run (Done tt) s [EvLog lvl msg].

Definition logger_info (msg : string) : M S unit := log INFO msg.
Definition logger_warning (msg : string) : M S unit := log WARNING msg.
Definition logger_error (msg : string) : M S unit := log ERROR msg.

(** [time.sleep(seconds)] *)
Definition sleep (seconds : nat) : M S unit :=
  fun s => Run (Done tt) s [EvSleep seconds].

(** A reading request: its answer, or the exception it raises. *)
Definition call {R} (scope : option string) (q : read R) : M S R :=
  fun s =>
    let '(r, s') := answer scope q s in
    Run (match r with Ok x => Done x | Fail e => Raised e end) s' [EvRead scope q r].

(** A changing request. *)
Definition mutate (scope : option string) (m : mutation) : M S unit :=
  fun s =>
    let '(r, s') := perform scope m s in
    Run (match r with Ok x => Done x | Fail e => Raised e end) s' [EvMutate scope m r].

(** The creation of a client or a resource object.  It sends no
    request, so the exception that it may raise (an unknown service or
    region, no credentials for the profile, ...) is no [ClientError]. *)
Definition create (h : handle) (region : option string) : M S unit :=
  fun s =>
    Run (match refuses h region s with
         | Some msg => Raised (OtherError msg)
         | None => Done tt
         end) s [].

(** [session.client(service, region_name=region)] *)
Definition session_client (service : string) (region : option string) : M S unit :=
  create (Client service) region.

(** [session.resource(service, region_name=region)] *)
Definition session_resource (service : string) (region : option string) : M S unit :=
  create (Resource service) region.

(** [try: body / except ...: handler]; [handler e] is [None] for an
    exception the clause does not catch. *)
Definition try_ {A} (body : M S A) (handler : exn -> option (M S A)) : M S A :=
  fun s =>
    let r := body s in
    match out r with
    | Raised e =>
        match handler e with
        | Some h => let r' := h (final r) in
                    Run (out r') (final r') (trace r ++ trace r')
        | None => r
        end
    | _ => r
    end.

(** [except ClientError as e], the handler receiving [str(e)] *)
Definition except_ClientError {A} (h : string -> M S A) (e : exn) : option (M S A) :=
  match e with
  | ClientError msg => Some (h msg)
  | OtherError _ => None
  end.

(** [except Exception as e] *)
Definition except_Exception {A} (h : string -> M S A) (e : exn) : option (M S A) :=
  Some (h (str_exn e)).

(** [for x in l: body] *)
Fixpoint for_each {A} (l : list A) (body : A -> M S unit) : M S unit :=
  match l with
  | [] => ret tt
  | x :: rest => bind (body x) (fun _ => for_each rest body)
  end.

(** [for page in pages: for x in page: body], the iteration raising its
    exception after the last page it yields *)
Definition for_pages {A} (p : pages A) (body : A -> M S unit) : M S unit :=
  bind (for_each (fst p) (fun page => for_each page body))
       (fun _ => match snd p with
                 | Some e => raise e
                 | None => ret tt
                 end).

(** [d[key]] for a key that the answer may lack: [KeyError], whose
    [str] is the key in quotes, when it does. *)
Definition subscript {A} (key : string) (o : option A) : M S A :=
  match o with
  | Some x => ret x
  | None => raise (OtherError ("'" ++ key ++ "'"))
  end.

Definition when (b : bool) (m : M S unit) : M S unit :=
  if b then m else ret tt.

End effects.

Declare Scope py_scope.
Delimit Scope py_scope with py.
Notation "x <- m ;; k" := (bind m (fun x => k))
  (at level 100, m at next level, k at level 200, right associativity) : py_scope.
Notation "m ;; k" := (bind m (fun _ => k))
  (at level 100, k at level 200, right associativity) : py_scope.

(** [x in l] for strings *)
Definition str_in (x : string) (l : list string) : bool :=
  existsb (String.eqb x) l.

(** The value of the tag [Name], or ['N/A'] *)
Definition name_tag (tags : list Tag) : string :=
  match find (fun tag => String.eqb (Key tag) "Name") tags with
  | Some tag => Value tag
  | None => "N/A"
  end.

(** [d.get(key, default)] and the f-string rendering of [d.get(key)] *)
Definition get_or (d : string) (o : option string) : string := default d o.
Definition fmt (o : option string) : string := default "None" o.

Definition is_nil {A} (l : list A) : bool :=
  match l with [] => true | _ => false end.

End aws.


(** ** [cleaner/lambda_module.py] *)

Module lambda_module.
Import aws.

Definition delete_event_source_mapping (UUID : string) : mutation :=
  Mutation "delete_event_source_mapping" [UUID].
Definition delete_function (FunctionName : string) : mutation :=
  Mutation "delete_function" [FunctionName].
Definition delete_layer_version (LayerName VersionNumber : string) : mutation :=
  Mutation "delete_layer_version" [LayerName; VersionNumber].

Section clean.
Context {S : Type} `{Provider S}.
Local Open Scope py_scope.

Definition clean_function (lambda_client : option string) (dry_run : bool)
    (function : Function_) : M S unit :=
  let function_name := FunctionName function in
  let function_arn := FunctionArn function in
  let runtime := get_or "N/A" (Runtime function) in
  logger_info ("Found Lambda function: " ++ function_name ++ " (ARN: " ++ function_arn
               ++ ", Runtime: " ++ runtime ++ ")") ;;
  when (negb dry_run) (
    (* First remove event source mappings *)
    try_ (
      mappings <- call lambda_client (list_event_source_mappings function_name) ;;
      for_each mappings (fun mapping =>
        let mapping_uuid := UUID mapping in
        logger_warning ("Deleting event source mapping " ++ mapping_uuid
                        ++ " for function " ++ function_name) ;;
        mutate lambda_client (delete_event_source_mapping mapping_uuid) ;;
        logger_warning ("Successfully deleted event source mapping " ++ mapping_uuid))
    ) (except_ClientError (fun e =>
      logger_error ("Error deleting event source mappings for function "
                    ++ function_name ++ ": " ++ e))) ;;
    (* Delete function and all its versions and aliases *)
    try_ (
      logger_warning ("Deleting Lambda function: " ++ function_name) ;;
      mutate lambda_client (delete_function function_name) ;;
      logger_warning ("Successfully deleted Lambda function " ++ function_name)
    ) (except_ClientError (fun e =>
      logger_error ("Failed to delete Lambda function " ++ function_name ++ ": " ++ e)))).

Definition clean_layer (lambda_client : option string) (dry_run : bool)
    (layer : Layer) : M S unit :=
  let layer_name := LayerName layer in
  let layer_arn := LayerArn layer in
  logger_info ("Found Lambda layer: " ++ layer_name ++ " (ARN: " ++ fmt layer_arn ++ ")") ;;
  when (negb dry_run) (
    try_ (
      (* Get all versions of this layer *)
      versions <- call lambda_client (list_layer_versions layer_name) ;;
      for_pages versions (fun version =>
        let version_number := Version version in
        let version_arn := LayerVersionArn version in
        logger_warning ("Deleting Lambda layer version: " ++ layer_name ++ ":"
                        ++ fmt version_number ++ " (ARN: " ++ fmt version_arn ++ ")") ;;
        mutate lambda_client (delete_layer_version layer_name (fmt version_number)) ;;
        logger_warning ("Successfully deleted Lambda layer version " ++ layer_name ++ ":"
                        ++ fmt version_number))
    ) (except_ClientError (fun e =>
      logger_error ("Failed to delete Lambda layer " ++ layer_name ++ ": " ++ e)))).

Definition clean (region : string) (dry_run : bool) : M S unit :=
  let lambda_client := Some region in
  def (
    session_client "lambda" lambda_client ;;
    try_ (
      logger_info ("Checking for Lambda functions in " ++ region ++ "...") ;;
      (* Get all Lambda functions *)
      functions <- call lambda_client list_functions ;;
      for_pages functions (clean_function lambda_client dry_run) ;;
      let function_count := length (concat (fst functions)) in
      when (Nat.eqb function_count 0) (logger_info ("No Lambda functions found in " ++ region)) ;;
      (* Clean Lambda layers *)
      logger_info ("Checking for Lambda layers in " ++ region ++ "...") ;;
      layers <- call lambda_client list_layers ;;
      for_pages layers (clean_layer lambda_client dry_run) ;;
      let layer_count := length (concat (fst layers)) in
      when (Nat.eqb layer_count 0) (logger_info ("No Lambda layers found in " ++ region))
    ) (except_ClientError (fun e =>
      logger_error ("Error listing Lambda resources in " ++ region ++ ": " ++ e))) ;;
    logger_info ("Completed Lambda resource cleanup in " ++ region)).

End clean.
End lambda_module.

(** ** [cleaner/s3.py] *)

Module s3.
Import aws.

Definition object_versions_delete (Bucket : string) : mutation :=
  Mutation "Bucket.object_versions.delete" [Bucket].
Definition objects_all_delete (Bucket : string) : mutation :=
  Mutation "Bucket.objects.all.delete" [Bucket].
Definition delete_bucket_lifecycle (Bucket : string) : mutation :=
  Mutation "delete_bucket_lifecycle" [Bucket].
Definition delete_bucket_policy (Bucket : string) : mutation :=
  Mutation "delete_bucket_policy" [Bucket].
Definition delete_bucket (Bucket : string) : mutation :=
  Mutation "delete_bucket" [Bucket].

Section clean.
Context {S : Type} `{Provider S}.
Local Open Scope py_scope.

(** The loop that fills [region_buckets]: the names appended, in
    order. *)
Fixpoint filter_region_buckets (s3_client : option string) (region : string)
    (buckets : list Bucket) : M S (list string) :=
  match buckets with
  | [] => ret []
  | bucket :: rest =>
      let bucket_name := bucket_Name bucket in
      appended <- try_ (
          (* Get bucket location/region *)
          location <- call s3_client (get_bucket_location bucket_name) ;;
          let bucket_region := if pystr.truthy location then get_or "" location
                               else "us-east-1" in   (* None maps to us-east-1 *)
          if String.eqb bucket_region region then
            logger_info ("Found S3 bucket in " ++ region ++ ": " ++ bucket_name) ;;
            ret [bucket_name]
          else ret []
        ) (except_ClientError (fun e =>
          logger_error ("Error getting location for bucket " ++ bucket_name ++ ": " ++ e) ;;
          ret [])) ;;
      others <- filter_region_buckets s3_client region rest ;;
      ret (app appended others)
  end.

Definition clean_bucket (s3_client : option string) (dry_run : bool)
    (bucket_name : string) : M S unit :=
  logger_info ("Processing bucket: " ++ bucket_name) ;;
  (* Check if versioning is enabled *)
  is_versioned <- try_ (
      versioning <- call s3_client (get_bucket_versioning bucket_name) ;;
      logger_info ("Bucket " ++ bucket_name ++ " versioning status: "
                   ++ get_or "Not enabled" versioning) ;;
      ret (match versioning with
           | Some status => String.eqb status "Enabled" || String.eqb status "Suspended"
           | None => false
           end)
    ) (except_ClientError (fun e =>
      logger_error ("Error checking versioning for bucket " ++ bucket_name ++ ": " ++ e) ;;
      ret false)) ;;
  (* Delete all objects (including versions if versioning is enabled) *)
  if negb dry_run then
    try_ (
      (* Check for object lock *)
      try_ (
        object_lock <- call s3_client (get_object_lock_configuration bucket_name) ;;
        when object_lock (
          logger_warning ("Bucket " ++ bucket_name
                          ++ " has Object Lock enabled. Some objects may not be deletable."))
      ) (except_ClientError (fun e =>
        (* If object lock isn't configured, this call will fail *)
        when (negb (pystr.contains "ObjectLockConfigurationNotFoundError" e)) (
          logger_error ("Error checking object lock for bucket " ++ bucket_name ++ ": " ++ e)))) ;;
      (if is_versioned then
         logger_warning ("Deleting all objects and versions from bucket " ++ bucket_name) ;;
         mutate s3_client (object_versions_delete bucket_name)
       else
         logger_warning ("Deleting all objects from bucket " ++ bucket_name) ;;
         mutate s3_client (objects_all_delete bucket_name)) ;;
      (* Delete bucket lifecycle configuration *)
      try_ (
        mutate s3_client (delete_bucket_lifecycle bucket_name) ;;
        logger_info ("Deleted lifecycle configuration for bucket " ++ bucket_name)
      ) (except_ClientError (fun e =>
        (* Ignore if lifecycle configuration doesn't exist *)
        when (negb (pystr.contains "NoSuchLifecycleConfiguration" e)) (
          logger_error ("Error deleting lifecycle configuration for bucket "
                        ++ bucket_name ++ ": " ++ e)))) ;;
      (* Delete bucket policy *)
      try_ (
        mutate s3_client (delete_bucket_policy bucket_name) ;;
        logger_info ("Deleted bucket policy for bucket " ++ bucket_name)
      ) (except_ClientError (fun e =>
        (* Ignore if policy doesn't exist *)
        when (negb (pystr.contains "NoSuchBucketPolicy" e)) (
          logger_error ("Error deleting bucket policy for bucket " ++ bucket_name ++ ": " ++ e)))) ;;
      (* Delete bucket *)
      logger_warning ("Deleting bucket: " ++ bucket_name) ;;
      mutate s3_client (delete_bucket bucket_name) ;;
      logger_warning ("Successfully deleted bucket " ++ bucket_name)
    ) (except_ClientError (fun e =>
      if pystr.contains "BucketNotEmpty" e then
        logger_error ("Bucket " ++ bucket_name ++ " could not be deleted because it's not empty")
      else
        logger_error ("Failed to delete bucket " ++ bucket_name ++ ": " ++ e)))
  else
    logger_info ("[DRY RUN] Would delete bucket: " ++ bucket_name ++ " and all its contents").

(** Note: S3 is a global service but buckets have a region. *)
Definition clean (region : string) (dry_run : bool) : M S unit :=
  let s3_client := Some region in
  def (
    session_client "s3" s3_client ;;
    session_resource "s3" s3_client ;;
    try_ (
      logger_info ("Checking for S3 buckets in " ++ region ++ "...") ;;
      (* List all buckets *)
      buckets <- call s3_client list_buckets ;;
      (* Filter buckets by region *)
      region_buckets <- filter_region_buckets s3_client region buckets ;;
      (if is_nil region_buckets then
         logger_info ("No S3 buckets found in " ++ region) ;;
         return_
       else ret tt) ;;
      (* Empty and delete each bucket in the region *)
      for_each region_buckets (clean_bucket s3_client dry_run)
    ) (except_ClientError (fun e =>
      logger_error ("Error listing S3 buckets in " ++ region ++ ": " ++ e))) ;;
    logger_info ("Completed S3 resource cleanup in " ++ region)).

End clean.
End s3.

(** ** [cleaner/cloudformation.py] *)

Module cloudformation.
Import aws.

(** [delete_stack(StackName=..., RetainResources=...)]; without
    [RetainResources] the list is empty. *)
Definition delete_stack (StackName : string) (RetainResources : list string) : mutation :=
  Mutation "delete_stack" (StackName :: RetainResources).

(** These are the status filters we want to include, excluding
    DELETE_COMPLETE since those are already deleted. *)
Definition stack_status_filters : list string :=
  [ "CREATE_IN_PROGRESS"; "CREATE_FAILED"; "CREATE_COMPLETE";
    "ROLLBACK_IN_PROGRESS"; "ROLLBACK_FAILED"; "ROLLBACK_COMPLETE";
    "DELETE_IN_PROGRESS"; "DELETE_FAILED";
    "UPDATE_IN_PROGRESS"; "UPDATE_COMPLETE_CLEANUP_IN_PROGRESS"; "UPDATE_COMPLETE";
    "UPDATE_ROLLBACK_IN_PROGRESS"; "UPDATE_ROLLBACK_FAILED";
    "UPDATE_ROLLBACK_COMPLETE_CLEANUP_IN_PROGRESS"; "UPDATE_ROLLBACK_COMPLETE";
    "REVIEW_IN_PROGRESS"; "IMPORT_IN_PROGRESS"; "IMPORT_COMPLETE";
    "IMPORT_ROLLBACK_IN_PROGRESS"; "IMPORT_ROLLBACK_FAILED"; "IMPORT_ROLLBACK_COMPLETE" ].

Definition resource_failed (resource : StackResource) : bool :=
  match ResourceStatus resource with
  | Some status => str_in status ["CREATE_FAILED"; "DELETE_FAILED"]
  | None => false
  end.

Definition is_nested (stack : StackSummary) : bool :=
  match RootId stack with
  | Some root_id => negb (String.eqb root_id (StackId stack))
  | None => false
  end.

Section clean.
Context {S : Type} `{Provider S}.
Local Open Scope py_scope.

Definition delete_failed_stack (cf_client : option string) (stack_name : string) : M S unit :=
  try_ (
    (* First try to get resources that might be causing deletion failure *)
    resources <- call cf_client (list_stack_resources stack_name) ;;
    for_each resources (fun resource =>
      when (resource_failed resource) (
        logger_warning ("Resource " ++ LogicalResourceId resource
                        ++ " in failed state, will be retained"))) ;;
    let retain_resources := map LogicalResourceId (List.filter resource_failed resources) in
    if negb (is_nil retain_resources) then
      logger_warning ("Deleting failed stack " ++ stack_name ++ " with RetainResources option") ;;
      mutate cf_client (delete_stack stack_name retain_resources)
    else
      logger_warning ("Deleting failed stack " ++ stack_name) ;;
      mutate cf_client (delete_stack stack_name [])
  ) (except_ClientError (fun e =>
    logger_error ("Error listing resources for failed stack " ++ stack_name ++ ": " ++ e) ;;
    logger_warning ("Attempting to delete failed stack " ++ stack_name
                    ++ " without RetainResources") ;;
    mutate cf_client (delete_stack stack_name []))).

Definition clean_stack (cf_client : option string) (dry_run : bool)
    (stack : StackSummary) : M S unit :=
  let stack_name := StackName stack in
  let stack_id := StackId stack in
  let stack_status := StackStatus stack in
  logger_info ("Found CloudFormation stack: " ++ stack_name ++ " (ID: " ++ stack_id
               ++ ", Status: " ++ stack_status ++ ")") ;;
  (* Skip stacks that are already being deleted *)
  if str_in stack_status ["DELETE_IN_PROGRESS"] then
    logger_info ("Skipping stack " ++ stack_name ++ " as it's already being deleted")
  (* For dry run, just log *)
  else if dry_run then
    logger_info ("[DRY RUN] Would delete CloudFormation stack: " ++ stack_name)
  (* For nested stacks, we should delete the root stack *)
  else if is_nested stack then
    logger_info ("Stack " ++ stack_name
                 ++ " is a nested stack, skipping (will be deleted when root stack is deleted)")
  else
    (* For stacks in a failed state, we might need to use RetainResources *)
    try_ (
      (if str_in stack_status ["CREATE_FAILED"; "ROLLBACK_FAILED";
                               "UPDATE_ROLLBACK_FAILED"; "DELETE_FAILED"] then
         delete_failed_stack cf_client stack_name
       else
         logger_warning ("Deleting CloudFormation stack: " ++ stack_name) ;;
         mutate cf_client (delete_stack stack_name [])) ;;
      logger_warning ("Successfully initiated deletion for CloudFormation stack " ++ stack_name)
    ) (except_ClientError (fun e =>
      logger_error ("Failed to delete CloudFormation stack " ++ stack_name ++ ": " ++ e))).

Definition clean (region : string) (dry_run : bool) : M S unit :=
  let cf_client := Some region in
  def (
    session_client "cloudformation" cf_client ;;
    try_ (
      logger_info ("Checking for CloudFormation stacks in " ++ region ++ "...") ;;
      (* Get all stacks *)
      stacks <- call cf_client (list_stacks stack_status_filters) ;;
      for_pages stacks (clean_stack cf_client dry_run) ;;
      let stack_count := length (concat (fst stacks)) in
      when (Nat.eqb stack_count 0) (
        logger_info ("No CloudFormation stacks found in " ++ region))
    ) (except_ClientError (fun e =>
      logger_error ("Error listing CloudFormation stacks in " ++ region ++ ": " ++ e))) ;;
    logger_info ("Completed CloudFormation stack cleanup in " ++ region)).

End clean.
End cloudformation.


(** ** [cleaner/ec2.py] *)

Module ec2.
Import aws.

Definition terminate (instance_id : string) : mutation :=
  Mutation "Instance.terminate" [instance_id].
Definition delete_security_group (GroupId : string) : mutation :=
  Mutation "delete_security_group" [GroupId].
Definition release_address (AllocationId : string) : mutation :=
  Mutation "release_address" [AllocationId].
Definition volume_delete (volume_id : string) : mutation :=
  Mutation "Volume.delete" [volume_id].
Definition delete_snapshot (SnapshotId : string) : mutation :=
  Mutation "delete_snapshot" [SnapshotId].
Definition deregister_image (ImageId : string) : mutation :=
  Mutation "deregister_image" [ImageId].

Section clean.
Context {S : Type} `{Provider S}.
Local Open Scope py_scope.

Definition clean_instance (ec2 : option string) (dry_run : bool)
    (instance : Instance) : M S unit :=
  if str_in (instance_state instance) ["terminated"; "shutting-down"] then
    logger_info ("Skipping instance " ++ instance_id instance ++ " as it's already "
                 ++ instance_state instance)
  else
    let instance_name := name_tag (instance_tags instance) in
    logger_info ("Found EC2 instance: " ++ instance_id instance ++ " (Name: " ++ instance_name
                 ++ ", State: " ++ instance_state instance ++ ")") ;;
    when (negb dry_run) (
      try_ (
        logger_warning ("Terminating EC2 instance: " ++ instance_id instance) ;;
        mutate ec2 (terminate (instance_id instance)) ;;
        logger_warning ("Successfully initiated termination for instance "
                        ++ instance_id instance)
      ) (except_ClientError (fun e =>
        logger_error ("Failed to terminate EC2 instance " ++ instance_id instance
                      ++ ": " ++ e)))).

(* 1. Terminate EC2 instances *)
Definition clean_instances (ec2 : option string) (region : string) (dry_run : bool) : M S unit :=
  try_ (
    logger_info ("Checking for EC2 instances in " ++ region ++ "...") ;;
    instances <- call ec2 instances_all ;;
    for_pages instances (clean_instance ec2 dry_run) ;;
    let instance_count := length (concat (fst instances)) in
    when (Nat.eqb instance_count 0) (logger_info ("No EC2 instances found in " ++ region))
  ) (except_ClientError (fun e =>
    logger_error ("Error listing EC2 instances in " ++ region ++ ": " ++ e))).

Definition clean_security_group (ec2 : option string) (dry_run : bool)
    (sg : SecurityGroup) : M S unit :=
  logger_info ("Found security group: " ++ GroupId sg ++ " (Name: " ++ GroupName sg ++ ")") ;;
  when (negb dry_run) (
    try_ (
      logger_warning ("Deleting security group: " ++ GroupId sg) ;;
      mutate ec2 (delete_security_group (GroupId sg)) ;;
      logger_warning ("Successfully deleted security group " ++ GroupId sg)
    ) (except_ClientError (fun e =>
      (* This is expected if SG is still in use by instances or other SGs *)
      if pystr.contains "has a dependent object" e || pystr.contains "currently in use by" e then
        logger_warning ("Security group " ++ GroupId sg ++ " is still in use, cannot delete now")
      else
        logger_error ("Failed to delete security group " ++ GroupId sg ++ ": " ++ e)))).

(* 2. Delete security groups (after instances are terminated) *)
Definition clean_security_groups (ec2 : option string) (region : string) (dry_run : bool)
    : M S unit :=
  try_ (
    logger_info ("Checking for EC2 security groups in " ++ region ++ "...") ;;
    security_groups <- call ec2 (describe_security_groups None) ;;
    (* Skip default security groups *)
    let non_default_sgs :=
      List.filter (fun sg => negb (String.eqb (GroupName sg) "default")) security_groups in
    when (is_nil non_default_sgs) (
      logger_info ("No non-default security groups found in " ++ region)) ;;
    for_each non_default_sgs (clean_security_group ec2 dry_run)
  ) (except_ClientError (fun e =>
    logger_error ("Error listing security groups in " ++ region ++ ": " ++ e))).

Definition clean_address (ec2 : option string) (dry_run : bool) (eip : Address) : M S unit :=
  let allocation_id := AllocationId eip in
  let public_ip := get_or "N/A" (PublicIp eip) in
  if negb (pystr.truthy allocation_id) then
    logger_info ("Skipping Elastic IP " ++ public_ip ++ " (no AllocationId)")
  else
    let allocation_id := get_or "" allocation_id in
    logger_info ("Found Elastic IP: " ++ allocation_id ++ " (Public IP: " ++ public_ip ++ ")") ;;
    when (negb dry_run) (
      try_ (
        logger_warning ("Releasing Elastic IP: " ++ allocation_id) ;;
        mutate ec2 (release_address allocation_id) ;;
        logger_warning ("Successfully released Elastic IP " ++ allocation_id)
      ) (except_ClientError (fun e =>
        logger_error ("Failed to release Elastic IP " ++ allocation_id ++ ": " ++ e)))).

(* 3. Release Elastic IPs *)
Definition clean_addresses (ec2 : option string) (region : string) (dry_run : bool) : M S unit :=
  try_ (
    logger_info ("Checking for Elastic IPs in " ++ region ++ "...") ;;
    addresses <- call ec2 describe_addresses ;;
    when (is_nil addresses) (logger_info ("No Elastic IPs found in " ++ region)) ;;
    for_each addresses (clean_address ec2 dry_run)
  ) (except_ClientError (fun e =>
    logger_error ("Error listing Elastic IPs in " ++ region ++ ": " ++ e))).

Definition clean_volume (ec2 : option string) (dry_run : bool) (volume : Volume) : M S unit :=
  let volume_name := name_tag (volume_tags volume) in
  logger_info ("Found EBS volume: " ++ volume_id volume ++ " (Name: " ++ volume_name
               ++ ", State: " ++ volume_state volume ++ ")") ;;
  if String.eqb (volume_state volume) "in-use" then
    logger_warning ("Volume " ++ volume_id volume ++ " is still in use, cannot delete now")
  else
    when (negb dry_run) (
      try_ (
        logger_warning ("Deleting EBS volume: " ++ volume_id volume) ;;
        mutate ec2 (volume_delete (volume_id volume)) ;;
        logger_warning ("Successfully deleted EBS volume " ++ volume_id volume)
      ) (except_ClientError (fun e =>
        logger_error ("Failed to delete EBS volume " ++ volume_id volume ++ ": " ++ e)))).

(* 4. Delete EBS volumes *)
Definition clean_volumes (ec2 : option string) (region : string) (dry_run : bool) : M S unit :=
  try_ (
    logger_info ("Checking for EBS volumes in " ++ region ++ "...") ;;
    volumes <- call ec2 volumes_all ;;
    for_pages volumes (clean_volume ec2 dry_run) ;;
    let volume_count := length (concat (fst volumes)) in
    when (Nat.eqb volume_count 0) (logger_info ("No EBS volumes found in " ++ region))
  ) (except_ClientError (fun e =>
    logger_error ("Error listing EBS volumes in " ++ region ++ ": " ++ e))).

Definition clean_snapshot (ec2 : option string) (dry_run : bool) (snapshot : Snapshot)
    : M S unit :=
  logger_info ("Found EBS snapshot: " ++ SnapshotId snapshot ++ " (Description: "
               ++ get_or "N/A" (Description snapshot) ++ ")") ;;
  when (negb dry_run) (
    try_ (
      logger_warning ("Deleting EBS snapshot: " ++ SnapshotId snapshot) ;;
      mutate ec2 (delete_snapshot (SnapshotId snapshot)) ;;
      logger_warning ("Successfully deleted EBS snapshot " ++ SnapshotId snapshot)
    ) (except_ClientError (fun e =>
      logger_error ("Failed to delete EBS snapshot " ++ SnapshotId snapshot ++ ": " ++ e)))).

(* 5. Delete snapshots owned by this account *)
Definition clean_snapshots (ec2 : option string) (region : string) (dry_run : bool) : M S unit :=
  try_ (
    logger_info ("Checking for EBS snapshots in " ++ region ++ "...") ;;
    session_client "sts" None ;;
    account_id <- call None get_caller_identity ;;
    snapshots <- call ec2 (describe_snapshots account_id) ;;
    when (is_nil snapshots) (logger_info ("No EBS snapshots found in " ++ region)) ;;
    for_each snapshots (clean_snapshot ec2 dry_run)
  ) (except_ClientError (fun e =>
    logger_error ("Error listing EBS snapshots in " ++ region ++ ": " ++ e))).

Definition clean_image (ec2 : option string) (dry_run : bool) (image : Image) : M S unit :=
  logger_info ("Found AMI: " ++ ImageId image ++ " (Name: "
               ++ get_or "N/A" (image_Name image) ++ ")") ;;
  when (negb dry_run) (
    try_ (
      logger_warning ("Deregistering AMI: " ++ ImageId image) ;;
      mutate ec2 (deregister_image (ImageId image)) ;;
      logger_warning ("Successfully deregistered AMI " ++ ImageId image) ;;
      (* Delete associated snapshots *)
      for_each (BlockDeviceMappings image) (fun bdm =>
        match Ebs_SnapshotId bdm with
        | Some snapshot_id =>
            try_ (
              logger_warning ("Deleting snapshot associated with AMI: " ++ snapshot_id) ;;
              mutate ec2 (delete_snapshot snapshot_id) ;;
              logger_warning ("Successfully deleted snapshot " ++ snapshot_id)
            ) (except_ClientError (fun e =>
              logger_error ("Failed to delete snapshot " ++ snapshot_id ++ ": " ++ e)))
        | None => ret tt
        end)
    ) (except_ClientError (fun e =>
      logger_error ("Failed to deregister AMI " ++ ImageId image ++ ": " ++ e)))).

(* 6. Deregister AMIs and delete associated snapshots *)
Definition clean_images (ec2 : option string) (region : string) (dry_run : bool) : M S unit :=
  try_ (
    logger_info ("Checking for AMIs in " ++ region ++ "...") ;;
    session_client "sts" None ;;
    account_id <- call None get_caller_identity ;;
    images <- call ec2 (describe_images account_id) ;;
    when (is_nil images) (logger_info ("No AMIs found in " ++ region)) ;;
    for_each images (clean_image ec2 dry_run)
  ) (except_ClientError (fun e =>
    logger_error ("Error listing AMIs in " ++ region ++ ": " ++ e))).

(** Clean in the following order: instances, security groups (after
    instances), Elastic IPs, volumes, snapshots, AMIs. *)
Definition clean (region : string) (dry_run : bool) : M S unit :=
  let ec2_client := Some region in
  def (
    session_client "ec2" ec2_client ;;
    session_resource "ec2" ec2_client ;;
    clean_instances ec2_client region dry_run ;;
    clean_security_groups ec2_client region dry_run ;;
    clean_addresses ec2_client region dry_run ;;
    clean_volumes ec2_client region dry_run ;;
    clean_snapshots ec2_client region dry_run ;;
    clean_images ec2_client region dry_run ;;
    logger_info ("Completed EC2 resource cleanup in " ++ region)).

End clean.
End ec2.

(** ** [cleaner/rds.py] *)

Module rds.
Import aws.

Definition modify_db_instance (DBInstanceIdentifier : string) : mutation :=
  Mutation "modify_db_instance"
           [DBInstanceIdentifier; "DeletionProtection=False"; "ApplyImmediately=True"].
Definition delete_db_instance (DBInstanceIdentifier : string) : mutation :=
  Mutation "delete_db_instance"
           [DBInstanceIdentifier; "SkipFinalSnapshot=True"; "DeleteAutomatedBackups=True"].
Definition modify_db_cluster (DBClusterIdentifier : string) : mutation :=
  Mutation "modify_db_cluster"
           [DBClusterIdentifier; "DeletionProtection=False"; "ApplyImmediately=True"].
Definition delete_db_cluster (DBClusterIdentifier : string) : mutation :=
  Mutation "delete_db_cluster" [DBClusterIdentifier; "SkipFinalSnapshot=True"].
Definition delete_db_snapshot (DBSnapshotIdentifier : string) : mutation :=
  Mutation "delete_db_snapshot" [DBSnapshotIdentifier].
Definition delete_db_cluster_snapshot (DBClusterSnapshotIdentifier : string) : mutation :=
  Mutation "delete_db_cluster_snapshot" [DBClusterSnapshotIdentifier].
Definition delete_db_parameter_group (DBParameterGroupName : string) : mutation :=
  Mutation "delete_db_parameter_group" [DBParameterGroupName].
Definition delete_db_cluster_parameter_group (DBClusterParameterGroupName : string) : mutation :=
  Mutation "delete_db_cluster_parameter_group" [DBClusterParameterGroupName].
Definition delete_db_subnet_group (DBSubnetGroupName : string) : mutation :=
  Mutation "delete_db_subnet_group" [DBSubnetGroupName].
Definition delete_option_group (OptionGroupName : string) : mutation :=
  Mutation "delete_option_group" [OptionGroupName].
Definition delete_event_subscription (SubscriptionName : string) : mutation :=
  Mutation "delete_event_subscription" [SubscriptionName].

Section clean.
Context {S : Type} `{Provider S}.
Local Open Scope py_scope.

Definition clean_db_instance (rds_client : option string) (dry_run : bool)
    (instance : DBInstance) : M S unit :=
  let instance_id := DBInstanceIdentifier instance in
  let engine := get_or "N/A" (dbi_Engine instance) in
  let status := get_or "N/A" (DBInstanceStatus instance) in
  logger_info ("Found RDS instance: " ++ instance_id ++ " (Engine: " ++ engine
               ++ ", Status: " ++ status ++ ")") ;;
  when (negb dry_run) (
    try_ (
      (* Check if instance is part of a cluster *)
      match dbi_DBClusterIdentifier instance with
      | Some cluster =>
          logger_info ("Instance " ++ instance_id ++ " is part of cluster " ++ cluster
                       ++ ", skipping (will be deleted with cluster)")
      | None =>
          when (dbi_DeletionProtection instance) (
            logger_warning ("RDS instance " ++ instance_id
                            ++ " has deletion protection enabled, disabling...") ;;
            mutate rds_client (modify_db_instance instance_id) ;;
            (* Wait for modification to apply *)
            logger_info ("Waiting for deletion protection modification to apply for "
                         ++ instance_id ++ "...") ;;
            sleep 10) ;;
          (* Delete the instance without final snapshot *)
          logger_warning ("Deleting RDS instance: " ++ instance_id) ;;
          mutate rds_client (delete_db_instance instance_id) ;;
          logger_warning ("Successfully initiated deletion for RDS instance " ++ instance_id)
      end
    ) (except_ClientError (fun e =>
      logger_error ("Failed to delete RDS instance " ++ instance_id ++ ": " ++ e)))).

(* 1. Delete DB instances *)
Definition clean_db_instances (rds_client : option string) (region : string) (dry_run : bool)
    : M S unit :=
  logger_info ("Checking for RDS DB instances in " ++ region ++ "...") ;;
  try_ (
    instances <- call rds_client describe_db_instances ;;
    for_pages instances (clean_db_instance rds_client dry_run) ;;
    let instance_count := length (concat (fst instances)) in
    when (Nat.eqb instance_count 0) (logger_info ("No RDS DB instances found in " ++ region))
  ) (except_ClientError (fun e =>
    logger_error ("Error listing RDS instances in " ++ region ++ ": " ++ e))).

Definition clean_db_cluster (rds_client : option string) (dry_run : bool)
    (cluster : DBCluster) : M S unit :=
  let cluster_id := DBClusterIdentifier cluster in
  let engine := get_or "N/A" (dbc_Engine cluster) in
  let status := get_or "N/A" (dbc_Status cluster) in
  logger_info ("Found RDS cluster: " ++ cluster_id ++ " (Engine: " ++ engine
               ++ ", Status: " ++ status ++ ")") ;;
  when (negb dry_run) (
    try_ (
      (* Disable deletion protection if enabled *)
      when (dbc_DeletionProtection cluster) (
        logger_warning ("RDS cluster " ++ cluster_id
                        ++ " has deletion protection enabled, disabling...") ;;
        mutate rds_client (modify_db_cluster cluster_id) ;;
        (* Wait for modification to apply *)
        logger_info ("Waiting for deletion protection modification to apply for cluster "
                     ++ cluster_id ++ "...") ;;
        sleep 10) ;;
      (* Delete the cluster without final snapshot *)
      logger_warning ("Deleting RDS cluster: " ++ cluster_id) ;;
      mutate rds_client (delete_db_cluster cluster_id) ;;
      logger_warning ("Successfully initiated deletion for RDS cluster " ++ cluster_id)
    ) (except_ClientError (fun e =>
      logger_error ("Failed to delete RDS cluster " ++ cluster_id ++ ": " ++ e)))).

(* 2. Delete Aurora DB clusters *)
Definition clean_db_clusters (rds_client : option string) (region : string) (dry_run : bool)
    : M S unit :=
  logger_info ("Checking for RDS DB clusters in " ++ region ++ "...") ;;
  try_ (
    clusters <- call rds_client describe_db_clusters ;;
    for_pages clusters (clean_db_cluster rds_client dry_run) ;;
    let cluster_count := length (concat (fst clusters)) in
    when (Nat.eqb cluster_count 0) (logger_info ("No RDS DB clusters found in " ++ region))
  ) (except_ClientError (fun e =>
    logger_error ("Error listing RDS clusters in " ++ region ++ ": " ++ e))).

Definition clean_db_snapshot (rds_client : option string) (dry_run : bool)
    (snapshot : DBSnapshot) : M S unit :=
  let snapshot_id := DBSnapshotIdentifier snapshot in
  let instance_id := get_or "N/A" (dbs_DBInstanceIdentifier snapshot) in
  let status := get_or "N/A" (dbs_Status snapshot) in
  logger_info ("Found RDS snapshot: " ++ snapshot_id ++ " (Instance: " ++ instance_id
               ++ ", Status: " ++ status ++ ")") ;;
  when (negb dry_run) (
    try_ (
      logger_warning ("Deleting RDS snapshot: " ++ snapshot_id) ;;
      mutate rds_client (delete_db_snapshot snapshot_id) ;;
      logger_warning ("Successfully deleted RDS snapshot " ++ snapshot_id)
    ) (except_ClientError (fun e =>
      logger_error ("Failed to delete RDS snapshot " ++ snapshot_id ++ ": " ++ e)))).

(* 3. Delete DB snapshots *)
Definition clean_db_snapshots (rds_client : option string) (region : string) (dry_run : bool)
    : M S unit :=
  logger_info ("Checking for RDS DB snapshots in " ++ region ++ "...") ;;
  try_ (
    snapshots <- call rds_client describe_db_snapshots ;;
    for_pages snapshots (clean_db_snapshot rds_client dry_run) ;;
    let snapshot_count := length (concat (fst snapshots)) in
    when (Nat.eqb snapshot_count 0) (logger_info ("No RDS DB snapshots found in " ++ region))
  ) (except_ClientError (fun e =>
    logger_error ("Error listing RDS snapshots in " ++ region ++ ": " ++ e))).

Definition clean_db_cluster_snapshot (rds_client : option string) (dry_run : bool)
    (snapshot : DBClusterSnapshot) : M S unit :=
  let snapshot_id := DBClusterSnapshotIdentifier snapshot in
  let cluster_id := get_or "N/A" (dbcs_DBClusterIdentifier snapshot) in
  let status := get_or "N/A" (dbcs_Status snapshot) in
  logger_info ("Found RDS cluster snapshot: " ++ snapshot_id ++ " (Cluster: " ++ cluster_id
               ++ ", Status: " ++ status ++ ")") ;;
  when (negb dry_run) (
    try_ (
      logger_warning ("Deleting RDS cluster snapshot: " ++ snapshot_id) ;;
      mutate rds_client (delete_db_cluster_snapshot snapshot_id) ;;
      logger_warning ("Successfully deleted RDS cluster snapshot " ++ snapshot_id)
    ) (except_ClientError (fun e =>
      logger_error ("Failed to delete RDS cluster snapshot " ++ snapshot_id ++ ": " ++ e)))).

(* 4. Delete DB cluster snapshots *)
Definition clean_db_cluster_snapshots (rds_client : option string) (region : string)
    (dry_run : bool) : M S unit :=
  logger_info ("Checking for RDS DB cluster snapshots in " ++ region ++ "...") ;;
  try_ (
    snapshots <- call rds_client describe_db_cluster_snapshots ;;
    for_pages snapshots (clean_db_cluster_snapshot rds_client dry_run) ;;
    let cluster_snapshot_count := length (concat (fst snapshots)) in
    when (Nat.eqb cluster_snapshot_count 0) (
      logger_info ("No RDS DB cluster snapshots found in " ++ region))
  ) (except_ClientError (fun e =>
    logger_error ("Error listing RDS cluster snapshots in " ++ region ++ ": " ++ e))).

Definition is_default_parameter_group (name : string) : bool :=
  pystr.startswith "default." name.

Definition clean_db_parameter_group (rds_client : option string) (dry_run : bool)
    (param_group : DBParameterGroup) : M S unit :=
  (* Skip default parameter groups which cannot be deleted *)
  if is_default_parameter_group (DBParameterGroupName param_group) then ret tt
  else
    let param_group_name := DBParameterGroupName param_group in
    logger_info ("Found custom RDS parameter group: " ++ param_group_name) ;;
    when (negb dry_run) (
      try_ (
        logger_warning ("Deleting RDS parameter group: " ++ param_group_name) ;;
        mutate rds_client (delete_db_parameter_group param_group_name) ;;
        logger_warning ("Successfully deleted RDS parameter group " ++ param_group_name)
      ) (except_ClientError (fun e =>
        (* This is expected if the parameter group is still in use *)
        if pystr.contains "is currently in use" e then
          logger_warning ("Parameter group " ++ param_group_name
                          ++ " is still in use, cannot delete now")
        else
          logger_error ("Failed to delete RDS parameter group " ++ param_group_name
                        ++ ": " ++ e)))).

(* 5. Delete DB parameter groups (custom only) *)
Definition clean_db_parameter_groups (rds_client : option string) (region : string)
    (dry_run : bool) : M S unit :=
  logger_info ("Checking for custom RDS parameter groups in " ++ region ++ "...") ;;
  try_ (
    param_groups <- call rds_client describe_db_parameter_groups ;;
    for_pages param_groups (clean_db_parameter_group rds_client dry_run) ;;
    let param_group_count :=
      length (List.filter (fun g => negb (is_default_parameter_group (DBParameterGroupName g)))
                     (concat (fst param_groups))) in
    when (Nat.eqb param_group_count 0) (
      logger_info ("No custom RDS parameter groups found in " ++ region))
  ) (except_ClientError (fun e =>
    logger_error ("Error listing RDS parameter groups in " ++ region ++ ": " ++ e))).

Definition clean_db_cluster_parameter_group (rds_client : option string) (dry_run : bool)
    (param_group : DBClusterParameterGroup) : M S unit :=
  (* Skip default parameter groups which cannot be deleted *)
  if is_default_parameter_group (DBClusterParameterGroupName param_group) then ret tt
  else
    let param_group_name := DBClusterParameterGroupName param_group in
    logger_info ("Found custom RDS cluster parameter group: " ++ param_group_name) ;;
    when (negb dry_run) (
      try_ (
        logger_warning ("Deleting RDS cluster parameter group: " ++ param_group_name) ;;
        mutate rds_client (delete_db_cluster_parameter_group param_group_name) ;;
        logger_warning ("Successfully deleted RDS cluster parameter group " ++ param_group_name)
      ) (except_ClientError (fun e =>
        (* This is expected if the parameter group is still in use *)
        if pystr.contains "is currently in use" e then
          logger_warning ("Cluster parameter group " ++ param_group_name
                          ++ " is still in use, cannot delete now")
        else
          logger_error ("Failed to delete RDS cluster parameter group " ++ param_group_name
                        ++ ": " ++ e)))).

(* 6. Delete DB cluster parameter groups (custom only) *)
Definition clean_db_cluster_parameter_groups (rds_client : option string) (region : string)
    (dry_run : bool) : M S unit :=
  logger_info ("Checking for custom RDS cluster parameter groups in " ++ region ++ "...") ;;
  try_ (
    param_groups <- call rds_client describe_db_cluster_parameter_groups ;;
    for_pages param_groups (clean_db_cluster_parameter_group rds_client dry_run) ;;
    let cluster_param_group_count :=
      length (List.filter (fun g => negb (is_default_parameter_group
                                       (DBClusterParameterGroupName g)))
                     (concat (fst param_groups))) in
    when (Nat.eqb cluster_param_group_count 0) (
      logger_info ("No custom RDS cluster parameter groups found in " ++ region))
  ) (except_ClientError (fun e =>
    logger_error ("Error listing RDS cluster parameter groups in " ++ region ++ ": " ++ e))).

Definition clean_db_subnet_group (rds_client : option string) (dry_run : bool)
    (subnet_group : DBSubnetGroup) : M S unit :=
  let subnet_group_name := DBSubnetGroupName subnet_group in
  logger_info ("Found RDS subnet group: " ++ subnet_group_name) ;;
  when (negb dry_run) (
    try_ (
      logger_warning ("Deleting RDS subnet group: " ++ subnet_group_name) ;;
      mutate rds_client (delete_db_subnet_group subnet_group_name) ;;
      logger_warning ("Successfully deleted RDS subnet group " ++ subnet_group_name)
    ) (except_ClientError (fun e =>
      (* This is expected if the subnet group is still in use *)
      if pystr.contains "is currently in use" e then
        logger_warning ("Subnet group " ++ subnet_group_name
                        ++ " is still in use, cannot delete now")
      else
        logger_error ("Failed to delete RDS subnet group " ++ subnet_group_name
                      ++ ": " ++ e)))).

(* 7. Delete DB subnet groups *)
Definition clean_db_subnet_groups (rds_client : option string) (region : string)
    (dry_run : bool) : M S unit :=
  logger_info ("Checking for RDS subnet groups in " ++ region ++ "...") ;;
  try_ (
    subnet_groups <- call rds_client describe_db_subnet_groups ;;
    for_pages subnet_groups (clean_db_subnet_group rds_client dry_run) ;;
    let subnet_group_count := length (concat (fst subnet_groups)) in
    when (Nat.eqb subnet_group_count 0) (
      logger_info ("No RDS subnet groups found in " ++ region))
  ) (except_ClientError (fun e =>
    logger_error ("Error listing RDS subnet groups in " ++ region ++ ": " ++ e))).

Definition is_default_option_group (name : string) : bool :=
  pystr.startswith "default:" name.

Definition clean_option_group (rds_client : option string) (dry_run : bool)
    (option_group : OptionGroup) : M S unit :=
  (* Skip default option groups which cannot be deleted *)
  if is_default_option_group (OptionGroupName option_group) then ret tt
  else
    let option_group_name := OptionGroupName option_group in
    logger_info ("Found custom RDS option group: " ++ option_group_name) ;;
    when (negb dry_run) (
      try_ (
        logger_warning ("Deleting RDS option group: " ++ option_group_name) ;;
        mutate rds_client (delete_option_group option_group_name) ;;
        logger_warning ("Successfully deleted RDS option group " ++ option_group_name)
      ) (except_ClientError (fun e =>
        (* This is expected if the option group is still in use *)
        if pystr.contains "is currently in use" e then
          logger_warning ("Option group " ++ option_group_name
                          ++ " is still in use, cannot delete now")
        else
          logger_error ("Failed to delete RDS option group " ++ option_group_name
                        ++ ": " ++ e)))).

(* 8. Delete DB option groups (custom only) *)
Definition clean_option_groups (rds_client : option string) (region : string)
    (dry_run : bool) : M S unit :=
  logger_info ("Checking for custom RDS option groups in " ++ region ++ "...") ;;
  try_ (
    option_groups <- call rds_client describe_option_groups ;;
    for_pages option_groups (clean_option_group rds_client dry_run) ;;
    let option_group_count :=
      length (List.filter (fun g => negb (is_default_option_group (OptionGroupName g)))
                     (concat (fst option_groups))) in
    when (Nat.eqb option_group_count 0) (
      logger_info ("No custom RDS option groups found in " ++ region))
  ) (except_ClientError (fun e =>
    logger_error ("Error listing RDS option groups in " ++ region ++ ": " ++ e))).

Definition clean_event_subscription (rds_client : option string) (dry_run : bool)
    (subscription : EventSubscription) : M S unit :=
  let subscription_name := CustSubscriptionId subscription in
  logger_info ("Found RDS event subscription: " ++ subscription_name) ;;
  when (negb dry_run) (
    try_ (
      logger_warning ("Deleting RDS event subscription: " ++ subscription_name) ;;
      mutate rds_client (delete_event_subscription subscription_name) ;;
      logger_warning ("Successfully deleted RDS event subscription " ++ subscription_name)
    ) (except_ClientError (fun e =>
      logger_error ("Failed to delete RDS event subscription " ++ subscription_name
                    ++ ": " ++ e)))).

(* 9. Delete DB event subscriptions *)
Definition clean_event_subscriptions (rds_client : option string) (region : string)
    (dry_run : bool) : M S unit :=
  logger_info ("Checking for RDS event subscriptions in " ++ region ++ "...") ;;
  try_ (
    event_subscriptions <- call rds_client describe_event_subscriptions ;;
    for_each event_subscriptions (clean_event_subscription rds_client dry_run) ;;
    let subscription_count := length event_subscriptions in
    when (Nat.eqb subscription_count 0) (
      logger_info ("No RDS event subscriptions found in " ++ region))
  ) (except_ClientError (fun e =>
    logger_error ("Error listing RDS event subscriptions in " ++ region ++ ": " ++ e))).

(** Clean in the following order: DB instances, DB clusters (Aurora),
    DB snapshots, DB cluster snapshots, DB parameter groups, DB cluster
    parameter groups, DB subnet groups, DB option groups, DB event
    subscriptions. *)
Definition clean (region : string) (dry_run : bool) : M S unit :=
  let rds_client := Some region in
  def (
    session_client "rds" rds_client ;;
    try_ (
      clean_db_instances rds_client region dry_run ;;
      clean_db_clusters rds_client region dry_run ;;
      clean_db_snapshots rds_client region dry_run ;;
      clean_db_cluster_snapshots rds_client region dry_run ;;
      clean_db_parameter_groups rds_client region dry_run ;;
      clean_db_cluster_parameter_groups rds_client region dry_run ;;
      clean_db_subnet_groups rds_client region dry_run ;;
      clean_option_groups rds_client region dry_run ;;
      clean_event_subscriptions rds_client region dry_run
    ) (except_Exception (fun e =>
      logger_error ("Error cleaning RDS resources in " ++ region ++ ": " ++ e))) ;;
    logger_info ("Completed RDS resource cleanup in " ++ region)).

End clean.
End rds.


(** ** [cleaner/vpc.py] *)

Module vpc.
Import aws.

Definition delete_nat_gateway (NatGatewayId : string) : mutation :=
  Mutation "delete_nat_gateway" [NatGatewayId].
Definition delete_network_interface (NetworkInterfaceId : string) : mutation :=
  Mutation "delete_network_interface" [NetworkInterfaceId].
Definition detach_internet_gateway (InternetGatewayId VpcId : string) : mutation :=
  Mutation "detach_internet_gateway" [InternetGatewayId; VpcId].
Definition delete_internet_gateway (InternetGatewayId : string) : mutation :=
  Mutation "delete_internet_gateway" [InternetGatewayId].
Definition delete_vpn_connection (VpnConnectionId : string) : mutation :=
  Mutation "delete_vpn_connection" [VpnConnectionId].
Definition detach_vpn_gateway (VpnGatewayId VpcId : string) : mutation :=
  Mutation "detach_vpn_gateway" [VpnGatewayId; VpcId].
Definition delete_vpn_gateway (VpnGatewayId : string) : mutation :=
  Mutation "delete_vpn_gateway" [VpnGatewayId].
Definition delete_transit_gateway_vpc_attachment (TransitGatewayAttachmentId : string)
    : mutation :=
  Mutation "delete_transit_gateway_vpc_attachment" [TransitGatewayAttachmentId].
Definition delete_transit_gateway (TransitGatewayId : string) : mutation :=
  Mutation "delete_transit_gateway" [TransitGatewayId].
Definition disassociate_route_table (AssociationId : string) : mutation :=
  Mutation "disassociate_route_table" [AssociationId].
Definition delete_route_table (RouteTableId : string) : mutation :=
  Mutation "delete_route_table" [RouteTableId].
Definition delete_subnet (SubnetId : string) : mutation :=
  Mutation "delete_subnet" [SubnetId].
Definition delete_security_group (GroupId : string) : mutation :=
  Mutation "delete_security_group" [GroupId].
Definition delete_network_acl (NetworkAclId : string) : mutation :=
  Mutation "delete_network_acl" [NetworkAclId].
Definition delete_vpc_endpoints (VpcEndpointId : string) : mutation :=
  Mutation "delete_vpc_endpoints" [VpcEndpointId].
Definition delete_vpc_peering_connection (VpcPeeringConnectionId : string) : mutation :=
  Mutation "delete_vpc_peering_connection" [VpcPeeringConnectionId].
Definition delete_vpc (VpcId : string) : mutation :=
  Mutation "delete_vpc" [VpcId].

Section clean.
Context {S : Type} `{Provider S}.
Local Open Scope py_scope.

Definition clean_nat_gateway (ec2 : option string) (dry_run : bool) (nat : NatGateway)
    : M S unit :=
  let nat_id := NatGatewayId nat in
  let vpc_id := nat_VpcId nat in
  let state := nat_State nat in
  (* Skip already deleting/deleted NAT Gateways *)
  if str_in state ["deleting"; "deleted"] then
    logger_info ("Skipping NAT Gateway " ++ nat_id ++ " as it's already " ++ state)
  else
    logger_info ("Found NAT Gateway: " ++ nat_id ++ " (VPC: " ++ vpc_id
                 ++ ", State: " ++ state ++ ")") ;;
    when (negb dry_run) (
      try_ (
        logger_warning ("Deleting NAT Gateway: " ++ nat_id) ;;
        mutate ec2 (delete_nat_gateway nat_id) ;;
        logger_warning ("Successfully initiated deletion for NAT Gateway " ++ nat_id)
      ) (except_ClientError (fun e =>
        logger_error ("Failed to delete NAT Gateway " ++ nat_id ++ ": " ++ e)))).

(* 1. Delete NAT Gateways *)
Definition clean_nat_gateways (ec2 : option string) (region : string) (dry_run : bool)
    : M S unit :=
  logger_info ("Checking for NAT Gateways in " ++ region ++ "...") ;;
  try_ (
    nat_gateways <- call ec2 describe_nat_gateways ;;
    when (is_nil nat_gateways) (logger_info ("No NAT Gateways found in " ++ region)) ;;
    for_each nat_gateways (clean_nat_gateway ec2 dry_run)
  ) (except_ClientError (fun e =>
    logger_error ("Error listing NAT Gateways in " ++ region ++ ": " ++ e))).

Definition clean_network_interface (ec2 : option string) (dry_run : bool)
    (eni : NetworkInterface) : M S unit :=
  let eni_id := NetworkInterfaceId eni in
  let status := eni_Status eni in
  let description := get_or "N/A" (eni_Description eni) in
  (* Skip interfaces that are already in use or being deleted *)
  if str_in status ["in-use"; "detaching"; "deleting"] then
    logger_info ("Skipping Network Interface " ++ eni_id ++ " as it's " ++ status)
  else
    logger_info ("Found Network Interface: " ++ eni_id ++ " (Status: " ++ status
                 ++ ", Description: " ++ description ++ ")") ;;
    when (negb dry_run) (
      try_ (
        logger_warning ("Deleting Network Interface: " ++ eni_id) ;;
        mutate ec2 (delete_network_interface eni_id) ;;
        logger_warning ("Successfully deleted Network Interface " ++ eni_id)
      ) (except_ClientError (fun e =>
        logger_error ("Failed to delete Network Interface " ++ eni_id ++ ": " ++ e)))).

(* 2. Delete Network Interfaces (ENIs) *)
Definition clean_network_interfaces (ec2 : option string) (region : string) (dry_run : bool)
    : M S unit :=
  logger_info ("Checking for Network Interfaces in " ++ region ++ "...") ;;
  try_ (
    network_interfaces <- call ec2 describe_network_interfaces ;;
    when (is_nil network_interfaces) (
      logger_info ("No Network Interfaces found in " ++ region)) ;;
    for_each network_interfaces (clean_network_interface ec2 dry_run)
  ) (except_ClientError (fun e =>
    logger_error ("Error listing Network Interfaces in " ++ region ++ ": " ++ e))).

Definition clean_internet_gateway (ec2 : option string) (dry_run : bool)
    (igw : InternetGateway) : M S unit :=
  let igw_id := InternetGatewayId igw in
  let attachments := igw_Attachments igw in
  logger_info ("Found Internet Gateway: " ++ igw_id) ;;
  when (negb dry_run) (
    (* Detach from all VPCs first *)
    for_each attachments (fun attachment =>
      when (pystr.truthy (igwa_VpcId attachment)) (
        let vpc_id := get_or "" (igwa_VpcId attachment) in
        try_ (
          logger_warning ("Detaching Internet Gateway " ++ igw_id ++ " from VPC " ++ vpc_id) ;;
          mutate ec2 (detach_internet_gateway igw_id vpc_id) ;;
          logger_warning ("Successfully detached Internet Gateway " ++ igw_id
                          ++ " from VPC " ++ vpc_id)
        ) (except_ClientError (fun e =>
          logger_error ("Failed to detach Internet Gateway " ++ igw_id ++ " from VPC "
                        ++ vpc_id ++ ": " ++ e))))) ;;
    (* Delete the Internet Gateway *)
    try_ (
      logger_warning ("Deleting Internet Gateway: " ++ igw_id) ;;
      mutate ec2 (delete_internet_gateway igw_id) ;;
      logger_warning ("Successfully deleted Internet Gateway " ++ igw_id)
    ) (except_ClientError (fun e =>
      logger_error ("Failed to delete Internet Gateway " ++ igw_id ++ ": " ++ e)))).

(* 3. Detach and Delete Internet Gateways *)
Definition clean_internet_gateways (ec2 : option string) (region : string) (dry_run : bool)
    : M S unit :=
  logger_info ("Checking for Internet Gateways in " ++ region ++ "...") ;;
  try_ (
    internet_gateways <- call ec2 describe_internet_gateways ;;
    when (is_nil internet_gateways) (
      logger_info ("No Internet Gateways found in " ++ region)) ;;
    for_each internet_gateways (clean_internet_gateway ec2 dry_run)
  ) (except_ClientError (fun e =>
    logger_error ("Error listing Internet Gateways in " ++ region ++ ": " ++ e))).

Definition clean_vpn_connection (ec2 : option string) (dry_run : bool)
    (vpn : VpnConnection) : M S unit :=
  let vpn_id := VpnConnectionId vpn in
  let state := vpn_State vpn in
  (* Skip connections that are already deleting/deleted *)
  if str_in state ["deleting"; "deleted"] then
    logger_info ("Skipping VPN Connection " ++ vpn_id ++ " as it's already " ++ state)
  else
    logger_info ("Found VPN Connection: " ++ vpn_id ++ " (State: " ++ state ++ ")") ;;
    when (negb dry_run) (
      try_ (
        logger_warning ("Deleting VPN Connection: " ++ vpn_id) ;;
        mutate ec2 (delete_vpn_connection vpn_id) ;;
        logger_warning ("Successfully initiated deletion for VPN Connection " ++ vpn_id)
      ) (except_ClientError (fun e =>
        logger_error ("Failed to delete VPN Connection " ++ vpn_id ++ ": " ++ e)))).

(* 4. Delete VPN Connections *)
Definition clean_vpn_connections (ec2 : option string) (region : string) (dry_run : bool)
    : M S unit :=
  logger_info ("Checking for VPN Connections in " ++ region ++ "...") ;;
  try_ (
    vpn_connections <- call ec2 describe_vpn_connections ;;
    when (is_nil vpn_connections) (logger_info ("No VPN Connections found in " ++ region)) ;;
    for_each vpn_connections (clean_vpn_connection ec2 dry_run)
  ) (except_ClientError (fun e =>
    logger_error ("Error listing VPN Connections in " ++ region ++ ": " ++ e))).

Definition attachment_live (attachment : VgwAttachment) : bool :=
  pystr.truthy (vgwa_VpcId attachment)
  && negb (match vgwa_State attachment with
           | Some attachment_state => str_in attachment_state ["detached"; "detaching"]
           | None => false
           end).

Definition clean_vpn_gateway (ec2 : option string) (dry_run : bool) (vgw : VpnGateway)
    : M S unit :=
  let vgw_id := VpnGatewayId vgw in
  let state := vgw_State vgw in
  let attachments := VpcAttachments vgw in
  (* Skip gateways that are already deleting/deleted *)
  if str_in state ["deleting"; "deleted"] then
    logger_info ("Skipping VPN Gateway " ++ vgw_id ++ " as it's already " ++ state)
  else
    logger_info ("Found VPN Gateway: " ++ vgw_id ++ " (State: " ++ state ++ ")") ;;
    when (negb dry_run) (
      (* Detach from all VPCs first *)
      for_each attachments (fun attachment =>
        when (attachment_live attachment) (
          let vpc_id := get_or "" (vgwa_VpcId attachment) in
          try_ (
            logger_warning ("Detaching VPN Gateway " ++ vgw_id ++ " from VPC " ++ vpc_id) ;;
            mutate ec2 (detach_vpn_gateway vgw_id vpc_id) ;;
            logger_warning ("Successfully initiated detachment for VPN Gateway " ++ vgw_id
                            ++ " from VPC " ++ vpc_id)
          ) (except_ClientError (fun e =>
            logger_error ("Failed to detach VPN Gateway " ++ vgw_id ++ " from VPC "
                          ++ vpc_id ++ ": " ++ e))))) ;;
      (* Wait a moment for detachments to process *)
      sleep 5 ;;
      (* Delete the VPN Gateway *)
      try_ (
        logger_warning ("Deleting VPN Gateway: " ++ vgw_id) ;;
        mutate ec2 (delete_vpn_gateway vgw_id) ;;
        logger_warning ("Successfully deleted VPN Gateway " ++ vgw_id)
      ) (except_ClientError (fun e =>
        logger_error ("Failed to delete VPN Gateway " ++ vgw_id ++ ": " ++ e)))).

(* 5. Delete VPN Gateways *)
Definition clean_vpn_gateways (ec2 : option string) (region : string) (dry_run : bool)
    : M S unit :=
  logger_info ("Checking for VPN Gateways in " ++ region ++ "...") ;;
  try_ (
    vpn_gateways <- call ec2 describe_vpn_gateways ;;
    when (is_nil vpn_gateways) (logger_info ("No VPN Gateways found in " ++ region)) ;;
    for_each vpn_gateways (clean_vpn_gateway ec2 dry_run)
  ) (except_ClientError (fun e =>
    logger_error ("Error listing VPN Gateways in " ++ region ++ ": " ++ e))).

(** The handler of the two transit gateway steps: the service might not
    be available in all regions. *)
Definition transit_gateway_error (region what e : string) : M S unit :=
  if pystr.contains "InvalidAction" e || pystr.contains "UnauthorizedOperation" e then
    logger_info ("Transit Gateway service not available or not authorized in " ++ region)
  else
    logger_error ("Error listing " ++ what ++ " in " ++ region ++ ": " ++ e).

Definition clean_transit_gateway_attachment (ec2 : option string) (dry_run : bool)
    (attachment : TransitGatewayAttachment) : M S unit :=
  let attachment_id := TransitGatewayAttachmentId attachment in
  let state := tga_State attachment in
  (* Skip attachments that are already deleting/deleted *)
  if str_in state ["deleting"; "deleted"] then
    logger_info ("Skipping Transit Gateway Attachment " ++ attachment_id
                 ++ " as it's already " ++ state)
  else
    logger_info ("Found Transit Gateway Attachment: " ++ attachment_id
                 ++ " (State: " ++ state ++ ")") ;;
    when (negb dry_run) (
      try_ (
        logger_warning ("Deleting Transit Gateway Attachment: " ++ attachment_id) ;;
        mutate ec2 (delete_transit_gateway_vpc_attachment attachment_id) ;;
        logger_warning ("Successfully initiated deletion for Transit Gateway Attachment "
                        ++ attachment_id)
      ) (except_ClientError (fun e =>
        logger_error ("Failed to delete Transit Gateway Attachment " ++ attachment_id
                      ++ ": " ++ e)))).

(* 6. Delete Transit Gateway Attachments *)
Definition clean_transit_gateway_attachments (ec2 : option string) (region : string)
    (dry_run : bool) : M S unit :=
  logger_info ("Checking for Transit Gateway Attachments in " ++ region ++ "...") ;;
  try_ (
    tgw_attachments <- call ec2 describe_transit_gateway_attachments ;;
    if is_nil tgw_attachments then
      logger_info ("No Transit Gateway Attachments found in " ++ region)
    else
      for_each tgw_attachments (clean_transit_gateway_attachment ec2 dry_run)
  ) (except_ClientError (transit_gateway_error region "Transit Gateway Attachments")).

Definition clean_transit_gateway (ec2 : option string) (dry_run : bool)
    (tgw : TransitGateway) : M S unit :=
  let tgw_id := TransitGatewayId tgw in
  let state := tgw_State tgw in
  (* Skip gateways that are already deleting/deleted *)
  if str_in state ["deleting"; "deleted"] then
    logger_info ("Skipping Transit Gateway " ++ tgw_id ++ " as it's already " ++ state)
  else
    logger_info ("Found Transit Gateway: " ++ tgw_id ++ " (State: " ++ state ++ ")") ;;
    when (negb dry_run) (
      try_ (
        logger_warning ("Deleting Transit Gateway: " ++ tgw_id) ;;
        mutate ec2 (delete_transit_gateway tgw_id) ;;
        logger_warning ("Successfully initiated deletion for Transit Gateway " ++ tgw_id)
      ) (except_ClientError (fun e =>
        logger_error ("Failed to delete Transit Gateway " ++ tgw_id ++ ": " ++ e)))).

(* 7. Delete Transit Gateways *)
Definition clean_transit_gateways (ec2 : option string) (region : string) (dry_run : bool)
    : M S unit :=
  logger_info ("Checking for Transit Gateways in " ++ region ++ "...") ;;
  try_ (
    transit_gateways <- call ec2 describe_transit_gateways ;;
    if is_nil transit_gateways then
      logger_info ("No Transit Gateways found in " ++ region)
    else
      for_each transit_gateways (clean_transit_gateway ec2 dry_run)
  ) (except_ClientError (transit_gateway_error region "Transit Gateways")).

Definition clean_route_table (ec2 : option string) (dry_run : bool) (vpc_id : string)
    (rt : RouteTable) : M S unit :=
  let rt_id := RouteTableId rt in
  (* Check if this is the main route table (can't delete) *)
  let is_main := existsb rta_Main (rt_Associations rt) in
  if is_main then
    logger_info ("Skipping main route table " ++ rt_id ++ " for VPC " ++ vpc_id)
  else
    logger_info ("Found Route Table: " ++ rt_id ++ " in VPC " ++ vpc_id) ;;
    when (negb dry_run) (
      (* Disassociate all subnets first *)
      for_each (rt_Associations rt) (fun association =>
        match rta_SubnetId association with
        | Some _ =>
            let association_id := RouteTableAssociationId association in
            try_ (
              logger_warning ("Disassociating Route Table " ++ rt_id ++ " from subnet") ;;
              mutate ec2 (disassociate_route_table association_id) ;;
              logger_warning ("Successfully disassociated Route Table " ++ rt_id)
            ) (except_ClientError (fun e =>
              logger_error ("Failed to disassociate Route Table " ++ rt_id ++ ": " ++ e)))
        | None => ret tt
        end) ;;
      (* Delete the route table *)
      try_ (
        logger_warning ("Deleting Route Table: " ++ rt_id) ;;
        mutate ec2 (delete_route_table rt_id) ;;
        logger_warning ("Successfully deleted Route Table " ++ rt_id)
      ) (except_ClientError (fun e =>
        logger_error ("Failed to delete Route Table " ++ rt_id ++ ": " ++ e)))).

(* 8 & 9. Delete Route Tables (disassociate first) *)
Definition clean_route_tables (ec2 : option string) (dry_run : bool) (vpc_id : string)
    : M S unit :=
  logger_info ("Checking for Route Tables in VPC " ++ vpc_id ++ "...") ;;
  try_ (
    route_tables <- call ec2 (describe_route_tables vpc_id) ;;
    for_each route_tables (clean_route_table ec2 dry_run vpc_id)
  ) (except_ClientError (fun e =>
    logger_error ("Error listing Route Tables for VPC " ++ vpc_id ++ ": " ++ e))).

Definition clean_subnet (ec2 : option string) (dry_run : bool) (subnet : Subnet) : M S unit :=
  let subnet_id := SubnetId subnet in
  cidr <- subscript "CidrBlock" (CidrBlock subnet) ;;
  let az := AvailabilityZone subnet in
  logger_info ("Found Subnet: " ++ subnet_id ++ " (CIDR: " ++ cidr ++ ", AZ: " ++ az ++ ")") ;;
  when (negb dry_run) (
    try_ (
      logger_warning ("Deleting Subnet: " ++ subnet_id) ;;
      mutate ec2 (delete_subnet subnet_id) ;;
      logger_warning ("Successfully deleted Subnet " ++ subnet_id)
    ) (except_ClientError (fun e =>
      logger_error ("Failed to delete Subnet " ++ subnet_id ++ ": " ++ e)))).

(* 10. Delete Subnets *)
Definition clean_subnets (ec2 : option string) (dry_run : bool) (vpc_id : string) : M S unit :=
  logger_info ("Checking for Subnets in VPC " ++ vpc_id ++ "...") ;;
  try_ (
    subnets <- call ec2 (describe_subnets vpc_id) ;;
    for_each subnets (clean_subnet ec2 dry_run)
  ) (except_ClientError (fun e =>
    logger_error ("Error listing Subnets for VPC " ++ vpc_id ++ ": " ++ e))).

Definition clean_security_group (ec2 : option string) (dry_run : bool) (vpc_id : string)
    (sg : SecurityGroup) : M S unit :=
  let sg_id := GroupId sg in
  let sg_name := GroupName sg in
  (* Skip the default security group *)
  if String.eqb sg_name "default" then
    logger_info ("Skipping default Security Group " ++ sg_id ++ " for VPC " ++ vpc_id)
  else
    logger_info ("Found Security Group: " ++ sg_id ++ " (Name: " ++ sg_name ++ ")") ;;
    when (negb dry_run) (
      try_ (
        logger_warning ("Deleting Security Group: " ++ sg_id) ;;
        mutate ec2 (delete_security_group sg_id) ;;
        logger_warning ("Successfully deleted Security Group " ++ sg_id)
      ) (except_ClientError (fun e =>
        (* This is expected if the SG is still in use *)
        if pystr.contains "has a dependent object" e
           || pystr.contains "currently in use by" e then
          logger_warning ("Security Group " ++ sg_id ++ " is still in use, cannot delete now")
        else
          logger_error ("Failed to delete Security Group " ++ sg_id ++ ": " ++ e)))).

(* 11. Delete Security Groups (except default) *)
Definition clean_security_groups (ec2 : option string) (dry_run : bool) (vpc_id : string)
    : M S unit :=
  logger_info ("Checking for Security Groups in VPC " ++ vpc_id ++ "...") ;;
  try_ (
    security_groups <- call ec2 (describe_security_groups (Some vpc_id)) ;;
    for_each security_groups (clean_security_group ec2 dry_run vpc_id)
  ) (except_ClientError (fun e =>
    logger_error ("Error listing Security Groups for VPC " ++ vpc_id ++ ": " ++ e))).

Definition clean_network_acl (ec2 : option string) (dry_run : bool) (vpc_id : string)
    (acl : NetworkAcl) : M S unit :=
  let acl_id := NetworkAclId acl in
  let is_default := acl_IsDefault acl in
  if is_default then
    logger_info ("Skipping default Network ACL " ++ acl_id ++ " for VPC " ++ vpc_id)
  else
    logger_info ("Found Network ACL: " ++ acl_id) ;;
    when (negb dry_run) (
      try_ (
        logger_warning ("Deleting Network ACL: " ++ acl_id) ;;
        mutate ec2 (delete_network_acl acl_id) ;;
        logger_warning ("Successfully deleted Network ACL " ++ acl_id)
      ) (except_ClientError (fun e =>
        (* This is expected if the NACL is still in use *)
        if pystr.contains "is being used by" e then
          logger_warning ("Network ACL " ++ acl_id ++ " is still in use, cannot delete now")
        else
          logger_error ("Failed to delete Network ACL " ++ acl_id ++ ": " ++ e)))).

(* 12. Delete Network ACLs (except default) *)
Definition clean_network_acls (ec2 : option string) (dry_run : bool) (vpc_id : string)
    : M S unit :=
  logger_info ("Checking for Network ACLs in VPC " ++ vpc_id ++ "...") ;;
  try_ (
    network_acls <- call ec2 (describe_network_acls vpc_id) ;;
    for_each network_acls (clean_network_acl ec2 dry_run vpc_id)
  ) (except_ClientError (fun e =>
    logger_error ("Error listing Network ACLs for VPC " ++ vpc_id ++ ": " ++ e))).

Definition clean_vpc_endpoint (ec2 : option string) (dry_run : bool)
    (endpoint : VpcEndpoint) : M S unit :=
  let endpoint_id := VpcEndpointId endpoint in
  let endpoint_type := VpcEndpointType endpoint in
  let service := ServiceName endpoint in
  logger_info ("Found VPC Endpoint: " ++ endpoint_id ++ " (Type: " ++ endpoint_type
               ++ ", Service: " ++ service ++ ")") ;;
  when (negb dry_run) (
    try_ (
      logger_warning ("Deleting VPC Endpoint: " ++ endpoint_id) ;;
      mutate ec2 (delete_vpc_endpoints endpoint_id) ;;
      logger_warning ("Successfully initiated deletion for VPC Endpoint " ++ endpoint_id)
    ) (except_ClientError (fun e =>
      logger_error ("Failed to delete VPC Endpoint " ++ endpoint_id ++ ": " ++ e)))).

(* 13. Delete VPC Endpoints *)
Definition clean_vpc_endpoints (ec2 : option string) (dry_run : bool) (vpc_id : string)
    : M S unit :=
  logger_info ("Checking for VPC Endpoints in VPC " ++ vpc_id ++ "...") ;;
  try_ (
    vpc_endpoints <- call ec2 (describe_vpc_endpoints vpc_id) ;;
    for_each vpc_endpoints (clean_vpc_endpoint ec2 dry_run)
  ) (except_ClientError (fun e =>
    logger_error ("Error listing VPC Endpoints for VPC " ++ vpc_id ++ ": " ++ e))).

(** The body of the loop over the VPCs: the resources of one VPC. *)
Definition clean_vpc_resources (ec2 : option string) (dry_run : bool) (vpc : Vpc) : M S unit :=
  let vpc_id := VpcId vpc in
  let is_default := vpc_IsDefault vpc in
  logger_info ("Processing resources for VPC: " ++ vpc_id ++ " (Default: "
               ++ pystr.str_bool is_default ++ ")") ;;
  clean_route_tables ec2 dry_run vpc_id ;;
  clean_subnets ec2 dry_run vpc_id ;;
  clean_security_groups ec2 dry_run vpc_id ;;
  clean_network_acls ec2 dry_run vpc_id ;;
  clean_vpc_endpoints ec2 dry_run vpc_id.

Definition clean_vpc_peering_connection (ec2 : option string) (dry_run : bool)
    (peering : VpcPeeringConnection) : M S unit :=
  let peering_id := VpcPeeringConnectionId peering in
  let status := get_or "unknown" (peer_Status_Code peering) in
  (* Skip connections that are already deleting/deleted *)
  if str_in status ["deleted"; "rejected"; "failed"; "expired"] then
    logger_info ("Skipping VPC Peering Connection " ++ peering_id ++ " as it's already "
                 ++ status)
  else
    let accepter_vpc := get_or "unknown" (AccepterVpcId peering) in
    let requester_vpc := get_or "unknown" (RequesterVpcId peering) in
    logger_info ("Found VPC Peering Connection: " ++ peering_id ++ " (Status: " ++ status
                 ++ ", Between: " ++ requester_vpc ++ " and " ++ accepter_vpc ++ ")") ;;
    when (negb dry_run) (
      try_ (
        logger_warning ("Deleting VPC Peering Connection: " ++ peering_id) ;;
        mutate ec2 (delete_vpc_peering_connection peering_id) ;;
        logger_warning ("Successfully deleted VPC Peering Connection " ++ peering_id)
      ) (except_ClientError (fun e =>
        logger_error ("Failed to delete VPC Peering Connection " ++ peering_id
                      ++ ": " ++ e)))).

(* 14. Delete VPC Peering Connections *)
Definition clean_vpc_peering_connections (ec2 : option string) (region : string)
    (dry_run : bool) : M S unit :=
  logger_info ("Checking for VPC Peering Connections in " ++ region ++ "...") ;;
  try_ (
    vpc_peerings <- call ec2 describe_vpc_peering_connections ;;
    for_each vpc_peerings (clean_vpc_peering_connection ec2 dry_run)
  ) (except_ClientError (fun e =>
    logger_error ("Error listing VPC Peering Connections in " ++ region ++ ": " ++ e))).

Definition clean_vpc (ec2 : option string) (dry_run : bool) (vpc : Vpc) : M S unit :=
  let vpc_id := VpcId vpc in
  let is_default := vpc_IsDefault vpc in
  if dry_run then
    logger_info ("[DRY RUN] Would delete VPC: " ++ vpc_id ++ " (Default: "
                 ++ pystr.str_bool is_default ++ ")")
  (* Skip default VPC if instructed (default VPCs are harder to recreate) *)
  else if is_default then
    logger_warning ("Skipping default VPC " ++ vpc_id)
  else
    try_ (
      logger_warning ("Deleting VPC: " ++ vpc_id) ;;
      mutate ec2 (delete_vpc vpc_id) ;;
      logger_warning ("Successfully deleted VPC " ++ vpc_id)
    ) (except_ClientError (fun e =>
      (* This is expected if the VPC still has dependencies *)
      if pystr.contains "has dependencies" e || pystr.contains "DependencyViolation" e then
        logger_warning ("VPC " ++ vpc_id ++ " still has dependencies, cannot delete now")
      else
        logger_error ("Failed to delete VPC " ++ vpc_id ++ ": " ++ e))).

(* 15. Delete VPCs *)
Definition clean_vpcs (ec2 : option string) (region : string) (dry_run : bool)
    (vpcs : list Vpc) : M S unit :=
  logger_info ("Deleting VPCs in " ++ region ++ "...") ;;
  for_each vpcs (clean_vpc ec2 dry_run).

(** Get all VPCs to process their resources, then the peering
    connections and the VPCs themselves. *)
Definition clean_per_vpc (ec2 : option string) (region : string) (dry_run : bool) : M S unit :=
  try_ (
    vpcs <- call ec2 describe_vpcs ;;
    (if is_nil vpcs then
       logger_info ("No VPCs found in " ++ region) ;;
       return_
     else ret tt) ;;
    for_each vpcs (clean_vpc_resources ec2 dry_run) ;;
    clean_vpc_peering_connections ec2 region dry_run ;;
    clean_vpcs ec2 region dry_run vpcs
  ) (except_ClientError (fun e =>
    logger_error ("Error listing VPCs in " ++ region ++ ": " ++ e))).

(** Clean VPC resources in the following order: 1. NAT Gateways,
    2. Network Interfaces, 3. Internet Gateways, 4. VPN Connections,
    5. VPN Gateways, 6. Transit Gateway Attachments, 7. Transit
    Gateways, 8. Subnet Route Table Associations, 9. Route Tables,
    10. Subnets, 11. Security Groups (non-default), 12. Network ACLs
    (non-default), 13. VPC Endpoints, 14. VPC Peering Connections,
    15. VPCs. *)
Definition clean (region : string) (dry_run : bool) : M S unit :=
  let ec2_client := Some region in
  def (
    session_client "ec2" ec2_client ;;
    session_resource "ec2" ec2_client ;;
    try_ (
      clean_nat_gateways ec2_client region dry_run ;;
      clean_network_interfaces ec2_client region dry_run ;;
      clean_internet_gateways ec2_client region dry_run ;;
      clean_vpn_connections ec2_client region dry_run ;;
      clean_vpn_gateways ec2_client region dry_run ;;
      clean_transit_gateway_attachments ec2_client region dry_run ;;
      clean_transit_gateways ec2_client region dry_run ;;
      clean_per_vpc ec2_client region dry_run
    ) (except_Exception (fun e =>
      logger_error ("Error cleaning VPC resources in " ++ region ++ ": " ++ e))) ;;
    logger_info ("Completed VPC resource cleanup in " ++ region)).

End clean.
End vpc.


(** ** [cleaner/iam.py] *)

Module iam.
Import aws.

Definition delete_access_key (UserName AccessKeyId : string) : mutation :=
  Mutation "delete_access_key" [UserName; AccessKeyId].
Definition delete_user_policy (UserName PolicyName : string) : mutation :=
  Mutation "delete_user_policy" [UserName; PolicyName].
Definition detach_user_policy (UserName PolicyArn : string) : mutation :=
  Mutation "detach_user_policy" [UserName; PolicyArn].
Definition remove_user_from_group (UserName GroupName : string) : mutation :=
  Mutation "remove_user_from_group" [UserName; GroupName].
Definition deactivate_mfa_device (UserName SerialNumber : string) : mutation :=
  Mutation "deactivate_mfa_device" [UserName; SerialNumber].
Definition delete_login_profile (UserName : string) : mutation :=
  Mutation "delete_login_profile" [UserName].
Definition delete_user (UserName : string) : mutation :=
  Mutation "delete_user" [UserName].
Definition delete_group_policy (GroupName PolicyName : string) : mutation :=
  Mutation "delete_group_policy" [GroupName; PolicyName].
Definition detach_group_policy (GroupName PolicyArn : string) : mutation :=
  Mutation "detach_group_policy" [GroupName; PolicyArn].
Definition delete_group (GroupName : string) : mutation :=
  Mutation "delete_group" [GroupName].
Definition delete_role_policy (RoleName PolicyName : string) : mutation :=
  Mutation "delete_role_policy" [RoleName; PolicyName].
Definition detach_role_policy (RoleName PolicyArn : string) : mutation :=
  Mutation "detach_role_policy" [RoleName; PolicyArn].
Definition remove_role_from_instance_profile (InstanceProfileName RoleName : string)
    : mutation :=
  Mutation "remove_role_from_instance_profile" [InstanceProfileName; RoleName].
Definition delete_instance_profile (InstanceProfileName : string) : mutation :=
  Mutation "delete_instance_profile" [InstanceProfileName].
Definition delete_role (RoleName : string) : mutation :=
  Mutation "delete_role" [RoleName].
Definition delete_policy_version (PolicyArn VersionId : string) : mutation :=
  Mutation "delete_policy_version" [PolicyArn; VersionId].
Definition delete_policy (PolicyArn : string) : mutation :=
  Mutation "delete_policy" [PolicyArn].

(** AWS service-linked roles, which can't be manually deleted *)
Definition is_service_linked (role : Role) : bool :=
  let path := get_or "" (role_Path role) in
  pystr.startswith "/aws-service-role/" path || pystr.startswith "/service-role/" path.

Section clean.
Context {S : Type} `{Provider S}.
Local Open Scope py_scope.

Definition iam_client : option string := None.

Definition clean_user (dry_run : bool) (user : User) : M S unit :=
  let user_name := UserName user in
  logger_info ("Found IAM User: " ++ user_name) ;;
  when (negb dry_run) (
    (* 1. Delete access keys *)
    try_ (
      access_keys <- call iam_client (list_access_keys user_name) ;;
      for_each access_keys (fun key =>
        let key_id := AccessKeyId key in
        logger_warning ("Deleting access key " ++ key_id ++ " for user " ++ user_name) ;;
        mutate iam_client (delete_access_key user_name key_id) ;;
        logger_warning ("Successfully deleted access key " ++ key_id))
    ) (except_ClientError (fun e =>
      logger_error ("Error deleting access keys for user " ++ user_name ++ ": " ++ e))) ;;
    (* 2. Delete inline policies *)
    try_ (
      policy_names <- call iam_client (list_user_policies user_name) ;;
      for_each policy_names (fun policy_name =>
        logger_warning ("Deleting inline policy " ++ policy_name ++ " from user "
                        ++ user_name) ;;
        mutate iam_client (delete_user_policy user_name policy_name) ;;
        logger_warning ("Successfully deleted inline policy " ++ policy_name
                        ++ " from user " ++ user_name))
    ) (except_ClientError (fun e =>
      logger_error ("Error deleting inline policies for user " ++ user_name ++ ": " ++ e))) ;;
    (* Detach managed policies *)
    try_ (
      attached_policies <- call iam_client (list_attached_user_policies user_name) ;;
      for_each attached_policies (fun policy =>
        let policy_arn := PolicyArn policy in
        logger_warning ("Detaching managed policy " ++ policy_arn ++ " from user "
                        ++ user_name) ;;
        mutate iam_client (detach_user_policy user_name policy_arn) ;;
        logger_warning ("Successfully detached managed policy " ++ policy_arn
                        ++ " from user " ++ user_name))
    ) (except_ClientError (fun e =>
      logger_error ("Error detaching managed policies from user " ++ user_name
                    ++ ": " ++ e))) ;;
    (* 3. Remove from groups *)
    try_ (
      groups <- call iam_client (list_groups_for_user user_name) ;;
      for_each groups (fun group =>
        let group_name := iam_GroupName group in
        logger_warning ("Removing user " ++ user_name ++ " from group " ++ group_name) ;;
        mutate iam_client (remove_user_from_group user_name group_name) ;;
        logger_warning ("Successfully removed user " ++ user_name ++ " from group "
                        ++ group_name))
    ) (except_ClientError (fun e =>
      logger_error ("Error removing user " ++ user_name ++ " from groups: " ++ e))) ;;
    (* Delete MFA devices *)
    try_ (
      mfa_devices <- call iam_client (list_mfa_devices user_name) ;;
      for_each mfa_devices (fun device =>
        let device_serial := SerialNumber device in
        logger_warning ("Deactivating MFA device " ++ device_serial ++ " for user "
                        ++ user_name) ;;
        mutate iam_client (deactivate_mfa_device user_name device_serial) ;;
        logger_warning ("Successfully deactivated MFA device " ++ device_serial))
    ) (except_ClientError (fun e =>
      logger_error ("Error deactivating MFA devices for user " ++ user_name ++ ": " ++ e))) ;;
    (* Delete login profile if exists *)
    try_ (
      call iam_client (get_login_profile user_name) ;;
      logger_warning ("Deleting login profile for user " ++ user_name) ;;
      mutate iam_client (delete_login_profile user_name) ;;
      logger_warning ("Successfully deleted login profile for user " ++ user_name)
    ) (except_ClientError (fun e =>
      (* It's OK if the user doesn't have a login profile *)
      when (negb (pystr.contains "NoSuchEntity" e)) (
        logger_error ("Error deleting login profile for user " ++ user_name ++ ": " ++ e)))) ;;
    (* 4. Delete the user *)
    try_ (
      logger_warning ("Deleting IAM User: " ++ user_name) ;;
      mutate iam_client (delete_user user_name) ;;
      logger_warning ("Successfully deleted IAM User " ++ user_name)
    ) (except_ClientError (fun e =>
      logger_error ("Failed to delete IAM User " ++ user_name ++ ": " ++ e)))).

(* 1 & 2 & 3 & 4. Process IAM Users, including their Access Keys and Policies *)
Definition clean_users (dry_run : bool) : M S unit :=
  logger_info "Checking for IAM Users..." ;;
  try_ (
    users <- call iam_client list_users ;;
    for_pages users (clean_user dry_run) ;;
    let user_count := length (concat (fst users)) in
    when (Nat.eqb user_count 0) (logger_info "No IAM Users found")
  ) (except_ClientError (fun e => logger_error ("Error listing IAM Users: " ++ e))).

Definition clean_group (dry_run : bool) (group : Group) : M S unit :=
  let group_name := iam_GroupName group in
  logger_info ("Found IAM Group: " ++ group_name) ;;
  when (negb dry_run) (
    (* 5. Delete inline policies *)
    try_ (
      policy_names <- call iam_client (list_group_policies group_name) ;;
      for_each policy_names (fun policy_name =>
        logger_warning ("Deleting inline policy " ++ policy_name ++ " from group "
                        ++ group_name) ;;
        mutate iam_client (delete_group_policy group_name policy_name) ;;
        logger_warning ("Successfully deleted inline policy " ++ policy_name
                        ++ " from group " ++ group_name))
    ) (except_ClientError (fun e =>
      logger_error ("Error deleting inline policies for group " ++ group_name
                    ++ ": " ++ e))) ;;
    (* Detach managed policies *)
    try_ (
      attached_policies <- call iam_client (list_attached_group_policies group_name) ;;
      for_each attached_policies (fun policy =>
        let policy_arn := PolicyArn policy in
        logger_warning ("Detaching managed policy " ++ policy_arn ++ " from group "
                        ++ group_name) ;;
        mutate iam_client (detach_group_policy group_name policy_arn) ;;
        logger_warning ("Successfully detached managed policy " ++ policy_arn
                        ++ " from group " ++ group_name))
    ) (except_ClientError (fun e =>
      logger_error ("Error detaching managed policies from group " ++ group_name
                    ++ ": " ++ e))) ;;
    (* 6. Delete the group *)
    try_ (
      logger_warning ("Deleting IAM Group: " ++ group_name) ;;
      mutate iam_client (delete_group group_name) ;;
      logger_warning ("Successfully deleted IAM Group " ++ group_name)
    ) (except_ClientError (fun e =>
      logger_error ("Failed to delete IAM Group " ++ group_name ++ ": " ++ e)))).

(* 5 & 6. Process IAM Groups and their Policies *)
Definition clean_groups (dry_run : bool) : M S unit :=
  logger_info "Checking for IAM Groups..." ;;
  try_ (
    groups <- call iam_client list_groups ;;
    for_pages groups (clean_group dry_run) ;;
    let group_count := length (concat (fst groups)) in
    when (Nat.eqb group_count 0) (logger_info "No IAM Groups found")
  ) (except_ClientError (fun e => logger_error ("Error listing IAM Groups: " ++ e))).

Definition clean_role (dry_run : bool) (role : Role) : M S unit :=
  let role_name := RoleName role in
  (* Skip AWS service-linked roles which can't be manually deleted *)
  if is_service_linked role then
    logger_info ("Skipping service-linked role: " ++ role_name)
  else
    logger_info ("Found IAM Role: " ++ role_name) ;;
    when (negb dry_run) (
      (* 7. Delete inline policies *)
      try_ (
        policy_names <- call iam_client (list_role_policies role_name) ;;
        for_each policy_names (fun policy_name =>
          logger_warning ("Deleting inline policy " ++ policy_name ++ " from role "
                          ++ role_name) ;;
          mutate iam_client (delete_role_policy role_name policy_name) ;;
          logger_warning ("Successfully deleted inline policy " ++ policy_name
                          ++ " from role " ++ role_name))
      ) (except_ClientError (fun e =>
        logger_error ("Error deleting inline policies for role " ++ role_name
                      ++ ": " ++ e))) ;;
      (* Detach managed policies *)
      try_ (
        attached_policies <- call iam_client (list_attached_role_policies role_name) ;;
        for_each attached_policies (fun policy =>
          let policy_arn := PolicyArn policy in
          logger_warning ("Detaching managed policy " ++ policy_arn ++ " from role "
                          ++ role_name) ;;
          mutate iam_client (detach_role_policy role_name policy_arn) ;;
          logger_warning ("Successfully detached managed policy " ++ policy_arn
                          ++ " from role " ++ role_name))
      ) (except_ClientError (fun e =>
        logger_error ("Error detaching managed policies from role " ++ role_name
                      ++ ": " ++ e))) ;;
      (* 8. Delete the role *)
      try_ (
        (* Delete instance profile associations first *)
        try_ (
          instance_profiles <- call iam_client (list_instance_profiles_for_role role_name) ;;
          for_each instance_profiles (fun profile =>
            let profile_name := InstanceProfileName profile in
            logger_warning ("Removing role " ++ role_name ++ " from instance profile "
                            ++ profile_name) ;;
            mutate iam_client (remove_role_from_instance_profile profile_name role_name) ;;
            logger_warning ("Successfully removed role " ++ role_name
                            ++ " from instance profile " ++ profile_name) ;;
            (* Also delete the instance profile *)
            logger_warning ("Deleting instance profile " ++ profile_name) ;;
            mutate iam_client (delete_instance_profile profile_name) ;;
            logger_warning ("Successfully deleted instance profile " ++ profile_name))
        ) (except_ClientError (fun e =>
          logger_error ("Error handling instance profiles for role " ++ role_name
                        ++ ": " ++ e))) ;;
        logger_warning ("Deleting IAM Role: " ++ role_name) ;;
        mutate iam_client (delete_role role_name) ;;
        logger_warning ("Successfully deleted IAM Role " ++ role_name)
      ) (except_ClientError (fun e =>
        logger_error ("Failed to delete IAM Role " ++ role_name ++ ": " ++ e)))).

(* 7 & 8. Process IAM Roles and their Policies *)
Definition clean_roles (dry_run : bool) : M S unit :=
  logger_info "Checking for IAM Roles..." ;;
  try_ (
    roles <- call iam_client list_roles ;;
    for_pages roles (clean_role dry_run) ;;
    let role_count :=
      length (List.filter (fun role => negb (is_service_linked role)) (concat (fst roles))) in
    when (Nat.eqb role_count 0) (
      logger_info "No IAM Roles found (excluding service-linked roles)")
  ) (except_ClientError (fun e => logger_error ("Error listing IAM Roles: " ++ e))).

Definition clean_policy (dry_run : bool) (policy : Policy) : M S unit :=
  let policy_name := PolicyName policy in
  let policy_arn := policy_Arn policy in
  logger_info ("Found customer-managed policy: " ++ policy_name ++ " (ARN: "
               ++ policy_arn ++ ")") ;;
  when (negb dry_run) (
    (* First check if policy is attached to any entities *)
    try_ (
      entities <- call iam_client (list_entities_for_policy policy_arn) ;;
      (* If policy is attached to entities, we should have removed these
         attachments earlier, but we can double-check here *)
      for_each (PolicyUsers entities) (fun user =>
        logger_warning ("Detaching policy " ++ policy_arn ++ " from user " ++ UserName user) ;;
        mutate iam_client (detach_user_policy (UserName user) policy_arn)) ;;
      for_each (PolicyGroups entities) (fun group =>
        logger_warning ("Detaching policy " ++ policy_arn ++ " from group "
                        ++ iam_GroupName group) ;;
        mutate iam_client (detach_group_policy (iam_GroupName group) policy_arn)) ;;
      for_each (PolicyRoles entities) (fun role =>
        logger_warning ("Detaching policy " ++ policy_arn ++ " from role " ++ RoleName role) ;;
        mutate iam_client (detach_role_policy (RoleName role) policy_arn)) ;;
      let has_attachments :=
        negb (is_nil (PolicyUsers entities)) || negb (is_nil (PolicyGroups entities))
        || negb (is_nil (PolicyRoles entities)) in
      when has_attachments (
        logger_warning ("Policy " ++ policy_name
                        ++ " was still attached to entities, detached now"))
    ) (except_ClientError (fun e =>
      logger_error ("Error checking attachments for policy " ++ policy_name ++ ": " ++ e))) ;;
    (* 9. Delete non-default versions of the policy first *)
    try_ (
      versions <- call iam_client (list_policy_versions policy_arn) ;;
      for_each versions (fun version =>
        (* Skip the default version (we'll delete it with the policy itself) *)
        if IsDefaultVersion version then ret tt
        else
          logger_warning ("Deleting version " ++ VersionId version ++ " of policy "
                          ++ policy_name) ;;
          mutate iam_client (delete_policy_version policy_arn (VersionId version)) ;;
          logger_warning ("Successfully deleted version " ++ VersionId version
                          ++ " of policy " ++ policy_name))
    ) (except_ClientError (fun e =>
      logger_error ("Error deleting versions for policy " ++ policy_name ++ ": " ++ e))) ;;
    (* 10. Delete the policy *)
    try_ (
      logger_warning ("Deleting IAM Policy: " ++ policy_name) ;;
      mutate iam_client (delete_policy policy_arn) ;;
      logger_warning ("Successfully deleted IAM Policy " ++ policy_name)
    ) (except_ClientError (fun e =>
      logger_error ("Failed to delete IAM Policy " ++ policy_name ++ ": " ++ e)))).

(* 9 & 10. Process IAM Policies (customer managed only, Scope='Local') *)
Definition clean_policies (dry_run : bool) : M S unit :=
  logger_info "Checking for customer-managed IAM Policies..." ;;
  try_ (
    policies <- call iam_client list_policies_local ;;
    for_pages policies (clean_policy dry_run) ;;
    let policy_count := length (concat (fst policies)) in
    when (Nat.eqb policy_count 0) (logger_info "No customer-managed IAM Policies found")
  ) (except_ClientError (fun e => logger_error ("Error listing IAM Policies: " ++ e))).

(** IAM is a global service, no region needed.  Clean IAM resources in
    the following order: access keys, user policies, group memberships,
    users, group policies, groups, role policies, roles, policy
    versions, customer managed policies. *)
Definition clean (dry_run : bool) : M S unit :=
  def (
    session_client "iam" iam_client ;;
    try_ (
      (* Get account alias for logging *)
      try_ (
        account_aliases <- call iam_client list_account_aliases ;;
        let account_alias := match account_aliases with
                             | alias :: _ => alias
                             | [] => "No alias"
                             end in
        logger_info ("Processing IAM resources for account: " ++ account_alias)
      ) (except_ClientError (fun e =>
        logger_error ("Error getting account alias: " ++ e))) ;;
      clean_users dry_run ;;
      clean_groups dry_run ;;
      clean_roles dry_run ;;
      clean_policies dry_run
    ) (except_Exception (fun e =>
      logger_error ("Error cleaning IAM resources: " ++ e))) ;;
    logger_info "Completed IAM resource cleanup").

End clean.
End iam.


(** ** The worker of [aws_cleanup_gui.py] *)

Module aws_cleanup_gui.
Import aws.

(** The names of the resource types and the module each one imports,
    in the order in which [run_cleanup] fills [resource_modules]. *)
Definition module_names : list (string * cleaner_id) :=
  [ ("EC2", EC2); ("S3", S3); ("Lambda", Lambda); ("CloudFormation", CloudFormation);
    ("RDS", RDS); ("VPC", VPC); ("IAM", IAM) ].

(** The dictionary [resource_modules] for the selected [resources], as
    the list of its items. *)
Definition resource_modules (resources : list string) : list (string * cleaner_id) :=
  List.filter (fun item => str_in (fst item) resources) module_names.

Section run_cleanup.
Context {S : Type} `{Provider S}.
Local Open Scope py_scope.

(** [clean] of each module of [cleaner/], called with a region or, for
    IAM, without.  Python raises [TypeError] for the other calls. *)
Definition cleaner_modules (module : cleaner_id) (scope : option string) (dry_run : bool)
    : M S unit :=
  match module, scope with
  | EC2, Some region => ec2.clean region dry_run
  | S3, Some region => s3.clean region dry_run
  | Lambda, Some region => lambda_module.clean region dry_run
  | CloudFormation, Some region => cloudformation.clean region dry_run
  | RDS, Some region => rds.clean region dry_run
  | VPC, Some region => vpc.clean region dry_run
  | IAM, None => iam.clean dry_run
  | _, _ => raise (OtherError "TypeError: clean() got unexpected arguments")
  end.

(** The modules are a parameter of the worker, so that it can be
    studied with cleaners that behave in any way. *)
Variable modules : cleaner_id -> option string -> bool -> M S unit.

(** A call [module.clean(...)]: the events of the callee are recorded
    under one [EvClean]; a [return] of the callee ends the callee
    only. *)
Definition invoke (module : cleaner_id) (scope : option string) (dry_run : bool) : M S unit :=
  fun s =>
    let r := def (modules module scope dry_run) s in
    Run (out r) (final r)
        [EvClean module scope dry_run (trace r)
                 (match out r with Raised e => Some e | _ => None end)].

Definition clean_region (resources : list string) (dry_run : bool) (region : string)
    : M S unit :=
  logger_info ("Processing region: " ++ region) ;;
  for_each (resource_modules resources) (fun item =>
    let resource_name := fst item in
    let module := snd item in
    (* Skip IAM for region-based cleaning *)
    if String.eqb resource_name "IAM" then ret tt
    else
      logger_info ("Cleaning " ++ resource_name ++ " resources in " ++ region ++ "...") ;;
      try_ (
        invoke module (Some region) dry_run
      ) (except_Exception (fun e =>
        logger_error ("Error cleaning " ++ resource_name ++ " in " ++ region ++ ": " ++ e)))).

(* Create session *)
Definition create_boto_session (profile : string) : M S unit :=
  try_ (
    call None (create_session profile) ;;
    logger_info ("Successfully created session with profile: " ++ profile)
  ) (except_Exception (fun e =>
    logger_error ("Failed to create session with profile " ++ profile ++ ": " ++ e) ;;
    return_)).

(* Get all AWS regions *)
(** The request stands for the two lines of the [try]: the creation of
    the client and [describe_regions], either of which may raise. *)
Definition get_all_regions : M S (list string) :=
  try_ (
    regions <- call (Some "us-east-1") describe_regions ;;
    logger_info ("Found " ++ pystr.str_nat (length regions) ++ " AWS regions") ;;
    ret regions
  ) (except_Exception (fun e =>
    logger_error ("Failed to get AWS regions: " ++ e) ;;
    ret [])).

(* IAM is a global service, handle it separately *)
Definition clean_iam (resources : list string) (dry_run : bool) : M S unit :=
  when (str_in "IAM" resources) (
    logger_info "Cleaning IAM resources (global service)..." ;;
    try_ (
      invoke IAM None dry_run
    ) (except_Exception (fun e =>
      logger_error ("Error cleaning IAM resources: " ++ e)))).

(** [run_cleanup(profile, resources, dry_run)] *)
Definition run_cleanup_with (profile : string) (resources : list string) (dry_run : bool)
    : M S unit :=
  def (
    try_ (
      logger_info ("Starting cleanup with profile: " ++ profile) ;;
      logger_info ("Dry run mode: " ++ pystr.str_bool dry_run) ;;
      logger_info ("Selected resources: " ++ pystr.join ", " resources) ;;
      create_boto_session profile ;;
      regions <- get_all_regions ;;
      clean_iam resources dry_run ;;
      (* Clean resources in each region *)
      for_each regions (clean_region resources dry_run) ;;
      logger_info "Cleanup process completed"
    ) (except_Exception (fun e =>
      logger_error ("Cleanup process failed with error: " ++ e)))).

End run_cleanup.

(** The worker with the modules of [cleaner/]. *)
Definition run_cleanup {S : Type} `{Provider S} (profile : string) (resources : list string)
    (dry_run : bool) : M S unit :=
  run_cleanup_with cleaner_modules profile resources dry_run.

End aws_cleanup_gui.


(** ** The window of [aws_cleanup_gui.py] *)

Module AWSCleanerGUI.
Import aws pystr.

(** The variables of the window: [profile_var], [dry_run_var], the
    items of [resource_vars] in the order of the dictionary, and
    whether the start button is enabled. *)
Record gui := {
  profile_var : string;
  dry_run_var : bool;
  resource_vars : list (string * bool);
  start_button : bool
}.

(** What [start_cleanup] does besides setting variables: the dialogs
    it shows, with the answer to a question, the thread it starts and
    the call it schedules. *)
Inductive effect :=
  | showerror (title message : string)
  | askyesno (title message : string) (answer : bool)
  | start_thread (profile : string) (resources : list string) (dry_run : bool)
  | after (ms : nat).

(** [__init__] with [create_widgets], for the profiles that
    [get_aws_profiles] returns: the dry run is the default, for
    safety, and no resource is selected. *)
Definition init (profiles : list string) : gui :=
  {| profile_var := match profiles with
                    | profile :: _ => profile
                    | [] => ""
                    end;
     dry_run_var := true;
     resource_vars := [ ("EC2", false); ("S3", false); ("Lambda", false);
                        ("CloudFormation", false); ("RDS", false); ("VPC", false);
                        ("IAM", false) ];
     start_button := true |}.

(** [for var in self.resource_vars.values(): var.set(value)] *)
Definition set_all (value : bool) (g : gui) : gui :=
  {| profile_var := profile_var g;
     dry_run_var := dry_run_var g;
     resource_vars := map (fun item => (fst item, value)) (resource_vars g);
     start_button := start_button g |}.

(** Select all resource checkboxes *)
Definition select_all_resources (g : gui) : gui := set_all true g.

(** Deselect all resource checkboxes *)
Definition deselect_all_resources (g : gui) : gui := set_all false g.

(** [[name for name, var in self.resource_vars.items() if var.get()]] *)
Definition selected_resources (g : gui) : list string :=
  map fst (List.filter snd (resource_vars g)).

(** The text of the question that [start_cleanup] asks. *)
Definition warning (profile : string) (selected_resources : list string) (dry_run : bool)
    : string :=
  let mode_str := if dry_run then "DRY RUN" else "LIVE" in
  let warning := "WARNING: You are about to run in " +:+ mode_str +:+ " mode!"
                 +:+ String LF (String LF "") in
  let warning := if negb dry_run
                 then warning +:+ "THIS WILL PERMANENTLY DELETE AWS RESOURCES!"
                              +:+ String LF (String LF "")
                 else warning in
  warning +:+ "Profile: " +:+ profile +:+ String LF ("Resources: "
          +:+ join ", " selected_resources).

(** [start_cleanup()], where [answer] is what the user answers to the
    question, if it is asked.  The thread that it starts runs
    [run_cleanup] with the arguments given. *)
Definition start_cleanup (answer : bool) (g : gui) : gui * list effect :=
  let profile := profile_var g in
  if negb (truthy (Some profile)) then
    (g, [showerror "Error" "Please select an AWS profile"])
  else
  let selected_resources := selected_resources g in
  if is_nil selected_resources then
    (g, [showerror "Error" "Please select at least one resource type to clean"])
  else
  let dry_run := dry_run_var g in
  (* Confirm before proceeding *)
  let warning := warning profile selected_resources dry_run in
  if negb answer then (g, [askyesno "Confirm Cleanup" warning false]) else
  (* Disable start button during cleanup *)
  ({| profile_var := profile_var g; dry_run_var := dry_run_var g;
      resource_vars := resource_vars g; start_button := false |},
   [ askyesno "Confirm Cleanup" warning true;
     (* Start cleanup in a new thread to keep UI responsive *)
     start_thread profile selected_resources dry_run;
     (* Check thread status periodically *)
     after 100 ]).

End AWSCleanerGUI.

(** ** The configuration of [logging] in [aws_cleanup_gui.py] *)

Module logging_config.
Import aws.

(** [logging.INFO], [logging.WARNING] and [logging.ERROR] *)
Definition levelno (lvl : level) : nat :=
  match lvl with
  | INFO => 20
  | WARNING => 30
  | ERROR => 40
  end.

(** [logging.basicConfig(filename='aws_cleanup.log',
    level=logging.WARNING, ...)] sets the level of the root logger.
    The loggers of the modules, [logging.getLogger(__name__)], set no
    level of their own, so that this is their effective level. *)
Definition root_level : level := WARNING.

(** [logger.isEnabledFor(lvl)]: a call [logger.info], [logger.warning]
    or [logger.error] creates a record only when its level is enabled. *)
Definition isEnabledFor (lvl : level) : bool :=
  Nat.leb (levelno root_level) (levelno lvl).

End logging_config.

(** ** Accounts to run the cleaners on *)

Module accounts.
Import aws.

(** The answer of an account that holds nothing. *)
Definition nothing {R} (q : read R) : R :=
  match q in read R return R with
  | create_session _ => tt
  | describe_regions => []
  | instances_all => ([], None)
  | describe_security_groups _ => []
  | describe_addresses => []
  | volumes_all => ([], None)
  | get_caller_identity => None
  | describe_snapshots _ => []
  | describe_images _ => []
  | list_buckets => []
  | get_bucket_location _ => None
  | get_bucket_versioning _ => None
  | get_object_lock_configuration _ => false
  | list_functions => ([], None)
  | list_event_source_mappings _ => []
  | list_layers => ([], None)
  | list_layer_versions _ => ([], None)
  | list_stacks _ => ([], None)
  | list_stack_resources _ => []
  | describe_db_instances => ([], None)
  | describe_db_clusters => ([], None)
  | describe_db_snapshots => ([], None)
  | describe_db_cluster_snapshots => ([], None)
  | describe_db_parameter_groups => ([], None)
  | describe_db_cluster_parameter_groups => ([], None)
  | describe_db_subnet_groups => ([], None)
  | describe_option_groups => ([], None)
  | describe_event_subscriptions => []
  | describe_nat_gateways => []
  | describe_network_interfaces => []
  | describe_internet_gateways => []
  | describe_vpn_connections => []
  | describe_vpn_gateways => []
  | describe_transit_gateway_attachments => []
  | describe_transit_gateways => []
  | describe_vpcs => []
  | describe_route_tables _ => []
  | describe_subnets _ => []
  | describe_network_acls _ => []
  | describe_vpc_endpoints _ => []
  | describe_vpc_peering_connections => []
  | list_account_aliases => []
  | list_users => ([], None)
  | list_access_keys _ => []
  | list_user_policies _ => []
  | list_attached_user_policies _ => []
  | list_groups_for_user _ => []
  | list_mfa_devices _ => []
  | get_login_profile _ => tt
  | list_groups => ([], None)
  | list_group_policies _ => []
  | list_attached_group_policies _ => []
  | list_roles => ([], None)
  | list_role_policies _ => []
  | list_attached_role_policies _ => []
  | list_instance_profiles_for_role _ => []
  | list_policies_local => ([], None)
  | list_entities_for_policy _ =>
      {| PolicyUsers := []; PolicyGroups := []; PolicyRoles := [] |}
  | list_policy_versions _ => []
  end.

(** An account that answers every request in the same way throughout
    a run. *)
Record account := {
  listing : forall R : Type, option string -> read R -> result R;
  outcome : option string -> mutation -> result unit
}.

Global Instance account_provider : Provider account := {|
  answer R scope q s := (listing s R scope q, s);
  perform scope m s := (outcome s scope m, s);
  refuses h region s := None
|}.

(** An account with an RDS instance that is being deleted already. *)
Definition db_being_deleted : DBInstance :=
  {| DBInstanceIdentifier := "db-1"; dbi_Engine := Some "mysql";
     DBInstanceStatus := Some "deleting"; dbi_DBClusterIdentifier := None;
     dbi_DeletionProtection := false |}.

Definition with_db_being_deleted : account := {|
  listing R scope q :=
    match q in read R return result R with
    | describe_db_instances => Ok ([[db_being_deleted]], None)
    | q => Ok (nothing q)
    end;
  outcome scope m := Ok tt
|}.

(** An account with two VPCs. *)
Definition with_two_vpcs : account := {|
  listing R scope q :=
    match q in read R return result R with
    | describe_vpcs => Ok [ {| VpcId := "vpc-1"; vpc_IsDefault := true |};
                            {| VpcId := "vpc-2"; vpc_IsDefault := false |} ]
    | q => Ok (nothing q)
    end;
  outcome scope m := Ok tt
|}.

(** An account whose profile cannot be loaded. *)
Definition without_session : account := {|
  listing R scope q :=
    match q in read R return result R with
    | create_session profile_name =>
        Fail (OtherError ("The config profile (" ++ profile_name ++ ") could not be found"))
    | q => Ok (nothing q)
    end;
  outcome scope m := Ok tt
|}.


(** An account with two regions, where a stack in a failed state
    cannot be deleted. *)
Definition failed_stack : StackSummary :=
  {| StackName := "web"; StackId := "arn:web"; StackStatus := "DELETE_FAILED";
     RootId := None |}.

Definition with_failed_stack : account := {|
  listing R scope q :=
    match q in read R return result R with
    | describe_regions => Ok ["eu-west-1"; "us-east-1"]
    | list_stacks _ => Ok ([[failed_stack]], None)
    | q => Ok (nothing q)
    end;
  outcome scope m := Fail (ClientError "ValidationError")
|}.

(** Cleaners of which the one for EC2 cannot reach its endpoint. *)
Definition with_broken_ec2 (module : cleaner_id) (scope : option string) (dry_run : bool)
    : M account unit :=
  match module with
  | EC2 => raise (OtherError "Could not connect to the endpoint URL")
  | _ => aws_cleanup_gui.cleaner_modules module scope dry_run
  end.

(** An account with an instance that runs and one that is terminated. *)
Definition with_instances : account := {|
  listing R scope q :=
    match q in read R return result R with
    | instances_all =>
        Ok ([[ {| instance_id := "i-1"; instance_state := "running";
                  instance_tags := [] |};
               {| instance_id := "i-2"; instance_state := "terminated";
                  instance_tags := [ {| Key := "Name"; Value := "old" |} ] |} ]], None)
    | q => Ok (nothing q)
    end;
  outcome scope m := Ok tt
|}.

End accounts.

(** ** A log file to filter *)

Module log_examples.
Import pystr update_logging.


(** A process in [/work], at a time that stands still, that may do
    everything. *)
Definition demo_env (args : list string) : os_env :=
  {| cwd := ["work"]; argv := "update_logging.py" :: args;
     strftime_now := fun _ => "20240501_100500";
     searchable := fun _ => true; listable := fun _ => true;
     readable := fun _ => true; writable := fun _ => true;
     within_limits := fun _ => true |}.

(** A file system with the directories [/work] and [/data]. *)
Definition demo_state (work data : list (string * posix.node)) : os_state :=
  {| root := posix.Dir [("work", posix.Dir work); ("data", posix.Dir data)];
     clock := 0; io_log := [] |}.

(** A log with CR LF at the end of its lines and a form feed in the
    second one. *)
Definition dos_log : string :=
  "10:00:01 - WARNING - Deleting bucket: a" ++ String CR (String LF
  ("page 2" ++ String (ascii_of_nat 12) ("10:00:02 - WARNING - Successfully deleted bucket a"
   ++ String CR (String LF "")))).

End log_examples.


(** ** More accounts *)

Module more_accounts.
Import aws accounts.

(** An account in which every request succeeds and that holds a stack
    whose deletion has failed for one of its resources, with a stack
    nested in it. *)
Definition app_stack : StackSummary :=
  {| StackName := "app"; StackId := "arn:app"; StackStatus := "DELETE_FAILED";
     RootId := None |}.

Definition nested_stack : StackSummary :=
  {| StackName := "app-db"; StackId := "arn:app-db"; StackStatus := "CREATE_COMPLETE";
     RootId := Some "arn:app" |}.

Definition with_nested_stacks : account := {|
  listing R scope q :=
    match q in read R return result R with
    | list_stacks _ => Ok ([[app_stack; nested_stack]], None)
    | list_stack_resources _ =>
        Ok [ {| LogicalResourceId := "Bucket"; ResourceStatus := Some "DELETE_FAILED" |};
             {| LogicalResourceId := "Role"; ResourceStatus := Some "DELETE_COMPLETE" |} ]
    | q => Ok (nothing q)
    end;
  outcome scope m := Ok tt
|}.

(** An account in which every request succeeds and that holds
    resources of several kinds, some of which the cleaners skip. *)
Definition with_leftovers : account := {|
  listing R scope q :=
    match q in read R return result R with
    | describe_regions => Ok ["eu-west-1"]
    | instances_all =>
        Ok ([[ {| instance_id := "i-1"; instance_state := "running"; instance_tags := [] |};
               {| instance_id := "i-2"; instance_state := "terminated";
                  instance_tags := [] |} ]], None)
    | volumes_all =>
        Ok ([[ {| volume_id := "vol-1"; volume_state := "available"; volume_tags := [] |};
               {| volume_id := "vol-2"; volume_state := "in-use"; volume_tags := [] |} ]],
            None)
    | list_buckets => Ok [ {| bucket_Name := "logs" |}; {| bucket_Name := "assets" |} ]
    | get_bucket_location bucket =>
        Ok (if String.eqb bucket "logs" then Some "eu-west-1" else None)
    | get_bucket_versioning _ => Ok (Some "Enabled")
    | describe_db_instances =>
        Ok ([[ {| DBInstanceIdentifier := "db-1"; dbi_Engine := Some "postgres";
                  DBInstanceStatus := Some "available"; dbi_DBClusterIdentifier := None;
                  dbi_DeletionProtection := true |};
               {| DBInstanceIdentifier := "db-2"; dbi_Engine := Some "aurora";
                  DBInstanceStatus := Some "available";
                  dbi_DBClusterIdentifier := Some "cluster-1";
                  dbi_DeletionProtection := false |} ]], None)
    | describe_vpcs => Ok [ {| VpcId := "vpc-0"; vpc_IsDefault := true |};
                            {| VpcId := "vpc-1"; vpc_IsDefault := false |} ]
    | list_users => Ok ([[ {| UserName := "ci" |} ]], None)
    | list_access_keys _ => Ok [ {| AccessKeyId := "AKIA1" |} ]
    | q => Ok (nothing q)
    end;
  outcome scope m := Ok tt
|}.

(** An account in which every request succeeds and whose VPC has a
    subnet with IPv6 addresses only. *)
Definition with_ipv6_subnet : account := {|
  listing R scope q :=
    match q in read R return result R with
    | describe_vpcs => Ok [ {| VpcId := "vpc-1"; vpc_IsDefault := false |} ]
    | describe_subnets _ =>
        Ok [ {| SubnetId := "subnet-6"; CidrBlock := None; AvailabilityZone := "eu-west-1a" |} ]
    | q => Ok (nothing q)
    end;
  outcome scope m := Ok tt
|}.

(** A session that creates clients for some regions only. *)
Record session := {
  held : account;
  unknown_region : option string -> option string
}.

Global Instance session_provider : Provider session := {|
  answer R scope q s := (listing (held s) R scope q, s);
  perform scope m s := (outcome (held s) scope m, s);
  refuses h region s := unknown_region s region
|}.

(** A session that knows no region named [mars-1]. *)
Definition earthbound : session := {|
  held := with_leftovers;
  unknown_region region :=
    match region with
    | Some "mars-1" => Some "Could not connect to the endpoint URL"
    | _ => None
    end
|}.

End more_accounts.

(** * What the claims speak about *)

Local Open Scope list_scope.

(** ** The requests of a trace *)

Module trace_spec.
Import aws.

(** The events of a run that changes nothing: log entries and reading
    requests. *)
Definition read_only (ev : event) : Prop :=
  match ev with
  | EvLog _ _ | EvRead _ _ _ => True
  | EvMutate _ _ _ | EvSleep _ | EvClean _ _ _ _ _ => False
  end.

(** The changing requests of a trace, in order. *)
Definition mutations (t : list event) : list mutation :=
  flat_map (fun ev => match ev with EvMutate _ m _ => [m] | _ => [] end) t.

(** The entries of all the pages of a listing. *)
Definition entries {X} (p : pages X) : list X := concat (fst p).

End trace_spec.

(** ** The calls of the worker *)

Module worker_spec.
Import aws aws_cleanup_gui.

(** The calls of [clean] that a trace records, in order. *)
Definition invocations (t : list event) : list (cleaner_id * option string) :=
  flat_map (fun ev => match ev with
                      | EvClean module scope _ _ _ => [(module, scope)]
                      | _ => []
                      end) t.

(** The modules that [run_cleanup] calls in every region: those of
    [resource_modules] whose name is not IAM. *)
Definition regional_modules (resources : list string) : list cleaner_id :=
  map snd (List.filter (fun item => negb (String.eqb (fst item) "IAM"))
                       (resource_modules resources)).

(** The calls of a run that has a session, for the regions it found. *)
Definition expected_invocations (resources regions : list string)
    : list (cleaner_id * option string) :=
  (if str_in "IAM" resources then [(IAM, None)] else [])
  ++ flat_map (fun region => map (fun module => (module, Some region))
                                 (regional_modules resources)) regions.

(** Every call of [clean] that an exception leaves is followed at once
    by an entry of the log at level ERROR. *)
Definition caught_and_logged (t : list event) : Prop :=
  forall pre post module scope dry_run inner e,
    t = pre ++ EvClean module scope dry_run inner (Some e) :: post ->
    exists msg post', post = EvLog ERROR msg :: post'.

(** The regions that an event gives to the run: those of the answer to
    [describe_regions], none when the request fails. *)
Definition regions_of_event (ev : event) : option (list string) :=
  match ev with
  | EvRead _ q r =>
      match q in read R return result R -> option (list string) with
      | describe_regions => fun r => match r with
                                     | Ok regions => Some regions
                                     | Fail _ => Some []
                                     end
      | _ => fun _ => None
      end r
  | _ => None
  end.

Definition regions_found (t : list event) (regions : list string) : Prop :=
  In (Some regions) (map regions_of_event t).

(** Whether an event is the creation of the session, and its result. *)
Definition session_of_event (ev : event) : option bool :=
  match ev with
  | EvRead _ q r =>
      match q with
      | create_session _ => Some (match r with Ok _ => true | Fail _ => false end)
      | _ => None
      end
  | _ => None
  end.

Definition session_created (t : list event) : Prop :=
  In (Some true) (map session_of_event t).

Definition session_failed (t : list event) : Prop :=
  In (Some false) (map session_of_event t).

(** What the worker itself does: it writes to the log, reads, and
    calls the cleaners of [cleaner/], in the mode of the run. *)
Definition worker_event {S : Type} `{Provider S} (dry_run : bool) (ev : event) : Prop :=
  match ev with
  | EvLog _ _ | EvRead _ _ _ => True
  | EvClean module scope mode inner _ =>
      mode = dry_run /\ exists s : S, inner = trace (cleaner_modules module scope mode s)
  | EvMutate _ _ _ | EvSleep _ => False
  end.

(** An event of the worker that changes nothing: a log entry, a
    reading request, or a call of a cleaner that only logs and reads. *)
Definition changes_nothing (ev : event) : Prop :=
  match ev with
  | EvLog _ _ | EvRead _ _ _ => True
  | EvClean _ _ _ inner _ => Forall trace_spec.read_only inner
  | EvMutate _ _ _ | EvSleep _ => False
  end.

End worker_spec.

(** ** The lines of the log filter and its argument *)

Module log_spec.
Import pystr update_logging.





(** *** The text of a file, in words of its own

    The definitions that follow say what the lines of a text are and
    what it is to replace a marker, without the functions of the
    script. *)

(** [p] occurs in [s]. *)
Definition occurs (p s : string) : Prop := exists a b, s = a +:+ p +:+ b.

Definition byte (n : nat) : string := String (ascii_of_nat n) "".







(** [text] is [bytes] with every CR LF, and every CR that no LF
    follows, turned into one LF: the text that Python reads from a
    file with these bytes. *)
Inductive newlines_unified : string -> string -> Prop :=
  | unified_nil : newlines_unified "" ""
  | unified_CRLF rest text :
      newlines_unified rest text ->
      newlines_unified (byte 13 +:+ byte 10 +:+ rest) (byte 10 +:+ text)
  | unified_CR rest text :
      (forall rest', rest <> byte 10 +:+ rest') -> newlines_unified rest text ->
      newlines_unified (byte 13 +:+ rest) (byte 10 +:+ text)
  | unified_other c rest text :
      c <> ascii_of_nat 13 -> newlines_unified rest text ->
      newlines_unified (String c rest) (String c text).

(** *** The backup *)

(** The file beside [k] whose name is the name of [k] with [suffix]. *)
Definition beside (k : posix.key) (suffix : string) : posix.key :=
  (removelast k ++ [List.last k "" +:+ suffix])%list.

(** The backup of the file [k] at the time [timestamp]. *)
Definition backup_key (k : posix.key) (timestamp : string) : posix.key :=
  beside k ("." +:+ timestamp +:+ ".bak").

(** A time stamp holds neither a slash nor a NUL byte, as the digits
    and the underscore of [%Y%m%d_%H%M%S] do not. *)
Definition timestamp_ok (timestamp : string) : Prop :=
  contains "/" timestamp = false /\ contains NUL timestamp = false.

End log_spec.

(** ** What the listings entitle the cleaners to change *)

Module entitlements.
Import aws trace_spec.

(** *** The requests one listed entry entitles to

    Each function follows the guards of the loop body that handles the
    entry: an entry that the body skips entitles to nothing. *)

Definition for_instance (i : Instance) : list mutation :=
  if str_in (instance_state i) ["terminated"; "shutting-down"] then []
  else [ec2.terminate (instance_id i)].

Definition for_security_group (sg : SecurityGroup) : list mutation :=
  if String.eqb (GroupName sg) "default" then []
  else [ec2.delete_security_group (GroupId sg)].

Definition for_address (eip : Address) : list mutation :=
  if pystr.truthy (AllocationId eip) then [ec2.release_address (get_or "" (AllocationId eip))]
  else [].

Definition for_volume (v : Volume) : list mutation :=
  if String.eqb (volume_state v) "in-use" then [] else [ec2.volume_delete (volume_id v)].

Definition for_snapshot (s : Snapshot) : list mutation := [ec2.delete_snapshot (SnapshotId s)].

Definition for_mapping (bdm : BlockDeviceMapping) : list mutation :=
  match Ebs_SnapshotId bdm with
  | Some snapshot_id => [ec2.delete_snapshot snapshot_id]
  | None => []
  end.

Definition for_image (image : Image) : list mutation :=
  ec2.deregister_image (ImageId image) :: flat_map for_mapping (BlockDeviceMappings image).

Definition for_bucket (b : Bucket) : list mutation :=
  [s3.objects_all_delete (bucket_Name b); s3.delete_bucket_lifecycle (bucket_Name b);
   s3.delete_bucket_policy (bucket_Name b); s3.delete_bucket (bucket_Name b)].

Definition is_versioned (status : option string) : bool :=
  match status with
  | Some status => String.eqb status "Enabled" || String.eqb status "Suspended"
  | None => false
  end.

Definition for_function (f : Function_) : list mutation :=
  [lambda_module.delete_function (FunctionName f)].

Definition for_stack (stack : StackSummary) : list mutation :=
  if str_in (StackStatus stack) ["DELETE_IN_PROGRESS"] then []
  else if cloudformation.is_nested stack then []
  else if str_in (StackStatus stack)
                 ["CREATE_FAILED"; "ROLLBACK_FAILED"; "UPDATE_ROLLBACK_FAILED"; "DELETE_FAILED"]
  then [cloudformation.delete_stack (StackName stack) [];
        cloudformation.delete_stack (StackName stack) []]
  else [cloudformation.delete_stack (StackName stack) []].

Definition for_stack_resources (stack_name : string) (resources : list StackResource)
    : list mutation :=
  let retain := map LogicalResourceId (List.filter cloudformation.resource_failed resources) in
  if is_nil retain then [] else [cloudformation.delete_stack stack_name retain].

Definition for_db_instance (i : DBInstance) : list mutation :=
  match dbi_DBClusterIdentifier i with
  | Some _ => []
  | None =>
      (if dbi_DeletionProtection i then [rds.modify_db_instance (DBInstanceIdentifier i)]
       else [])
      ++ [rds.delete_db_instance (DBInstanceIdentifier i)]
  end.

Definition for_db_cluster (c : DBCluster) : list mutation :=
  (if dbc_DeletionProtection c then [rds.modify_db_cluster (DBClusterIdentifier c)] else [])
  ++ [rds.delete_db_cluster (DBClusterIdentifier c)].

Definition for_db_parameter_group (g : DBParameterGroup) : list mutation :=
  if rds.is_default_parameter_group (DBParameterGroupName g) then []
  else [rds.delete_db_parameter_group (DBParameterGroupName g)].

Definition for_db_cluster_parameter_group (g : DBClusterParameterGroup) : list mutation :=
  if rds.is_default_parameter_group (DBClusterParameterGroupName g) then []
  else [rds.delete_db_cluster_parameter_group (DBClusterParameterGroupName g)].

Definition for_option_group (g : OptionGroup) : list mutation :=
  if rds.is_default_option_group (OptionGroupName g) then []
  else [rds.delete_option_group (OptionGroupName g)].

Definition for_nat_gateway (nat : NatGateway) : list mutation :=
  if str_in (nat_State nat) ["deleting"; "deleted"] then []
  else [vpc.delete_nat_gateway (NatGatewayId nat)].

Definition for_network_interface (eni : NetworkInterface) : list mutation :=
  if str_in (eni_Status eni) ["in-use"; "detaching"; "deleting"] then []
  else [vpc.delete_network_interface (NetworkInterfaceId eni)].

Definition for_internet_gateway (igw : InternetGateway) : list mutation :=
  flat_map (fun a => if pystr.truthy (igwa_VpcId a)
                     then [vpc.detach_internet_gateway (InternetGatewayId igw)
                                                       (get_or "" (igwa_VpcId a))]
                     else []) (igw_Attachments igw)
  ++ [vpc.delete_internet_gateway (InternetGatewayId igw)].

Definition for_vpn_connection (vpn : VpnConnection) : list mutation :=
  if str_in (vpn_State vpn) ["deleting"; "deleted"] then []
  else [vpc.delete_vpn_connection (VpnConnectionId vpn)].

Definition for_vpn_gateway (vgw : VpnGateway) : list mutation :=
  if str_in (vgw_State vgw) ["deleting"; "deleted"] then []
  else flat_map (fun a => if vpc.attachment_live a
                          then [vpc.detach_vpn_gateway (VpnGatewayId vgw)
                                                       (get_or "" (vgwa_VpcId a))]
                          else []) (VpcAttachments vgw)
       ++ [vpc.delete_vpn_gateway (VpnGatewayId vgw)].

Definition for_transit_gateway_attachment (a : TransitGatewayAttachment) : list mutation :=
  if str_in (tga_State a) ["deleting"; "deleted"] then []
  else [vpc.delete_transit_gateway_vpc_attachment (TransitGatewayAttachmentId a)].

Definition for_transit_gateway (tgw : TransitGateway) : list mutation :=
  if str_in (tgw_State tgw) ["deleting"; "deleted"] then []
  else [vpc.delete_transit_gateway (TransitGatewayId tgw)].

Definition for_vpc (v : Vpc) : list mutation :=
  if vpc_IsDefault v then [] else [vpc.delete_vpc (VpcId v)].

Definition for_route_table (rt : RouteTable) : list mutation :=
  if existsb rta_Main (rt_Associations rt) then []
  else flat_map (fun a => match rta_SubnetId a with
                          | Some _ => [vpc.disassociate_route_table (RouteTableAssociationId a)]
                          | None => []
                          end) (rt_Associations rt)
       ++ [vpc.delete_route_table (RouteTableId rt)].

Definition for_network_acl (acl : NetworkAcl) : list mutation :=
  if acl_IsDefault acl then [] else [vpc.delete_network_acl (NetworkAclId acl)].

Definition for_peering (p : VpcPeeringConnection) : list mutation :=
  if str_in (get_or "unknown" (peer_Status_Code p)) ["deleted"; "rejected"; "failed"; "expired"]
  then [] else [vpc.delete_vpc_peering_connection (VpcPeeringConnectionId p)].

Definition for_role (role : Role) : list mutation :=
  if iam.is_service_linked role then [] else [iam.delete_role (RoleName role)].

Definition for_policy_entities (arn : string) (e : PolicyEntities) : list mutation :=
  map (fun u => iam.detach_user_policy (UserName u) arn) (PolicyUsers e)
  ++ map (fun g => iam.detach_group_policy (iam_GroupName g) arn) (PolicyGroups e)
  ++ map (fun r => iam.detach_role_policy (RoleName r) arn) (PolicyRoles e).

Definition for_policy_version (arn : string) (v : PolicyVersion) : list mutation :=
  if IsDefaultVersion v then [] else [iam.delete_policy_version arn (VersionId v)].

(** *** The requests the answer to a reading request entitles to *)

Definition licence_of {R : Type} (q : read R) : R -> list mutation :=
  match q in read R return R -> list mutation with
  | instances_all => fun p => flat_map for_instance (entries p)
  | describe_security_groups _ => flat_map for_security_group
  | describe_addresses => flat_map for_address
  | volumes_all => fun p => flat_map for_volume (entries p)
  | describe_snapshots _ => flat_map for_snapshot
  | describe_images _ => flat_map for_image
  | list_buckets => flat_map for_bucket
  | get_bucket_versioning bucket =>
      fun status => if is_versioned status then [s3.object_versions_delete bucket] else []
  | list_functions => fun p => flat_map for_function (entries p)
  | list_event_source_mappings _ =>
      map (fun m => lambda_module.delete_event_source_mapping (UUID m))
  | list_layer_versions layer =>
      fun p => map (fun v => lambda_module.delete_layer_version layer (fmt (Version v)))
                   (entries p)
  | list_stacks _ => fun p => flat_map for_stack (entries p)
  | list_stack_resources stack_name => for_stack_resources stack_name
  | describe_db_instances => fun p => flat_map for_db_instance (entries p)
  | describe_db_clusters => fun p => flat_map for_db_cluster (entries p)
  | describe_db_snapshots =>
      fun p => map (fun x => rds.delete_db_snapshot (DBSnapshotIdentifier x)) (entries p)
  | describe_db_cluster_snapshots =>
      fun p => map (fun x => rds.delete_db_cluster_snapshot (DBClusterSnapshotIdentifier x))
                   (entries p)
  | describe_db_parameter_groups => fun p => flat_map for_db_parameter_group (entries p)
  | describe_db_cluster_parameter_groups =>
      fun p => flat_map for_db_cluster_parameter_group (entries p)
  | describe_db_subnet_groups =>
      fun p => map (fun x => rds.delete_db_subnet_group (DBSubnetGroupName x)) (entries p)
  | describe_option_groups => fun p => flat_map for_option_group (entries p)
  | describe_event_subscriptions =>
      map (fun x => rds.delete_event_subscription (CustSubscriptionId x))
  | describe_nat_gateways => flat_map for_nat_gateway
  | describe_network_interfaces => flat_map for_network_interface
  | describe_internet_gateways => flat_map for_internet_gateway
  | describe_vpn_connections => flat_map for_vpn_connection
  | describe_vpn_gateways => flat_map for_vpn_gateway
  | describe_transit_gateway_attachments => flat_map for_transit_gateway_attachment
  | describe_transit_gateways => flat_map for_transit_gateway
  | describe_vpcs => flat_map for_vpc
  | describe_route_tables _ => flat_map for_route_table
  | describe_subnets _ => map (fun x => vpc.delete_subnet (SubnetId x))
  | describe_network_acls _ => flat_map for_network_acl
  | describe_vpc_endpoints _ => map (fun x => vpc.delete_vpc_endpoints (VpcEndpointId x))
  | describe_vpc_peering_connections => flat_map for_peering
  | list_users => fun p => map (fun u => iam.delete_user (UserName u)) (entries p)
  | list_access_keys user => map (fun k => iam.delete_access_key user (AccessKeyId k))
  | list_user_policies user => map (iam.delete_user_policy user)
  | list_attached_user_policies user =>
      map (fun p => iam.detach_user_policy user (PolicyArn p))
  | list_groups_for_user user =>
      map (fun g => iam.remove_user_from_group user (iam_GroupName g))
  | list_mfa_devices user => map (fun d => iam.deactivate_mfa_device user (SerialNumber d))
  | get_login_profile user => fun _ => [iam.delete_login_profile user]
  | list_groups => fun p => map (fun g => iam.delete_group (iam_GroupName g)) (entries p)
  | list_group_policies group => map (iam.delete_group_policy group)
  | list_attached_group_policies group =>
      map (fun p => iam.detach_group_policy group (PolicyArn p))
  | list_roles => fun p => flat_map for_role (entries p)
  | list_role_policies role => map (iam.delete_role_policy role)
  | list_attached_role_policies role =>
      map (fun p => iam.detach_role_policy role (PolicyArn p))
  | list_instance_profiles_for_role role =>
      flat_map (fun p => [iam.remove_role_from_instance_profile (InstanceProfileName p) role;
                          iam.delete_instance_profile (InstanceProfileName p)])
  | list_policies_local => fun p => map (fun x => iam.delete_policy (policy_Arn x)) (entries p)
  | list_entities_for_policy arn => for_policy_entities arn
  | list_policy_versions arn => flat_map (for_policy_version arn)
  | _ => fun _ => []
  end.

Definition licence (ev : event) : list mutation :=
  match ev with
  | EvRead _ q (Ok x) => licence_of q x
  | _ => []
  end.

Definition licences (t : list event) : list mutation := flat_map licence t.

(** *** Counting requests *)

Definition occ (k : mutation) (l : list mutation) : nat := count_occ mutation_eq_dec l k.

(** Every request occurs in [l1] at most as often as in [l2]. *)
Definition le_bag (l1 l2 : list mutation) : Prop := forall k, occ k l1 <= occ k l2.

End entitlements.

(** ** What a trace lists *)

Module listings.
Import aws trace_spec.

(** The entries of one kind in the answer to a reading request. *)
Definition listing {X} (sel : forall R, read R -> R -> list X) (ev : event) : list X :=
  match ev with
  | EvRead _ q (Ok x) => sel _ q x
  | _ => []
  end.

(** The entries of one kind that the answers in a trace list. *)
Definition listed {X} (sel : forall R, read R -> R -> list X) (t : list event) (d : X) : Prop :=
  exists ev, In ev t /\ In d (listing sel ev).

(** The selections of the entries of each kind. *)
Definition instances_of R (q : read R) : R -> list Instance :=
  match q in read R return R -> list Instance with
  | instances_all => entries
  | _ => fun _ => []
  end.

Definition nat_gateways_of R (q : read R) : R -> list NatGateway :=
  match q in read R return R -> list NatGateway with
  | describe_nat_gateways => fun l => l
  | _ => fun _ => []
  end.

Definition network_interfaces_of R (q : read R) : R -> list NetworkInterface :=
  match q in read R return R -> list NetworkInterface with
  | describe_network_interfaces => fun l => l
  | _ => fun _ => []
  end.

Definition vpn_connections_of R (q : read R) : R -> list VpnConnection :=
  match q in read R return R -> list VpnConnection with
  | describe_vpn_connections => fun l => l
  | _ => fun _ => []
  end.

Definition vpn_gateways_of R (q : read R) : R -> list VpnGateway :=
  match q in read R return R -> list VpnGateway with
  | describe_vpn_gateways => fun l => l
  | _ => fun _ => []
  end.

Definition transit_gateway_attachments_of R (q : read R) : R -> list TransitGatewayAttachment :=
  match q in read R return R -> list TransitGatewayAttachment with
  | describe_transit_gateway_attachments => fun l => l
  | _ => fun _ => []
  end.

Definition transit_gateways_of R (q : read R) : R -> list TransitGateway :=
  match q in read R return R -> list TransitGateway with
  | describe_transit_gateways => fun l => l
  | _ => fun _ => []
  end.

Definition peering_connections_of R (q : read R) : R -> list VpcPeeringConnection :=
  match q in read R return R -> list VpcPeeringConnection with
  | describe_vpc_peering_connections => fun l => l
  | _ => fun _ => []
  end.

Definition stacks_of R (q : read R) : R -> list StackSummary :=
  match q in read R return R -> list StackSummary with
  | list_stacks _ => entries
  | _ => fun _ => []
  end.

Definition vpcs_of R (q : read R) : R -> list Vpc :=
  match q in read R return R -> list Vpc with
  | describe_vpcs => fun l => l
  | _ => fun _ => []
  end.

Definition security_groups_of R (q : read R) : R -> list SecurityGroup :=
  match q in read R return R -> list SecurityGroup with
  | describe_security_groups _ => fun l => l
  | _ => fun _ => []
  end.

Definition network_acls_of R (q : read R) : R -> list NetworkAcl :=
  match q in read R return R -> list NetworkAcl with
  | describe_network_acls _ => fun l => l
  | _ => fun _ => []
  end.

Definition db_parameter_groups_of R (q : read R) : R -> list DBParameterGroup :=
  match q in read R return R -> list DBParameterGroup with
  | describe_db_parameter_groups => entries
  | _ => fun _ => []
  end.

Definition db_cluster_parameter_groups_of R (q : read R) : R -> list DBClusterParameterGroup :=
  match q in read R return R -> list DBClusterParameterGroup with
  | describe_db_cluster_parameter_groups => entries
  | _ => fun _ => []
  end.

Definition roles_of R (q : read R) : R -> list Role :=
  match q in read R return R -> list Role with
  | list_roles => entries
  | _ => fun _ => []
  end.

End listings.

(** ** The stacks that are deleted *)

Module stack_spec.
Import aws listings.

(** A [delete_stack] request names a stack among [P] that is not being
    deleted already. *)
Definition stack_request (P : StackSummary -> Prop) (ev : event) : Prop :=
  match ev with
  | EvMutate _ m _ =>
      String.eqb (method m) "delete_stack" = true ->
      exists stack, P stack /\ head (arguments m) = Some (StackName stack)
                    /\ str_in (StackStatus stack) ["DELETE_IN_PROGRESS"] = false
  | _ => True
  end.

(** Every [delete_stack] request of the trace names a stack that the
    trace lists. *)
Definition stacks_listed (t : list event) : Prop :=
  Forall (stack_request (listed stacks_of t)) t.

End stack_spec.

(** ** The order of the steps of the VPC cleaner *)

Module vpc_plan.
Import aws.

(** The resource types of the declared sequence; the route tables
    stand for the steps 8 and 9, which the code takes together. *)
Inductive step :=
  | NatGateways | NetworkInterfaces | InternetGateways | VpnConnections | VpnGateways
  | TransitGatewayAttachments | TransitGateways
  | RouteTables | Subnets | SecurityGroups | NetworkAcls | VpcEndpoints
  | PeeringConnections | Vpcs.

Definition rank (k : step) : nat :=
  match k with
  | NatGateways => 1 | NetworkInterfaces => 2 | InternetGateways => 3
  | VpnConnections => 4 | VpnGateways => 5 | TransitGatewayAttachments => 6
  | TransitGateways => 7 | RouteTables => 9 | Subnets => 10 | SecurityGroups => 11
  | NetworkAcls => 12 | VpcEndpoints => 13 | PeeringConnections => 14 | Vpcs => 15
  end.

(** A request of the cleaner, as the resource type it works on and,
    where the request names one, the VPC. *)
Definition label : Type := step * option string.

Definition step_of_read {R} (q : read R) : option label :=
  match q with
  | describe_nat_gateways => Some (NatGateways, None)
  | describe_network_interfaces => Some (NetworkInterfaces, None)
  | describe_internet_gateways => Some (InternetGateways, None)
  | describe_vpn_connections => Some (VpnConnections, None)
  | describe_vpn_gateways => Some (VpnGateways, None)
  | describe_transit_gateway_attachments => Some (TransitGatewayAttachments, None)
  | describe_transit_gateways => Some (TransitGateways, None)
  | describe_route_tables vpc_id => Some (RouteTables, Some vpc_id)
  | describe_subnets vpc_id => Some (Subnets, Some vpc_id)
  | describe_security_groups vpc_id => Some (SecurityGroups, vpc_id)
  | describe_network_acls vpc_id => Some (NetworkAcls, Some vpc_id)
  | describe_vpc_endpoints vpc_id => Some (VpcEndpoints, Some vpc_id)
  | describe_vpc_peering_connections => Some (PeeringConnections, None)
  | _ => None
  end.

Definition method_steps : list (string * step) :=
  [ ("delete_nat_gateway", NatGateways);
    ("delete_network_interface", NetworkInterfaces);
    ("detach_internet_gateway", InternetGateways);
    ("delete_internet_gateway", InternetGateways);
    ("delete_vpn_connection", VpnConnections);
    ("detach_vpn_gateway", VpnGateways);
    ("delete_vpn_gateway", VpnGateways);
    ("delete_transit_gateway_vpc_attachment", TransitGatewayAttachments);
    ("delete_transit_gateway", TransitGateways);
    ("disassociate_route_table", RouteTables);
    ("delete_route_table", RouteTables);
    ("delete_subnet", Subnets);
    ("delete_security_group", SecurityGroups);
    ("delete_network_acl", NetworkAcls);
    ("delete_vpc_endpoints", VpcEndpoints);
    ("delete_vpc_peering_connection", PeeringConnections);
    ("delete_vpc", Vpcs) ].

Definition step_of_method (m : string) : option step :=
  option_map snd (find (fun item => String.eqb (fst item) m) method_steps).

Definition label_of (ev : event) : option label :=
  match ev with
  | EvRead _ q _ => step_of_read q
  | EvMutate _ m _ => option_map (fun k => (k, None)) (step_of_method (method m))
  | _ => None
  end.

(** The requests of a trace, in order. *)
Definition labels (t : list event) : list label :=
  flat_map (fun ev => match label_of ev with Some l => [l] | None => [] end) t.

(** The claim as it is written: one pass through the resource
    types. *)
Fixpoint in_declared_order (l : list label) : bool :=
  match l with
  | [] => true
  | x :: rest =>
      match rest with
      | [] => true
      | y :: _ => Nat.leb (rank (fst x)) (rank (fst y)) && in_declared_order rest
      end
  end.

(** The requests [l] come in consecutive phases, each phase holding
    requests of one sort only. *)
Fixpoint follows (phases : list (label -> Prop)) (l : list label) : Prop :=
  match phases with
  | [] => l = []
  | p :: ps => exists l1 l2, l = l1 ++ l2 /\ Forall p l1 /\ follows ps l2
  end.

Definition in_step (k : step) : label -> Prop := fun l => fst l = k.

Definition of_vpc (vpc : Vpc) (k : step) : label -> Prop :=
  fun l => fst l = k /\ (snd l = None \/ snd l = Some (VpcId vpc)).

Definition region_steps : list (label -> Prop) :=
  map in_step [NatGateways; NetworkInterfaces; InternetGateways; VpnConnections;
               VpnGateways; TransitGatewayAttachments; TransitGateways].

Definition vpc_steps (vpc : Vpc) : list (label -> Prop) :=
  map (of_vpc vpc) [RouteTables; Subnets; SecurityGroups; NetworkAcls; VpcEndpoints].

Definition final_steps : list (label -> Prop) := map in_step [PeeringConnections; Vpcs].

(** What follows the listing of the VPCs: nothing when there is none. *)
Definition vpc_plan (vpcs : list Vpc) : list (label -> Prop) :=
  if is_nil vpcs then [] else flat_map vpc_steps vpcs ++ final_steps.

Definition plan (vpcs : list Vpc) : list (label -> Prop) := region_steps ++ vpc_plan vpcs.

End vpc_plan.


(** * What the further properties speak about *)

(** ** How a call of [clean] ends *)

Module ending_spec.
Import aws.

(** The way a piece of code is left. *)
Inductive ending :=
  | Normal                (* it ran to its end *)
  | Raising (e : exn)     (* an exception left it *)
  | Returning.            (* a [return] left it *)

Definition ending_of {A} (o : outcome A) : ending :=
  match o with
  | Done _ => Normal
  | Raised e => Raising e
  | Returned => Returning
  end.

(** The argument that [run_cleanup] gives to [clean]: a region, and
    none for IAM. *)
Definition scope_for (module : cleaner_id) (region : string) : option string :=
  match module with
  | IAM => None
  | _ => Some region
  end.

(** The last statement of each [clean]. *)
Definition completed (module : cleaner_id) (region : string) : string :=
  match module with
  | EC2 => "Completed EC2 resource cleanup in " +:+ region
  | S3 => "Completed S3 resource cleanup in " +:+ region
  | Lambda => "Completed Lambda resource cleanup in " +:+ region
  | CloudFormation => "Completed CloudFormation stack cleanup in " +:+ region
  | RDS => "Completed RDS resource cleanup in " +:+ region
  | VPC => "Completed VPC resource cleanup in " +:+ region
  | IAM => "Completed IAM resource cleanup"
  end.

(** What the two cleaners that [return] early log before they do. *)
Definition nothing_found (module : cleaner_id) (region : string) : option string :=
  match module with
  | S3 => Some ("No S3 buckets found in " +:+ region)
  | VPC => Some ("No VPCs found in " +:+ region)
  | _ => None
  end.

End ending_spec.

(** ** Where the requests go *)

Module scope_spec.
Import aws.

(** Whether a reading request asks STS for the identity of the caller:
    the one client that [cleaner/] creates without a region in a
    module that works on a region. *)
Definition is_caller_identity {R} (q : read R) : bool :=
  match q with
  | get_caller_identity => true
  | _ => false
  end.

(** An event of a cleaner that works on [region]: a request goes to a
    client of that region, or to STS. *)
Definition in_region (region : string) (ev : event) : Prop :=
  match ev with
  | EvRead scope q _ => scope = (if is_caller_identity q then None else Some region)
  | EvMutate scope _ _ => scope = Some region
  | EvLog _ _ | EvSleep _ => True
  | EvClean _ _ _ _ _ => False
  end.

(** An event of the cleaner of IAM: a request goes to a client without
    region. *)
Definition without_region (ev : event) : Prop :=
  match ev with
  | EvRead scope _ _ | EvMutate scope _ _ => scope = None
  | EvLog _ _ | EvSleep _ => True
  | EvClean _ _ _ _ _ => False
  end.

Definition in_scope (scope : option string) : event -> Prop :=
  match scope with
  | Some region => in_region region
  | None => without_region
  end.

(** An event of the worker whose call of [clean], if it is one, keeps
    to the scope of the call. *)
Definition confined (ev : event) : Prop :=
  match ev with
  | EvClean _ scope _ inner _ => Forall (in_scope scope) inner
  | _ => True
  end.

End scope_spec.

(** ** The time a cleaner sleeps *)

Module pause_spec.
Import aws.

(** The seconds that a trace spends in [time.sleep]. *)
Definition slept (t : list event) : nat :=
  list_sum (flat_map (fun ev => match ev with EvSleep n => [n] | _ => [] end) t).

(** The changing requests of a trace that call one of [methods], and
    those among them that succeed. *)
Definition sent (methods : list string) (t : list event) : nat :=
  length (List.filter (fun ev => match ev with
                                 | EvMutate _ m _ => str_in (method m) methods
                                 | _ => false
                                 end) t).

Definition succeeded (methods : list string) (t : list event) : nat :=
  length (List.filter (fun ev => match ev with
                                 | EvMutate _ m (Ok _) => str_in (method m) methods
                                 | _ => false
                                 end) t).

(** The seconds that the requests of a trace make a cleaner sleep:
    ten after deletion protection is switched off, five before a VPN
    gateway is deleted. *)
Definition sleep_due (module : cleaner_id) (t : list event) : nat :=
  match module with
  | RDS => 10 * succeeded ["modify_db_instance"; "modify_db_cluster"] t
  | VPC => 5 * sent ["delete_vpn_gateway"] t
  | _ => 0
  end.

End pause_spec.

(** ** The order of the requests of a cleaner *)

Module order_spec.
Import aws.

(** The method that a reading request calls. *)
Definition read_name {R} (q : read R) : string :=
  match q with
  | create_session _ => "boto3.Session"
  | describe_regions => "describe_regions"
  | instances_all => "instances.all"
  | describe_security_groups _ => "describe_security_groups"
  | describe_addresses => "describe_addresses"
  | volumes_all => "volumes.all"
  | get_caller_identity => "get_caller_identity"
  | describe_snapshots _ => "describe_snapshots"
  | describe_images _ => "describe_images"
  | list_buckets => "list_buckets"
  | get_bucket_location _ => "get_bucket_location"
  | get_bucket_versioning _ => "get_bucket_versioning"
  | get_object_lock_configuration _ => "get_object_lock_configuration"
  | list_functions => "list_functions"
  | list_event_source_mappings _ => "list_event_source_mappings"
  | list_layers => "list_layers"
  | list_layer_versions _ => "list_layer_versions"
  | list_stacks _ => "list_stacks"
  | list_stack_resources _ => "list_stack_resources"
  | describe_db_instances => "describe_db_instances"
  | describe_db_clusters => "describe_db_clusters"
  | describe_db_snapshots => "describe_db_snapshots"
  | describe_db_cluster_snapshots => "describe_db_cluster_snapshots"
  | describe_db_parameter_groups => "describe_db_parameter_groups"
  | describe_db_cluster_parameter_groups => "describe_db_cluster_parameter_groups"
  | describe_db_subnet_groups => "describe_db_subnet_groups"
  | describe_option_groups => "describe_option_groups"
  | describe_event_subscriptions => "describe_event_subscriptions"
  | describe_nat_gateways => "describe_nat_gateways"
  | describe_network_interfaces => "describe_network_interfaces"
  | describe_internet_gateways => "describe_internet_gateways"
  | describe_vpn_connections => "describe_vpn_connections"
  | describe_vpn_gateways => "describe_vpn_gateways"
  | describe_transit_gateway_attachments => "describe_transit_gateway_attachments"
  | describe_transit_gateways => "describe_transit_gateways"
  | describe_vpcs => "describe_vpcs"
  | describe_route_tables _ => "describe_route_tables"
  | describe_subnets _ => "describe_subnets"
  | describe_network_acls _ => "describe_network_acls"
  | describe_vpc_endpoints _ => "describe_vpc_endpoints"
  | describe_vpc_peering_connections => "describe_vpc_peering_connections"
  | list_account_aliases => "list_account_aliases"
  | list_users => "list_users"
  | list_access_keys _ => "list_access_keys"
  | list_user_policies _ => "list_user_policies"
  | list_attached_user_policies _ => "list_attached_user_policies"
  | list_groups_for_user _ => "list_groups_for_user"
  | list_mfa_devices _ => "list_mfa_devices"
  | get_login_profile _ => "get_login_profile"
  | list_groups => "list_groups"
  | list_group_policies _ => "list_group_policies"
  | list_attached_group_policies _ => "list_attached_group_policies"
  | list_roles => "list_roles"
  | list_role_policies _ => "list_role_policies"
  | list_attached_role_policies _ => "list_attached_role_policies"
  | list_instance_profiles_for_role _ => "list_instance_profiles_for_role"
  | list_policies_local => "list_policies"
  | list_entities_for_policy _ => "list_entities_for_policy"
  | list_policy_versions _ => "list_policy_versions"
  end.

(** The requests of a trace, by the method they call, in order. *)
Definition requests (t : list event) : list string :=
  flat_map (fun ev => match ev with
                      | EvRead _ q _ => [read_name q]
                      | EvMutate _ m _ => [method m]
                      | _ => []
                      end) t.

(** The requests [l] come in consecutive stages, those of each stage
    calling methods of that stage only.  A stage may be empty. *)
Fixpoint staged (stages : list (list string)) (l : list string) : Prop :=
  match stages with
  | [] => l = []
  | stage :: rest =>
      exists l1 l2, l = l1 ++ l2 /\ Forall (fun x => str_in x stage = true) l1
                    /\ staged rest l2
  end.

(** The stages of the cleaner of EC2: instances, security groups,
    Elastic IPs, volumes, snapshots, AMIs with their snapshots. *)
Definition ec2_stages : list (list string) :=
  [ ["instances.all"; "Instance.terminate"];
    ["describe_security_groups"; "delete_security_group"];
    ["describe_addresses"; "release_address"];
    ["volumes.all"; "Volume.delete"];
    ["get_caller_identity"; "describe_snapshots"; "delete_snapshot"];
    ["get_caller_identity"; "describe_images"; "deregister_image"; "delete_snapshot"] ].

(** The stages of the cleaner of RDS: DB instances, DB clusters, DB
    snapshots, DB cluster snapshots, DB parameter groups, DB cluster
    parameter groups, DB subnet groups, DB option groups, DB event
    subscriptions. *)
Definition rds_stages : list (list string) :=
  [ ["describe_db_instances"; "modify_db_instance"; "delete_db_instance"];
    ["describe_db_clusters"; "modify_db_cluster"; "delete_db_cluster"];
    ["describe_db_snapshots"; "delete_db_snapshot"];
    ["describe_db_cluster_snapshots"; "delete_db_cluster_snapshot"];
    ["describe_db_parameter_groups"; "delete_db_parameter_group"];
    ["describe_db_cluster_parameter_groups"; "delete_db_cluster_parameter_group"];
    ["describe_db_subnet_groups"; "delete_db_subnet_group"];
    ["describe_option_groups"; "delete_option_group"];
    ["describe_event_subscriptions"; "delete_event_subscription"] ].

(** The stages of the cleaner of IAM: the account alias, then the
    users with what belongs to them, the groups, the roles, and the
    customer managed policies. *)
Definition iam_stages : list (list string) :=
  [ ["list_account_aliases"];
    ["list_users"; "list_access_keys"; "delete_access_key"; "list_user_policies";
     "delete_user_policy"; "list_attached_user_policies"; "detach_user_policy";
     "list_groups_for_user"; "remove_user_from_group"; "list_mfa_devices";
     "deactivate_mfa_device"; "get_login_profile"; "delete_login_profile"; "delete_user"];
    ["list_groups"; "list_group_policies"; "delete_group_policy";
     "list_attached_group_policies"; "detach_group_policy"; "delete_group"];
    ["list_roles"; "list_role_policies"; "delete_role_policy";
     "list_attached_role_policies"; "detach_role_policy";
     "list_instance_profiles_for_role"; "remove_role_from_instance_profile";
     "delete_instance_profile"; "delete_role"];
    ["list_policies"; "list_entities_for_policy"; "detach_user_policy";
     "detach_group_policy"; "detach_role_policy"; "list_policy_versions";
     "delete_policy_version"; "delete_policy"] ].

(** The stages of the cleaner of Lambda: the functions with their
    event source mappings, then the layers with their versions. *)
Definition lambda_stages : list (list string) :=
  [ ["list_functions"; "list_event_source_mappings"; "delete_event_source_mapping";
     "delete_function"];
    ["list_layers"; "list_layer_versions"; "delete_layer_version"] ].

(** The stages of the cleaner of S3: the buckets are listed, then
    located, and then emptied and deleted. *)
Definition s3_stages : list (list string) :=
  [ ["list_buckets"];
    ["get_bucket_location"];
    ["get_bucket_versioning"; "get_object_lock_configuration";
     "Bucket.object_versions.delete"; "Bucket.objects.all.delete";
     "delete_bucket_lifecycle"; "delete_bucket_policy"; "delete_bucket"] ].

End order_spec.

(** ** The buckets that the cleaner of S3 works on *)

Module bucket_spec.
Import aws.

(** The region that [clean] takes a bucket to be in: its location
    constraint, and us-east-1 when it has none. *)
Definition region_of_location (location : option string) : string :=
  if pystr.truthy location then get_or "" location else "us-east-1".

(** An answer that locates [bucket] in [region]. *)
Definition locates (region bucket : string) (ev : event) : Prop :=
  match ev with
  | EvRead _ q (Ok x) =>
      match q in read R return R -> Prop with
      | get_bucket_location b =>
          fun location => b = bucket /\ region_of_location location = region
      | _ => fun _ => False
      end x
  | _ => False
  end.

(** A request that has emptied [bucket]. *)
Definition empties (bucket : string) (ev : event) : Prop :=
  match ev with
  | EvMutate _ m (Ok _) =>
      m = s3.objects_all_delete bucket \/ m = s3.object_versions_delete bucket
  | _ => False
  end.

(** The bucket that a request works on, for the requests that follow
    the location of the buckets. *)
Definition bucket_of (ev : event) : option string :=
  match ev with
  | EvRead _ q _ =>
      match q with
      | get_bucket_versioning b | get_object_lock_configuration b => Some b
      | _ => None
      end
  | EvMutate _ m _ => head (arguments m)
  | _ => None
  end.

(** The bucket that a request deletes. *)
Definition bucket_deleted (ev : event) : option string :=
  match ev with
  | EvMutate _ m _ =>
      if String.eqb (method m) "delete_bucket" then head (arguments m) else None
  | _ => None
  end.

(** Every event to which [subject] gives a bucket comes after an
    event of which [enabler] holds, for this bucket. *)
Definition each_after (subject : event -> option string)
    (enabler : string -> event -> Prop) (t : list event) : Prop :=
  forall pre ev post bucket,
    t = pre ++ ev :: post -> subject ev = Some bucket -> Exists (enabler bucket) pre.

End bucket_spec.

(** ** More of what a trace lists *)

Module more_listings.
Import aws trace_spec listings.

Definition db_instances_of R (q : read R) : R -> list DBInstance :=
  match q in read R return R -> list DBInstance with
  | describe_db_instances => entries
  | _ => fun _ => []
  end.

Definition db_clusters_of R (q : read R) : R -> list DBCluster :=
  match q in read R return R -> list DBCluster with
  | describe_db_clusters => entries
  | _ => fun _ => []
  end.

Definition option_groups_of R (q : read R) : R -> list OptionGroup :=
  match q in read R return R -> list OptionGroup with
  | describe_option_groups => entries
  | _ => fun _ => []
  end.

Definition volumes_of R (q : read R) : R -> list Volume :=
  match q in read R return R -> list Volume with
  | volumes_all => entries
  | _ => fun _ => []
  end.

Definition addresses_of R (q : read R) : R -> list Address :=
  match q in read R return R -> list Address with
  | describe_addresses => fun l => l
  | _ => fun _ => []
  end.

Definition route_tables_of R (q : read R) : R -> list RouteTable :=
  match q in read R return R -> list RouteTable with
  | describe_route_tables _ => fun l => l
  | _ => fun _ => []
  end.

(** The versions listed for the policy [arn]. *)
Definition policy_versions_of (arn : string) R (q : read R) : R -> list PolicyVersion :=
  match q in read R return R -> list PolicyVersion with
  | list_policy_versions a => fun l => if String.eqb a arn then l else []
  | _ => fun _ => []
  end.

(** The resources listed for the stack [name], as one entry. *)
Definition stack_resources_of (name : string) R (q : read R) : R -> list (list StackResource) :=
  match q in read R return R -> list (list StackResource) with
  | list_stack_resources stack_name => fun l => if String.eqb stack_name name then [l] else []
  | _ => fun _ => []
  end.

(** A route table is the main one of its VPC when one of its
    associations says so. *)
Definition is_main (rt : RouteTable) : bool := existsb rta_Main (rt_Associations rt).

End more_listings.

(** ** The stacks that are deleted, once more *)

Module nested_spec.
Import aws listings.

(** A [delete_stack] request names a stack among [P] that is neither
    being deleted already nor nested in another stack. *)
Definition root_stack_request (P : StackSummary -> Prop) (ev : event) : Prop :=
  match ev with
  | EvMutate _ m _ =>
      String.eqb (method m) "delete_stack" = true ->
      exists stack, P stack /\ head (arguments m) = Some (StackName stack)
                    /\ str_in (StackStatus stack) ["DELETE_IN_PROGRESS"] = false
                    /\ cloudformation.is_nested stack = false
  | _ => True
  end.

Definition root_stacks_listed (t : list event) : Prop :=
  Forall (root_stack_request (listed stacks_of t)) t.

End nested_spec.

(** ** The files of the log filter *)

Module file_spec.
Import pystr update_logging.


(** The paths that an I/O event reads or writes. *)
Definition path_of (ev : io_event) : string :=
  match ev with
  | IoRead path | IoWrite path _ => path
  end.

End file_spec.

(** ** What the log says before a request *)

Module audit_spec.
Import aws.

(** The changing requests that a cleaner sends without a word in the
    log before. *)
Definition unannounced : list string := ["delete_bucket_lifecycle"; "delete_bucket_policy"].

Definition announced_request (ev : event) : bool :=
  match ev with
  | EvMutate _ m _ => negb (str_in (method m) unannounced)
  | _ => false
  end.

(** Every changing request, the unannounced ones apart, comes right
    after an entry of the log at level WARNING. *)
Definition each_announced (t : list event) : Prop :=
  forall pre ev post, t = pre ++ ev :: post -> announced_request ev = true ->
    exists pre' msg, pre = pre' ++ [EvLog WARNING msg].

End audit_spec.

(** ** The records of the log *)

Module record_spec.
Import aws logging_config.

(** The records that the log entries of a run create under the
    configuration of [aws_cleanup_gui.py]: the entries whose level is
    enabled, in their order. *)
Definition records (t : list event) : list (level * string) :=
  flat_map (fun ev => match ev with
                      | EvLog lvl msg => if isEnabledFor lvl then [(lvl, msg)] else []
                      | _ => []
                      end) t.

(** A record of an error, or of a volume that is in use. *)
Definition error_or_volume_in_use (r : level * string) : Prop :=
  fst r = ERROR \/ (fst r = WARNING /\ pystr.startswith "Volume " (snd r) = true).

(** An event of the worker that leaves no record but of errors and of
    volumes in use. *)
Definition leaves_no_finding (ev : event) : Prop :=
  match ev with
  | EvLog lvl msg => isEnabledFor lvl = true -> lvl = ERROR
  | EvClean _ _ _ inner _ => Forall error_or_volume_in_use (records inner)
  | _ => True
  end.

End record_spec.

(** ** The window *)

Module window_spec.
Import aws AWSCleanerGUI.

(** The checkboxes of a window are the ones that [__init__] creates. *)
Definition checkboxes_as_created (g : gui) : Prop :=
  map fst (resource_vars g) = map fst (resource_vars (init [])).

(** The threads that a handler starts. *)
Definition threads (effects : list effect) : list (string * list string * bool) :=
  flat_map (fun e => match e with
                     | start_thread profile resources dry_run => [(profile, resources, dry_run)]
                     | _ => []
                     end) effects.

End window_spec.

(** ** What the answers call for *)

Module duty_spec.
Import aws trace_spec entitlements.

(** A paginator or a collection that is iterated to its end. *)
Definition iterated {X} (p : pages X) : Prop := snd p = None.

(** An answer that is complete. *)
Definition complete {R : Type} (q : read R) : R -> Prop :=
  match q in read R return R -> Prop with
  | instances_all => iterated
  | volumes_all => iterated
  | list_functions => iterated
  | list_layers => iterated
  | list_layer_versions _ => iterated
  | list_stacks _ => iterated
  | describe_db_instances => iterated
  | describe_db_clusters => iterated
  | describe_db_snapshots => iterated
  | describe_db_cluster_snapshots => iterated
  | describe_db_parameter_groups => iterated
  | describe_db_cluster_parameter_groups => iterated
  | describe_db_subnet_groups => iterated
  | describe_option_groups => iterated
  | list_users => iterated
  | list_groups => iterated
  | list_roles => iterated
  | list_policies_local => iterated
  | _ => fun _ => True
  end.

(** A request that succeeds; a reading request is also answered
    completely. *)
Definition succeeds (ev : event) : Prop :=
  match ev with
  | EvRead _ q (Ok x) => complete q x
  | EvMutate _ _ (Ok _) => True
  | EvRead _ _ (Fail _) | EvMutate _ _ (Fail _) => False
  | _ => True
  end.

Definition all_succeed (t : list event) : Prop := Forall succeeds t.

(** A run that logs nothing at level ERROR: no exception that a
    handler logs in this way has been caught. *)
Definition logs_error (ev : event) : Prop :=
  match ev with
  | EvLog ERROR _ => True
  | _ => False
  end.

Definition without_error (t : list event) : Prop := Forall (fun ev => ~ logs_error ev) t.

(** *** The requests one listed entry calls for in a live run *)

(** A stack that is neither being deleted, nor nested, nor in a failed
    state calls for its deletion; for a stack in a failed state the
    listing of its resources does. *)
Definition stack_calls_for (stack : StackSummary) : list mutation :=
  if str_in (StackStatus stack) ["DELETE_IN_PROGRESS"] then []
  else if cloudformation.is_nested stack then []
  else if str_in (StackStatus stack)
                 ["CREATE_FAILED"; "ROLLBACK_FAILED"; "UPDATE_ROLLBACK_FAILED"; "DELETE_FAILED"]
  then []
  else [cloudformation.delete_stack (StackName stack) []].

Definition stack_resources_call_for (stack_name : string) (resources : list StackResource)
    : list mutation :=
  [cloudformation.delete_stack stack_name
     (map LogicalResourceId (List.filter cloudformation.resource_failed resources))].

(** A bucket that is located in the region of the client calls for
    its deletion, and the answer about its versioning for the deletion
    of its objects, or of their versions. *)
Definition location_calls_for (scope : option string) (bucket : string)
    (location : option string) : list mutation :=
  let bucket_region := if pystr.truthy location then get_or "" location else "us-east-1" in
  match scope with
  | Some region =>
      if String.eqb bucket_region region
      then [s3.delete_bucket_lifecycle bucket; s3.delete_bucket_policy bucket;
            s3.delete_bucket bucket]
      else []
  | None => []
  end.

Definition versioning_calls_for (bucket : string) (status : option string) : list mutation :=
  if is_versioned status then [s3.object_versions_delete bucket]
  else [s3.objects_all_delete bucket].

(** *** The requests the answer to a reading request calls for

    They are the requests that the answer entitles to, except for the
    buckets and the stacks. *)
Definition calls_for_of (scope : option string) {R : Type} (q : read R) : R -> list mutation :=
  match q in read R return R -> list mutation with
  | list_buckets => fun _ => []
  | get_bucket_location bucket => location_calls_for scope bucket
  | get_bucket_versioning bucket => versioning_calls_for bucket
  | list_stacks _ => fun p => flat_map stack_calls_for (entries p)
  | list_stack_resources stack_name => stack_resources_call_for stack_name
  | q => licence_of q
  end.

Definition call_for (ev : event) : list mutation :=
  match ev with
  | EvRead scope q (Ok x) => calls_for_of scope q x
  | _ => []
  end.

Definition calls_for (t : list event) : list mutation := flat_map call_for t.

End duty_spec.


(** * Properties *)

(** ** Reasoning about runs *)

Module facts.
Import aws.

Section runs.
Context {S : Type} `{Provider S}.

Lemma trace_bind {A B} (m : M S A) (f : A -> M S B) s :
  trace (bind m f s) =
  match out (m s) with
  | Done a => trace (m s) ++ trace (f a (final (m s)))
  | _ => trace (m s)
  end.
Proof. unfold bind. destruct (out (m s)); reflexivity. Qed.

Lemma trace_try {A} (body : M S A) handler s :
  trace (try_ body handler s) =
  match out (body s) with
  | Raised e => match handler e with
                | Some h => trace (body s) ++ trace (h (final (body s)))
                | None => trace (body s)
                end
  | _ => trace (body s)
  end.
Proof.
  unfold try_. destruct (out (body s)); try reflexivity.
  destruct (handler e); reflexivity.
Qed.

Lemma trace_def (body : M S unit) s : trace (def body s) = trace (body s).
Proof. unfold def. destruct (out (body s)); reflexivity. Qed.

Lemma trace_call {R} scope (q : read R) s :
  trace (call scope q s) = [EvRead scope q (fst (answer scope q s))].
Proof. unfold call. destruct (answer scope q s). reflexivity. Qed.

Lemma out_call {R} scope (q : read R) s :
  out (call scope q s) =
  match fst (answer scope q s) with Ok x => Done x | Fail e => Raised e end.
Proof. unfold call. destruct (answer scope q s). reflexivity. Qed.

Lemma trace_mutate scope m s :
  trace (mutate scope m s) = [EvMutate scope m (fst (perform scope m s))].
Proof. unfold mutate. destruct (perform scope m s). reflexivity. Qed.

Lemma bind_of_Done {A B} (m : M S A) (f : A -> M S B) s a s' t :
  m s = Run (Done a) s' t ->
  bind m f s = Run (out (f a s')) (final (f a s')) (t ++ trace (f a s')).
Proof. intros E. unfold bind. rewrite E. reflexivity. Qed.

Lemma eval_bind {A B} (m : M S A) (f : A -> M S B) s a s' t o s'' t' :
  m s = Run (Done a) s' t -> f a s' = Run o s'' t' ->
  bind m f s = Run o s'' (t ++ t').
Proof. intros E E'. unfold bind. rewrite E. cbn. rewrite E'. reflexivity. Qed.

Lemma bind_of_Returned {A B} (m : M S A) (f : A -> M S B) s s' t :
  m s = Run Returned s' t -> bind m f s = Run Returned s' t.
Proof. intros E. unfold bind. rewrite E. reflexivity. Qed.

Lemma bind_of_Raised {A B} (m : M S A) (f : A -> M S B) s e s' t :
  m s = Run (Raised e) s' t -> bind m f s = Run (Raised e) s' t.
Proof. intros E. unfold bind. rewrite E. reflexivity. Qed.

Lemma trace_create h region s : trace (create h region s) = [].
Proof. reflexivity. Qed.

Lemma final_create h region s : final (create h region s) = s.
Proof. reflexivity. Qed.

(** Creating a client ends normally or raises; it does nothing else. *)
Lemma create_cases h region s :
  create h region s = ret tt s \/ exists msg, create h region s = raise (OtherError msg) s.
Proof.
  unfold create, ret, raise. destruct (refuses h region s) as [msg|]; [right | left]; eauto.
Qed.

Lemma bind_create {A} h region (f : unit -> M S A) s :
  bind (create h region) f s
  = match refuses h region s with
    | Some msg => Run (Raised (OtherError msg)) s []
    | None => f tt s
    end.
Proof.
  unfold bind, create. destruct (refuses h region s); cbn [out final trace]; [reflexivity|].
  destruct (f tt s). reflexivity.
Qed.

(** A function that creates a client first is left by the exception
    of the creation, or does what its body does then. *)
Lemma def_after_create h region (rest : M S unit) s :
  def (bind (create h region) (fun _ => rest)) s
  = match refuses h region s with
    | Some msg => Run (Raised (OtherError msg)) s []
    | None => def rest s
    end.
Proof.
  unfold def. rewrite bind_create. destruct (refuses h region s); reflexivity.
Qed.

Lemma try_of_Done {A} (body : M S A) handler s a s' t :
  body s = Run (Done a) s' t -> try_ body handler s = Run (Done a) s' t.
Proof. intros E. unfold try_. rewrite E. reflexivity. Qed.

Lemma try_of_Returned {A} (body : M S A) handler s s' t :
  body s = Run Returned s' t -> try_ body handler s = Run Returned s' t.
Proof. intros E. unfold try_. rewrite E. reflexivity. Qed.

Lemma def_of_Done (body : M S unit) s s' t :
  body s = Run (Done tt) s' t -> def body s = Run (Done tt) s' t.
Proof. intros E. unfold def. rewrite E. reflexivity. Qed.

Lemma def_of_Returned (body : M S unit) s s' t :
  body s = Run Returned s' t -> def body s = Run (Done tt) s' t.
Proof. intros E. unfold def. rewrite E. reflexivity. Qed.

Lemma run_eta {A} (r : run S A) : r = Run (out r) (final r) (trace r).
Proof. destruct r. reflexivity. Qed.

(** *** Properties of traces that pass to concatenations *)

(** The properties [J] of traces that hold of the empty trace and of
    the concatenation of two traces that have them. *)
Class Closed (J : list event -> Prop) : Prop := {
  J_nil : J [];
  J_app : forall t1 t2, J t1 -> J t2 -> J (t1 ++ t2)
}.

Global Instance Forall_Closed (P : event -> Prop) : Closed (Forall P).
Proof.
  split; [constructor|].
  intros t1 t2 H1 H2. apply Forall_app. split; assumption.
Qed.

Section sat.
Context (J : list event -> Prop) `{!Closed J}.

(** Every run of [m] has a trace in [J]. *)
Definition sat {A} (m : M S A) : Prop := forall s, J (trace (m s)).

Lemma sat_ret {A} (a : A) : sat (ret a).
Proof. intros s. exact J_nil. Qed.

Lemma sat_raise {A} e : sat (@raise S A e).
Proof. intros s. exact J_nil. Qed.

Lemma sat_return {A} : sat (@return_ S A).
Proof. intros s. exact J_nil. Qed.

Lemma sat_create h region : sat (create h region).
Proof. intros s. exact J_nil. Qed.

Lemma sat_subscript {A} key (o : option A) : sat (subscript key o).
Proof. destruct o; [apply sat_ret | apply sat_raise]. Qed.

Lemma sat_bind {A B} (m : M S A) (f : A -> M S B) :
  sat m -> (forall a, sat (f a)) -> sat (bind m f).
Proof.
  intros Hm Hf s. rewrite trace_bind.
  destruct (out (m s)); auto.
  apply J_app; [apply Hm | apply Hf].
Qed.

Lemma sat_def body : sat body -> sat (def body).
Proof. intros Hb s. rewrite trace_def. apply Hb. Qed.

Lemma sat_try {A} (body : M S A) handler :
  sat body -> (forall e h, handler e = Some h -> sat h) -> sat (try_ body handler).
Proof.
  intros Hb Hh s. rewrite trace_try.
  destruct (out (body s)); auto.
  destruct (handler e) eqn:E; auto.
  apply J_app; auto. eapply Hh; eauto.
Qed.

Lemma sat_try_ClientError {A} (body : M S A) h :
  sat body -> (forall msg, sat (h msg)) -> sat (try_ body (except_ClientError h)).
Proof.
  intros Hb Hh. apply sat_try; auto.
  intros [msg|msg] h' E; simpl in E; inversion E; subst; auto.
Qed.

Lemma sat_try_Exception {A} (body : M S A) h :
  sat body -> (forall msg, sat (h msg)) -> sat (try_ body (except_Exception h)).
Proof.
  intros Hb Hh. apply sat_try; auto.
  intros e h' E. inversion E; subst; auto.
Qed.

Lemma sat_for_each {A} (l : list A) body :
  (forall x, In x l -> sat (body x)) -> sat (for_each l body).
Proof.
  induction l as [|x l IH]; intros Hb; simpl.
  - apply sat_ret.
  - apply sat_bind; [apply Hb; left; reflexivity|].
    intros _. apply IH. intros y Hy. apply Hb. right. exact Hy.
Qed.

Lemma sat_for_pages {A} (p : pages A) body :
  (forall x, In x (concat (fst p)) -> sat (body x)) -> sat (for_pages p body).
Proof.
  intros Hb. unfold for_pages. apply sat_bind.
  - apply sat_for_each. intros page Hpage. apply sat_for_each.
    intros x Hx. apply Hb. apply in_concat. eauto.
  - intros _. destruct (snd p); [apply sat_raise | apply sat_ret].
Qed.

Lemma sat_when b m : (b = true -> sat m) -> sat (when b m).
Proof. destruct b; simpl; intros Hm; [auto | apply sat_ret]. Qed.

Lemma sat_log lvl msg : J [EvLog lvl msg] -> sat (log lvl msg).
Proof. intros HJ s. exact HJ. Qed.

Lemma sat_call {R} scope (q : read R) :
  (forall r, J [EvRead scope q r]) -> sat (call scope q).
Proof. intros HJ s. rewrite trace_call. apply HJ. Qed.

Lemma sat_mutate scope m :
  (forall r, J [EvMutate scope m r]) -> sat (mutate scope m).
Proof. intros HJ s. rewrite trace_mutate. apply HJ. Qed.

Lemma sat_sleep n : J [EvSleep n] -> sat (sleep n).
Proof. intros HJ s. exact HJ. Qed.

End sat.
End runs.

(** One step of a proof by the structure of the code. *)
Ltac sat_step :=
  lazymatch goal with
  | |- forall _, _ => intros ?
  | |- Closed _ => exact _
  | |- sat _ (bind _ _) => apply sat_bind
  | |- sat _ (ret _) => apply sat_ret
  | |- sat _ (raise _) => apply sat_raise
  | |- sat _ return_ => apply sat_return
  | |- sat _ (create _ _) => apply sat_create
  | |- sat _ (session_client _ _) => apply sat_create
  | |- sat _ (session_resource _ _) => apply sat_create
  | |- sat _ (subscript _ _) => apply sat_subscript
  | |- sat _ (def _) => apply sat_def
  | |- sat _ (try_ _ (except_ClientError _)) => apply sat_try_ClientError
  | |- sat _ (try_ _ (except_Exception _)) => apply sat_try_Exception
  | |- sat _ (for_each _ _) => apply sat_for_each
  | |- sat _ (for_pages _ _) => apply sat_for_pages
  | |- sat _ (when _ _) => apply sat_when
  | |- sat _ (if ?b then _ else _) => destruct b eqn:?
  | |- sat _ (match ?o with Some _ => _ | None => _ end) => destruct o eqn:?
  end.

End facts.


(** ** Dry runs *)

Module dry_run_facts.
Import aws facts.
Export trace_spec.

Ltac head_of t :=
  lazymatch t with
  | ?f _ => head_of f
  | _ => t
  end.

Ltac absurd_case :=
  match goal with
  | E : negb true = true |- _ => discriminate E
  | E : true = false |- _ => discriminate E
  | E : false = true |- _ => discriminate E
  end.

Ltac dry_step :=
  first
    [ absurd_case
    | sat_step
    | lazymatch goal with
      | |- sat _ (log _ _) => apply sat_log; repeat constructor
      | |- sat _ (call _ _) => apply sat_call; intros; repeat constructor
      | |- sat _ ?m => let h := head_of m in unfold h
      end ].

Ltac dry := repeat dry_step.

Section dry.
Context {S : Type} `{Provider S}.

Lemma filter_region_buckets_dry s3_client region buckets :
  sat (Forall read_only) (s3.filter_region_buckets (S:=S) s3_client region buckets).
Proof. induction buckets as [|bucket rest IH]; simpl; dry. exact IH. Qed.

Lemma s3_dry region : sat (Forall read_only) (s3.clean (S:=S) region true).
Proof. repeat first [apply filter_region_buckets_dry | dry_step]. Qed.

Lemma lambda_dry region : sat (Forall read_only) (lambda_module.clean (S:=S) region true).
Proof. dry. Qed.

Lemma cloudformation_dry region :
  sat (Forall read_only) (cloudformation.clean (S:=S) region true).
Proof. dry. Qed.

Lemma ec2_dry region : sat (Forall read_only) (ec2.clean (S:=S) region true).
Proof. dry. Qed.

Lemma rds_dry region : sat (Forall read_only) (rds.clean (S:=S) region true).
Proof. dry. Qed.

Lemma vpc_dry region : sat (Forall read_only) (vpc.clean (S:=S) region true).
Proof. dry. Qed.

Lemma iam_dry : sat (Forall read_only) (iam.clean (S:=S) true).
Proof. dry. Qed.

End dry.

End dry_run_facts.


(** ** The worker *)

Module worker_facts.
Import aws facts aws_cleanup_gui.
Export worker_spec.

Lemma invocations_app t1 t2 : invocations (t1 ++ t2) = invocations t1 ++ invocations t2.
Proof. unfold invocations. apply flat_map_app. Qed.

Global Instance caught_and_logged_Closed : Closed caught_and_logged.
Proof.
  split.
  - intros pre post module scope dry_run inner e E. destruct pre; discriminate E.
  - intros t1 t2 H1 H2 pre post module scope dry_run inner e E.
    apply app_eq_app in E. destruct E as [l [[E1 E2]|[E1 E2]]].
    + (* the call lies in [t2] *)
      destruct l as [|x l].
      * simpl in E2. rewrite app_nil_r in E1. subst.
        eapply (H2 []); simpl; eauto.
      * simpl in E2. inversion E2; subst.
        destruct (H1 pre l module scope dry_run inner e eq_refl) as [msg [post' E]].
        subst. simpl. eauto.
    + subst. eapply (H2 l). reflexivity.
Qed.

Lemma caught_and_logged_plain t :
  Forall (fun ev => match ev with EvClean _ _ _ _ (Some _) => False | _ => True end) t ->
  caught_and_logged t.
Proof.
  intros Ht pre post module scope dry_run inner e E. subst.
  apply Forall_app in Ht. destruct Ht as [_ Ht]. inversion Ht; subst. contradiction.
Qed.

(** Log entries and calls of [clean]: what the worker does after it
    has listed the regions. *)
Definition log_or_clean (ev : event) : Prop :=
  match ev with
  | EvLog _ _ | EvClean _ _ _ _ _ => True
  | _ => False
  end.

Section worker.
Context {S : Type} `{Provider S}.
Variable modules : cleaner_id -> option string -> bool -> M S unit.

(** Runs that end normally, call [clean] as [L] says and log what they
    catch. *)
Definition calls (L : list (cleaner_id * option string)) (m : M S unit) : Prop :=
  forall s, out (m s) = Done tt /\ invocations (trace (m s)) = L
            /\ caught_and_logged (trace (m s))
            /\ Forall log_or_clean (trace (m s)).

(** A guarded call of [clean] ends normally, whatever the callee
    does. *)
Lemma guarded_invoke module scope dry_run (msg : string -> string) :
  calls [(module, scope)]
        (try_ (invoke modules module scope dry_run)
              (except_Exception (fun e => logger_error (msg e)))).
Proof.
  intros s. unfold try_, invoke. simpl.
  set (c := def (modules module scope dry_run) s).
  destruct (out c) as [[]| e |] eqn:E; simpl.
  - split; [reflexivity|]. split; [reflexivity|]. split.
    + apply caught_and_logged_plain. repeat constructor.
    + repeat constructor.
  - split; [reflexivity|]. split; [reflexivity|]. split.
    + intros pre post module' scope' dry_run' inner e' Eq.
      destruct pre as [|x pre].
      * inversion Eq; subst. eauto.
      * inversion Eq; subst. destruct pre as [|y pre]; [discriminate|].
        destruct pre; discriminate.
    + repeat constructor.
  - exfalso. subst c. revert E. unfold def.
    destruct (out (modules module scope dry_run s)) eqn:E'; simpl;
      rewrite ?E'; discriminate.
Qed.

Lemma calls_log lvl msg : calls [] (log lvl msg).
Proof.
  intros s. split; [reflexivity|]. split; [reflexivity|]. split.
  - apply caught_and_logged_plain. repeat constructor.
  - repeat constructor.
Qed.

Lemma calls_ret : calls [] (ret tt).
Proof.
  intros s. split; [reflexivity|]. split; [reflexivity|]. split.
  - apply caught_and_logged_plain. constructor.
  - constructor.
Qed.

Lemma calls_bind L1 L2 m (f : unit -> M S unit) :
  calls L1 m -> (forall u, calls L2 (f u)) -> calls (L1 ++ L2) (bind m f).
Proof.
  intros Hm Hf s. destruct (Hm s) as (Ho & Hi & Hc & Hl).
  unfold bind. rewrite Ho. simpl.
  destruct (Hf tt (final (m s))) as (Ho' & Hi' & Hc' & Hl').
  split; [assumption|]. split; [|split].
  - rewrite invocations_app. congruence.
  - apply J_app; assumption.
  - apply Forall_app. split; assumption.
Qed.

Lemma calls_for_each {A} (l : list A) (body : A -> M S unit) L :
  (forall x, calls (L x) (body x)) -> calls (flat_map L l) (for_each l body).
Proof.
  intros Hb. induction l as [|x l IH]; simpl.
  - apply calls_ret.
  - apply calls_bind; [apply Hb|]. intros _. exact IH.
Qed.

Lemma calls_clean_region resources dry_run region :
  calls (map (fun module => (module, Some region)) (regional_modules resources))
        (clean_region modules resources dry_run region).
Proof.
  unfold clean_region.
  change (map _ (regional_modules resources)) with
    ([] ++ map (fun module => (module, Some region)) (regional_modules resources)).
  apply calls_bind; [apply calls_log|]. intros _.
  unfold regional_modules.
  induction (resource_modules resources) as [|item items IH]; simpl.
  - apply calls_ret.
  - destruct (String.eqb (fst item) "IAM") eqn:E; simpl.
    + change (map _ (map snd ?l)) with ([] ++ map (fun module => (module, Some region))
                                                  (map snd l)).
      apply calls_bind; [apply calls_ret|]. intros _. exact IH.
    + change ((snd item, Some region) :: ?l) with ([(snd item, Some region)] ++ l).
      apply calls_bind; [|intros _; exact IH].
      change [(snd item, Some region)] with ([] ++ [(snd item, Some region)]).
      apply calls_bind; [apply calls_log|]. intros _.
      apply guarded_invoke.
Qed.

Lemma calls_regions resources dry_run regions :
  calls (flat_map (fun region => map (fun module => (module, Some region))
                                     (regional_modules resources)) regions)
        (for_each regions (clean_region modules resources dry_run)).
Proof. apply calls_for_each. intros region. apply calls_clean_region. Qed.

Lemma calls_clean_iam resources dry_run :
  calls (if str_in "IAM" resources then [(IAM, None)] else [])
        (clean_iam modules resources dry_run).
Proof.
  unfold clean_iam. destruct (str_in "IAM" resources); simpl.
  - change [(IAM, None)] with ([] ++ [(IAM, @None string)]).
    apply calls_bind; [apply calls_log|]. intros _. apply guarded_invoke.
  - apply calls_ret.
Qed.

(** What [run_cleanup] does once it has the regions. *)
Definition after_regions (resources : list string) (dry_run : bool) (regions : list string)
    : M S unit :=
  bind (clean_iam modules resources dry_run)
       (fun _ => bind (for_each regions (clean_region modules resources dry_run))
                      (fun _ => logger_info "Cleanup process completed")).

Lemma calls_after_regions resources dry_run regions :
  calls (expected_invocations resources regions) (after_regions resources dry_run regions).
Proof.
  unfold after_regions, expected_invocations.
  apply calls_bind; [apply calls_clean_iam|].
  intros _. rewrite <- (app_nil_r (flat_map _ regions)).
  apply calls_bind; [apply calls_regions | intros _; apply calls_log].
Qed.

Lemma last_after_regions resources dry_run regions s :
  last (trace (after_regions resources dry_run regions s))
  = Some (EvLog INFO "Cleanup process completed").
Proof.
  unfold after_regions.
  destruct (calls_clean_iam resources dry_run s) as (Ho & _).
  unfold bind at 1. rewrite Ho. simpl.
  destruct (calls_regions resources dry_run regions
              (final (clean_iam modules resources dry_run s))) as (Ho' & _).
  unfold bind. rewrite Ho'. simpl.
  rewrite app_assoc. apply last_snoc.
Qed.

Lemma run_create_boto_session profile s :
  create_boto_session profile s =
  match answer None (create_session profile) s with
  | (Ok x, s1) =>
      Run (Done tt) s1
          [EvRead None (create_session profile) (Ok x);
           EvLog INFO ("Successfully created session with profile: " +:+ profile)]
  | (Fail e, s1) =>
      Run Returned s1
          [EvRead None (create_session profile) (Fail e);
           EvLog ERROR ("Failed to create session with profile " +:+ profile +:+ ": "
                        +:+ str_exn e)]
  end.
Proof.
  unfold create_boto_session, try_, bind, call.
  destruct (answer None (create_session profile) s) as [[x|e] s1]; reflexivity.
Qed.

Lemma run_get_all_regions s :
  get_all_regions s =
  match answer (Some "us-east-1"%string) describe_regions s with
  | (Ok regions, s1) =>
      Run (Done regions) s1
          [EvRead (Some "us-east-1"%string) describe_regions (Ok regions);
           EvLog INFO ("Found " +:+ pystr.str_nat (length regions) +:+ " AWS regions")]
  | (Fail e, s1) =>
      Run (Done []) s1
          [EvRead (Some "us-east-1"%string) describe_regions (Fail e);
           EvLog ERROR ("Failed to get AWS regions: " +:+ str_exn e)]
  end.
Proof.
  unfold get_all_regions, try_, bind, call.
  destruct (answer (Some "us-east-1"%string) describe_regions s) as [[x|e] s1]; reflexivity.
Qed.

Lemma worker_events_after (t : list event) :
  Forall log_or_clean t ->
  ~ In (Some true) (map session_of_event t) /\ ~ In (Some false) (map session_of_event t)
  /\ forall regions, ~ In (Some regions) (map regions_of_event t).
Proof.
  induction 1 as [|ev t Hev _ IH]; simpl; [tauto|].
  destruct IH as (I1 & I2 & I3).
  destruct ev; try contradiction; simpl;
    (split; [|split]; [intros [E|E]; [discriminate|tauto] ..
                      | intros regions [E|E]; [discriminate|eapply I3; eauto]]).
Qed.

(** The regions that [get_all_regions] returns for an answer, and the
    entry it logs. *)
Definition regions_of (r : result (list string)) : list string :=
  match r with Ok regions => regions | Fail _ => [] end.

Definition regions_log (r : result (list string)) : event :=
  match r with
  | Ok regions => EvLog INFO ("Found " +:+ pystr.str_nat (length regions) +:+ " AWS regions")
  | Fail e => EvLog ERROR ("Failed to get AWS regions: " +:+ str_exn e)
  end.

Lemma run_cleanup_with_runs profile resources dry_run s :
  let logs := [EvLog INFO ("Starting cleanup with profile: " +:+ profile);
               EvLog INFO ("Dry run mode: " +:+ pystr.str_bool dry_run);
               EvLog INFO ("Selected resources: " +:+ pystr.join ", " resources)] in
  let r := run_cleanup_with modules profile resources dry_run s in
  match answer None (create_session profile) s with
  | (Fail e, s1) =>
      out r = Done tt /\
      trace r = logs ++ [EvRead None (create_session profile) (Fail e);
                         EvLog ERROR ("Failed to create session with profile " +:+ profile
                                      +:+ ": " +:+ str_exn e)]
  | (Ok x, s1) =>
      match answer (Some "us-east-1"%string) describe_regions s1 with
      | (regions, s2) =>
          let a := after_regions resources dry_run (regions_of regions) s2 in
          out r = Done tt /\
          trace r = logs ++ [EvRead None (create_session profile) (Ok x);
                             EvLog INFO ("Successfully created session with profile: "
                                         +:+ profile);
                             EvRead (Some "us-east-1"%string) describe_regions regions;
                             regions_log regions] ++ trace a
      end
  end.
Proof.
  intros logs r. subst r. unfold run_cleanup_with.
  change (fun regions => bind (clean_iam modules resources dry_run) _)
    with (after_regions resources dry_run).
  pose proof (run_create_boto_session profile s) as Hc.
  destruct (answer None (create_session profile) s) as [[x|e] s1].
  - pose proof (run_get_all_regions s1) as Hg.
    destruct (answer (Some "us-east-1"%string) describe_regions s1) as [regions s2].
    assert (Hg' : get_all_regions s1 =
                  Run (Done (regions_of regions)) s2
                      [EvRead (Some "us-east-1"%string) describe_regions regions;
                       regions_log regions])
      by (rewrite Hg; destruct regions; reflexivity).
    destruct (calls_after_regions resources dry_run (regions_of regions) s2) as (Ho & _).
    erewrite def_of_Done; cycle 1.
    { apply try_of_Done.
      do 3 (eapply eval_bind; [reflexivity|]; cbn beta).
      eapply eval_bind; [exact Hc|]. cbn beta.
      eapply eval_bind; [exact Hg'|]. cbn beta.
      rewrite (run_eta (after_regions _ _ _ _)). rewrite Ho. reflexivity. }
    split; reflexivity.
  - erewrite def_of_Returned; cycle 1.
    { apply try_of_Returned.
      do 3 (eapply eval_bind; [reflexivity|]; cbn beta).
      eapply bind_of_Returned. exact Hc. }
    split; reflexivity.
Qed.

Lemma run_cleanup_runs profile resources dry_run s :
  let r := run_cleanup_with modules profile resources dry_run s in
  out r = Done tt /\
  ((session_created (trace r) /\ ~ session_failed (trace r) /\
    exists regions,
      regions_found (trace r) regions
      /\ invocations (trace r) = expected_invocations resources regions
      /\ caught_and_logged (trace r)
      /\ last (trace r) = Some (EvLog INFO "Cleanup process completed"))
   \/ (session_failed (trace r) /\ ~ session_created (trace r)
       /\ invocations (trace r) = [])).
Proof.
  intros r. pose proof (run_cleanup_with_runs profile resources dry_run s) as Hr.
  cbv zeta in Hr. fold r in Hr.
  destruct (answer None (create_session profile) s) as [[x|e] s1].
  - destruct (answer (Some "us-east-1"%string) describe_regions s1) as [regions s2].
    destruct Hr as [Ho Ht]. split; [exact Ho|]. left.
    destruct (calls_after_regions resources dry_run (regions_of regions) s2)
      as (_ & Hi & Hc & Hl).
    pose proof (last_after_regions resources dry_run (regions_of regions) s2) as Hlast.
    destruct (worker_events_after _ Hl) as (N1 & N2 & N3).
    rewrite Ht. unfold session_created, session_failed, regions_found.
    rewrite !map_app, !in_app_iff.
    split; [right; left; simpl; left; reflexivity|]. split.
    { intros [E|[E|E]]; [| |tauto].
      - simpl in E. intuition discriminate.
      - simpl in E. destruct regions; simpl in E; intuition discriminate. }
    exists (regions_of regions). split; [|split; [|split]].
    + rewrite !in_app_iff. right. left. simpl. right. right. left.
      destruct regions; reflexivity.
    + rewrite !invocations_app. rewrite Hi. destruct regions; reflexivity.
    + apply J_app; [|apply J_app; [|exact Hc]];
        apply caught_and_logged_plain; repeat constructor.
      destruct regions; exact I.
    + rewrite app_assoc. 
      destruct (trace (after_regions resources dry_run (regions_of regions) s2))
        as [|ev t] eqn:E using rev_ind; [discriminate Hlast|].
      rewrite app_assoc. rewrite last_snoc. rewrite last_snoc in Hlast. exact Hlast.
  - destruct Hr as [Ho Ht]. split; [exact Ho|]. right.
    rewrite Ht. unfold session_created, session_failed.
    rewrite !map_app, !in_app_iff. simpl.
    split; [tauto|]. split; [|reflexivity].
    intuition discriminate.
Qed.

End worker.
End worker_facts.


(** ** The log filter *)

Module log_facts.
Import pystr update_logging.
Export log_spec.

(** *** Substrings *)

Lemma startswith_app p x : startswith p (p +:+ x) = true.
Proof.
  induction p as [|a p IH]; simpl; [destruct x; reflexivity|].
  rewrite Ascii.eqb_refl. exact IH.
Qed.


Lemma contains_startswith p s : startswith p s = true -> contains p s = true.
Proof. intros Hp. destruct s; simpl in *; rewrite Hp; reflexivity. Qed.


Lemma contains_app_r p a b : contains p b = true -> contains p (a +:+ b) = true.
Proof.
  intros Hp. induction a as [|c a IH]; simpl; [exact Hp|].
  fold (contains p (a +:+ b)). rewrite IH.
  destruct (startswith p (String c (a +:+ b))); reflexivity.
Qed.


(** *** The lines that are kept *)




Lemma length_append (a b : string) :
  String.length (a +:+ b) = String.length a + String.length b.
Proof. induction a as [|c a IH]; simpl; [reflexivity | rewrite IH; reflexivity]. Qed.

End log_facts.

(** ** The lines of the rewritten file *)

Module lines_facts.
Import pystr update_logging log_facts.



Lemma append_cons x (a b : string) : String x a +:+ b = String x (a +:+ b).
Proof. reflexivity. Qed.

Lemma append_nil_l (b : string) : EmptyString +:+ b = b.
Proof. reflexivity. Qed.

Lemma append_assoc (a b c : string) : (a +:+ b) +:+ c = a +:+ (b +:+ c).
Proof.
  induction a as [|x a IH]; [reflexivity|].
  rewrite !append_cons, IH. reflexivity.
Qed.

Lemma append_nil_r (a : string) : a +:+ EmptyString = a.
Proof.
  induction a as [|x a IH]; [reflexivity|].
  rewrite append_cons, IH. reflexivity.
Qed.








(** *** Reading back what was joined *)



(** *** The reclassified lines *)

Lemma startswith_inv p s : startswith p s = true -> exists r, s = p +:+ r.
Proof.
  revert s. induction p as [|a p IH]; intros s Hp; [exists s; reflexivity|].
  destruct s as [|b s]; [discriminate Hp|]. cbn [startswith] in Hp.
  destruct (Ascii.eqb_spec a b) as [->|]; [|discriminate Hp].
  destruct (IH s Hp) as [r ->]. exists r. reflexivity.
Qed.







End lines_facts.

(** ** The text of a log, in the words of the specification *)

Module text_facts.
Import pystr posix update_logging log_facts lines_facts.

(** *** Occurrences *)

Lemma contains_occurs p s : contains p s = true <-> occurs p s.
Proof.
  split.
  - induction s as [|c s IH]; cbn [contains].
    + destruct (startswith p EmptyString) eqn:E; [|discriminate]. intros _.
      destruct (startswith_inv _ _ E) as [r Hr]. exists EmptyString, r. exact Hr.
    + destruct (startswith p (String c s)) eqn:E.
      * intros _. destruct (startswith_inv _ _ E) as [r Hr].
        exists EmptyString, r. exact Hr.
      * intros H. destruct (IH H) as (a & b & ->). exists (String c a), b. reflexivity.
  - intros (a & b & ->). apply contains_app_r, contains_startswith, startswith_app.
Qed.

Lemma contains_absent p s : contains p s = false <-> ~ occurs p s.
Proof.
  rewrite <- contains_occurs. destruct (contains p s); split; intros H;
    [discriminate | exfalso; apply H; reflexivity | intros E; discriminate | reflexivity].
Qed.

(** *** Replacing *)







(** *** The lines that are retained *)



(** *** The pieces of a text *)








(** *** Decoding *)

Lemma universal_newlines_unified s : newlines_unified s (universal_newlines s).
Proof.
  remember (String.length s) as n eqn:Hn. revert s Hn.
  induction n as [n IH] using lt_wf_ind. intros s Hn.
  destruct s as [|c s]; [constructor|].
  cbn [universal_newlines].
  destruct (Ascii.eqb_spec c CR) as [->|Hc].
  - destruct s as [|d s].
    + apply (unified_CR EmptyString EmptyString); [intros rest' E; discriminate E | constructor].
    + destruct (Ascii.eqb_spec d LF) as [->|Hd].
      * apply (unified_CRLF s).
        apply (IH (String.length s)); [simpl in Hn; lia | reflexivity].
      * apply (unified_CR (String d s)).
        { intros rest' E. injection E as E _. contradiction. }
        apply (IH (String.length (String d s))); [simpl in Hn |- *; lia | reflexivity].
  - apply unified_other; [exact Hc|].
    apply (IH (String.length s)); [simpl in Hn; lia | reflexivity].
Qed.


Lemma universal_newlines_no_CR s : ~ occurs (byte 13) (universal_newlines s).
Proof.
  rewrite <- contains_absent.
  assert (H : forall s', contains (byte 13) s' =
                         match s' with
                         | EmptyString => false
                         | String c r => Ascii.eqb CR c || contains (byte 13) r
                         end).
  { intros [|c r]; [reflexivity|]. cbn [contains byte startswith].
    destruct (Ascii.eqb (ascii_of_nat 13) c) eqn:E.
    - change (Ascii.eqb CR c) with (Ascii.eqb (ascii_of_nat 13) c). rewrite E. reflexivity.
    - change (Ascii.eqb CR c) with (Ascii.eqb (ascii_of_nat 13) c). rewrite E. reflexivity. }
  remember (String.length s) as n eqn:Hn. revert s Hn.
  induction n as [n IH] using lt_wf_ind. intros s Hn.
  destruct s as [|c s]; [reflexivity|].
  cbn [universal_newlines].
  destruct (Ascii.eqb_spec c CR) as [->|Hc].
  - destruct s as [|d s].
    + reflexivity.
    + destruct (Ascii.eqb_spec d LF) as [->|Hd].
      * rewrite H. cbn [orb]. change (Ascii.eqb CR LF) with false. cbn [orb].
        apply (IH (String.length s)); [simpl in Hn; lia | reflexivity].
      * rewrite H. change (Ascii.eqb CR LF) with false. cbn [orb].
        apply (IH (String.length (String d s))); [simpl in Hn |- *; lia | reflexivity].
  - rewrite H. destruct (Ascii.eqb_spec CR c) as [<-|_]; [contradiction Hc; reflexivity|].
    cbn [orb]. apply (IH (String.length s)); [simpl in Hn; lia | reflexivity].
Qed.

End text_facts.

(** ** Files and paths *)

Module tree_facts.
Import pystr posix update_logging log_facts lines_facts.

(** *** The tree *)

(** What is at a key, as far as a path can tell: nothing, a file with
    its bytes, or a directory. *)
Definition kind (o : option node) : option (option string) :=
  match o with
  | None => None
  | Some (File content) => Some (Some content)
  | Some (Dir _) => Some None
  end.

Lemma is_dir_kind r k : is_dir r k = match kind (node_at r k) with Some None => true | _ => false end.
Proof. unfold is_dir, kind. destruct (node_at r k) as [[|]|]; reflexivity. Qed.

Lemma file_at_kind r k : file_at r k = match kind (node_at r k) with Some o => o | None => None end.
Proof. unfold file_at, kind. destruct (node_at r k) as [[|]|]; reflexivity. Qed.

Lemma find_set_entry_eq name child es : find_entry name (set_entry name child es) = Some child.
Proof.
  induction es as [|[n c] es IH]; cbn [set_entry find_entry].
  - rewrite String.eqb_refl. reflexivity.
  - destruct (String.eqb n name) eqn:E; cbn [find_entry]; rewrite E; [reflexivity | exact IH].
Qed.

Lemma find_set_entry_ne name name' child es :
  name' <> name -> find_entry name' (set_entry name child es) = find_entry name' es.
Proof.
  intros Hne. induction es as [|[n c] es IH]; cbn [set_entry find_entry].
  - destruct (String.eqb_spec name name'); [congruence | reflexivity].
  - destruct (String.eqb_spec n name) as [->|Hn]; cbn [find_entry].
    + destruct (String.eqb_spec name name'); [congruence | reflexivity].
    + rewrite IH. reflexivity.
Qed.

Lemma node_at_file_below content x k : node_at (File content) (x :: k) = None.
Proof. reflexivity. Qed.

(** Writing a file changes this file and nothing else. *)
Lemma store_kind k : forall n content n',
  store n k content = Some n' ->
  kind (node_at n' k) = Some (Some content) /\
  forall k', k' <> k -> kind (node_at n' k') = kind (node_at n k').
Proof.
  induction k as [|name rest IH]; intros n content n'; cbn [store].
  - destruct n as [old|es]; [|discriminate]. intros [= <-]. split; [reflexivity|].
    intros [|x k'] Hne; [contradiction Hne; reflexivity | reflexivity].
  - destruct n as [old|es]; [discriminate|].
    destruct (find_entry name es) as [child|] eqn:Ef.
    + destruct (store child rest content) as [child'|] eqn:Es; [|discriminate].
      intros [= <-]. destruct (IH _ _ _ Es) as [IH1 IH2]. split.
      * cbn [node_at]. rewrite find_set_entry_eq. exact IH1.
      * intros [|name' rest'] Hne; [reflexivity|]. cbn [node_at].
        destruct (String.eqb_spec name' name) as [->|Hn].
        { rewrite find_set_entry_eq, Ef. apply IH2. congruence. }
        rewrite find_set_entry_ne by exact Hn. reflexivity.
    + destruct rest as [|y rest]; [|discriminate]. intros [= <-]. split.
      * cbn [node_at]. rewrite find_set_entry_eq. reflexivity.
      * intros [|name' rest'] Hne; [reflexivity|]. cbn [node_at].
        destruct (String.eqb_spec name' name) as [->|Hn].
        { rewrite find_set_entry_eq, Ef.
          destruct rest' as [|z rest']; [contradiction Hne; reflexivity | reflexivity]. }
        rewrite find_set_entry_ne by exact Hn. reflexivity.
Qed.

Lemma store_file_at n k content n' :
  store n k content = Some n' -> file_at n' k = Some content.
Proof. intros Hs. rewrite file_at_kind, (proj1 (store_kind _ _ _ _ Hs)). reflexivity. Qed.

Lemma store_file_at_other n k content n' k' :
  store n k content = Some n' -> k' <> k -> file_at n' k' = file_at n k'.
Proof.
  intros Hs Hne. rewrite !file_at_kind, (proj2 (store_kind _ _ _ _ Hs) _ Hne). reflexivity.
Qed.

(** A file is written where no directory is: the directories stay. *)
Lemma store_is_dir n k content n' k' :
  store n k content = Some n' -> is_dir n k = false -> is_dir n' k' = is_dir n k'.
Proof.
  intros Hs Hk. destruct (decide (k' = k)) as [->|Hne].
  - rewrite Hk, is_dir_kind, (proj1 (store_kind _ _ _ _ Hs)). reflexivity.
  - rewrite !is_dir_kind, (proj2 (store_kind _ _ _ _ Hs) _ Hne). reflexivity.
Qed.

Lemma store_not_dir k : forall n content n', store n k content = Some n' -> is_dir n k = false.
Proof.
  unfold is_dir. induction k as [|name rest IH]; intros n content n'; cbn [store node_at].
  - destruct n; [reflexivity | discriminate].
  - destruct n as [old|es]; [discriminate|].
    destruct (find_entry name es) as [child|]; [|reflexivity].
    destruct (store child rest content) as [child'|] eqn:Es; [|discriminate].
    intros _. exact (IH _ _ _ Es).
Qed.

Lemma node_at_app n k : forall k', 
  node_at n (k ++ k') = match node_at n k with Some m => node_at m k' | None => None end.
Proof.
  revert n. induction k as [|name rest IH]; intros n k'; [reflexivity|].
  cbn [app node_at]. destruct n as [old|es]; [reflexivity|].
  destruct (find_entry name es) as [child|]; [apply IH | reflexivity].
Qed.

(** What is in the tree is in a directory. *)
Lemma node_at_parent n k name m :
  node_at n (k ++ [name]) = Some m -> is_dir n k = true.
Proof.
  unfold is_dir. rewrite node_at_app. destruct (node_at n k) as [[old|es]|]; try discriminate.
  reflexivity.
Qed.

Lemma is_dir_removelast n k : is_dir n k = true -> is_dir n (removelast k) = true.
Proof.
  induction k as [|name k' _] using rev_ind.
  - intros H. exact H.
  - rewrite removelast_last. unfold is_dir at 1.
    destruct (node_at n (k' ++ [name])) as [m|] eqn:E; [|discriminate].
    intros _. exact (node_at_parent _ _ _ _ E).
Qed.


(** *** Components *)

Lemma enter_ext sr r r' cur name :
  (forall k, is_dir r' k = is_dir r k) -> enter sr r' cur name = enter sr r cur name.
Proof. intros H. unfold enter. rewrite H. reflexivity. Qed.

Lemma resolve_from_ext sr r r' path :
  (forall k, is_dir r' k = is_dir r k) ->
  forall cur name, resolve_from sr r' cur name path = resolve_from sr r cur name path.
Proof.
  intros H. induction path as [|c path IH]; intros cur name; cbn [resolve_from].
  - apply enter_ext, H.
  - rewrite (enter_ext _ _ _ _ _ H).
    destruct (Ascii.eqb c "/"); [|apply IH].
    destruct (enter sr r cur name); [apply IH | reflexivity].
Qed.

(** A path names the same thing when only files have changed. *)
Lemma resolve_ext env r r' path :
  (forall k, is_dir r' k = is_dir r k) -> resolve env r' path = resolve env r path.
Proof.
  intros H. unfold resolve.
  destruct (String.eqb path "" || contains NUL path || negb (within_limits env path));
    [reflexivity | apply resolve_from_ext, H].
Qed.

(** The directory and the name that the last component of a path is
    looked up with. *)
Fixpoint last_step (sr : key -> bool) (r : node) (cur : key) (name path : string)
    : option (key * string) :=
  match path with
  | EmptyString => Some (cur, name)
  | String c rest =>
      if Ascii.eqb c "/" then
        match enter sr r cur name with
        | Some cur' => last_step sr r cur' EmptyString rest
        | None => None
        end
      else last_step sr r cur (name +:+ String c EmptyString) rest
  end.

Lemma resolve_from_last_step sr r path : forall cur name,
  resolve_from sr r cur name path
  = match last_step sr r cur name path with
    | Some (cur', name') => enter sr r cur' name'
    | None => None
    end.
Proof.
  induction path as [|c path IH]; intros cur name; cbn [resolve_from last_step];
    [reflexivity|].
  destruct (Ascii.eqb c "/"); [|apply IH].
  destruct (enter sr r cur name); [apply IH | reflexivity].
Qed.

Lemma contains_char c s :
  contains (String c EmptyString) s
  = match s with
    | EmptyString => false
    | String d s' => Ascii.eqb c d || contains (String c EmptyString) s'
    end.
Proof.
  destruct s as [|d s']; [reflexivity|]. cbn [contains startswith].
  destruct (Ascii.eqb c d); [destruct s'; reflexivity | reflexivity].
Qed.

Lemma contains_char_app c a b :
  contains (String c EmptyString) (a +:+ b)
  = contains (String c EmptyString) a || contains (String c EmptyString) b.
Proof.
  induction a as [|d a IH].
  - rewrite append_nil_l, (contains_char c EmptyString). reflexivity.
  - rewrite append_cons, !(contains_char c (String d _)), IH, orb_assoc. reflexivity.
Qed.

Lemma last_step_suffix sr r suffix :
  contains "/" suffix = false ->
  forall cur name, last_step sr r cur name suffix = Some (cur, name +:+ suffix).
Proof.
  induction suffix as [|c suffix IH]; intros Hs cur name; cbn [last_step].
  - rewrite append_nil_r. reflexivity.
  - rewrite contains_char in Hs. apply orb_false_iff in Hs as [Hc Hs].
    rewrite Ascii.eqb_sym, Hc, (IH Hs), append_assoc. reflexivity.
Qed.

(** What is put after a path without a slash is put after its last
    component. *)
Lemma last_step_app sr r suffix path :
  contains "/" suffix = false ->
  forall cur name,
    last_step sr r cur name (path +:+ suffix)
    = match last_step sr r cur name path with
      | Some (cur', name') => Some (cur', name' +:+ suffix)
      | None => None
      end.
Proof.
  intros Hs. induction path as [|c path IH]; intros cur name.
  - rewrite append_nil_l. apply last_step_suffix. exact Hs.
  - rewrite append_cons. cbn [last_step].
    destruct (Ascii.eqb c "/"); [|apply IH].
    destruct (enter sr r cur name); [apply IH | reflexivity].
Qed.

(** A regular file is found by its name in a directory that can be
    searched. *)
Lemma enter_file sr r cur name k content :
  enter sr r cur name = Some k -> file_at r k = Some content ->
  k = cur ++ [name] /\ is_dir r cur = true /\ sr cur = true /\
  name <> EmptyString /\ name <> "." /\ name <> "..".
Proof.
  unfold enter, file_at. intros He Hf.
  assert (Hdir : forall k', is_dir r k' = true -> k = k' -> False).
  { unfold is_dir. intros k' Hk' <-. destruct (node_at r k) as [[|]|]; discriminate. }
  destruct (String.eqb_spec name EmptyString) as [->|H0].
  { destruct (is_dir r cur) eqn:Ed; [|discriminate]. injection He as <-.
    destruct (Hdir _ Ed eq_refl). }
  destruct (is_dir r cur) eqn:Ed; [|discriminate].
  destruct (sr cur); [|discriminate]. cbn [andb] in He.
  destruct (String.eqb_spec name ".") as [->|H1].
  { injection He as <-. destruct (Hdir _ Ed eq_refl). }
  destruct (String.eqb_spec name "..") as [->|H2].
  { injection He as <-. destruct (Hdir _ (is_dir_removelast _ _ Ed) eq_refl). }
  injection He as <-. repeat split; assumption.
Qed.

Lemma enter_name sr r cur name :
  is_dir r cur = true -> sr cur = true ->
  name <> EmptyString -> name <> "." -> name <> ".." ->
  enter sr r cur name = Some (cur ++ [name]).
Proof.
  intros Hd Hs H0 H1 H2. unfold enter. rewrite Hd, Hs.
  destruct (String.eqb_spec name EmptyString); [contradiction|].
  destruct (String.eqb_spec name "."); [contradiction|].
  destruct (String.eqb_spec name ".."); [contradiction|]. reflexivity.
Qed.

(** *** The backup *)

Lemma beside_snoc cur name suffix : beside (cur ++ [name]) suffix = cur ++ [name +:+ suffix].
Proof. unfold beside. rewrite removelast_last, last_last. reflexivity. Qed.

Lemma beside_differs k suffix : suffix <> EmptyString -> beside k suffix <> k.
Proof.
  intros Hs E. unfold beside in E.
  induction k as [|name k' _] using rev_ind.
  - discriminate E.
  - rewrite removelast_last, last_last in E. apply app_inj_tail in E as [_ E].
    apply (f_equal String.length) in E. rewrite length_append in E.
    destruct suffix; [contradiction | simpl in E; lia].
Qed.

Lemma backup_key_differs k timestamp : backup_key k timestamp <> k.
Proof. apply beside_differs. discriminate. Qed.

Lemma backup_suffix_no_slash timestamp :
  contains "/" timestamp = false -> contains "/" ("." +:+ timestamp +:+ ".bak") = false.
Proof.
  intros H. rewrite !(contains_char_app "/"), H. reflexivity.
Qed.

Lemma backup_suffix_no_NUL timestamp :
  contains NUL timestamp = false -> contains NUL ("." +:+ timestamp +:+ ".bak") = false.
Proof.
  intros H. unfold NUL in *. rewrite !contains_char_app, H. reflexivity.
Qed.

(** The backup path names the file beside the log. *)
Lemma resolve_backup env r file_path k content timestamp :
  resolve env r file_path = Some k -> file_at r k = Some content ->
  timestamp_ok timestamp ->
  within_limits env (backup_path_of file_path timestamp) = true ->
  resolve env r (backup_path_of file_path timestamp) = Some (backup_key k timestamp) /\
  is_dir r (removelast k) = true /\ k <> [].
Proof.
  unfold resolve, backup_path_of, backup_key. intros Hr Hf [Hslash Hnul] Hlim.
  apply backup_suffix_no_slash in Hslash. apply backup_suffix_no_NUL in Hnul.
  set (suffix := "." +:+ timestamp +:+ ".bak") in *.
  destruct file_path as [|c p]; [discriminate Hr|].
  change (String.eqb (String c p) "") with false in Hr. cbn [orb] in Hr.
  destruct (contains NUL (String c p)) eqn:En; [discriminate Hr|]. cbn [orb] in Hr.
  destruct (negb (within_limits env (String c p))); [discriminate Hr|].
  rewrite resolve_from_last_step in Hr.
  rewrite append_cons.
  change (String.eqb (String c (p +:+ suffix)) "") with false.
  rewrite <- append_cons. unfold NUL in *.
  rewrite contains_char_app, En, Hnul, Hlim.
  cbn [orb negb]. rewrite append_cons.
  change (startswith "/" (String c (p +:+ suffix))) with (startswith "/" (String c p)).
  rewrite <- append_cons, resolve_from_last_step,
    (last_step_app _ _ _ _ Hslash).
  destruct (last_step (searchable env) r
              (if startswith "/" (String c p) then [] else cwd env) "" (String c p))
    as [[cur name]|]; [|discriminate Hr].
  destruct (enter_file _ _ _ _ _ _ Hr Hf) as (-> & Hd & Hs & H0 & H1 & H2).
  rewrite beside_snoc, removelast_last. split; [|split; [exact Hd | intros E; destruct cur; discriminate E]].
  apply enter_name; try assumption.
  - destruct name; [contradiction | discriminate].
  - intros E. apply (f_equal String.length) in E. rewrite length_append in E.
    subst suffix. rewrite !length_append in E.
    destruct name; [contradiction | simpl in E; lia].
  - intros E. apply (f_equal String.length) in E. rewrite length_append in E.
    subst suffix. rewrite !length_append in E.
    destruct name as [|x [|y name]]; [contradiction | simpl in E; lia | simpl in E; lia].
Qed.

End tree_facts.

(** ** [filter_log_file], step by step *)

Module filter_facts.
Import pystr posix update_logging log_facts lines_facts text_facts tree_facts.




(** What was read was a regular file that holds UTF-8. *)
Lemma read_text_inv env st file_path text :
  read_text env st file_path = Some text ->
  exists k bytes,
    resolve env (root st) file_path = Some k /\ file_at (root st) k = Some bytes /\
    readable env k = true /\ utf8_valid bytes = true /\ text = universal_newlines bytes.
Proof.
  unfold read_text, decode. destruct (resolve env (root st) file_path) as [k|]; [|discriminate].
  destruct (node_at (root st) k) as [[bytes|]|] eqn:El; try discriminate.
  destruct (readable env k) eqn:Hread; [|discriminate].
  destruct (utf8_valid bytes) eqn:Hv; [|discriminate]. intros [= <-].
  exists k, bytes. unfold file_at. rewrite El. repeat split; assumption.
Qed.

Lemma write_text_inv env st path text written :
  write_text env st path text = Some written ->
  exists k, resolve env (root st) path = Some k /\ writable env k = true /\
            store (root st) k text = Some written.
Proof.
  unfold write_text. destruct (resolve env (root st) path) as [k|]; [|discriminate].
  destruct (writable env k) eqn:Hw; [|discriminate]. intros H. exists k. auto.
Qed.


(** Whatever can be read and written: either the tree is as it was,
    or the backup was written beside the file, and then the file
    either was left as it was or was rewritten. *)
Lemma filter_log_file_root env st file_path :
  let timestamp := strftime_now env (clock st) in
  timestamp_ok timestamp ->
  root (filter_log_file env file_path st) = root st \/
  exists k bytes r1,
    resolve env (root st) file_path = Some k /\ file_at (root st) k = Some bytes /\
    readable env k = true /\ utf8_valid bytes = true /\
    writable env (backup_key k timestamp) = true /\
    store (root st) (backup_key k timestamp) (universal_newlines bytes) = Some r1 /\
    (root (filter_log_file env file_path st) = r1 \/
     writable env k = true /\
     store r1 k (join (String LF "") (filtered_lines (splitlines (universal_newlines bytes))))
     = Some (root (filter_log_file env file_path st))).
Proof.
  intros timestamp Hts. unfold filter_log_file.
  destruct (read_text env st file_path) as [text|] eqn:Er; [|left; reflexivity].
  destruct (read_text_inv _ _ _ _ Er) as (k & bytes & Hr & Hf & Hread & Hv & ->).
  cbv zeta. cbn [root clock io_log]. fold timestamp.
  destruct (write_text _ _ (backup_path_of file_path timestamp) _) as [r1|] eqn:Ew1;
    [|left; reflexivity].
  destruct (write_text_inv _ _ _ _ _ Ew1) as (kb & Hrb & Hwb & Hs1). cbn [root] in Hrb, Hs1.
  assert (Hlim : within_limits env (backup_path_of file_path timestamp) = true).
  { unfold resolve in Hrb. destruct (within_limits env _); [reflexivity|].
    rewrite orb_true_r in Hrb. discriminate Hrb. }
  destruct (resolve_backup _ _ _ _ _ _ Hr Hf Hts Hlim) as (Hrb' & _ & _).
  rewrite Hrb' in Hrb. injection Hrb as <-.
  right. exists k, bytes, r1. repeat (split; [assumption|]).
  pose proof (store_not_dir _ _ _ _ Hs1) as Hbd.
  assert (Hdirs : forall k', is_dir r1 k' = is_dir (root st) k')
    by (intros k'; exact (store_is_dir _ _ _ _ k' Hs1 Hbd)).
  unfold write_text. cbn [root]. rewrite (resolve_ext _ _ _ _ Hdirs), Hr.
  destruct (writable env k); [|left; reflexivity].
  destruct (store r1 k _) as [r2|] eqn:Hs2; [|left; reflexivity].
  right. split; reflexivity.
Qed.


End filter_facts.


(** ** Runs within what they have listed *)

Module licence_facts.
Import aws facts dry_run_facts.
Export trace_spec entitlements.

(** *** Counting requests *)

Lemma occ_app k l1 l2 : occ k (l1 ++ l2) = occ k l1 + occ k l2.
Proof. apply count_occ_app. Qed.

Lemma occ_In k l : In k l <-> 0 < occ k l.
Proof. unfold occ. rewrite (count_occ_In mutation_eq_dec). lia. Qed.

Lemma le_bag_refl l : le_bag l l.
Proof. intros k. lia. Qed.

Lemma le_bag_nil l : le_bag [] l.
Proof. intros k. unfold occ. simpl. lia. Qed.

Lemma le_bag_trans l1 l2 l3 : le_bag l1 l2 -> le_bag l2 l3 -> le_bag l1 l3.
Proof. intros H1 H2 k. specialize (H1 k). specialize (H2 k). lia. Qed.

Lemma le_bag_app l1 l2 l1' l2' :
  le_bag l1 l1' -> le_bag l2 l2' -> le_bag (l1 ++ l2) (l1' ++ l2').
Proof. intros H1 H2 k. rewrite !occ_app. specialize (H1 k). specialize (H2 k). lia. Qed.

Lemma le_bag_app_l l1 l2 l : le_bag l1 l -> le_bag l1 (l ++ l2).
Proof. intros H1 k. rewrite occ_app. specialize (H1 k). lia. Qed.

Lemma le_bag_app_r l1 l2 l : le_bag l1 l -> le_bag l1 (l2 ++ l).
Proof. intros H1 k. rewrite occ_app. specialize (H1 k). lia. Qed.

Lemma le_bag_cons x l l' : le_bag l l' -> le_bag (x :: l) (x :: l').
Proof. intros Hl. apply (le_bag_app [x] l [x] l'); [apply le_bag_refl | exact Hl]. Qed.

Lemma le_bag_flat_map {X} (f g : X -> list mutation) l :
  (forall x, In x l -> le_bag (f x) (g x)) -> le_bag (flat_map f l) (flat_map g l).
Proof.
  induction l as [|x l IH]; intros Hfg; simpl; [apply le_bag_nil|].
  apply le_bag_app; [apply Hfg; left; reflexivity|].
  apply IH. intros y Hy. apply Hfg. right. exact Hy.
Qed.

Lemma le_bag_app_nil l1 l2 : le_bag l1 [] -> le_bag l2 [] -> le_bag (l1 ++ l2) [].
Proof. intros H1 H2. apply (le_bag_app l1 l2 [] []); assumption. Qed.

Lemma le_bag_flat_map_nil {X} (f : X -> list mutation) l :
  (forall x, In x l -> le_bag (f x) []) -> le_bag (flat_map f l) [].
Proof.
  induction l as [|x l IH]; intros Hf; simpl; [apply le_bag_nil|].
  apply le_bag_app_nil; [apply Hf; left; reflexivity|].
  apply IH. intros y Hy. apply Hf. right. exact Hy.
Qed.

Lemma le_bag_skip_l l1 l2 l : le_bag l1 [] -> le_bag l2 l -> le_bag (l1 ++ l2) l.
Proof. intros H1 H2. apply (le_bag_app l1 l2 [] l); assumption. Qed.

Lemma le_bag_skip_r l1 l2 l : le_bag l2 [] -> le_bag l1 l -> le_bag (l1 ++ l2) l.
Proof.
  intros H2 H1. rewrite <- (app_nil_r l). apply le_bag_app; assumption.
Qed.

Lemma le_bag_flat_map_filter {X} (p : X -> bool) (f g : X -> list mutation) l :
  (forall x, In x l -> p x = true -> le_bag (f x) (g x)) ->
  le_bag (flat_map f (List.filter p l)) (flat_map g l).
Proof.
  induction l as [|x l IH]; intros Hfg; simpl; [apply le_bag_nil|].
  assert (Hl : le_bag (flat_map f (List.filter p l)) (flat_map g l)).
  { apply IH. intros y Hy. apply Hfg. right. exact Hy. }
  destruct (p x) eqn:E; simpl.
  - apply le_bag_app; [apply Hfg; [left; reflexivity | exact E] | exact Hl].
  - apply le_bag_app_r. exact Hl.
Qed.

Lemma flat_map_singleton {X Y} (f : X -> Y) l : flat_map (fun x => [f x]) l = map f l.
Proof. induction l as [|x l IH]; simpl; [reflexivity | rewrite IH; reflexivity]. Qed.

Lemma le_bag_flat_map_map {X} (f : X -> list mutation) (g : X -> mutation) l :
  (forall x, In x l -> le_bag (f x) [g x]) -> le_bag (flat_map f l) (map g l).
Proof. intros Hfg. rewrite <- flat_map_singleton. apply le_bag_flat_map. exact Hfg. Qed.

Lemma le_bag_intro l1 l2 : (forall k, occ k l1 <= occ k l2) -> le_bag l1 l2.
Proof. intros Hk. exact Hk. Qed.

Lemma le_bag_sublist {X} (f : X -> list mutation) (l1 l2 : list X) :
  sublist l1 l2 -> le_bag (flat_map f l1) (flat_map f l2).
Proof.
  induction 1 as [|x l1 l2 _ IH|x l1 l2 _ IH]; simpl.
  - apply le_bag_nil.
  - apply le_bag_app; [apply le_bag_refl | exact IH].
  - apply le_bag_app_r. exact IH.
Qed.

Lemma mutations_app t1 t2 : mutations (t1 ++ t2) = mutations t1 ++ mutations t2.
Proof. unfold mutations. apply flat_map_app. Qed.

Lemma read_only_mutations t : Forall read_only t -> mutations t = [].
Proof.
  induction 1 as [|ev t Hev _ IH]; [reflexivity|].
  unfold mutations in *. simpl. rewrite IH. destruct ev; simpl in Hev; tauto.
Qed.

Lemma licences_app t1 t2 : licences (t1 ++ t2) = licences t1 ++ licences t2.
Proof. unfold licences. apply flat_map_app. Qed.

(** *** Runs within their licence *)

Section licensed.
Context {S : Type} `{Provider S}.

(** Every run of [m] sends each changing request at most as often as
    the budget [B] and the answers to its own reading requests entitle
    it to. *)
Definition licensed {A} (B : list mutation) (m : M S A) : Prop :=
  forall s, le_bag (mutations (trace (m s))) (B ++ licences (trace (m s))).

Lemma licensed_intro {A} B (m : M S A) :
  (forall s, le_bag (mutations (trace (m s))) (B ++ licences (trace (m s)))) -> licensed B m.
Proof. intros Hs. exact Hs. Qed.

Lemma licensed_run {A} B (m : M S A) s :
  licensed B m -> le_bag (mutations (trace (m s))) (B ++ licences (trace (m s))).
Proof. intros Hm. apply Hm. Qed.

Lemma licensed_weaken {A} B B' (m : M S A) :
  licensed B m -> le_bag B B' -> licensed B' m.
Proof.
  intros Hm HB s k. specialize (Hm s k). specialize (HB k).
  rewrite occ_app in *. lia.
Qed.

Lemma licensed_ret {A} (a : A) : licensed [] (ret a).
Proof. intros s. apply le_bag_nil. Qed.

Lemma licensed_raise {A} e : licensed [] (@raise S A e).
Proof. intros s. apply le_bag_nil. Qed.

Lemma licensed_create h region : licensed [] (create h region).
Proof. intros s. apply le_bag_nil. Qed.

Lemma licensed_subscript {A} key (o : option A) : licensed [] (subscript key o).
Proof. destruct o; intros s; apply le_bag_nil. Qed.

Lemma licensed_return {A} : licensed [] (@return_ S A).
Proof. intros s. apply le_bag_nil. Qed.

Lemma licensed_log lvl msg : licensed [] (log lvl msg).
Proof. intros s. apply le_bag_nil. Qed.

Lemma licensed_sleep n : licensed [] (sleep n).
Proof. intros s. apply le_bag_nil. Qed.

Lemma licensed_call {R} scope (q : read R) : licensed [] (call scope q).
Proof. intros s. rewrite trace_call. apply le_bag_nil. Qed.

Lemma licensed_mutate scope m : licensed [m] (mutate scope m).
Proof.
  intros s. rewrite trace_mutate. simpl. apply le_bag_refl.
Qed.

Lemma licensed_bind {A B} B1 B2 (m : M S A) (f : A -> M S B) :
  licensed B1 m -> (forall a, licensed B2 (f a)) -> licensed (B1 ++ B2) (bind m f).
Proof.
  intros Hm Hf s k. rewrite trace_bind. specialize (Hm s k).
  destruct (out (m s)) as [a| |].
  - specialize (Hf a (final (m s)) k).
    rewrite mutations_app, licences_app, !occ_app in *. lia.
  - rewrite !occ_app in *. lia.
  - rewrite !occ_app in *. lia.
Qed.

(** A step that needs no budget may be put before or after another. *)
Lemma licensed_bind_l {A B} B2 (m : M S A) (f : A -> M S B) :
  licensed [] m -> (forall a, licensed B2 (f a)) -> licensed B2 (bind m f).
Proof. intros Hm Hf. apply (licensed_bind [] B2); assumption. Qed.

Lemma licensed_bind_r {A B} B1 (m : M S A) (f : A -> M S B) :
  licensed B1 m -> (forall a, licensed [] (f a)) -> licensed B1 (bind m f).
Proof.
  intros Hm Hf. rewrite <- (app_nil_r B1). apply licensed_bind; assumption.
Qed.

(** What follows a reading request may use what its answer entitles
    to. *)
Lemma licensed_call_bind {R A} B0 (Bf : R -> list mutation) scope (q : read R)
    (f : R -> M S A) :
  (forall x, licensed (Bf x) (f x)) ->
  (forall x, le_bag (Bf x) (B0 ++ licence_of q x)) ->
  licensed B0 (bind (call scope q) f).
Proof.
  intros Hf HB s k. rewrite trace_bind, out_call, trace_call.
  unfold call. destruct (answer scope q s) as [[x|e] s']; cbn [fst out final trace].
  - specialize (Hf x s' k). specialize (HB x k).
    rewrite mutations_app, licences_app.
    change (mutations [EvRead scope q (Ok x)]) with (@nil mutation).
    change (licences [EvRead scope q (Ok x)]) with (licence_of q x ++ []).
    rewrite app_nil_r. rewrite !occ_app in *. simpl. lia.
  - unfold occ. simpl. lia.
Qed.

(** A step whose result decides what the next steps need: the step
    itself pays for it, from the budget or from what it has read. *)
Lemma licensed_bind_dep {A B} (Bf : A -> list mutation) B0 (m : M S A) (f : A -> M S B) :
  (forall s, mutations (trace (m s)) = []) ->
  (forall s a, out (m s) = Done a -> le_bag (Bf a) (B0 ++ licences (trace (m s)))) ->
  (forall a, licensed (Bf a) (f a)) ->
  licensed B0 (bind m f).
Proof.
  intros Hq Hm Hf s k. rewrite trace_bind. specialize (Hq s). specialize (Hm s).
  destruct (out (m s)) as [a| |].
  - specialize (Hm a eq_refl k). specialize (Hf a (final (m s)) k).
    rewrite mutations_app, licences_app, Hq, !occ_app in *. simpl. lia.
  - rewrite Hq. apply le_bag_nil.
  - rewrite Hq. apply le_bag_nil.
Qed.

Lemma licensed_def B (body : M S unit) : licensed B body -> licensed B (def body).
Proof. intros Hb s. rewrite trace_def. apply Hb. Qed.

Lemma licensed_try {A} B1 B2 (body : M S A) handler :
  licensed B1 body -> (forall e h, handler e = Some h -> licensed B2 h) ->
  licensed (B1 ++ B2) (try_ body handler).
Proof.
  intros Hb Hh s k. rewrite trace_try. specialize (Hb s k).
  destruct (out (body s)) as [a|e|]; try (rewrite !occ_app in *; lia).
  destruct (handler e) as [h|] eqn:E; try (rewrite !occ_app in *; lia).
  specialize (Hh e h E (final (body s)) k).
  rewrite mutations_app, licences_app, !occ_app in *. lia.
Qed.

Lemma licensed_try_ClientError {A} B1 B2 (body : M S A) h :
  licensed B1 body -> (forall msg, licensed B2 (h msg)) ->
  licensed (B1 ++ B2) (try_ body (except_ClientError h)).
Proof.
  intros Hb Hh. apply licensed_try; [exact Hb|].
  intros [msg|msg] h' E; simpl in E; inversion E; subst; apply Hh.
Qed.

(** A handler that changes nothing. *)
Lemma licensed_try_ClientError_quiet {A} B1 (body : M S A) h :
  licensed B1 body -> (forall msg, licensed [] (h msg)) ->
  licensed B1 (try_ body (except_ClientError h)).
Proof.
  intros Hb Hh. rewrite <- (app_nil_r B1). apply licensed_try_ClientError; assumption.
Qed.

Lemma licensed_try_Exception_quiet {A} B1 (body : M S A) h :
  licensed B1 body -> (forall msg, licensed [] (h msg)) ->
  licensed B1 (try_ body (except_Exception h)).
Proof.
  intros Hb Hh. rewrite <- (app_nil_r B1). apply licensed_try; [exact Hb|].
  intros e h' E. inversion E; subst. apply Hh.
Qed.

Lemma licensed_for_each {X} (Bf : X -> list mutation) (l : list X) body :
  (forall x, In x l -> licensed (Bf x) (body x)) -> licensed (flat_map Bf l) (for_each l body).
Proof.
  induction l as [|x l IH]; intros Hb; simpl.
  - apply licensed_ret.
  - apply licensed_bind; [apply Hb; left; reflexivity|].
    intros _. apply IH. intros y Hy. apply Hb. right. exact Hy.
Qed.

Lemma licensed_for_each_quiet {X} (l : list X) body :
  (forall x, licensed [] (body x)) -> licensed [] (for_each l body).
Proof.
  intros Hb. induction l as [|x l IH]; simpl; [apply licensed_ret|].
  apply licensed_bind_l; [apply Hb | intros _; apply IH].
Qed.

Lemma licensed_for_pages {X} (Bf : X -> list mutation) (p : pages X) body :
  (forall x, In x (entries p) -> licensed (Bf x) (body x)) ->
  licensed (flat_map Bf (entries p)) (for_pages p body).
Proof.
  intros Hb. unfold for_pages, entries in *. apply licensed_bind_r.
  - destruct p as [pgs err]. simpl in *. clear err.
    induction pgs as [|page pgs IH]; simpl.
    + apply licensed_ret.
    + rewrite flat_map_app. apply licensed_bind.
      * apply licensed_for_each. intros x Hx. apply Hb. apply in_or_app. left. exact Hx.
      * intros _. apply IH. intros x Hx. apply Hb. apply in_or_app. right. exact Hx.
  - intros _. destruct (snd p); [apply licensed_raise | apply licensed_ret].
Qed.

Lemma licensed_when B (b : bool) (m : M S unit) :
  licensed B m -> licensed (if b then B else []) (when b m).
Proof. destruct b; simpl; [auto | intros _; apply licensed_ret]. Qed.

Lemma licensed_when_quiet (b : bool) (m : M S unit) : licensed [] m -> licensed [] (when b m).
Proof. destruct b; simpl; [auto | intros _; apply licensed_ret]. Qed.

Lemma licensed_if {A} B1 B2 (b : bool) (m1 m2 : M S A) :
  licensed B1 m1 -> licensed B2 m2 ->
  licensed (if b then B1 else B2) (if b then m1 else m2).
Proof. destruct b; auto. Qed.

Lemma licensed_if_same {A} B (b : bool) (m1 m2 : M S A) :
  licensed B m1 -> licensed B m2 -> licensed B (if b then m1 else m2).
Proof. destruct b; auto. Qed.

Lemma licensed_match {A X} B1 B2 (o : option X) (m1 : X -> M S A) (m2 : M S A) :
  (forall x, licensed (B1 x) (m1 x)) -> licensed B2 m2 ->
  licensed (match o with Some x => B1 x | None => B2 end)
           (match o with Some x => m1 x | None => m2 end).
Proof. destruct o; auto. Qed.

Lemma licensed_match_same {A X} B (o : option X) (m1 : X -> M S A) (m2 : M S A) :
  (forall x, licensed B (m1 x)) -> licensed B m2 ->
  licensed B (match o with Some x => m1 x | None => m2 end).
Proof. destruct o; auto. Qed.

End licensed.

(** *** Tactics *)

Create HintDb licence.
#[global] Hint Unfold
  for_instance for_security_group for_address for_volume
  for_snapshot for_mapping for_image for_bucket
  is_versioned for_function for_stack for_stack_resources
  for_db_instance for_db_cluster for_db_parameter_group for_db_cluster_parameter_group
  for_option_group for_nat_gateway for_network_interface for_internet_gateway
  for_vpn_connection for_vpn_gateway for_transit_gateway_attachment for_transit_gateway
  for_vpc for_route_table for_network_acl for_peering
  for_role for_policy_entities for_policy_version : licence.


Ltac head_of t :=
  lazymatch t with
  | ?f _ => head_of f
  | _ => t
  end.

Ltac binders := repeat lazymatch goal with |- forall _, _ => intro end.

(** Steps that send no request: log entries, [ret], and the branches
    between them. *)
Ltac quiet :=
  binders; cbv zeta;
  lazymatch goal with
  | |- licensed [] (bind _ _) => apply licensed_bind_l; quiet
  | |- licensed [] (log _ _) => apply licensed_log
  | |- licensed [] (ret _) => apply licensed_ret
  | |- licensed [] return_ => apply licensed_return
  | |- licensed [] (raise _) => apply licensed_raise
  | |- licensed [] (create _ _) => apply licensed_create
  | |- licensed [] (subscript _ _) => apply licensed_subscript
  | |- licensed [] (sleep _) => apply licensed_sleep
  | |- licensed [] (call _ _) => apply licensed_call
  | |- licensed [] (when _ _) => apply licensed_when_quiet; quiet
  | |- licensed [] (for_each _ _) => apply licensed_for_each_quiet; quiet
  | |- licensed [] (match _ with Some _ => _ | None => _ end) =>
      apply licensed_match_same; quiet
  | |- licensed [] (if _ then _ else _) => apply licensed_if_same; quiet
  | |- licensed [] (try_ _ (except_ClientError _)) =>
      apply (licensed_try_ClientError_quiet []); quiet
  | |- licensed [] (try_ _ (except_Exception _)) =>
      apply (licensed_try_Exception_quiet []); quiet
  | |- licensed [] ?m => let h := head_of m in unfold h; quiet
  end.

(** Comparison of two budgets written out, by counting. *)
Ltac count :=
  apply le_bag_intro; intros ?k; unfold occ; cbn [count_occ app negb];
  repeat match goal with
         | |- context [mutation_eq_dec ?a ?b] => destruct (mutation_eq_dec a b)
         end;
  lia.

(** Comparison of two budgets of the same shape. *)
Ltac split_condition :=
  match goal with
  | |- context [if negb ?b then _ else _] => destruct b eqn:?
  | |- context [if ?b then _ else _] => destruct b eqn:?
  | |- context [match ?o with Some _ => _ | None => _ end] => destruct o eqn:?
  end.

Ltac bag :=
  binders; cbv beta zeta; cbn [app licence_of negb];
  autounfold with licence; cbv beta zeta; rewrite ?app_nil_r;
  lazymatch goal with
  | E : negb true = true |- _ => discriminate E
  | |- le_bag [] _ => apply le_bag_nil
  | |- le_bag ?x ?x => apply le_bag_refl
  | |- _ =>
      tryif split_condition then bag else
      lazymatch goal with
      | |- le_bag (flat_map _ _) [] => apply le_bag_flat_map_nil; bag
      | |- le_bag (flat_map _ ?l) (flat_map _ ?l) => apply le_bag_flat_map; bag
      | |- le_bag (flat_map _ ?l) (map _ ?l) => apply le_bag_flat_map_map; bag
      | |- le_bag (flat_map _ (List.filter _ ?l)) (flat_map _ ?l) =>
          apply le_bag_flat_map_filter; bag
      | |- le_bag (_ ++ _) [] => apply le_bag_app_nil; bag
      | |- le_bag (_ :: _) (_ :: _) => first [apply le_bag_cons; bag | count]
      | |- le_bag (_ ++ _) (_ ++ _) =>
          first [ apply le_bag_app; bag
                | apply le_bag_skip_l; [solve [bag] | bag]
                | apply le_bag_skip_r; [solve [bag] | bag]
                | count ]
      | |- le_bag (_ ++ _) _ =>
          first [ apply le_bag_skip_l; [solve [bag] | bag]
                | apply le_bag_skip_r; [solve [bag] | bag]
                | count ]
      | |- le_bag _ _ => count
      end
  end.

(** The budget of a piece of code, by its structure.  [known] proves
    the goals about the parts that have lemmas of their own. *)
Ltac budget known :=
  binders; cbv zeta;
  first
    [ known
    | lazymatch goal with
      | |- licensed _ (bind (log _ _) _) =>
          apply licensed_bind_l; [apply licensed_log | budget known]
      | |- licensed _ (bind (sleep _) _) =>
          apply licensed_bind_l; [apply licensed_sleep | budget known]
      | |- licensed _ (bind (call _ _) _) =>
          eapply (licensed_call_bind []); [budget known | solve [bag]]
      | |- licensed _ (bind _ _) =>
          first [ apply licensed_bind_l; [ solve [quiet] | budget known ]
                | eapply licensed_bind_r; [ | solve [quiet] ]; budget known
                | eapply licensed_bind; [budget known | budget known] ]
      | |- licensed _ (log _ _) => apply licensed_log
      | |- licensed _ (ret _) => apply licensed_ret
      | |- licensed _ return_ => apply licensed_return
      | |- licensed _ (raise _) => apply licensed_raise
      | |- licensed _ (create _ _) => apply licensed_create
      | |- licensed _ (subscript _ _) => apply licensed_subscript
      | |- licensed _ (sleep _) => apply licensed_sleep
      | |- licensed _ (call _ _) => apply licensed_call
      | |- licensed _ (mutate _ _) => apply licensed_mutate
      | |- licensed _ (def _) => apply licensed_def; budget known
      | |- licensed _ (try_ _ (except_ClientError _)) =>
          first [ eapply licensed_try_ClientError_quiet; [ | solve [quiet] ]; budget known
                | eapply licensed_try_ClientError; [budget known | budget known] ]
      | |- licensed _ (try_ _ (except_Exception _)) =>
          eapply licensed_try_Exception_quiet; [ | solve [quiet] ]; budget known
      | |- licensed _ (for_each _ _) => eapply licensed_for_each; budget known
      | |- licensed _ (for_pages _ _) => eapply licensed_for_pages; budget known
      | |- licensed _ (when _ _) => eapply licensed_when; budget known
      | |- licensed _ (match _ with Some _ => _ | None => _ end) =>
          eapply licensed_match; [budget known | budget known]
      | |- licensed _ (if _ then _ else _) =>
          eapply licensed_if; [budget known | budget known]
      | |- licensed _ ?m => let h := head_of m in unfold h; budget known
      end ].

(** A piece of code against a given budget. *)
Ltac within known := eapply licensed_weaken; [budget known | solve [bag]].

End licence_facts.

(** ** Every cleaner stays within what it has listed *)

(** *** Lambda *)

Module lambda_facts.
Import aws facts licence_facts.
#[local] Opaque licensed le_bag.

Section cleaners.
Context {S : Type} `{Provider S}.

Lemma licensed_function client dry_run f :
  licensed (for_function f) (lambda_module.clean_function (S:=S) client dry_run f).
Proof. within fail. Qed.

Lemma licensed_layer client dry_run l :
  licensed [] (lambda_module.clean_layer (S:=S) client dry_run l).
Proof. within fail. Qed.

Lemma licensed_lambda region dry_run :
  licensed [] (lambda_module.clean (S:=S) region dry_run).
Proof. within ltac:(first [apply licensed_function | apply licensed_layer]). Qed.

End cleaners.
End lambda_facts.

(** *** S3 *)

Module s3_facts.
Import aws facts licence_facts dry_run_facts.
#[local] Opaque licensed le_bag.

(** What a bucket name entitles to, apart from the versions. *)
Definition for_bucket_name (n : string) : list mutation :=
  [s3.objects_all_delete n; s3.delete_bucket_lifecycle n;
   s3.delete_bucket_policy n; s3.delete_bucket n].

Lemma for_bucket_names buckets :
  flat_map for_bucket buckets = flat_map for_bucket_name (map bucket_Name buckets).
Proof. induction buckets as [|b l IH]; simpl; [reflexivity | rewrite <- IH; reflexivity]. Qed.

Section cleaners.
Context {S : Type} `{Provider S}.

(** The buckets kept by the region filter are listed ones, in the
    order of the listing. *)
Lemma filter_region_buckets_names s3_client region buckets s names :
  out (s3.filter_region_buckets (S:=S) s3_client region buckets s) = Done names ->
  sublist names (map bucket_Name buckets).
Proof.
  revert s names. induction buckets as [|bucket rest IH]; intros s names; simpl.
  - intros E. inversion E. constructor.
  - unfold bind at 1.
    match goal with |- context [out (try_ ?b ?h s)] => set (r := try_ b h s) end.
    assert (Hr : forall l, out r = Done l -> l = [bucket_Name bucket] \/ l = []).
    { subst r. unfold try_, bind, call, logger_info, logger_error, log, ret.
      destruct (answer s3_client (get_bucket_location (bucket_Name bucket)) s) as [[x|[e|e]] s'];
        cbn; intros l.
      - destruct (String.eqb _ region); cbn; intros E; inversion E; auto.
      - intros E; inversion E; auto.
      - discriminate. }
    destruct (out r) as [appended| |]; try discriminate.
    cbn. unfold bind at 1.
    specialize (IH (final r)).
    destruct (out (s3.filter_region_buckets s3_client region rest (final r))) as [others| |];
      try discriminate.
    cbn. intros E. inversion E; subst.
    destruct (Hr appended eq_refl) as [-> | ->]; simpl.
    + apply sublist_skip. apply IH. reflexivity.
    + apply sublist_cons. apply IH. reflexivity.
Qed.

Lemma licensed_bucket s3_client dry_run bucket_name :
  licensed (for_bucket_name bucket_name) (s3.clean_bucket (S:=S) s3_client dry_run bucket_name).
Proof.
  unfold s3.clean_bucket. apply licensed_bind_l; [apply licensed_log|]. intros _.
  apply (licensed_bind_dep
           (fun v : bool => (if v then [s3.object_versions_delete bucket_name] else [])
                            ++ for_bucket_name bucket_name)).
  - intros s. unfold try_, bind, call, logger_info, logger_error, log, ret.
    destruct (answer s3_client (get_bucket_versioning bucket_name) s) as [[x|[e|e]] s'];
      reflexivity.
  - intros s v. unfold try_, bind, call, logger_info, logger_error, log, ret.
    destruct (answer s3_client (get_bucket_versioning bucket_name) s) as [[x|[e|e]] s'];
      cbn; intros E; inversion E; subst; clear E.
    + rewrite app_nil_r. unfold is_versioned.
      destruct x; [destruct (_ || _)|]; unfold for_bucket_name; count.
    + unfold for_bucket_name; count.
  - intros v. eapply licensed_weaken.
    + budget fail.
    + destruct dry_run, v; unfold for_bucket_name; count.
Qed.

Lemma licensed_s3 region dry_run : licensed [] (s3.clean (S:=S) region dry_run).
Proof.
  unfold s3.clean. apply licensed_def. cbv zeta.
  apply licensed_bind_l; [apply licensed_create|]. intros _.
  apply licensed_bind_l; [apply licensed_create|]. intros _.
  eapply licensed_bind_r; [ | solve [quiet] ].
  eapply licensed_try_ClientError_quiet; [ | solve [quiet] ].
  apply licensed_bind_l; [apply licensed_log|]. intros _.
  apply (licensed_call_bind [] (flat_map for_bucket)); [ | intros x; apply le_bag_refl ].
  intros buckets.
  apply (licensed_bind_dep (flat_map for_bucket_name)).
  - intros s. apply read_only_mutations. apply filter_region_buckets_dry.
  - intros s names E. apply le_bag_app_l. rewrite for_bucket_names.
    apply le_bag_sublist. eapply filter_region_buckets_names. exact E.
  - intros names. apply licensed_bind_l; [quiet|]. intros _.
    apply licensed_for_each. intros n _. apply licensed_bucket.
Qed.

End cleaners.
End s3_facts.

(** *** CloudFormation *)

Module cloudformation_facts.
Import aws facts licence_facts.
#[local] Opaque licensed le_bag.

Section cleaners.
Context {S : Type} `{Provider S}.

(** A stack in a failed state: the request that the listing of its
    resources entitles to, or the plain one; and the plain one again
    where the first attempt fails. *)
Lemma licensed_delete_failed_stack cf_client stack_name :
  licensed [cloudformation.delete_stack stack_name []; cloudformation.delete_stack stack_name []]
           (cloudformation.delete_failed_stack (S:=S) cf_client stack_name).
Proof.
  unfold cloudformation.delete_failed_stack.
  apply (licensed_try_ClientError [cloudformation.delete_stack stack_name []]
                                  [cloudformation.delete_stack stack_name []]).
  - apply (licensed_call_bind _ (fun resources =>
             cloudformation.delete_stack stack_name [] :: for_stack_resources stack_name resources)).
    + intros resources. eapply licensed_weaken; [budget fail|].
      unfold for_stack_resources. cbv zeta.
      destruct (is_nil _); cbn [negb]; count.
    + intros resources. apply le_bag_refl.
  - intros msg. within fail.
Qed.

Lemma licensed_stack cf_client dry_run stack :
  licensed (for_stack stack) (cloudformation.clean_stack (S:=S) cf_client dry_run stack).
Proof.
  eapply licensed_weaken; [budget ltac:(apply licensed_delete_failed_stack)|].
  bag.
Qed.

Lemma licensed_cloudformation region dry_run :
  licensed [] (cloudformation.clean (S:=S) region dry_run).
Proof. within ltac:(apply licensed_stack). Qed.

End cleaners.
End cloudformation_facts.

(** *** EC2 *)

Module ec2_facts.
Import aws facts licence_facts.
#[local] Opaque licensed le_bag.

Section cleaners.
Context {S : Type} `{Provider S}.

Lemma licensed_instances ec2 region dry_run :
  licensed [] (ec2.clean_instances (S:=S) ec2 region dry_run).
Proof. within fail. Qed.

Lemma licensed_security_groups ec2 region dry_run :
  licensed [] (ec2.clean_security_groups (S:=S) ec2 region dry_run).
Proof. within fail. Qed.

Lemma licensed_addresses ec2 region dry_run :
  licensed [] (ec2.clean_addresses (S:=S) ec2 region dry_run).
Proof. within fail. Qed.

Lemma licensed_volumes ec2 region dry_run :
  licensed [] (ec2.clean_volumes (S:=S) ec2 region dry_run).
Proof. within fail. Qed.

Lemma licensed_snapshots ec2 region dry_run :
  licensed [] (ec2.clean_snapshots (S:=S) ec2 region dry_run).
Proof. within fail. Qed.

Lemma licensed_images ec2 region dry_run :
  licensed [] (ec2.clean_images (S:=S) ec2 region dry_run).
Proof. within fail. Qed.

Lemma licensed_ec2 region dry_run : licensed [] (ec2.clean (S:=S) region dry_run).
Proof.
  within ltac:(first [ apply licensed_instances | apply licensed_security_groups
                     | apply licensed_addresses | apply licensed_volumes
                     | apply licensed_snapshots | apply licensed_images ]).
Qed.

End cleaners.
End ec2_facts.

(** *** RDS *)

Module rds_facts.
Import aws facts licence_facts.
#[local] Opaque licensed le_bag.

Section cleaners.
Context {S : Type} `{Provider S}.

Lemma licensed_rds region dry_run : licensed [] (rds.clean (S:=S) region dry_run).
Proof. within fail. Qed.

End cleaners.
End rds_facts.

(** *** VPC *)

Module vpc_facts.
Import aws facts licence_facts.
#[local] Opaque licensed le_bag.

Section cleaners.
Context {S : Type} `{Provider S}.

Lemma licensed_nat_gateways ec2 region dry_run :
  licensed [] (vpc.clean_nat_gateways (S:=S) ec2 region dry_run).
Proof. within fail. Qed.

Lemma licensed_network_interfaces ec2 region dry_run :
  licensed [] (vpc.clean_network_interfaces (S:=S) ec2 region dry_run).
Proof. within fail. Qed.

Lemma licensed_internet_gateways ec2 region dry_run :
  licensed [] (vpc.clean_internet_gateways (S:=S) ec2 region dry_run).
Proof. within fail. Qed.

Lemma licensed_vpn_connections ec2 region dry_run :
  licensed [] (vpc.clean_vpn_connections (S:=S) ec2 region dry_run).
Proof. within fail. Qed.

Lemma licensed_vpn_gateways ec2 region dry_run :
  licensed [] (vpc.clean_vpn_gateways (S:=S) ec2 region dry_run).
Proof. within fail. Qed.

Lemma licensed_transit_gateway_attachments ec2 region dry_run :
  licensed [] (vpc.clean_transit_gateway_attachments (S:=S) ec2 region dry_run).
Proof. within fail. Qed.

Lemma licensed_transit_gateways ec2 region dry_run :
  licensed [] (vpc.clean_transit_gateways (S:=S) ec2 region dry_run).
Proof. within fail. Qed.

Lemma licensed_route_tables ec2 dry_run vpc_id :
  licensed [] (vpc.clean_route_tables (S:=S) ec2 dry_run vpc_id).
Proof. within fail. Qed.

Lemma licensed_subnets ec2 dry_run vpc_id :
  licensed [] (vpc.clean_subnets (S:=S) ec2 dry_run vpc_id).
Proof. within fail. Qed.

Lemma licensed_vpc_security_groups ec2 dry_run vpc_id :
  licensed [] (vpc.clean_security_groups (S:=S) ec2 dry_run vpc_id).
Proof. within fail. Qed.

Lemma licensed_network_acls ec2 dry_run vpc_id :
  licensed [] (vpc.clean_network_acls (S:=S) ec2 dry_run vpc_id).
Proof. within fail. Qed.

Lemma licensed_vpc_endpoints ec2 dry_run vpc_id :
  licensed [] (vpc.clean_vpc_endpoints (S:=S) ec2 dry_run vpc_id).
Proof. within fail. Qed.

Lemma licensed_vpc_peering_connections ec2 region dry_run :
  licensed [] (vpc.clean_vpc_peering_connections (S:=S) ec2 region dry_run).
Proof. within fail. Qed.

Lemma licensed_vpc_resources ec2 dry_run v :
  licensed [] (vpc.clean_vpc_resources (S:=S) ec2 dry_run v).
Proof.
  within ltac:(first [ apply licensed_route_tables | apply licensed_subnets
                     | apply licensed_vpc_security_groups | apply licensed_network_acls
                     | apply licensed_vpc_endpoints ]).
Qed.

Lemma licensed_per_vpc ec2 region dry_run :
  licensed [] (vpc.clean_per_vpc (S:=S) ec2 region dry_run).
Proof.
  within ltac:(first [ apply licensed_vpc_resources
                     | apply licensed_vpc_peering_connections ]).
Qed.

Lemma licensed_vpc region dry_run : licensed [] (vpc.clean (S:=S) region dry_run).
Proof.
  within ltac:(first [ apply licensed_nat_gateways | apply licensed_network_interfaces
                     | apply licensed_internet_gateways | apply licensed_vpn_connections
                     | apply licensed_vpn_gateways
                     | apply licensed_transit_gateway_attachments
                     | apply licensed_transit_gateways | apply licensed_per_vpc ]).
Qed.

End cleaners.
End vpc_facts.

(** *** IAM *)

Module iam_facts.
Import aws facts licence_facts.
#[local] Opaque licensed le_bag.

Section cleaners.
Context {S : Type} `{Provider S}.

Lemma licensed_iam dry_run : licensed [] (iam.clean (S:=S) dry_run).
Proof. within fail. Qed.

End cleaners.
End iam_facts.

(** *** All the cleaners *)

Module licence_of_cleaners.
Import aws facts licence_facts.
#[local] Opaque licensed.

Section cleaners.
Context {S : Type} `{Provider S}.

Lemma licensed_cleaner_modules module scope dry_run :
  licensed [] (aws_cleanup_gui.cleaner_modules (S:=S) module scope dry_run).
Proof.
  destruct module, scope as [region|]; simpl;
    first [ apply licensed_raise
          | apply ec2_facts.licensed_ec2 | apply s3_facts.licensed_s3
          | apply lambda_facts.licensed_lambda
          | apply cloudformation_facts.licensed_cloudformation
          | apply rds_facts.licensed_rds | apply vpc_facts.licensed_vpc
          | apply iam_facts.licensed_iam ].
Qed.

(** In every run of a cleaner, each changing request is sent at most
    as often as the answers to the reading requests of the run entitle
    to. *)
Lemma cleaner_within_licence module scope dry_run s k :
  let t := trace (aws_cleanup_gui.cleaner_modules (S:=S) module scope dry_run s) in
  occ k (mutations t) <= occ k (licences t).
Proof.
  intros t. apply (licensed_run [] _ s (licensed_cleaner_modules module scope dry_run)).
Qed.

Lemma cleaner_mutation_licensed module scope dry_run s k :
  let t := trace (aws_cleanup_gui.cleaner_modules (S:=S) module scope dry_run s) in
  In k (mutations t) -> In k (licences t).
Proof.
  intros t Hk. apply occ_In. apply occ_In in Hk.
  pose proof (cleaner_within_licence module scope dry_run s k) as Hle.
  cbv zeta in Hle. subst t. lia.
Qed.

End cleaners.
End licence_of_cleaners.

(** ** Where an entitlement comes from *)

Module origin_facts.
Import aws facts licence_facts.
Export listings.

Create HintDb requests.
#[global] Hint Unfold
  lambda_module.delete_event_source_mapping lambda_module.delete_function
  lambda_module.delete_layer_version s3.object_versions_delete s3.objects_all_delete
  s3.delete_bucket_lifecycle s3.delete_bucket_policy s3.delete_bucket
  cloudformation.delete_stack ec2.terminate ec2.delete_security_group ec2.release_address
  ec2.volume_delete ec2.delete_snapshot ec2.deregister_image rds.modify_db_instance
  rds.delete_db_instance rds.modify_db_cluster rds.delete_db_cluster
  rds.delete_db_snapshot rds.delete_db_cluster_snapshot rds.delete_db_parameter_group
  rds.delete_db_cluster_parameter_group rds.delete_db_subnet_group rds.delete_option_group
  rds.delete_event_subscription vpc.delete_nat_gateway vpc.delete_network_interface
  vpc.detach_internet_gateway vpc.delete_internet_gateway vpc.delete_vpn_connection
  vpc.detach_vpn_gateway vpc.delete_vpn_gateway vpc.delete_transit_gateway_vpc_attachment
  vpc.delete_transit_gateway vpc.disassociate_route_table vpc.delete_route_table
  vpc.delete_subnet vpc.delete_security_group vpc.delete_network_acl
  vpc.delete_vpc_endpoints vpc.delete_vpc_peering_connection vpc.delete_vpc
  iam.delete_access_key iam.delete_user_policy iam.detach_user_policy
  iam.remove_user_from_group iam.deactivate_mfa_device iam.delete_login_profile
  iam.delete_user iam.delete_group_policy iam.detach_group_policy iam.delete_group
  iam.delete_role_policy iam.detach_role_policy iam.remove_role_from_instance_profile
  iam.delete_instance_profile iam.delete_role iam.delete_policy_version iam.delete_policy : requests.

Lemma licences_origin k t : In k (licences t) -> exists ev, In ev t /\ In k (licence ev).
Proof. unfold licences. rewrite in_flat_map. trivial. Qed.

Ltac scan :=
  repeat match goal with
         | H : In _ [] |- _ => destruct H
         | H : In _ (_ :: _) |- _ => destruct H as [H|H]
         | H : In _ (_ ++ _) |- _ => apply in_app_or in H; destruct H as [H|H]
         | H : In _ (flat_map _ _) |- _ =>
             apply in_flat_map in H; destruct H as (? & ? & H)
         | H : In _ (map _ _) |- _ => apply in_map_iff in H; destruct H as (? & H & ?)
         | H : In _ (if ?b then _ else _) |- _ => destruct b eqn:?
         | H : In _ (match ?o with Some _ => _ | None => _ end) |- _ => destruct o eqn:?
         | H : Mutation _ _ = Mutation _ _ |- _ => inversion H; subst; clear H
         end.

(** Which answer entitles to a given request: by cases on the reading
    request, the table [licence_of] is searched. *)
Ltac origin :=
  let H := fresh "H" in
  intros H;
  lazymatch goal with
  | |- context [listing _ ?ev] =>
      destruct ev as [? ?|? ? ?q [?x|?e]|? ? ?|?|? ? ? ? ?]; cbn [licence listing] in *;
      [destruct H | | destruct H | destruct H | destruct H | destruct H];
      destruct q; cbn [licence_of] in H; autounfold with licence requests in *;
      cbv beta zeta in *; scan; simpl; eauto 10
  end.

Lemma terminate_origin ev id :
  In (ec2.terminate id) (licence ev) ->
  exists i, In i (listing instances_of ev) /\ instance_id i = id /\
    str_in (instance_state i) ["terminated"; "shutting-down"] = false.
Proof. origin. Qed.

Lemma delete_nat_gateway_origin ev id :
  In (vpc.delete_nat_gateway id) (licence ev) ->
  exists nat, In nat (listing nat_gateways_of ev) /\ NatGatewayId nat = id /\
    str_in (nat_State nat) ["deleting"; "deleted"] = false.
Proof. origin. Qed.

Lemma delete_network_interface_origin ev id :
  In (vpc.delete_network_interface id) (licence ev) ->
  exists eni, In eni (listing network_interfaces_of ev) /\ NetworkInterfaceId eni = id /\
    str_in (eni_Status eni) ["in-use"; "detaching"; "deleting"] = false.
Proof. origin. Qed.

Lemma delete_vpn_connection_origin ev id :
  In (vpc.delete_vpn_connection id) (licence ev) ->
  exists vpn, In vpn (listing vpn_connections_of ev) /\ VpnConnectionId vpn = id /\
    str_in (vpn_State vpn) ["deleting"; "deleted"] = false.
Proof. origin. Qed.

Lemma delete_vpn_gateway_origin ev id :
  In (vpc.delete_vpn_gateway id) (licence ev) ->
  exists vgw, In vgw (listing vpn_gateways_of ev) /\ VpnGatewayId vgw = id /\
    str_in (vgw_State vgw) ["deleting"; "deleted"] = false.
Proof. origin. Qed.

Lemma delete_transit_gateway_attachment_origin ev id :
  In (vpc.delete_transit_gateway_vpc_attachment id) (licence ev) ->
  exists a, In a (listing transit_gateway_attachments_of ev) /\ TransitGatewayAttachmentId a = id /\
    str_in (tga_State a) ["deleting"; "deleted"] = false.
Proof. origin. Qed.

Lemma delete_transit_gateway_origin ev id :
  In (vpc.delete_transit_gateway id) (licence ev) ->
  exists tgw, In tgw (listing transit_gateways_of ev) /\ TransitGatewayId tgw = id /\
    str_in (tgw_State tgw) ["deleting"; "deleted"] = false.
Proof. origin. Qed.

Lemma delete_peering_connection_origin ev id :
  In (vpc.delete_vpc_peering_connection id) (licence ev) ->
  exists p, In p (listing peering_connections_of ev) /\ VpcPeeringConnectionId p = id /\
    str_in (get_or "unknown" (peer_Status_Code p)) ["deleted"; "rejected"; "failed"; "expired"] = false.
Proof. origin. Qed.

Lemma delete_vpc_origin ev id :
  In (vpc.delete_vpc id) (licence ev) ->
  exists v, In v (listing vpcs_of ev) /\ VpcId v = id /\
    vpc_IsDefault v = false.
Proof. origin. Qed.

Lemma delete_security_group_origin ev id :
  In (vpc.delete_security_group id) (licence ev) ->
  exists sg, In sg (listing security_groups_of ev) /\ GroupId sg = id /\
    String.eqb (GroupName sg) "default" = false.
Proof. origin. Qed.

Lemma delete_network_acl_origin ev id :
  In (vpc.delete_network_acl id) (licence ev) ->
  exists acl, In acl (listing network_acls_of ev) /\ NetworkAclId acl = id /\
    acl_IsDefault acl = false.
Proof. origin. Qed.

Lemma delete_db_parameter_group_origin ev name :
  In (rds.delete_db_parameter_group name) (licence ev) ->
  exists g, In g (listing db_parameter_groups_of ev) /\ DBParameterGroupName g = name /\
    pystr.startswith "default." name = false.
Proof. origin. Qed.

Lemma delete_db_cluster_parameter_group_origin ev name :
  In (rds.delete_db_cluster_parameter_group name) (licence ev) ->
  exists g, In g (listing db_cluster_parameter_groups_of ev) /\ DBClusterParameterGroupName g = name /\
    pystr.startswith "default." name = false.
Proof. origin. Qed.

Lemma delete_role_origin ev name :
  In (iam.delete_role name) (licence ev) ->
  exists role, In role (listing roles_of ev) /\ RoleName role = name /\
    iam.is_service_linked role = false.
Proof. origin. Qed.

End origin_facts.

(** ** The stacks that are deleted *)

Module stack_facts.
Import aws facts licence_facts origin_facts dry_run_facts.
Export stack_spec.

Lemma stack_request_mono (P Q : StackSummary -> Prop) ev :
  (forall stack, P stack -> Q stack) -> stack_request P ev -> stack_request Q ev.
Proof.
  intros HPQ. destruct ev; simpl; trivial.
  intros Hm E. destruct (Hm E) as (stack & HP & Hrest). exists stack. auto.
Qed.

Lemma listed_app_l {X} sel t1 t2 (d : X) : listed sel t1 d -> listed sel (t1 ++ t2) d.
Proof. intros (ev & Hev & Hd). exists ev. split; [apply in_or_app; auto | exact Hd]. Qed.

Lemma listed_app_r {X} sel t1 t2 (d : X) : listed sel t2 d -> listed sel (t1 ++ t2) d.
Proof. intros (ev & Hev & Hd). exists ev. split; [apply in_or_app; auto | exact Hd]. Qed.

Global Instance stacks_listed_Closed : Closed stacks_listed.
Proof.
  split; [constructor|].
  intros t1 t2 H1 H2. unfold stacks_listed in *. apply Forall_app. split.
  - eapply Forall_impl; [exact H1|]. intros ev. apply stack_request_mono.
    intros stack. apply listed_app_l.
  - eapply Forall_impl; [exact H2|]. intros ev. apply stack_request_mono.
    intros stack. apply listed_app_r.
Qed.

Section cleaners.
Context {S : Type} `{Provider S}.

(** What follows the listing of the stacks may delete the stacks
    listed. *)
Lemma sat_list_stacks {A} scope filters (f : pages StackSummary -> M S A) :
  (forall p, sat (Forall (stack_request (fun stack => In stack (entries p)))) (f p)) ->
  sat stacks_listed (bind (call scope (list_stacks filters)) f).
Proof.
  intros Hf s. rewrite trace_bind, out_call, trace_call. unfold stacks_listed.
  destruct (answer scope (list_stacks filters) s) as [[p|e] s'] eqn:E; cbn [fst].
  - simpl. constructor; [exact I|].
    eapply Forall_impl; [apply Hf|]. intros ev. apply stack_request_mono.
    intros stack Hstack. eexists. split; [left; reflexivity|]. exact Hstack.
  - repeat constructor.
Qed.

Ltac stack_step :=
  cbv zeta;
  first
    [ absurd_case
    | lazymatch goal with
      | |- sat _ (bind (call _ (list_stacks _)) _) => apply sat_list_stacks
      end
    | sat_step
    | lazymatch goal with
      | |- sat _ (log _ _) => apply sat_log; repeat constructor
      | |- sat _ (sleep _) => apply sat_sleep; repeat constructor
      | |- sat _ (call _ _) => apply sat_call; intros; repeat constructor
      | |- sat _ (mutate _ _) =>
          apply sat_mutate; intros; constructor;
          [ autounfold with requests; simpl; intros; first [ discriminate
                                 | eexists; split; [eassumption|];
                                   split; [reflexivity | eassumption] ]
          | constructor ]
      | |- sat _ ?m => let h := head_of m in unfold h
      end ].

Lemma cloudformation_stacks region dry_run :
  sat stacks_listed (cloudformation.clean (S:=S) region dry_run).
Proof. repeat stack_step. Qed.

Lemma filter_region_buckets_stacks s3_client region buckets :
  sat stacks_listed (s3.filter_region_buckets (S:=S) s3_client region buckets).
Proof.
  induction buckets as [|bucket rest IH]; simpl; repeat stack_step. exact IH.
Qed.

Lemma cleaner_stacks module scope dry_run :
  sat stacks_listed (aws_cleanup_gui.cleaner_modules (S:=S) module scope dry_run).
Proof.
  destruct module, scope as [region|]; simpl;
    first [ apply sat_raise; exact _ | apply cloudformation_stacks | idtac ].
  all: repeat first [apply filter_region_buckets_stacks | stack_step].
Qed.

End cleaners.

Lemma mutations_In m t :
  In m (mutations t) -> exists scope r, In (EvMutate scope m r) t.
Proof.
  unfold mutations. rewrite in_flat_map. intros (ev & Hev & Hm).
  destruct ev; simpl in Hm; try tauto.
  destruct Hm as [<-|[]]. eauto.
Qed.

Lemma delete_stack_origin t name retain :
  stacks_listed t -> In (cloudformation.delete_stack name retain) (mutations t) ->
  exists stack, listed stacks_of t stack /\ StackName stack = name
                /\ str_in (StackStatus stack) ["DELETE_IN_PROGRESS"] = false.
Proof.
  intros Ht Hm. apply mutations_In in Hm. destruct Hm as (scope & r & Hev).
  unfold stacks_listed in Ht. rewrite List.Forall_forall in Ht.
  destruct (Ht _ Hev eq_refl) as (stack & Hl & Hname & Hlive).
  exists stack. simpl in Hname. inversion Hname. auto.
Qed.

End stack_facts.

(** ** The order of the steps of the VPC cleaner *)

Module vpc_order.
Import aws facts dry_run_facts origin_facts.
Export vpc_plan.

Lemma labels_app t1 t2 : labels (t1 ++ t2) = labels t1 ++ labels t2.
Proof. unfold labels. apply flat_map_app. Qed.

Lemma follows_nil phases : follows phases [].
Proof.
  induction phases as [|p ps IH]; simpl; [reflexivity|].
  exists [], []. repeat split; [constructor | exact IH].
Qed.

Lemma follows_app ps1 ps2 l1 l2 :
  follows ps1 l1 -> follows ps2 l2 -> follows (ps1 ++ ps2) (l1 ++ l2).
Proof.
  revert l1. induction ps1 as [|p ps1 IH]; simpl; intros l1 H1 H2.
  - subst l1. exact H2.
  - destruct H1 as (la & lb & -> & Hp & Hrest).
    exists la, (lb ++ l2). rewrite app_assoc. repeat split; [exact Hp|].
    apply IH; assumption.
Qed.

Lemma follows_one p l : Forall p l -> follows [p] l.
Proof. intros Hp. exists l, []. rewrite app_nil_r. repeat split. exact Hp. Qed.

(** An event whose request, if it is one, is of the sort [p]. *)
Definition in_phase (p : label -> Prop) (ev : event) : Prop :=
  forall l, label_of ev = Some l -> p l.

Lemma labels_in_phase p t : Forall (in_phase p) t -> Forall p (labels t).
Proof.
  induction 1 as [|ev t Hev _ IH]; [constructor|].
  unfold labels in *. simpl. destruct (label_of ev) as [l|] eqn:E; simpl; [|exact IH].
  constructor; [apply Hev; exact E | exact IH].
Qed.

Lemma labels_silent t : Forall (in_phase (fun _ => False)) t -> labels t = [].
Proof.
  intros Ht. apply labels_in_phase in Ht. destruct (labels t) as [|l ls]; [reflexivity|].
  inversion Ht; contradiction.
Qed.

Section runs.
Context {S : Type} `{Provider S}.

(** Every run of [m] sends its requests in the given phases. *)
Definition runs {A} (phases : list (label -> Prop)) (m : M S A) : Prop :=
  forall s, follows phases (labels (trace (m s))).

Lemma runs_step {A} p (m : M S A) : sat (Forall (in_phase p)) m -> runs [p] m.
Proof. intros Hm s. apply follows_one, labels_in_phase, Hm. Qed.

Lemma runs_silent {A} (m : M S A) : sat (Forall (in_phase (fun _ => False))) m -> runs [] m.
Proof. intros Hm s. simpl. apply labels_silent, Hm. Qed.

Lemma runs_bind {A B} ps1 ps2 (m : M S A) (f : A -> M S B) :
  runs ps1 m -> (forall a, runs ps2 (f a)) -> runs (ps1 ++ ps2) (bind m f).
Proof.
  intros Hm Hf s. rewrite trace_bind. specialize (Hm s).
  destruct (out (m s)) as [a| |].
  - rewrite labels_app. apply follows_app; [exact Hm | apply Hf].
  - rewrite <- (app_nil_r (labels _)). apply follows_app; [exact Hm | apply follows_nil].
  - rewrite <- (app_nil_r (labels _)). apply follows_app; [exact Hm | apply follows_nil].
Qed.

Lemma runs_bind_l {A B} ps (m : M S A) (f : A -> M S B) :
  runs [] m -> (forall a, runs ps (f a)) -> runs ps (bind m f).
Proof. intros Hm Hf. apply (runs_bind [] ps); assumption. Qed.

Lemma runs_bind_r {A B} ps (m : M S A) (f : A -> M S B) :
  runs ps m -> (forall a, runs [] (f a)) -> runs ps (bind m f).
Proof. intros Hm Hf. rewrite <- (app_nil_r ps). apply runs_bind; assumption. Qed.

Lemma runs_def ps body : runs ps body -> runs ps (def body).
Proof. intros Hb s. rewrite trace_def. apply Hb. Qed.

Lemma runs_try {A} ps (body : M S A) handler :
  runs ps body -> (forall e h, handler e = Some h -> runs [] h) ->
  runs ps (try_ body handler).
Proof.
  intros Hb Hh s. rewrite trace_try. specialize (Hb s).
  destruct (out (body s)) as [a|e|]; try exact Hb.
  destruct (handler e) as [h|] eqn:E; [|exact Hb].
  rewrite labels_app. specialize (Hh e h E (final (body s))). simpl in Hh.
  rewrite Hh, app_nil_r. exact Hb.
Qed.

Lemma runs_for_each {X} (ps : X -> list (label -> Prop)) (l : list X) body :
  (forall x, runs (ps x) (body x)) -> runs (flat_map ps l) (for_each l body).
Proof.
  intros Hb. induction l as [|x l IH]; simpl.
  - intros s. reflexivity.
  - apply runs_bind; [apply Hb | intros _; exact IH].
Qed.

End runs.
(** The requests of a piece of code are of one sort: by the structure
    of the code. *)
Ltac phase_event :=
  constructor;
  [ let E := fresh "E" in
    intros ? E; autounfold with requests in E; simpl in E;
    first [ discriminate E | inversion E; subst; clear E; unfold in_step, of_vpc; simpl; auto ]
  | constructor ].

Ltac phase_step :=
  cbv zeta;
  first
    [ absurd_case
    | sat_step
    | lazymatch goal with
      | |- sat _ (log _ _) => apply sat_log; phase_event
      | |- sat _ (sleep _) => apply sat_sleep; phase_event
      | |- sat _ (call _ _) => apply sat_call; intros; phase_event
      | |- sat _ (mutate _ _) => apply sat_mutate; intros; phase_event
      | |- sat _ ?m => let h := head_of m in unfold h
      end ].

Ltac phase := repeat phase_step.

Section steps.
Context {S : Type} `{Provider S}.

Lemma clean_nat_gateways_step ec2 region dry_run :
  runs [in_step NatGateways] (vpc.clean_nat_gateways (S:=S) ec2 region dry_run).
Proof. apply runs_step. phase. Qed.

Lemma clean_network_interfaces_step ec2 region dry_run :
  runs [in_step NetworkInterfaces] (vpc.clean_network_interfaces (S:=S) ec2 region dry_run).
Proof. apply runs_step. phase. Qed.

Lemma clean_internet_gateways_step ec2 region dry_run :
  runs [in_step InternetGateways] (vpc.clean_internet_gateways (S:=S) ec2 region dry_run).
Proof. apply runs_step. phase. Qed.

Lemma clean_vpn_connections_step ec2 region dry_run :
  runs [in_step VpnConnections] (vpc.clean_vpn_connections (S:=S) ec2 region dry_run).
Proof. apply runs_step. phase. Qed.

Lemma clean_vpn_gateways_step ec2 region dry_run :
  runs [in_step VpnGateways] (vpc.clean_vpn_gateways (S:=S) ec2 region dry_run).
Proof. apply runs_step. phase. Qed.

Lemma clean_transit_gateway_attachments_step ec2 region dry_run :
  runs [in_step TransitGatewayAttachments] (vpc.clean_transit_gateway_attachments (S:=S) ec2 region dry_run).
Proof. apply runs_step. phase. Qed.

Lemma clean_transit_gateways_step ec2 region dry_run :
  runs [in_step TransitGateways] (vpc.clean_transit_gateways (S:=S) ec2 region dry_run).
Proof. apply runs_step. phase. Qed.

Lemma clean_vpc_peering_connections_step ec2 region dry_run :
  runs [in_step PeeringConnections] (vpc.clean_vpc_peering_connections (S:=S) ec2 region dry_run).
Proof. apply runs_step. phase. Qed.

Lemma clean_route_tables_step ec2 dry_run vpc :
  runs [of_vpc vpc RouteTables] (vpc.clean_route_tables (S:=S) ec2 dry_run (VpcId vpc)).
Proof. apply runs_step. phase. Qed.

Lemma clean_subnets_step ec2 dry_run vpc :
  runs [of_vpc vpc Subnets] (vpc.clean_subnets (S:=S) ec2 dry_run (VpcId vpc)).
Proof. apply runs_step. phase. Qed.

Lemma clean_security_groups_step ec2 dry_run vpc :
  runs [of_vpc vpc SecurityGroups] (vpc.clean_security_groups (S:=S) ec2 dry_run (VpcId vpc)).
Proof. apply runs_step. phase. Qed.

Lemma clean_network_acls_step ec2 dry_run vpc :
  runs [of_vpc vpc NetworkAcls] (vpc.clean_network_acls (S:=S) ec2 dry_run (VpcId vpc)).
Proof. apply runs_step. phase. Qed.

Lemma clean_vpc_endpoints_step ec2 dry_run vpc :
  runs [of_vpc vpc VpcEndpoints] (vpc.clean_vpc_endpoints (S:=S) ec2 dry_run (VpcId vpc)).
Proof. apply runs_step. phase. Qed.

Lemma clean_vpcs_step ec2 region dry_run vpcs :
  runs [in_step Vpcs] (vpc.clean_vpcs (S:=S) ec2 region dry_run vpcs).
Proof. apply runs_step. phase. Qed.

Lemma clean_vpc_resources_steps ec2 dry_run vpc :
  runs (vpc_steps vpc) (vpc.clean_vpc_resources (S:=S) ec2 dry_run vpc).
Proof.
  unfold vpc.clean_vpc_resources. cbv zeta.
  apply runs_bind_l; [apply runs_silent; phase|]. intros _.
  apply (runs_bind [_] (_ :: _)); [apply clean_route_tables_step|]. intros _.
  apply (runs_bind [_] (_ :: _)); [apply clean_subnets_step|]. intros _.
  apply (runs_bind [_] (_ :: _)); [apply clean_security_groups_step|]. intros _.
  apply (runs_bind [_] [_]); [apply clean_network_acls_step|]. intros _.
  apply clean_vpc_endpoints_step.
Qed.

End steps.
(** *** The whole cleaner *)

(** The VPCs that the plan of a run is made for: the ones the run has
    listed, or none. *)
Definition vpcs_known (vpcs : list Vpc) (t : list event) : Prop :=
  vpcs = [] \/ exists scope, In (EvRead scope describe_vpcs (Ok vpcs)) t.

Lemma vpcs_known_app_l vpcs t1 t2 : vpcs_known vpcs t1 -> vpcs_known vpcs (t1 ++ t2).
Proof.
  intros [->|(scope & Hin)]; [left; reflexivity|].
  right. exists scope. apply in_or_app. auto.
Qed.

Lemma vpcs_known_app_r vpcs t1 t2 : vpcs_known vpcs t2 -> vpcs_known vpcs (t1 ++ t2).
Proof.
  intros [->|(scope & Hin)]; [left; reflexivity|].
  right. exists scope. apply in_or_app. auto.
Qed.

Section plan.
Context {S : Type} `{Provider S}.

(** Every run of [m] sends its requests in the phases [ps0], then in
    those of the plan for the VPCs it has listed. *)
Definition planned {A} (ps0 : list (label -> Prop)) (m : M S A) : Prop :=
  forall s, exists vpcs,
    vpcs_known vpcs (trace (m s))
    /\ follows (ps0 ++ vpc_plan vpcs) (labels (trace (m s))).

Lemma planned_bind {A B} ps1 ps0 (m : M S A) (f : A -> M S B) :
  runs ps1 m -> (forall a, planned ps0 (f a)) -> planned (ps1 ++ ps0) (bind m f).
Proof.
  intros Hm Hf s. rewrite trace_bind. specialize (Hm s).
  assert (Hstop : exists vpcs, vpcs_known vpcs (trace (m s))
            /\ follows ((ps1 ++ ps0) ++ vpc_plan vpcs) (labels (trace (m s)))).
  { exists []. split; [left; reflexivity|].
    rewrite <- (app_nil_r (labels _)), <- app_assoc.
    apply follows_app; [exact Hm | apply follows_nil]. }
  destruct (out (m s)) as [a| |]; try exact Hstop.
  destruct (Hf a (final (m s))) as (vpcs & Hk & Hfol).
  exists vpcs. split; [apply vpcs_known_app_r; exact Hk|].
  rewrite labels_app, <- app_assoc. apply follows_app; assumption.
Qed.

Lemma planned_bind_r {A B} ps0 (m : M S A) (f : A -> M S B) :
  planned ps0 m -> (forall a, runs [] (f a)) -> planned ps0 (bind m f).
Proof.
  intros Hm Hf s. rewrite trace_bind. destruct (Hm s) as (vpcs & Hk & Hfol).
  destruct (out (m s)) as [a| |]; try (exists vpcs; split; assumption).
  exists vpcs. split; [apply vpcs_known_app_l; exact Hk|].
  rewrite labels_app. specialize (Hf a (final (m s))). simpl in Hf.
  rewrite Hf, app_nil_r. exact Hfol.
Qed.

Lemma planned_try {A} ps0 (body : M S A) handler :
  planned ps0 body -> (forall e h, handler e = Some h -> runs [] h) ->
  planned ps0 (try_ body handler).
Proof.
  intros Hb Hh s. rewrite trace_try. destruct (Hb s) as (vpcs & Hk & Hfol).
  destruct (out (body s)) as [a|e|]; try (exists vpcs; split; assumption).
  destruct (handler e) as [h|] eqn:E; [|exists vpcs; split; assumption].
  exists vpcs. split; [apply vpcs_known_app_l; exact Hk|].
  rewrite labels_app. specialize (Hh e h E (final (body s))). simpl in Hh.
  rewrite Hh, app_nil_r. exact Hfol.
Qed.

Lemma planned_def ps0 body : planned ps0 body -> planned ps0 (def body).
Proof. intros Hb s. rewrite trace_def. apply Hb. Qed.

Lemma runs_after_vpcs ec2 region dry_run (vpc : Vpc) (vpcs : list Vpc) :
  runs (flat_map vpc_steps (vpc :: vpcs) ++ final_steps)
       (bind (for_each (vpc :: vpcs) (vpc.clean_vpc_resources (S:=S) ec2 dry_run))
             (fun _ => bind (vpc.clean_vpc_peering_connections ec2 region dry_run)
                            (fun _ => vpc.clean_vpcs ec2 region dry_run (vpc :: vpcs)))).
Proof.
  apply runs_bind.
  - apply runs_for_each. intros v. apply clean_vpc_resources_steps.
  - intros _. apply (runs_bind [_] [_]).
    + apply clean_vpc_peering_connections_step.
    + intros _. apply clean_vpcs_step.
Qed.

Lemma clean_per_vpc_planned ec2 region dry_run :
  planned [] (vpc.clean_per_vpc (S:=S) ec2 region dry_run).
Proof.
  unfold vpc.clean_per_vpc. apply planned_try.
  - intros s. rewrite trace_bind, out_call, trace_call.
    destruct (answer ec2 describe_vpcs s) as [[[|vpc vpcs]|e] s']; cbn [fst].
    + exists []. split; [left; reflexivity|]. reflexivity.
    + exists (vpc :: vpcs). split; [right; exists ec2; left; reflexivity|].
      rewrite labels_app. cbn [app vpc_plan is_nil].
      apply (runs_bind_l _ _ _). 
      * apply runs_silent. phase.
      * intros _. apply runs_after_vpcs.
    + exists []. split; [left; reflexivity|]. reflexivity.
  - intros e h E. destruct e; inversion E; subst. apply runs_silent. phase.
Qed.

Lemma clean_planned region dry_run :
  planned region_steps (vpc.clean (S:=S) region dry_run).
Proof.
  unfold vpc.clean. cbv zeta. apply planned_def.
  apply (planned_bind [] _); [apply runs_silent; phase|]. intros _.
  apply (planned_bind [] _); [apply runs_silent; phase|]. intros _.
  apply planned_bind_r; [|intros _; apply runs_silent; phase].
  apply planned_try; [|intros e h E; inversion E; subst; apply runs_silent; phase].
  apply (planned_bind [_] (_ :: _)); [apply clean_nat_gateways_step|]. intros _.
  apply (planned_bind [_] (_ :: _)); [apply clean_network_interfaces_step|]. intros _.
  apply (planned_bind [_] (_ :: _)); [apply clean_internet_gateways_step|]. intros _.
  apply (planned_bind [_] (_ :: _)); [apply clean_vpn_connections_step|]. intros _.
  apply (planned_bind [_] (_ :: _)); [apply clean_vpn_gateways_step|]. intros _.
  apply (planned_bind [_] [_]); [apply clean_transit_gateway_attachments_step|]. intros _.
  apply (planned_bind [_] []); [apply clean_transit_gateways_step|]. intros _.
  apply clean_per_vpc_planned.
Qed.

(** The requests of every run of the VPC cleaner follow the plan for
    the VPCs that the run has listed. *)
Lemma vpc_clean_follows_plan region dry_run s :
  exists vpcs,
    vpcs_known vpcs (trace (vpc.clean (S:=S) region dry_run s))
    /\ follows (plan vpcs) (labels (trace (vpc.clean region dry_run s))).
Proof. apply clean_planned. Qed.

End plan.
End vpc_order.

(** ** The worker and its cleaners *)

Module run_facts.
Import aws facts dry_run_facts aws_cleanup_gui.
Export worker_spec.

Section run.
Context {S : Type} `{Provider S}.

Lemma sat_invoke J modules module scope dry_run :
  (forall s raised, J [EvClean module scope dry_run
                               (trace (modules module scope dry_run s)) raised]) ->
  sat (S:=S) J (invoke modules module scope dry_run).
Proof.
  intros HJ s. unfold invoke. cbn [trace]. rewrite trace_def. apply HJ.
Qed.

Ltac worker_step :=
  cbv zeta;
  first
    [ sat_step
    | lazymatch goal with
      | |- sat _ (log _ _) => apply sat_log; repeat constructor
      | |- sat _ (call _ _) => apply sat_call; intros; repeat constructor
      | |- sat _ (invoke _ _ _ _) =>
          apply sat_invoke; intros; constructor;
          [split; [reflexivity | eexists; reflexivity] | constructor]
      | |- sat _ ?m => let h := head_of m in unfold h
      end ].

(** Every call of [clean] that a run of the worker records is a run of
    that cleaner, in the mode of the run, and the worker sends no
    changing request of its own: what holds of every run of a cleaner
    holds of every call of a cleaner in a run of the worker. *)
Lemma run_cleanup_calls_cleaners profile resources dry_run s :
  Forall (worker_event (S:=S) dry_run) (trace (run_cleanup profile resources dry_run s)).
Proof.
  revert s.
  change (sat (Forall (worker_event dry_run)) (run_cleanup profile resources dry_run)).
  unfold run_cleanup. repeat worker_step.
Qed.

End run.
End run_facts.

(** * The claims *)

Module claims.
Import aws facts dry_run_facts licence_facts licence_of_cleaners origin_facts stack_facts.
Import aws_cleanup_gui worker_facts run_facts vpc_order accounts.
Import pystr posix update_logging log_facts lines_facts log_examples.
Import text_facts tree_facts filter_facts.

Lemma cleaner_dry {S : Type} `{Provider S} module scope (s : S) :
  Forall read_only (trace (cleaner_modules module scope true s)).
Proof.
  destruct module, scope as [region|]; simpl; try constructor;
    first [ apply ec2_dry | apply s3_dry | apply lambda_dry | apply cloudformation_dry
          | apply rds_dry | apply vpc_dry | apply iam_dry ].
Qed.

(** C1: for every cleaner module, a call of [clean] with
    [dry_run=True] sends no changing request to the provider: its
    trace holds reading requests and log entries only.  So a dry run of
    the worker changes nothing, whatever is selected. *)
Theorem dry_run_sends_no_changing_request {S : Type} `{Provider S}
    (module : cleaner_id) (scope : option string)
    (profile : string) (resources : list string) (s : S) :
  Forall read_only (trace (cleaner_modules module scope true s))
  /\ mutations (trace (cleaner_modules module scope true s)) = []
  /\ Forall changes_nothing (trace (run_cleanup profile resources true s)).
Proof.
  split; [apply cleaner_dry|].
  split; [apply read_only_mutations, cleaner_dry|].
  eapply List.Forall_impl; [|apply run_cleanup_calls_cleaners].
  intros [lvl msg|R sc q r|sc m r|n|m sc mode inner raised]; simpl; trivial.
  intros (-> & s' & ->). apply cleaner_dry.
Qed.

Lemma mutation_origin {S : Type} `{Provider S} module scope dry_run (s : S) k :
  In k (mutations (trace (cleaner_modules module scope dry_run s))) ->
  exists ev, In ev (trace (cleaner_modules module scope dry_run s)) /\ In k (licence ev).
Proof.
  intros Hk. apply licences_origin. apply (cleaner_mutation_licensed _ _ _ _ _ Hk).
Qed.

(** A request that a run sends was listed by the run: [origin] says
    what an entitling answer holds. *)
Ltac listed_by origin :=
  let Hk := fresh "Hk" in
  intros ? Hk; apply mutation_origin in Hk;
  destruct Hk as (ev & Hev & Hk); apply origin in Hk;
  destruct Hk as (d & Hd & Hrest); exists d; split; [exists ev; split; assumption | exact Hrest].

(** C2, as it is written, fails: an RDS instance that is listed in
    the state [deleting] is deleted all the same. *)
Lemma deleting_db_instance_deleted :
  DBInstanceStatus db_being_deleted = Some "deleting"
  /\ listing with_db_being_deleted _ (Some "eu-west-1") describe_db_instances
     = Ok ([[db_being_deleted]], None)
  /\ mutations (trace (cleaner_modules RDS (Some "eu-west-1") false with_db_being_deleted))
     = [rds.delete_db_instance (DBInstanceIdentifier db_being_deleted)].
Proof. repeat split; vm_compute; reflexivity. Qed.

(** C2 (amended): in every run of a cleaner, dry or not, a request
    that terminates an EC2 instance, or deletes a NAT gateway, a
    network interface, a VPN connection, a VPN gateway, a transit
    gateway attachment, a transit gateway, a VPC peering connection or
    a CloudFormation stack, is for a resource that the run has listed
    in a state other than the ones the code skips. *)
Theorem skipped_states_never_deleted {S : Type} `{Provider S}
    (module : cleaner_id) (scope : option string) (dry_run : bool) (s : S) :
  let t := trace (cleaner_modules module scope dry_run s) in
  (forall id, In (ec2.terminate id) (mutations t) ->
     exists i, listed instances_of t i /\ instance_id i = id
       /\ str_in (instance_state i) ["terminated"; "shutting-down"] = false)
  /\ (forall id, In (vpc.delete_nat_gateway id) (mutations t) ->
     exists nat, listed nat_gateways_of t nat /\ NatGatewayId nat = id
       /\ str_in (nat_State nat) ["deleting"; "deleted"] = false)
  /\ (forall id, In (vpc.delete_network_interface id) (mutations t) ->
     exists eni, listed network_interfaces_of t eni /\ NetworkInterfaceId eni = id
       /\ str_in (eni_Status eni) ["in-use"; "detaching"; "deleting"] = false)
  /\ (forall id, In (vpc.delete_vpn_connection id) (mutations t) ->
     exists vpn, listed vpn_connections_of t vpn /\ VpnConnectionId vpn = id
       /\ str_in (vpn_State vpn) ["deleting"; "deleted"] = false)
  /\ (forall id, In (vpc.delete_vpn_gateway id) (mutations t) ->
     exists vgw, listed vpn_gateways_of t vgw /\ VpnGatewayId vgw = id
       /\ str_in (vgw_State vgw) ["deleting"; "deleted"] = false)
  /\ (forall id, In (vpc.delete_transit_gateway_vpc_attachment id) (mutations t) ->
     exists a, listed transit_gateway_attachments_of t a
       /\ TransitGatewayAttachmentId a = id
       /\ str_in (tga_State a) ["deleting"; "deleted"] = false)
  /\ (forall id, In (vpc.delete_transit_gateway id) (mutations t) ->
     exists tgw, listed transit_gateways_of t tgw /\ TransitGatewayId tgw = id
       /\ str_in (tgw_State tgw) ["deleting"; "deleted"] = false)
  /\ (forall id, In (vpc.delete_vpc_peering_connection id) (mutations t) ->
     exists p, listed peering_connections_of t p /\ VpcPeeringConnectionId p = id
       /\ str_in (get_or "unknown" (peer_Status_Code p))
                 ["deleted"; "rejected"; "failed"; "expired"] = false)
  /\ (forall name retain, In (cloudformation.delete_stack name retain) (mutations t) ->
     exists stack, listed stacks_of t stack /\ StackName stack = name
       /\ str_in (StackStatus stack) ["DELETE_IN_PROGRESS"] = false).
Proof.
  intros t. subst t. repeat split.
  - listed_by terminate_origin.
  - listed_by delete_nat_gateway_origin.
  - listed_by delete_network_interface_origin.
  - listed_by delete_vpn_connection_origin.
  - listed_by delete_vpn_gateway_origin.
  - listed_by delete_transit_gateway_attachment_origin.
  - listed_by delete_transit_gateway_origin.
  - listed_by delete_peering_connection_origin.
  - intros name retain. apply delete_stack_origin. apply cleaner_stacks.
Qed.

(** A live run terminates the running instance and leaves the
    terminated one; a live run on two VPCs deletes the one that is not
    the default. *)
Example live_runs_delete_what_is_live :
  mutations (trace (cleaner_modules EC2 (Some "eu-west-1") false with_instances))
  = [ec2.terminate "i-1"]
  /\ mutations (trace (cleaner_modules VPC (Some "eu-west-1") false with_two_vpcs))
     = [vpc.delete_vpc "vpc-2"].
Proof. split; vm_compute; reflexivity. Qed.

(** C3, as it is written, fails: with two VPCs the endpoints of the
    first are listed before the route tables of the second. *)
Lemma two_vpcs_out_of_declared_order :
  in_declared_order
    (labels (trace (cleaner_modules VPC (Some "eu-west-1") true with_two_vpcs))) = false.
Proof. vm_compute. reflexivity. Qed.

(** C3 (amended): in every run of the VPC cleaner the requests come in
    this order: NAT gateways, network interfaces, internet gateways,
    VPN connections, VPN gateways, transit gateway attachments, transit
    gateways; then, for each VPC that the run has listed, in the order
    of the listing, its route tables, subnets, security groups, network
    ACLs and endpoints; then the peering connections, then the VPCs.
    When no VPC is listed nothing follows the transit gateways. *)
Theorem vpc_steps_follow_plan {S : Type} `{Provider S}
    (region : string) (dry_run : bool) (s : S) :
  exists vpcs,
    (vpcs = [] \/ exists scope,
        In (EvRead scope describe_vpcs (Ok vpcs))
           (trace (cleaner_modules VPC (Some region) dry_run s)))
    /\ follows (map in_step [NatGateways; NetworkInterfaces; InternetGateways;
                             VpnConnections; VpnGateways; TransitGatewayAttachments;
                             TransitGateways]
                ++ (if is_nil vpcs then []
                    else flat_map (fun vpc => map (of_vpc vpc)
                                    [RouteTables; Subnets; SecurityGroups; NetworkAcls;
                                     VpcEndpoints]) vpcs
                         ++ map in_step [PeeringConnections; Vpcs]))
               (labels (trace (cleaner_modules VPC (Some region) dry_run s))).
Proof. exact (vpc_clean_follows_plan region dry_run s). Qed.

Lemma regional_modules_not_IAM resources :
  Forall (fun module => module <> IAM) (regional_modules resources).
Proof.
  apply List.Forall_forall. intros module Hm. unfold regional_modules in Hm.
  apply in_map_iff in Hm. destruct Hm as ((name & module') & E & Hin). simpl in E. subst.
  apply filter_In in Hin. destruct Hin as [Hin Hname].
  unfold resource_modules in Hin. apply filter_In in Hin. destruct Hin as [Hin _].
  simpl in Hname. unfold module_names in Hin. simpl in Hin.
  repeat (destruct Hin as [Hin|Hin];
          [inversion Hin; subst; first [discriminate | simpl in Hname; discriminate]|]).
  destruct Hin.
Qed.

(** C4, as it is written, fails: when the session cannot be created
    the run ends before any cleaner is called, IAM included. *)
Lemma no_session_no_iam :
  str_in "IAM" ["IAM"; "EC2"] = true
  /\ invocations (trace (run_cleanup "demo" ["IAM"; "EC2"] true without_session)) = [].
Proof. split; vm_compute; reflexivity. Qed.

(** C4 (amended): in every run that selects IAM and creates its
    session, whatever the cleaners do, [clean] of the IAM module is
    called once, without region, before every other call of [clean];
    the other calls are those of the selected modules other than IAM,
    for each region found, however many there are. *)
Theorem iam_once_before_regions {S : Type} `{Provider S}
    (modules : cleaner_id -> option string -> bool -> M S unit)
    (profile : string) (resources : list string) (dry_run : bool) (s : S) :
  str_in "IAM" resources = true ->
  session_created (trace (run_cleanup_with modules profile resources dry_run s)) ->
  exists regions,
    regions_found (trace (run_cleanup_with modules profile resources dry_run s)) regions
    /\ invocations (trace (run_cleanup_with modules profile resources dry_run s))
       = (IAM, None)
         :: flat_map (fun region => map (fun module => (module, Some region))
                                        (regional_modules resources)) regions
    /\ Forall (fun module => module <> IAM) (regional_modules resources).
Proof.
  intros Hiam Hs.
  destruct (run_cleanup_runs modules profile resources dry_run s) as [_ [Hrun|Hrun]].
  - destruct Hrun as (_ & _ & regions & Hr & Hi & _).
    exists regions. split; [exact Hr|]. split; [|apply regional_modules_not_IAM].
    rewrite Hi. unfold expected_invocations. rewrite Hiam. reflexivity.
  - destruct Hrun as (_ & Hn & _). contradiction.
Qed.

Lemma iam_once_before_regions_witness :
  str_in "IAM" ["IAM"; "CloudFormation"] = true
  /\ exists regions,
    regions_found
      (trace (run_cleanup_with cleaner_modules "demo" ["IAM"; "CloudFormation"] false
                               with_failed_stack)) regions
    /\ invocations
         (trace (run_cleanup_with cleaner_modules "demo" ["IAM"; "CloudFormation"] false
                                  with_failed_stack))
       = (IAM, None)
         :: flat_map (fun region => map (fun module => (module, Some region))
                                        (regional_modules ["IAM"; "CloudFormation"])) regions
    /\ Forall (fun module => module <> IAM) (regional_modules ["IAM"; "CloudFormation"]).
Proof.
  split; [reflexivity|].
  apply (iam_once_before_regions cleaner_modules "demo" ["IAM"; "CloudFormation"] false
                                 with_failed_stack); [reflexivity|].
  vm_compute. do 3 right. left. reflexivity.
Defined.




(** The run of the witness: the EC2 cleaner fails in both regions, and
    the CloudFormation cleaner is called after it each time. *)
Example broken_ec2_run :
  map (fun ev => match ev with
                 | EvClean module scope _ _ raised => Some (module, scope, raised)
                 | _ => None
                 end)
      (List.filter (fun ev => match ev with EvClean _ _ _ _ _ => true | _ => false end)
                   (trace (run_cleanup_with with_broken_ec2 "demo" ["EC2"; "CloudFormation"]
                                            true with_failed_stack)))
  = [ Some (EC2, Some "eu-west-1", Some (OtherError "Could not connect to the endpoint URL"));
      Some (CloudFormation, Some "eu-west-1", None);
      Some (EC2, Some "us-east-1", Some (OtherError "Could not connect to the endpoint URL"));
      Some (CloudFormation, Some "us-east-1", None) ].
Proof. vm_compute. reflexivity. Qed.









(** C9: in every run of a cleaner, dry or not, a request that deletes
    a VPC, a security group, a network ACL, an RDS parameter group or
    an IAM role is for a resource that the run has listed as a VPC
    that is not the default one, a security group not named
    [default], a network ACL that is not the default one, a parameter
    group whose name does not start with [default.], or a role that is
    not service-linked. *)
Theorem defaults_never_deleted {S : Type} `{Provider S}
    (module : cleaner_id) (scope : option string) (dry_run : bool) (s : S) :
  let t := trace (cleaner_modules module scope dry_run s) in
  (forall id, In (vpc.delete_vpc id) (mutations t) ->
     exists v, listed vpcs_of t v /\ VpcId v = id /\ vpc_IsDefault v = false)
  /\ (forall id, In (vpc.delete_security_group id) (mutations t) ->
     exists sg, listed security_groups_of t sg /\ GroupId sg = id
       /\ String.eqb (GroupName sg) "default" = false)
  /\ (forall id, In (vpc.delete_network_acl id) (mutations t) ->
     exists acl, listed network_acls_of t acl /\ NetworkAclId acl = id
       /\ acl_IsDefault acl = false)
  /\ (forall name, In (rds.delete_db_parameter_group name) (mutations t) ->
     exists g, listed db_parameter_groups_of t g /\ DBParameterGroupName g = name
       /\ pystr.startswith "default." name = false)
  /\ (forall name, In (rds.delete_db_cluster_parameter_group name) (mutations t) ->
     exists g, listed db_cluster_parameter_groups_of t g
       /\ DBClusterParameterGroupName g = name
       /\ pystr.startswith "default." name = false)
  /\ (forall name, In (iam.delete_role name) (mutations t) ->
     exists role, listed roles_of t role /\ RoleName role = name
       /\ pystr.startswith "/aws-service-role/" (get_or "" (role_Path role)) = false
       /\ pystr.startswith "/service-role/" (get_or "" (role_Path role)) = false).
Proof.
  intros t. subst t. repeat split.
  - listed_by delete_vpc_origin.
  - listed_by delete_security_group_origin.
  - listed_by delete_network_acl_origin.
  - listed_by delete_db_parameter_group_origin.
  - listed_by delete_db_cluster_parameter_group_origin.
  - intros name Hk. apply mutation_origin in Hk. destruct Hk as (ev & Hev & Hk).
    apply delete_role_origin in Hk. destruct Hk as (role & Hd & Hname & Hsl).
    exists role. split; [exists ev; split; assumption|]. split; [exact Hname|].
    unfold iam.is_service_linked in Hsl. cbv zeta in Hsl.
    apply orb_false_iff in Hsl. exact Hsl.
Qed.




End claims.


(** * Further properties *)

(** ** How runs end *)

Module ending_facts.
Import aws facts dry_run_facts.
Export ending_spec.

Section ends.
Context {S : Type} `{Provider S}.

(** Every run of [m] ends in a way that [P] allows. *)
Definition ends {A} (P : ending -> Prop) (m : M S A) : Prop :=
  forall s, P (ending_of (out (m s))).

(** What a part of a compound statement may do, for the whole to end
    as [P] allows. *)
Definition before_more (P : ending -> Prop) : ending -> Prop :=
  fun x => match x with Normal => True | _ => P x end.

Definition under_except_ClientError (P : ending -> Prop) : ending -> Prop :=
  fun x => match x with Raising (ClientError _) => True | _ => P x end.

Definition under_except_Exception (P : ending -> Prop) : ending -> Prop :=
  fun x => match x with Raising _ => True | _ => P x end.

Definition under_def (P : ending -> Prop) : ending -> Prop :=
  fun x => match x with Returning => P Normal | _ => P x end.

Lemma ends_ret {A} P (a : A) : P Normal -> ends P (ret a).
Proof. intros HP s. exact HP. Qed.

Lemma ends_log P lvl msg : P Normal -> ends P (log lvl msg).
Proof. intros HP s. exact HP. Qed.

Lemma ends_sleep P n : P Normal -> ends P (sleep n).
Proof. intros HP s. exact HP. Qed.

Lemma ends_return {A} P : P Returning -> ends P (@return_ S A).
Proof. intros HP s. exact HP. Qed.

Lemma ends_raise {A} P e : P (Raising e) -> ends P (@raise S A e).
Proof. intros HP s. exact HP. Qed.

Lemma ends_create P h region :
  P Normal -> (forall msg, P (Raising (OtherError msg))) -> ends P (create h region).
Proof.
  intros HN HR s. unfold create. cbn [out]. destruct (refuses h region s); simpl; auto.
Qed.

Lemma ends_subscript {A} P key (o : option A) :
  P Normal -> (forall msg, P (Raising (OtherError msg))) -> ends P (subscript key o).
Proof. intros HN HR s. destruct o; simpl; auto. Qed.

Lemma ends_Normal_Done (m : M S unit) s : ends (fun x => x = Normal) m -> out (m s) = Done tt.
Proof. intros Hm. specialize (Hm s). destruct (out (m s)) as [[]| |]; simpl in Hm; congruence. Qed.

Lemma ends_call {R} P scope (q : read R) :
  P Normal -> (forall e, P (Raising e)) -> ends P (call scope q).
Proof.
  intros HN HR s. rewrite out_call. destruct (fst (answer scope q s)); simpl; auto.
Qed.

Lemma out_mutate scope m s :
  out (mutate scope m s) =
  match fst (perform scope m s) with Ok x => Done x | Fail e => Raised e end.
Proof. unfold mutate. destruct (perform scope m s). reflexivity. Qed.

Lemma ends_mutate P scope m :
  P Normal -> (forall e, P (Raising e)) -> ends P (mutate scope m).
Proof.
  intros HN HR s. rewrite out_mutate. destruct (fst (perform scope m s)); simpl; auto.
Qed.

Lemma ends_bind {A B} P (m : M S A) (f : A -> M S B) :
  ends (before_more P) m -> (forall a, ends P (f a)) -> ends P (bind m f).
Proof.
  intros Hm Hf s. specialize (Hm s). unfold bind.
  destruct (m s) as [[a|e|] s' t]; simpl in *; auto. apply Hf.
Qed.

Lemma ends_try_ClientError {A} P (body : M S A) h :
  ends (under_except_ClientError P) body -> (forall msg, ends P (h msg)) ->
  ends P (try_ body (except_ClientError h)).
Proof.
  intros Hb Hh s. specialize (Hb s). unfold try_.
  destruct (body s) as [[a|[msg|msg]|] s' t]; simpl in *; auto. apply Hh.
Qed.

Lemma ends_try_Exception {A} P (body : M S A) h :
  ends (under_except_Exception P) body -> (forall msg, ends P (h msg)) ->
  ends P (try_ body (except_Exception h)).
Proof.
  intros Hb Hh s. specialize (Hb s). unfold try_.
  destruct (body s) as [[a|e|] s' t]; simpl in *; auto. apply Hh.
Qed.

Lemma ends_def P body : ends (under_def P) body -> ends P (def body).
Proof.
  intros Hb s. specialize (Hb s). unfold def.
  destruct (body s) as [[[]|e|] s' t]; simpl in *; auto.
Qed.

Lemma ends_for_each {A} P (l : list A) body :
  P Normal -> (forall x, In x l -> ends (before_more P) (body x)) ->
  ends P (for_each l body).
Proof.
  intros HN. induction l as [|x l IH]; intros Hb; simpl.
  - apply ends_ret. exact HN.
  - apply ends_bind; [apply Hb; left; reflexivity|].
    intros _. apply IH. intros y Hy. apply Hb. right. exact Hy.
Qed.

Lemma before_more_idem P x : before_more (before_more P) x -> before_more P x.
Proof. destruct x; simpl; auto. Qed.

Lemma ends_for_pages {A} P (p : pages A) body :
  P Normal -> (forall e, P (Raising e)) ->
  (forall x, In x (concat (fst p)) -> ends (before_more P) (body x)) ->
  ends P (for_pages p body).
Proof.
  intros HN HR Hb. unfold for_pages. apply ends_bind.
  - apply ends_for_each; [exact I|]. intros page Hpage s.
    apply before_more_idem. revert s. apply ends_for_each; [exact I|].
    intros x Hx s. apply before_more_idem, before_more_idem. simpl.
    assert (Hin : In x (concat (fst p))) by (apply in_concat; eauto).
    specialize (Hb x Hin s). destruct (ending_of (out (body x s))); simpl in *; auto.
  - intros _. destruct (snd p); [apply ends_raise, HR | apply ends_ret, HN].
Qed.

Lemma ends_when P b m : P Normal -> (b = true -> ends P m) -> ends P (when b m).
Proof. destruct b; simpl; intros HN Hm; [auto | apply ends_ret, HN]. Qed.

(** *** The last event of a run *)

(** When [m] runs to its end the last event is [C], and when it
    returns the last event is [N]. *)
Definition finishes {A} (C N : event) (m : M S A) : Prop :=
  forall s, match out (m s) with
            | Done _ => last (trace (m s)) = Some C
            | Returned => last (trace (m s)) = Some N
            | Raised _ => True
            end.

(** When [m] returns, the last event is [N]. *)
Definition returns_after {A} (N : event) (m : M S A) : Prop :=
  forall s, out (m s) = Returned -> last (trace (m s)) = Some N.

Lemma last_app_Some {X} (t1 t2 : list X) x : last t2 = Some x -> last (t1 ++ t2) = Some x.
Proof.
  intros E. destruct t2 as [|y t2]; [discriminate E|].
  rewrite last_app. rewrite E. reflexivity.
Qed.

Lemma returns_after_quiet {A} N (m : M S A) :
  ends (fun x => x <> Returning) m -> returns_after N m.
Proof. intros Hm s E. specialize (Hm s). rewrite E in Hm. contradiction Hm. reflexivity. Qed.

Lemma returns_after_bind {A B} N (m : M S A) (f : A -> M S B) :
  returns_after N m -> (forall a, returns_after N (f a)) -> returns_after N (bind m f).
Proof.
  intros Hm Hf s. specialize (Hm s). unfold bind.
  destruct (m s) as [[a|e|] s' t] eqn:E; cbn [out final trace] in *.
  - intros E'. apply last_app_Some. apply Hf. exact E'.
  - discriminate.
  - auto.
Qed.

Lemma returns_after_log_return {A} N lvl msg :
  N = EvLog lvl msg -> returns_after N (bind (log lvl msg) (fun _ => @return_ S A)).
Proof. intros -> s _. reflexivity. Qed.

Lemma returns_after_try {A} N (body : M S A) handler :
  returns_after N body -> (forall e h, handler e = Some h -> returns_after N h) ->
  returns_after N (try_ body handler).
Proof.
  intros Hb Hh s. specialize (Hb s). unfold try_.
  destruct (body s) as [[a|e|] s' t] eqn:E; cbn [out final trace] in *; auto.
  destruct (handler e) as [h|] eqn:Eh; cbn [out final trace]; [|discriminate].
  intros E'. apply last_app_Some. eapply Hh; eauto.
Qed.

Lemma returns_after_try_ClientError {A} N (body : M S A) h :
  returns_after N body -> (forall msg, returns_after N (h msg)) ->
  returns_after N (try_ body (except_ClientError h)).
Proof.
  intros Hb Hh. apply returns_after_try; [exact Hb|].
  intros [msg|msg] h' E; simpl in E; inversion E; subst. apply Hh.
Qed.

Lemma returns_after_try_Exception {A} N (body : M S A) h :
  returns_after N body -> (forall msg, returns_after N (h msg)) ->
  returns_after N (try_ body (except_Exception h)).
Proof.
  intros Hb Hh. apply returns_after_try; [exact Hb|].
  intros e h' E. inversion E; subst. apply Hh.
Qed.

Lemma finishes_log C N lvl msg : C = EvLog lvl msg -> finishes C N (log lvl msg).
Proof. intros -> s. reflexivity. Qed.

Lemma finishes_bind {A B} C N (m : M S A) (f : A -> M S B) :
  returns_after N m -> (forall a, finishes C N (f a)) -> finishes C N (bind m f).
Proof.
  intros Hm Hf s. specialize (Hm s). unfold bind.
  destruct (m s) as [[a|e|] s' t] eqn:E; cbn [out final trace] in *; auto.
  specialize (Hf a s'). destruct (out (f a s')); auto using last_app_Some.
Qed.

(** A function whose body finishes so ends with one of the two
    events, when no exception leaves it. *)
Lemma finishes_def C N body s :
  finishes C N body ->
  out (def body s) = Done tt ->
  last (trace (def body s)) = Some C \/ last (trace (def body s)) = Some N.
Proof.
  intros Hb. specialize (Hb s). unfold def.
  destruct (body s) as [[[]|e|] s' t]; cbn [out final trace] in *; auto. discriminate.
Qed.

Lemma filter_region_buckets_ends P s3_client region buckets :
  P Normal -> (forall msg, P (Raising (OtherError msg))) ->
  ends P (s3.filter_region_buckets s3_client region buckets).
Proof.
  intros HN HO. induction buckets as [|bucket rest IH]; simpl.
  - apply ends_ret, HN.
  - apply ends_bind.
    + apply ends_try_ClientError.
      * apply ends_bind; [apply ends_call; simpl; auto; intros [?|?]; simpl; auto|].
        intros a. destruct (String.eqb _ _).
        -- apply ends_bind; [apply ends_log; exact I | intros; apply ends_ret; exact I].
        -- apply ends_ret. exact I.
      * intros msg. apply ends_bind; [apply ends_log; exact I | intros; apply ends_ret; exact I].
    + intros a. apply ends_bind.
      * intros s. specialize (IH s). destruct (ending_of _); simpl; auto.
      * intros b. apply ends_ret, HN.
Qed.

End ends.

(** A side condition: what [P], under the statements around, says of
    one ending. *)
Ltac ending_case :=
  cbn [before_more under_except_ClientError under_except_Exception under_def];
  first [ exact I | reflexivity | discriminate
        | intros ?; discriminate
        | intros [?|?]; ending_case ].

Ltac ends_step :=
  cbv zeta;
  lazymatch goal with
  | |- forall _, _ => intros ?
  | |- ends _ (bind _ _) => apply ends_bind
  | |- ends _ (ret _) => apply ends_ret; ending_case
  | |- ends _ (log _ _) => apply ends_log; ending_case
  | |- ends _ (logger_info _) => apply ends_log; ending_case
  | |- ends _ (logger_warning _) => apply ends_log; ending_case
  | |- ends _ (logger_error _) => apply ends_log; ending_case
  | |- ends _ (sleep _) => apply ends_sleep; ending_case
  | |- ends _ (raise _) => apply ends_raise; ending_case
  | |- ends _ return_ => apply ends_return; ending_case
  | |- ends _ (create _ _) => apply ends_create; ending_case
  | |- ends _ (subscript _ _) => apply ends_subscript; ending_case
  | |- ends _ (call _ _) => apply ends_call; ending_case
  | |- ends _ (mutate _ _) => apply ends_mutate; ending_case
  | |- ends _ (def _) => apply ends_def
  | |- ends _ (try_ _ (except_ClientError _)) => apply ends_try_ClientError
  | |- ends _ (try_ _ (except_Exception _)) => apply ends_try_Exception
  | |- ends _ (for_each _ _) => apply ends_for_each; [ending_case|]
  | |- ends _ (for_pages _ _) => apply ends_for_pages; [ending_case|ending_case|]
  | |- ends _ (when _ _) => apply ends_when; [ending_case|]
  | |- ends _ (match ?o with Some _ => _ | None => _ end) => destruct o eqn:?
  | |- ends _ (if ?b then _ else _) => destruct b eqn:?
  | |- ends _ ?m => let h := head_of m in unfold h
  end.

End ending_facts.

(** ** How the cleaners end *)

Module ending_of_cleaners.
Import aws facts dry_run_facts ending_facts.

#[local] Opaque ends finishes returns_after.

Section cleaners.
Context {S : Type} `{Provider S}.

Ltac ends_steps :=
  repeat first [ apply filter_region_buckets_ends; [ending_case|ending_case] | ends_step ].

(** No [ClientError] leaves a cleaner. *)
Lemma cleaner_handles_ClientError module scope dry_run :
  ends (S:=S) (fun x => forall msg, x <> Raising (ClientError msg))
       (aws_cleanup_gui.cleaner_modules module scope dry_run).
Proof. destruct module, scope; ends_steps. Qed.

(** The cleaners that catch every exception end normally, once their
    client is created; the exception of the creation leaves them
    before they do anything. *)
Lemma rds_ends region dry_run s :
  match refuses (Client "rds") (Some region) s with
  | None => out (rds.clean region dry_run s) = Done tt
  | Some msg => rds.clean region dry_run s = Run (Raised (OtherError msg)) s []
  end.
Proof.
  unfold rds.clean, session_client. cbv zeta. rewrite def_after_create.
  destruct (refuses _ _ s); [reflexivity|].
  apply ends_Normal_Done. ends_steps.
Qed.

Lemma vpc_ends region dry_run s :
  match refuses (Client "ec2") (Some region) s, refuses (Resource "ec2") (Some region) s with
  | None, None => out (vpc.clean region dry_run s) = Done tt
  | Some msg, _ | None, Some msg =>
      vpc.clean region dry_run s = Run (Raised (OtherError msg)) s []
  end.
Proof.
  unfold vpc.clean, session_client, session_resource. cbv zeta. rewrite def_after_create.
  destruct (refuses (Client _) _ s); [reflexivity|]. rewrite def_after_create.
  destruct (refuses _ _ s); [reflexivity|].
  apply ends_Normal_Done. ends_steps.
Qed.

Lemma iam_ends dry_run s :
  match refuses (Client "iam") None s with
  | None => out (iam.clean dry_run s) = Done tt
  | Some msg => iam.clean dry_run s = Run (Raised (OtherError msg)) s []
  end.
Proof.
  unfold iam.clean, session_client. cbv zeta. rewrite def_after_create.
  destruct (refuses _ _ s); [reflexivity|].
  apply ends_Normal_Done. ends_steps.
Qed.

Ltac return_step :=
  first
    [ solve [apply returns_after_quiet; ends_steps]
    | lazymatch goal with
      | |- returns_after _ (bind (log _ _) (fun _ => return_)) =>
          apply returns_after_log_return; reflexivity
      | |- returns_after _ (bind (logger_info _) (fun _ => return_)) =>
          apply returns_after_log_return; reflexivity
      | |- returns_after _ (bind _ _) => apply returns_after_bind
      | |- returns_after _ (try_ _ (except_ClientError _)) =>
          apply returns_after_try_ClientError
      | |- returns_after _ (try_ _ (except_Exception _)) =>
          apply returns_after_try_Exception
      | |- returns_after _ (if ?b then _ else _) => destruct b eqn:?
      | |- returns_after _ ?m => let h := head_of m in unfold h
      end ].

Ltac finish_step :=
  cbv zeta;
  lazymatch goal with
  | |- forall _, _ => intros ?
  | |- finishes _ _ (bind _ _) => apply finishes_bind
  | |- finishes _ _ (log _ _) => apply finishes_log; reflexivity
  | |- finishes _ _ (logger_info _) => apply finishes_log; reflexivity
  | |- returns_after _ _ => return_step
  | |- finishes _ _ ?m => let h := head_of m in unfold h
  end.

(** The last event of a call of [clean] that ends normally. *)
Ltac last_event :=
  let E := fresh "E" in
  cbv zeta; intros E; apply finishes_def; [|exact E]; repeat finish_step.

Lemma cleaner_last_event module region dry_run s :
  let r := aws_cleanup_gui.cleaner_modules module (scope_for module region) dry_run s in
  out r = Done tt ->
  last (trace r) = Some (EvLog INFO (completed module region))
  \/ last (trace r) = Some (EvLog INFO (default (completed module region)
                                               (nothing_found module region))).
Proof.
  destruct module; cbn [aws_cleanup_gui.cleaner_modules scope_for completed nothing_found default].
  - unfold ec2.clean. last_event.
  - unfold s3.clean. last_event.
  - unfold lambda_module.clean. last_event.
  - unfold cloudformation.clean. last_event.
  - unfold rds.clean. last_event.
  - unfold vpc.clean. last_event.
  - unfold iam.clean. last_event.
Qed.

End cleaners.
End ending_of_cleaners.


(** ** Where the requests go *)

Module scope_facts.
Import aws facts dry_run_facts.
Export scope_spec.

Ltac scope_step :=
  cbv zeta;
  first
    [ absurd_case
    | sat_step
    | lazymatch goal with
      | |- sat _ (log _ _) => apply sat_log; repeat constructor
      | |- sat _ (sleep _) => apply sat_sleep; repeat constructor
      | |- sat _ (call _ _) => apply sat_call; intros; repeat constructor
      | |- sat _ (mutate _ _) => apply sat_mutate; intros; repeat constructor
      | |- sat _ ?m => let h := head_of m in unfold h
      end ].

Section cleaners.
Context {S : Type} `{Provider S}.

Lemma filter_region_buckets_in_region region buckets :
  sat (Forall (in_region region)) (s3.filter_region_buckets (S:=S) (Some region) region buckets).
Proof. induction buckets as [|bucket rest IH]; simpl; repeat scope_step. exact IH. Qed.

Lemma cleaner_in_scope module scope dry_run :
  sat (Forall (in_scope scope)) (aws_cleanup_gui.cleaner_modules (S:=S) module scope dry_run).
Proof.
  destruct module, scope as [region|]; cbn [aws_cleanup_gui.cleaner_modules in_scope];
    repeat first [apply filter_region_buckets_in_region | scope_step].
Qed.

End cleaners.
End scope_facts.


(** ** The time a cleaner sleeps *)

Module pause_facts.
Import aws facts dry_run_facts origin_facts.
Export pause_spec.

Lemma slept_app t1 t2 : slept (t1 ++ t2) = slept t1 + slept t2.
Proof. unfold slept. rewrite flat_map_app, list_sum_app. reflexivity. Qed.

Lemma sent_app methods t1 t2 : sent methods (t1 ++ t2) = sent methods t1 + sent methods t2.
Proof. unfold sent. rewrite List.filter_app, length_app. reflexivity. Qed.

Lemma succeeded_app methods t1 t2 :
  succeeded methods (t1 ++ t2) = succeeded methods t1 + succeeded methods t2.
Proof. unfold succeeded. rewrite List.filter_app, length_app. reflexivity. Qed.

(** The sleep of a trace is the sleep that its requests make due. *)
Definition sleeps_as_due (module : cleaner_id) (t : list event) : Prop :=
  slept t = sleep_due module t.

Global Instance sleeps_as_due_Closed module : Closed (sleeps_as_due module).
Proof.
  split; [destruct module; reflexivity|].
  unfold sleeps_as_due. intros t1 t2 H1 H2. rewrite slept_app, H1, H2.
  destruct module; cbn [sleep_due]; rewrite ?sent_app, ?succeeded_app; lia.
Qed.

Section cleaners.
Context {S : Type} `{Provider S}.

(** A request and what follows it when it succeeds. *)
Lemma sat_mutate_then {A} J `{!Closed J} scope m (k : unit -> M S A) :
  (forall e, J [EvMutate scope m (Fail e)]) ->
  (forall s, J (EvMutate scope m (Ok tt) :: trace (k tt s))) ->
  sat J (bind (mutate scope m) k).
Proof.
  intros HF HO s. unfold bind, mutate.
  destruct (perform scope m s) as [[[]|e] s']; cbn [out final trace]; [apply HO | apply HF].
Qed.

(** A sleep, and the request in a [try] of its own that follows it. *)
Lemma sat_sleep_then_try J `{!Closed J} n scope m msg1 msg2 (h : string -> M S unit) :
  (forall r, J [EvSleep n; EvLog WARNING msg1; EvMutate scope m r]) ->
  J [EvLog WARNING msg2] -> (forall msg, sat J (h msg)) ->
  sat J (bind (sleep n) (fun _ =>
           try_ (bind (logger_warning msg1) (fun _ =>
                   bind (mutate scope m) (fun _ => logger_warning msg2)))
                (except_ClientError h))).
Proof.
  intros Hm Hl Hh s. unfold bind, try_, sleep, logger_warning, log, mutate.
  cbn [out final trace].
  destruct (perform scope m s) as [[[]|[msg|msg]] s']; cbn [out final trace app except_ClientError].
  - apply (J_app [_; _; _] [_]); [apply Hm | exact Hl].
  - apply (J_app [_; _; _]); [apply Hm | apply Hh].
  - apply Hm.
Qed.

Ltac pause_leaf :=
  intros; autounfold with requests;
  first [ reflexivity
        | match goal with r : result _ |- _ => destruct r; reflexivity end ].

Ltac pause_step :=
  cbv zeta;
  first
    [ absurd_case
    | lazymatch goal with
      | |- sat _ (bind (mutate _ (rds.modify_db_instance _)) _) =>
          apply sat_mutate_then; [exact _ | pause_leaf | pause_leaf]
      | |- sat _ (bind (mutate _ (rds.modify_db_cluster _)) _) =>
          apply sat_mutate_then; [exact _ | pause_leaf | pause_leaf]
      | |- sat _ (bind (sleep _) _) =>
          apply sat_sleep_then_try; [exact _ | pause_leaf | pause_leaf |]
      end
    | sat_step
    | lazymatch goal with
      | |- sat _ (log _ _) => apply sat_log; pause_leaf
      | |- sat _ (call _ _) => apply sat_call; pause_leaf
      | |- sat _ (mutate _ _) => apply sat_mutate; pause_leaf
      | |- sat _ ?m => let h := head_of m in unfold h
      end ].

Lemma filter_region_buckets_sleeps s3_client region buckets :
  sat (sleeps_as_due S3) (s3.filter_region_buckets (S:=S) s3_client region buckets).
Proof. induction buckets as [|bucket rest IH]; simpl; repeat pause_step. exact IH. Qed.

Lemma cleaner_sleeps_as_due module scope dry_run :
  sat (sleeps_as_due module) (aws_cleanup_gui.cleaner_modules (S:=S) module scope dry_run).
Proof.
  destruct module, scope as [region|]; cbn [aws_cleanup_gui.cleaner_modules];
    repeat first [apply filter_region_buckets_sleeps | pause_step].
Qed.

End cleaners.
End pause_facts.


(** ** The order of the requests of a cleaner *)

Module order_facts.
Import aws facts dry_run_facts origin_facts.
Export order_spec.

(** An event whose request, if it is one, calls a method of [stage]. *)
Definition of_stage (stage : list string) (ev : event) : Prop :=
  match ev with
  | EvRead _ q _ => str_in (read_name q) stage = true
  | EvMutate _ m _ => str_in (method m) stage = true
  | EvLog _ _ | EvSleep _ => True
  | EvClean _ _ _ _ _ => False
  end.

Lemma requests_app t1 t2 : requests (t1 ++ t2) = requests t1 ++ requests t2.
Proof. apply flat_map_app. Qed.

Lemma requests_of_stage stage t :
  Forall (of_stage stage) t -> Forall (fun x => str_in x stage = true) (requests t).
Proof.
  induction 1 as [|ev t Hev _ IH]; [constructor|].
  destruct ev; simpl in *; auto; contradiction.
Qed.

Lemma staged_nil stages : staged stages [].
Proof.
  induction stages as [|stage rest IH]; [reflexivity|].
  exists [], []. repeat split; [constructor | exact IH].
Qed.

Lemma staged_more stage rest l1 l2 :
  Forall (fun x => str_in x stage = true) l1 -> staged (stage :: rest) l2 ->
  staged (stage :: rest) (l1 ++ l2).
Proof.
  intros H1 (l2a & l2b & -> & H2 & Hrest).
  exists (l1 ++ l2a), l2b. rewrite app_assoc.
  repeat split; [apply Forall_app; auto | exact Hrest].
Qed.

Lemma staged_skip stage rest l : staged rest l -> staged (stage :: rest) l.
Proof. intros Hl. exists [], l. repeat split; [constructor | exact Hl]. Qed.

Section runs.
Context {S : Type} `{Provider S}.

(** Every run of [m] sends its requests in the order of [stages]. *)
Definition runs_staged {A} (stages : list (list string)) (m : M S A) : Prop :=
  forall s, staged stages (requests (trace (m s))).

Lemma runs_staged_more {A B} stage rest (m : M S A) (f : A -> M S B) :
  sat (Forall (of_stage stage)) m -> (forall a, runs_staged (stage :: rest) (f a)) ->
  runs_staged (stage :: rest) (bind m f).
Proof.
  intros Hm Hf s. rewrite trace_bind. specialize (Hm s).
  apply requests_of_stage in Hm.
  destruct (out (m s)).
  - rewrite requests_app. apply staged_more; [exact Hm | apply Hf].
  - rewrite <- (app_nil_r (requests _)). apply staged_more; [exact Hm | apply staged_nil].
  - rewrite <- (app_nil_r (requests _)). apply staged_more; [exact Hm | apply staged_nil].
Qed.

Lemma runs_staged_one {A} stage rest (m : M S A) :
  sat (Forall (of_stage stage)) m -> runs_staged (stage :: rest) m.
Proof.
  intros Hm s. specialize (Hm s). apply requests_of_stage in Hm.
  rewrite <- (app_nil_r (requests _)). apply staged_more; [exact Hm | apply staged_nil].
Qed.

Lemma runs_staged_skip {A} stage rest (m : M S A) :
  runs_staged rest m -> runs_staged (stage :: rest) m.
Proof. intros Hm s. apply staged_skip, Hm. Qed.

Lemma requests_silent t : Forall (of_stage []) t -> requests t = [].
Proof.
  intros Ht. apply requests_of_stage in Ht. destruct (requests t) as [|x l]; [reflexivity|].
  inversion Ht; subst. discriminate.
Qed.

(** What is silent may follow. *)
Lemma runs_staged_then {A B} stages (m : M S A) (f : A -> M S B) :
  runs_staged stages m -> (forall a, sat (Forall (of_stage [])) (f a)) ->
  runs_staged stages (bind m f).
Proof.
  intros Hm Hf s. rewrite trace_bind. specialize (Hm s).
  destruct (out (m s)); auto.
  rewrite requests_app, (requests_silent _ (Hf _ _)), app_nil_r. exact Hm.
Qed.

Lemma runs_staged_try {A} stages (body : M S A) handler :
  runs_staged stages body ->
  (forall e h, handler e = Some h -> sat (Forall (of_stage [])) h) ->
  runs_staged stages (try_ body handler).
Proof.
  intros Hb Hh s. rewrite trace_try. specialize (Hb s).
  destruct (out (body s)); auto.
  destruct (handler e) as [h|] eqn:E; auto.
  rewrite requests_app, (requests_silent _ (Hh _ _ E _)), app_nil_r. exact Hb.
Qed.

Lemma runs_staged_try_ClientError {A} stages (body : M S A) h :
  runs_staged stages body -> (forall msg, sat (Forall (of_stage [])) (h msg)) ->
  runs_staged stages (try_ body (except_ClientError h)).
Proof.
  intros Hb Hh. apply runs_staged_try; [exact Hb|].
  intros [msg|msg] h' E; simpl in E; inversion E; subst. apply Hh.
Qed.

Lemma runs_staged_try_Exception {A} stages (body : M S A) h :
  runs_staged stages body -> (forall msg, sat (Forall (of_stage [])) (h msg)) ->
  runs_staged stages (try_ body (except_Exception h)).
Proof.
  intros Hb Hh. apply runs_staged_try; [exact Hb|].
  intros e h' E. inversion E; subst. apply Hh.
Qed.

Lemma runs_staged_def stages body : runs_staged stages body -> runs_staged stages (def body).
Proof. intros Hb s. rewrite trace_def. apply Hb. Qed.

End runs.

(** The events of a piece of code are of one stage. *)
Ltac stage_step :=
  cbv zeta;
  first
    [ absurd_case
    | sat_step
    | lazymatch goal with
      | |- sat _ (log _ _) => apply sat_log; repeat constructor
      | |- sat _ (sleep _) => apply sat_sleep; repeat constructor
      | |- sat _ (call _ _) => apply sat_call; intros; constructor; [reflexivity|constructor]
      | |- sat _ (mutate _ _) =>
          apply sat_mutate; intros; constructor; [reflexivity|constructor]
      | |- sat _ ?m => let h := head_of m in unfold h
      end ].

(** The stages are tried in order: a statement belongs to the current
    stage, which [in_stage] shows, or the next stage begins. *)
Ltac order_step_by in_stage :=
  cbv zeta;
  lazymatch goal with
  | |- forall _, _ => intros ?
  | |- sat _ _ => in_stage
  | |- runs_staged _ (def _) => apply runs_staged_def
  | |- runs_staged (_ :: _) (bind _ _) =>
      first [ apply runs_staged_more; [in_stage|]
            | apply runs_staged_then; [|intros; in_stage]
            | apply runs_staged_skip ]
  | |- runs_staged (_ :: _) (try_ _ (except_ClientError _)) =>
      first [ apply runs_staged_one; in_stage
            | apply runs_staged_try_ClientError; [|intros; in_stage] ]
  | |- runs_staged (_ :: _) (try_ _ (except_Exception _)) =>
      first [ apply runs_staged_one; in_stage
            | apply runs_staged_try_Exception; [|intros; in_stage] ]
  | |- runs_staged (_ :: _) _ =>
      first [ apply runs_staged_one; in_stage | apply runs_staged_skip ]
  end.

Ltac order_step := order_step_by ltac:(solve [repeat stage_step]).

End order_facts.

Module order_of_cleaners.
Import aws facts dry_run_facts origin_facts order_facts.

#[local] Opaque runs_staged.

Section cleaners.
Context {S : Type} `{Provider S}.

Lemma ec2_staged region dry_run : runs_staged (S:=S) ec2_stages (ec2.clean region dry_run).
Proof. unfold ec2.clean, ec2_stages. repeat order_step. Qed.

Lemma rds_staged region dry_run : runs_staged (S:=S) rds_stages (rds.clean region dry_run).
Proof. unfold rds.clean, rds_stages. repeat order_step. Qed.

Lemma iam_staged dry_run : runs_staged (S:=S) iam_stages (iam.clean dry_run).
Proof. unfold iam.clean, iam_stages. repeat order_step. Qed.

Lemma lambda_staged region dry_run :
  runs_staged (S:=S) lambda_stages (lambda_module.clean region dry_run).
Proof. unfold lambda_module.clean, lambda_stages. repeat order_step. Qed.

Lemma filter_region_buckets_stage s3_client region buckets :
  sat (Forall (of_stage ["get_bucket_location"]))
      (s3.filter_region_buckets (S:=S) s3_client region buckets).
Proof. induction buckets as [|bucket rest IH]; simpl; repeat stage_step. exact IH. Qed.

Lemma s3_staged region dry_run : runs_staged (S:=S) s3_stages (s3.clean region dry_run).
Proof.
  unfold s3.clean, s3_stages.
  repeat order_step_by
    ltac:(solve [repeat first [apply filter_region_buckets_stage | stage_step]]).
Qed.

End cleaners.
End order_of_cleaners.


(** ** The buckets that the cleaner of S3 works on *)

Module bucket_facts.
Import aws facts dry_run_facts origin_facts order_facts.
Export bucket_spec.

Section each_after.
Variable subject : event -> option string.
Variable enabler : string -> event -> Prop.

Lemma each_after_quiet t :
  Forall (fun ev => subject ev = None) t -> each_after subject enabler t.
Proof.
  intros Ht pre ev post bucket -> E.
  apply Forall_app in Ht. destruct Ht as [_ Ht]. inversion Ht; subst. congruence.
Qed.

Lemma each_after_app t1 t2 :
  each_after subject enabler t1 ->
  (forall pre ev post bucket, t2 = pre ++ ev :: post -> subject ev = Some bucket ->
     Exists (enabler bucket) (t1 ++ pre)) ->
  each_after subject enabler (t1 ++ t2).
Proof.
  intros H1 H2 pre ev post bucket E Hs.
  apply List.app_eq_app in E. destruct E as (l & [[-> E]|[-> E]]).
  - destruct l as [|x l].
    + simpl in E. subst t2. specialize (H2 [] ev post bucket eq_refl Hs).
      rewrite !app_nil_r in H2. exact H2.
    + simpl in E. inversion E; subst. apply (H1 pre x l bucket); [reflexivity | exact Hs].
  - apply (H2 l ev post bucket); [exact E | exact Hs].
Qed.

Global Instance each_after_Closed : Closed (each_after subject enabler).
Proof.
  split.
  - intros pre ev post bucket E. destruct pre; discriminate E.
  - intros t1 t2 H1 H2. apply each_after_app; [exact H1|].
    intros pre ev post bucket E Hs. apply Exists_app. right. eapply H2; eauto.
Qed.

Context {S : Type} `{Provider S}.

(** When what [m] has done enables the buckets that what follows works
    on. *)
Lemma sat_enabled_bind {A B} (allowed : A -> string -> Prop) (m : M S A) (f : A -> M S B) :
  sat (each_after subject enabler) m ->
  (forall s a, out (m s) = Done a ->
     forall bucket, allowed a bucket -> Exists (enabler bucket) (trace (m s))) ->
  (forall a, sat (Forall (fun ev => forall bucket, subject ev = Some bucket -> allowed a bucket))
                 (f a)) ->
  sat (each_after subject enabler) (bind m f).
Proof.
  intros Hm He Hf s. rewrite trace_bind. specialize (Hm s). specialize (He s).
  destruct (out (m s)) as [a| |]; auto.
  apply each_after_app; [exact Hm|].
  intros pre ev post bucket E Hs. apply Exists_app. left.
  apply (He a eq_refl). specialize (Hf a (final (m s))). rewrite E in Hf.
  apply Forall_app in Hf. destruct Hf as [_ Hf]. inversion Hf; subst. auto.
Qed.

End each_after.

Ltac bucket_leaf :=
  intros; autounfold with requests in *; simpl in *;
  first [ reflexivity | congruence | tauto
        | match goal with E : Some _ = Some _ |- _ => inversion E; subst; clear E end;
          first [assumption | reflexivity] ].

(** The events of a piece of code have a property, one by one. *)
Ltac each_step :=
  cbv zeta;
  first
    [ absurd_case
    | sat_step
    | lazymatch goal with
      | |- sat _ (log _ _) => apply sat_log; constructor; [bucket_leaf | constructor]
      | |- sat _ (call _ _) => apply sat_call; intros; constructor; [bucket_leaf | constructor]
      | |- sat _ (mutate _ _) =>
          apply sat_mutate; intros; constructor; [bucket_leaf | constructor]
      | |- sat _ ?m => let h := head_of m in unfold h
      end ].

(** The events of a piece of code come after what enables them. *)
Ltac after_step :=
  cbv zeta;
  first
    [ absurd_case
    | sat_step
    | lazymatch goal with
      | |- sat _ (log _ _) => apply sat_log, each_after_quiet; repeat constructor
      | |- sat _ (call _ _) =>
          apply sat_call; intros; apply each_after_quiet; repeat constructor
      | |- sat _ (mutate _ _) =>
          apply sat_mutate; intros; apply each_after_quiet; repeat constructor
      | |- sat _ ?m => let h := head_of m in unfold h
      end ].

Section cleaners.
Context {S : Type} `{Provider S}.

(** *** The buckets of the region *)

Lemma filter_region_buckets_quiet (subject : event -> option string) s3_client region buckets :
  (forall bucket r, subject (EvRead s3_client (get_bucket_location bucket) r) = None) ->
  (forall lvl msg, subject (EvLog lvl msg) = None) ->
  sat (Forall (fun ev => subject ev = None))
      (s3.filter_region_buckets (S:=S) s3_client region buckets).
Proof.
  intros Hq Hl. induction buckets as [|bucket rest IH]; simpl; repeat each_step; auto.
Qed.

Lemma out_bind {A B} (m : M S A) (f : A -> M S B) s :
  out (bind m f s) =
  match out (m s) with
  | Done a => out (f a (final (m s)))
  | Raised e => Raised e
  | Returned => Returned
  end.
Proof. unfold bind. destruct (out (m s)); reflexivity. Qed.

(** The names that the filter keeps are of buckets that it has located
    in the region. *)
Lemma filter_region_buckets_located s3_client region buckets s names :
  out (s3.filter_region_buckets (S:=S) s3_client region buckets s) = Done names ->
  forall bucket, In bucket names ->
    Exists (locates region bucket) (trace (s3.filter_region_buckets s3_client region buckets s)).
Proof.
  revert s names. induction buckets as [|b rest IH]; intros s names; simpl.
  - intros E. inversion E. intros bucket [].
  - rewrite out_bind, trace_bind.
    match goal with |- context [out (try_ ?body ?h s)] => set (r := try_ body h s) end.
    assert (Hr : forall l, out r = Done l ->
                   forall bucket, In bucket l -> Exists (locates region bucket) (trace r)).
    { subst r. unfold try_, bind, call, logger_info, logger_error, log, ret.
      destruct (answer s3_client (get_bucket_location (bucket_Name b)) s) as [[x|[e|e]] s'];
        cbn; intros l.
      - destruct (String.eqb_spec
                    (if pystr.truthy x then get_or "" x else "us-east-1") region) as [Er|Er];
          cbn; intros E; injection E as <-; intros bucket Hin; [|destruct Hin].
        destruct Hin as [<-|[]]. constructor. simpl. split; [reflexivity | exact Er].
      - intros E. inversion E. intros bucket [].
      - discriminate. }
    destruct (out r) as [appended| |] eqn:Eo; try discriminate.
    rewrite out_bind, trace_bind. specialize (IH (final r)).
    destruct (out (s3.filter_region_buckets s3_client region rest (final r))) as [others| |];
      try discriminate.
    cbn. intros E. injection E as <-. intros bucket Hin.
    rewrite app_nil_r. apply Exists_app. apply in_app_or in Hin. destruct Hin as [Hin|Hin].
    + left. eapply Hr; eauto.
    + right. eapply IH; eauto.
Qed.

Lemma s3_works_on_located region dry_run :
  sat (each_after bucket_of (locates region)) (s3.clean (S:=S) region dry_run).
Proof.
  unfold s3.clean. cbv zeta.
  repeat first
    [ lazymatch goal with
      | |- sat _ (bind (s3.filter_region_buckets _ _ _) _) =>
          apply (sat_enabled_bind _ _ (fun names bucket => In bucket names));
          [ intros s; apply each_after_quiet; revert s;
            apply filter_region_buckets_quiet; reflexivity
          | intros s names; apply filter_region_buckets_located
          | intros names; repeat each_step ]
      end
    | after_step ].
Qed.

(** *** Emptied before deleted *)

Lemma s3_deletes_emptied region dry_run :
  sat (each_after bucket_deleted empties) (s3.clean (S:=S) region dry_run).
Proof.
  unfold s3.clean. cbv zeta.
  repeat first
    [ lazymatch goal with
      | |- sat _ (s3.filter_region_buckets _ _ _) =>
          intros s; apply each_after_quiet; revert s;
          apply filter_region_buckets_quiet; reflexivity
      | |- sat _ (bind (if ?v then bind _ (fun _ => mutate _ (s3.object_versions_delete ?n))
                        else _) _) =>
          apply (sat_enabled_bind bucket_deleted empties (fun _ bucket => bucket = n));
          [ | intros ? ?; destruct v; unfold bind, logger_warning, log, mutate;
              cbn [out final trace];
              match goal with |- context [perform ?sc ?m ?s0] =>
                destruct (perform sc m s0) as [[[]|?] ?] end;
              cbn [out final trace app]; intros ?E; inversion E; intros ? ->;
              apply Exists_cons_tl, Exists_cons_hd; simpl; auto
            | intros _; repeat each_step ]
      end
    | after_step ].
Qed.

End cleaners.
End bucket_facts.


(** ** More of where an entitlement comes from *)

Module more_origins.
Import aws facts licence_facts origin_facts.
Export more_listings.

(** The cases of [licence_of], without the search that ends [origin]. *)
Ltac origin_cases :=
  let H := fresh "H" in
  intros H;
  lazymatch goal with
  | |- context [listing _ ?ev] =>
      destruct ev as [? ?|? ? ?q [?x|?e]|? ? ?|?|? ? ? ? ?]; cbn [licence listing] in *;
      [destruct H | | destruct H | destruct H | destruct H | destruct H];
      destruct q; cbn [licence_of] in H; autounfold with licence requests in *;
      cbv beta zeta in *; scan; simpl
  end.

Lemma delete_db_instance_origin ev id :
  In (rds.delete_db_instance id) (licence ev) ->
  exists i, In i (listing db_instances_of ev) /\ DBInstanceIdentifier i = id /\
    dbi_DBClusterIdentifier i = None.
Proof. origin. Qed.

Lemma modify_db_instance_origin ev id :
  In (rds.modify_db_instance id) (licence ev) ->
  exists i, In i (listing db_instances_of ev) /\ DBInstanceIdentifier i = id /\
    dbi_DBClusterIdentifier i = None /\ dbi_DeletionProtection i = true.
Proof. origin. Qed.

Lemma modify_db_cluster_origin ev id :
  In (rds.modify_db_cluster id) (licence ev) ->
  exists c, In c (listing db_clusters_of ev) /\ DBClusterIdentifier c = id /\
    dbc_DeletionProtection c = true.
Proof. origin. Qed.

Lemma delete_option_group_origin ev name :
  In (rds.delete_option_group name) (licence ev) ->
  exists g, In g (listing option_groups_of ev) /\ OptionGroupName g = name /\
    pystr.startswith "default:" name = false.
Proof. origin. Qed.

Lemma volume_delete_origin ev id :
  In (ec2.volume_delete id) (licence ev) ->
  exists v, In v (listing volumes_of ev) /\ volume_id v = id /\
    String.eqb (volume_state v) "in-use" = false.
Proof. origin. Qed.

Lemma release_address_origin ev id :
  In (ec2.release_address id) (licence ev) ->
  exists eip, In eip (listing addresses_of ev) /\ AllocationId eip = Some id /\ id <> "".
Proof.
  origin. match goal with x : Address |- _ => exists x end.
  destruct (AllocationId _) as [[|c a]|]; try discriminate.
  repeat split; [assumption | discriminate].
Qed.

Lemma delete_route_table_origin ev id :
  In (vpc.delete_route_table id) (licence ev) ->
  exists rt, In rt (listing route_tables_of ev) /\ RouteTableId rt = id /\
    is_main rt = false.
Proof. origin. Qed.

Lemma disassociate_route_table_origin ev id :
  In (vpc.disassociate_route_table id) (licence ev) ->
  exists rt, In rt (listing route_tables_of ev) /\ is_main rt = false /\
    exists a, In a (rt_Associations rt) /\ RouteTableAssociationId a = id
              /\ rta_SubnetId a <> None.
Proof.
  origin_cases.
  match goal with rt : RouteTable, a : RtAssociation |- _ =>
    exists rt; repeat split; [assumption | assumption |];
    exists a; repeat split; [assumption | congruence]
  end.
Qed.

Lemma delete_policy_version_origin ev arn id :
  In (iam.delete_policy_version arn id) (licence ev) ->
  exists v, In v (listing (policy_versions_of arn) ev) /\ VersionId v = id /\
    IsDefaultVersion v = false.
Proof.
  origin_cases. rewrite String.eqb_refl.
  match goal with v : PolicyVersion |- _ => exists v; repeat split; assumption end.
Qed.

Lemma delete_stack_retain_origin ev name retain :
  In (cloudformation.delete_stack name retain) (licence ev) ->
  retain = [] \/
  exists resources, In resources (listing (stack_resources_of name) ev) /\
    retain = map LogicalResourceId (List.filter cloudformation.resource_failed resources).
Proof.
  origin_cases; auto.
  right. rewrite String.eqb_refl. eexists. split; [left; reflexivity | reflexivity].
Qed.

End more_origins.

(** ** Nested stacks *)

Module nested_facts.
Import aws facts licence_facts origin_facts dry_run_facts stack_facts.
Export nested_spec.

Lemma root_stack_request_mono (P Q : StackSummary -> Prop) ev :
  (forall stack, P stack -> Q stack) -> root_stack_request P ev -> root_stack_request Q ev.
Proof.
  intros HPQ. destruct ev; simpl; trivial.
  intros Hm E. destruct (Hm E) as (stack & HP & Hrest). exists stack. auto.
Qed.

Global Instance root_stacks_listed_Closed : Closed root_stacks_listed.
Proof.
  split; [constructor|].
  intros t1 t2 H1 H2. unfold root_stacks_listed in *. apply Forall_app. split.
  - eapply Forall_impl; [exact H1|]. intros ev. apply root_stack_request_mono.
    intros stack. apply listed_app_l.
  - eapply Forall_impl; [exact H2|]. intros ev. apply root_stack_request_mono.
    intros stack. apply listed_app_r.
Qed.

Section cleaners.
Context {S : Type} `{Provider S}.

Lemma sat_list_root_stacks {A} scope filters (f : pages StackSummary -> M S A) :
  (forall p, sat (Forall (root_stack_request (fun stack => In stack (entries p)))) (f p)) ->
  sat root_stacks_listed (bind (call scope (list_stacks filters)) f).
Proof.
  intros Hf s. rewrite trace_bind, out_call, trace_call. unfold root_stacks_listed.
  destruct (answer scope (list_stacks filters) s) as [[p|e] s'] eqn:E; cbn [fst].
  - simpl. constructor; [exact I|].
    eapply Forall_impl; [apply Hf|]. intros ev. apply root_stack_request_mono.
    intros stack Hstack. eexists. split; [left; reflexivity|]. exact Hstack.
  - repeat constructor.
Qed.

Ltac root_stack_step :=
  cbv zeta;
  first
    [ absurd_case
    | lazymatch goal with
      | |- sat _ (bind (call _ (list_stacks _)) _) => apply sat_list_root_stacks
      end
    | sat_step
    | lazymatch goal with
      | |- sat _ (log _ _) => apply sat_log; repeat constructor
      | |- sat _ (sleep _) => apply sat_sleep; repeat constructor
      | |- sat _ (call _ _) => apply sat_call; intros; repeat constructor
      | |- sat _ (mutate _ _) =>
          apply sat_mutate; intros; constructor;
          [ autounfold with requests; simpl; intros;
            first [ discriminate
                  | eexists; split; [eassumption|];
                    split; [reflexivity|]; split; eassumption ]
          | constructor ]
      | |- sat _ ?m => let h := head_of m in unfold h
      end ].

Lemma filter_region_buckets_root_stacks s3_client region buckets :
  sat root_stacks_listed (s3.filter_region_buckets (S:=S) s3_client region buckets).
Proof.
  induction buckets as [|bucket rest IH]; simpl; repeat root_stack_step. exact IH.
Qed.

Lemma cleaner_root_stacks module scope dry_run :
  sat root_stacks_listed (aws_cleanup_gui.cleaner_modules (S:=S) module scope dry_run).
Proof.
  destruct module, scope as [region|]; simpl;
    repeat first [apply filter_region_buckets_root_stacks | root_stack_step].
Qed.

End cleaners.

Lemma delete_root_stack_origin t name retain :
  root_stacks_listed t -> In (cloudformation.delete_stack name retain) (mutations t) ->
  exists stack, listed stacks_of t stack /\ StackName stack = name
                /\ str_in (StackStatus stack) ["DELETE_IN_PROGRESS"] = false
                /\ cloudformation.is_nested stack = false.
Proof.
  intros Ht Hm. apply mutations_In in Hm. destruct Hm as (scope & r & Hev).
  unfold root_stacks_listed in Ht. rewrite List.Forall_forall in Ht.
  destruct (Ht _ Hev eq_refl) as (stack & Hl & Hname & Hlive & Hroot).
  exists stack. simpl in Hname. inversion Hname. auto.
Qed.

End nested_facts.


(** ** What the log says of a run *)

Module audit_facts.
Import aws facts dry_run_facts origin_facts aws_cleanup_gui.
Export audit_spec.

Lemma each_announced_quiet t :
  Forall (fun ev => announced_request ev = false) t -> each_announced t.
Proof.
  intros Ht pre ev post -> E.
  apply Forall_app in Ht. destruct Ht as [_ Ht]. inversion Ht; subst. congruence.
Qed.

Global Instance each_announced_Closed : Closed each_announced.
Proof.
  split.
  - intros pre ev post E. destruct pre; discriminate E.
  - intros t1 t2 H1 H2 pre ev post E Ha.
    apply List.app_eq_app in E. destruct E as (l & [[-> E]|[-> E]]).
    + destruct l as [|x l].
      * simpl in E. subst t2. destruct (H2 [] ev post eq_refl Ha) as (pre' & msg & E).
        destruct pre'; discriminate E.
      * simpl in E. inversion E; subst. apply (H1 pre x l eq_refl Ha).
    + destruct (H2 l ev post E Ha) as (pre' & msg & ->).
      exists (t1 ++ pre'), msg. rewrite app_assoc. reflexivity.
Qed.

Lemma each_announced_cons_mutate msg scope m r t :
  each_announced t -> each_announced (EvLog WARNING msg :: EvMutate scope m r :: t).
Proof.
  intros Ht pre ev post E Ha.
  destruct pre as [|x pre]; [inversion E; subst; discriminate Ha|].
  inversion E; subst. destruct pre as [|y pre].
  - exists [], msg. reflexivity.
  - inversion H1; subst. destruct (Ht pre ev post eq_refl Ha) as (pre' & msg' & ->).
    exists (EvLog WARNING msg :: EvMutate scope m r :: pre'), msg'. reflexivity.
Qed.

Section runs.
Context {S : Type} `{Provider S}.

(** A request that is announced, and what follows it. *)
Lemma sat_announced_then {A} msg scope m (k : unit -> M S A) :
  (forall a, sat each_announced (k a)) ->
  sat each_announced (bind (logger_warning msg) (fun _ => bind (mutate scope m) k)).
Proof.
  intros Hk s. unfold bind at 1. unfold logger_warning, log. cbn [out final trace].
  rewrite trace_bind. unfold mutate.
  destruct (perform scope m s) as [[[]|e] s']; cbn [out final trace app].
  - apply each_announced_cons_mutate. apply Hk.
  - apply (each_announced_cons_mutate msg scope m (Fail e) []).
    intros pre ev post E. destruct pre; discriminate E.
Qed.

Lemma sat_announced msg scope m :
  sat each_announced (bind (logger_warning msg) (fun _ => mutate scope m)).
Proof.
  intros s. unfold bind, logger_warning, log, mutate. cbn [out final trace].
  destruct (perform scope m s) as [[[]|e] s']; cbn [out final trace app];
    apply (each_announced_cons_mutate msg scope m _ []);
    intros pre ev post E; destruct pre; discriminate E.
Qed.

End runs.

Ltac audit_step :=
  cbv zeta;
  first
    [ absurd_case
    | lazymatch goal with
      | |- sat _ (bind (logger_warning _) (fun _ => bind (mutate _ _) _)) =>
          apply sat_announced_then
      | |- sat _ (bind (logger_warning _) (fun _ => mutate _ _)) => apply sat_announced
      end
    | sat_step
    | lazymatch goal with
      | |- sat _ (log _ _) => apply sat_log, each_announced_quiet; repeat constructor
      | |- sat _ (sleep _) => apply sat_sleep, each_announced_quiet; repeat constructor
      | |- sat _ (call _ _) =>
          apply sat_call; intros; apply each_announced_quiet; repeat constructor
      | |- sat _ (mutate _ _) =>
          apply sat_mutate; intros; apply each_announced_quiet; repeat constructor
      | |- sat _ ?m => let h := head_of m in unfold h
      end ].

Section cleaners.
Context {S : Type} `{Provider S}.

Lemma filter_region_buckets_announced s3_client region buckets :
  sat each_announced (s3.filter_region_buckets (S:=S) s3_client region buckets).
Proof. induction buckets as [|bucket rest IH]; simpl; repeat audit_step. exact IH. Qed.

(** Every cleaner announces its requests. *)
Lemma cleaner_announces module scope dry_run :
  sat each_announced (cleaner_modules (S:=S) module scope dry_run).
Proof.
  destruct module, scope as [region|]; cbn [cleaner_modules];
    repeat first [apply filter_region_buckets_announced | audit_step].
Qed.

End cleaners.
End audit_facts.

(** ** The records of a dry run *)

Module record_facts.
Import aws facts dry_run_facts origin_facts aws_cleanup_gui run_facts logging_config.
Export record_spec.

(** An entry of a dry run that is at the level WARNING tells of a
    volume in use. *)
Definition dry_entry (ev : event) : Prop :=
  match ev with
  | EvLog WARNING msg => pystr.startswith "Volume " msg = true
  | _ => True
  end.

(** An entry of the worker itself is at the level INFO or ERROR. *)
Definition dry_worker_event {S : Type} `{Provider S} (ev : event) : Prop :=
  match ev with
  | EvLog lvl _ => lvl <> WARNING
  | EvClean module scope mode inner _ =>
      exists s : S, inner = trace (cleaner_modules module scope true s)
  | _ => True
  end.

Lemma records_of_dry_entries t :
  Forall dry_entry t -> Forall error_or_volume_in_use (records t).
Proof.
  induction 1 as [|ev t Hev _ IH]; [constructor|].
  destruct ev as [[| |] msg|R sc q r|sc m r|n|m sc mode inner raised]; simpl; auto.
  - constructor; [right; split; [reflexivity | exact Hev] | exact IH].
  - constructor; [left; reflexivity | exact IH].
Qed.

Lemma records_app t1 t2 : records (t1 ++ t2) = records t1 ++ records t2.
Proof. apply flat_map_app. Qed.

Ltac dry_entry_step :=
  cbv zeta;
  first
    [ absurd_case
    | sat_step
    | lazymatch goal with
      | |- sat _ (log _ _) =>
          apply sat_log; constructor; [first [exact I | reflexivity] | constructor]
      | |- sat _ (sleep _) => apply sat_sleep; repeat constructor
      | |- sat _ (call _ _) => apply sat_call; intros; repeat constructor
      | |- sat _ (mutate _ _) => apply sat_mutate; intros; repeat constructor
      | |- sat _ ?m => let h := head_of m in unfold h
      end ].

Ltac dry_worker_step :=
  cbv zeta;
  first
    [ sat_step
    | lazymatch goal with
      | |- sat _ (log _ _) => apply sat_log; constructor; [discriminate | constructor]
      | |- sat _ (call _ _) => apply sat_call; intros; repeat constructor
      | |- sat _ (invoke _ _ _ _) =>
          apply sat_invoke; intros; constructor; [eexists; reflexivity | constructor]
      | |- sat _ ?m => let h := head_of m in unfold h
      end ].

Section cleaners.
Context {S : Type} `{Provider S}.

Lemma filter_region_buckets_dry_entries s3_client region buckets :
  sat (Forall dry_entry) (s3.filter_region_buckets (S:=S) s3_client region buckets).
Proof. induction buckets as [|bucket rest IH]; simpl; repeat dry_entry_step. exact IH. Qed.

Lemma cleaner_dry_entries module scope :
  sat (Forall dry_entry) (cleaner_modules (S:=S) module scope true).
Proof.
  destruct module, scope as [region|]; cbn [cleaner_modules];
    repeat first [apply filter_region_buckets_dry_entries | dry_entry_step].
Qed.

Lemma worker_dry_entries profile resources :
  sat (Forall (dry_worker_event (S:=S))) (run_cleanup profile resources true).
Proof. unfold run_cleanup. repeat dry_worker_step. Qed.

Lemma run_cleanup_leaves_no_finding profile resources s :
  Forall leaves_no_finding (trace (run_cleanup (S:=S) profile resources true s)).
Proof.
  eapply List.Forall_impl; [|apply worker_dry_entries].
  intros [[| |] msg|R sc q r|sc m r|n|m sc mode inner raised]; simpl; trivial.
  - intros _. discriminate.
  - intros E. contradiction.
  - intros (s' & ->). apply records_of_dry_entries, cleaner_dry_entries.
Qed.

End cleaners.
End record_facts.


(** ** The window and the worker it starts *)

Module window_facts.
Import aws pystr AWSCleanerGUI aws_cleanup_gui.
Export window_spec.

Lemma checkboxes_of_created g :
  checkboxes_as_created g ->
  exists b1 b2 b3 b4 b5 b6 b7,
    resource_vars g = [ ("EC2", b1); ("S3", b2); ("Lambda", b3); ("CloudFormation", b4);
                        ("RDS", b5); ("VPC", b6); ("IAM", b7) ].
Proof.
  unfold checkboxes_as_created. simpl.
  destruct (resource_vars g) as [|[n1 b1] [|[n2 b2] [|[n3 b3] [|[n4 b4] [|[n5 b5]
    [|[n6 b6] [|[n7 b7] [|? ?]]]]]]]]; try discriminate.
  simpl. intros E. injection E as -> -> -> -> -> -> ->.
  exists b1, b2, b3, b4, b5, b6, b7. reflexivity.
Qed.

Lemma set_all_keys value g :
  map fst (resource_vars (set_all value g)) = map fst (resource_vars g).
Proof. simpl. rewrite map_map. reflexivity. Qed.

(** The selection is handed to the worker as it is: each name that is
    selected is a name for which the worker imports a module. *)
Lemma selected_have_modules g :
  checkboxes_as_created g ->
  map fst (resource_modules (selected_resources g)) = selected_resources g.
Proof.
  intros Hg. destruct (checkboxes_of_created g Hg) as (b1 & b2 & b3 & b4 & b5 & b6 & b7 & E).
  unfold selected_resources. rewrite E.
  destruct b1, b2, b3, b4, b5, b6, b7; vm_compute; reflexivity.
Qed.

Lemma select_all_selected g :
  checkboxes_as_created g ->
  selected_resources (select_all_resources g) = map fst module_names.
Proof.
  intros Hg. destruct (checkboxes_of_created g Hg) as (b1 & b2 & b3 & b4 & b5 & b6 & b7 & E).
  unfold selected_resources, select_all_resources, set_all. cbn [resource_vars].
  rewrite E. reflexivity.
Qed.

Lemma deselect_all_selected g : selected_resources (deselect_all_resources g) = [].
Proof.
  unfold selected_resources, deselect_all_resources, set_all. cbn [resource_vars].
  induction (resource_vars g) as [|item l IH]; [reflexivity | exact IH].
Qed.

Lemma truthy_nonempty (s : string) : truthy (Some s) = true -> s <> "".
Proof. intros E ->. discriminate E. Qed.

Lemma is_nil_nonempty {A} (l : list A) : is_nil l = false -> l <> [].
Proof. intros E ->. discriminate E. Qed.

(** The question of a live run says that resources will be deleted. *)
Lemma live_warning profile selected :
  contains "THIS WILL PERMANENTLY DELETE AWS RESOURCES!" (warning profile selected false)
  = true.
Proof. reflexivity. Qed.

(** The question names the mode, whatever the mode is. *)
Lemma warning_mode profile selected (dry_run : bool) :
  startswith ("WARNING: You are about to run in "
              +:+ (if dry_run then "DRY RUN" else "LIVE") +:+ " mode!")
             (warning profile selected dry_run) = true.
Proof. destruct dry_run; reflexivity. Qed.

End window_facts.


(** ** Runs that send what their answers call for *)

Module duty_facts.
Import aws facts licence_facts dry_run_facts.
Export duty_spec.

Lemma calls_for_app t1 t2 : calls_for (t1 ++ t2) = calls_for t1 ++ calls_for t2.
Proof. unfold calls_for. apply flat_map_app. Qed.

Lemma all_succeed_app t1 t2 : all_succeed (t1 ++ t2) <-> all_succeed t1 /\ all_succeed t2.
Proof. apply Forall_app. Qed.

(** The requests [D] and the requests that the answers of [t] call
    for are sent in [t]. *)
Definition paid (D : list mutation) (t : list event) : Prop :=
  le_bag (D ++ calls_for t) (mutations t).

Lemma paid_nil : paid [] [].
Proof. apply le_bag_nil. Qed.

Lemma paid_app D1 D2 t1 t2 : paid D1 t1 -> paid D2 t2 -> paid (D1 ++ D2) (t1 ++ t2).
Proof.
  intros H1 H2 k. specialize (H1 k). specialize (H2 k).
  rewrite calls_for_app, mutations_app, !occ_app in *. lia.
Qed.

Lemma paid_weaken D D' t : paid D t -> le_bag D' D -> paid D' t.
Proof.
  intros Ht HD k. specialize (Ht k). specialize (HD k). rewrite !occ_app in *. lia.
Qed.

Lemma paid_quiet t :
  Forall (fun ev => match ev with EvLog _ _ | EvSleep _ => True | _ => False end) t ->
  paid [] t.
Proof.
  induction 1 as [|ev t Hev _ IH]; [apply paid_nil|].
  destruct ev; try contradiction; exact IH.
Qed.

(** A reverse of [le_bag_flat_map_filter]: the entries that a filter
    drops call for nothing. *)
Lemma le_bag_flat_map_kept {X} (p : X -> bool) (f g : X -> list mutation) l :
  (forall x, In x l -> p x = true -> le_bag (f x) (g x)) ->
  (forall x, In x l -> p x = false -> le_bag (f x) []) ->
  le_bag (flat_map f l) (flat_map g (List.filter p l)).
Proof.
  induction l as [|x l IH]; intros Hfg Hf; simpl; [apply le_bag_nil|].
  assert (Hl : le_bag (flat_map f l) (flat_map g (List.filter p l))).
  { apply IH; intros y Hy; [apply Hfg | apply Hf]; right; exact Hy. }
  destruct (p x) eqn:E; simpl.
  - apply le_bag_app; [apply Hfg; [left; reflexivity | exact E] | exact Hl].
  - apply le_bag_skip_l; [apply Hf; [left; reflexivity | exact E] | exact Hl].
Qed.

Lemma le_bag_map_flat_map {X} (f : X -> mutation) (g : X -> list mutation) l :
  (forall x, In x l -> le_bag [f x] (g x)) -> le_bag (map f l) (flat_map g l).
Proof. intros Hfg. rewrite <- flat_map_singleton. apply le_bag_flat_map. exact Hfg. Qed.

Section settled.
Context {S : Type} `{Provider S}.

(** In every run of [m] in which all requests succeed and no error is
    logged, [m] runs to its end, or returns if [r] allows it, and then
    it has sent the requests [D] and what the answers to its own
    reading requests call for; or it raises an exception that is no
    [ClientError]. *)
Definition settles {A} (r : bool) (D : list mutation) (m : M S A) : Prop :=
  forall s, all_succeed (trace (m s)) -> without_error (trace (m s)) ->
    match out (m s) with
    | Done _ => paid D (trace (m s))
    | Returned => r = true /\ paid D (trace (m s))
    | Raised e => exists msg, e = OtherError msg
    end.

Lemma settles_weaken {A} r D D' (m : M S A) :
  settles r D m -> le_bag D' D -> settles r D' m.
Proof.
  intros Hm HD s Hs Hc. specialize (Hm s Hs Hc).
  destruct (out (m s)); [|exact Hm|].
  - eapply paid_weaken; eassumption.
  - destruct Hm as [Hr Hm]. split; [exact Hr | eapply paid_weaken; eassumption].
Qed.

(** What never returns may be used where returning is allowed. *)
Lemma settles_returning {A} r D (m : M S A) : settles false D m -> settles r D m.
Proof.
  intros Hm s Hs Hc. specialize (Hm s Hs Hc).
  destruct (out (m s)); [exact Hm | exact Hm |]. destruct Hm as [E _]. discriminate E.
Qed.

Lemma settles_ret {A} r (a : A) : settles r [] (ret a).
Proof. intros s _ _. apply paid_nil. Qed.

Lemma settles_return {A} : settles true [] (@return_ S A).
Proof. intros s _ _. split; [reflexivity | apply paid_nil]. Qed.

Lemma settles_log r lvl msg : settles r [] (log lvl msg).
Proof. intros s _ _. apply paid_nil. Qed.

Lemma settles_sleep r n : settles r [] (sleep n).
Proof. intros s _ _. apply paid_nil. Qed.

(** The creation of a client sends nothing, and so does a subscript;
    the exception that they may raise is no [ClientError]. *)
Lemma settles_create r h region : settles r [] (create h region).
Proof.
  intros s _ _. unfold create. cbn [out trace].
  destruct (refuses h region s) as [msg|]; [exists msg; reflexivity | apply paid_nil].
Qed.

Lemma settles_subscript {A} r key (o : option A) : settles r [] (subscript key o).
Proof.
  destruct o as [x|]; intros s _ _; simpl; [apply paid_nil | eexists; reflexivity].
Qed.

Lemma settles_mutate r scope m : settles r [m] (mutate scope m).
Proof.
  intros s. rewrite trace_mutate. unfold mutate.
  destruct (perform scope m s) as [[[]|e] s']; cbn [fst out].
  - intros _ _. apply le_bag_refl.
  - intros Hs _. inversion Hs as [|? ? Hev _]. destruct Hev.
Qed.

(** A reading request whose answer calls for nothing. *)
Lemma settles_call {R} r scope (q : read R) :
  (forall x, calls_for_of scope q x = []) -> settles r [] (call scope q).
Proof.
  intros Hq s. rewrite trace_call. unfold call.
  destruct (answer scope q s) as [[x|e] s']; cbn [fst out].
  - intros _ _. unfold paid, calls_for. simpl. rewrite Hq. apply le_bag_nil.
  - intros Hs _. inversion Hs as [|? ? Hev _]. destruct Hev.
Qed.

Lemma without_error_app t1 t2 :
  without_error (t1 ++ t2) <-> without_error t1 /\ without_error t2.
Proof. apply Forall_app. Qed.

Lemma settles_bind {A B} r D1 D2 (m : M S A) (f : A -> M S B) :
  settles false D1 m -> (forall a, settles r D2 (f a)) -> settles r (D1 ++ D2) (bind m f).
Proof.
  intros Hm Hf s. rewrite trace_bind. specialize (Hm s). unfold bind.
  destruct (out (m s)) as [a|e|]; cbn [out].
  - intros Hs Hc. apply all_succeed_app in Hs. destruct Hs as [H1 H2].
    apply without_error_app in Hc. destruct Hc as [C1 C2].
    specialize (Hm H1 C1). specialize (Hf a (final (m s)) H2 C2).
    destruct (out (f a (final (m s)))); [|exact Hf|].
    + apply paid_app; assumption.
    + destruct Hf as [Hr Hf]. split; [exact Hr | apply paid_app; assumption].
  - exact Hm.
  - intros Hs Hc. destruct (Hm Hs Hc) as [Hr _]. discriminate Hr.
Qed.

Lemma settles_bind_l {A B} r D2 (m : M S A) (f : A -> M S B) :
  settles false [] m -> (forall a, settles r D2 (f a)) -> settles r D2 (bind m f).
Proof. intros Hm Hf. apply (settles_bind r [] D2); assumption. Qed.

Lemma settles_bind_r {A B} r D1 (m : M S A) (f : A -> M S B) :
  settles false D1 m -> (forall a, settles r [] (f a)) -> settles r D1 (bind m f).
Proof.
  intros Hm Hf. rewrite <- (app_nil_r D1). apply settles_bind; assumption.
Qed.

(** A step that may return, before steps that are owed nothing. *)
Lemma settles_bind_returning {A B} r D1 (m : M S A) (f : A -> M S B) :
  settles true D1 m -> (forall a, settles r [] (f a)) -> settles true D1 (bind m f).
Proof.
  intros Hm Hf s. rewrite trace_bind. specialize (Hm s). unfold bind.
  destruct (out (m s)) as [a|e|]; cbn [out].
  - intros Hs Hc. apply all_succeed_app in Hs. destruct Hs as [H1 H2].
    apply without_error_app in Hc. destruct Hc as [C1 C2].
    specialize (Hm H1 C1). specialize (Hf a (final (m s)) H2 C2).
    rewrite <- (app_nil_r D1).
    destruct (out (f a (final (m s)))); [|exact Hf|].
    + apply paid_app; assumption.
    + destruct Hf as [_ Hf]. split; [reflexivity | apply paid_app; assumption].
  - exact Hm.
  - exact Hm.
Qed.

(** What follows a reading request sends what its answer calls for. *)
Lemma settles_call_bind {R A} r D0 (Df : R -> list mutation) scope (q : read R)
    (f : R -> M S A) :
  (forall x, complete q x -> settles r (Df x) (f x)) ->
  (forall x, le_bag (D0 ++ calls_for_of scope q x) (Df x)) ->
  settles r D0 (bind (call scope q) f).
Proof.
  intros Hf HD s. rewrite trace_bind, out_call, trace_call. unfold bind, call.
  destruct (answer scope q s) as [[x|e] s']; cbn [fst out final trace].
  - intros Hs Hc. inversion Hs as [|? ? Hx Hrest]; subst.
    inversion Hc as [|? ? _ Hcrest]; subst.
    specialize (Hf x Hx s' Hrest Hcrest).
    assert (Hp : forall t, paid (Df x) t -> paid D0 (EvRead scope q (Ok x) :: t)).
    { intros t Ht k. specialize (Ht k). specialize (HD x k).
      unfold calls_for in *. unfold mutations in *. simpl. rewrite !occ_app in *. lia. }
    simpl. destruct (out (f x s')); [|exact Hf|].
    + apply Hp. exact Hf.
    + destruct Hf as [Hr Hf]. split; [exact Hr | apply Hp; exact Hf].
  - intros Hs _. inversion Hs as [|? ? Hev _]. destruct Hev.
Qed.

(** A step whose result decides what the next steps owe. *)
Lemma settles_bind_dep {A B} r (Df : A -> list mutation) D0 (m : M S A) (f : A -> M S B) :
  (forall s, all_succeed (trace (m s)) ->
     exists a, out (m s) = Done a /\ mutations (trace (m s)) = []
               /\ le_bag (D0 ++ calls_for (trace (m s))) (Df a)) ->
  (forall a, settles r (Df a) (f a)) ->
  settles r D0 (bind m f).
Proof.
  intros Hm Hf s. rewrite trace_bind. specialize (Hm s). unfold bind.
  destruct (out (m s)) as [a|e|]; cbn [out].
  - intros Hs Hc. apply all_succeed_app in Hs. destruct Hs as [H1 H2].
    apply without_error_app in Hc. destruct Hc as [_ C2].
    destruct (Hm H1) as (a' & E & Hq & Hle). inversion E; subst a'.
    specialize (Hf a (final (m s)) H2 C2).
    assert (Hp : paid (Df a) (trace (f a (final (m s)))) ->
                 paid D0 (trace (m s) ++ trace (f a (final (m s))))).
    { intros Ht k. specialize (Ht k). specialize (Hle k).
      rewrite calls_for_app, mutations_app, Hq, !occ_app in *. simpl. lia. }
    destruct (out (f a (final (m s)))); [|exact Hf|].
    + apply Hp. exact Hf.
    + destruct Hf as [Hr Hf]. split; [exact Hr | apply Hp; exact Hf].
  - intros Hs _. destruct (Hm Hs) as (a & E & _). discriminate E.
  - intros Hs _. destruct (Hm Hs) as (a & E & _). discriminate E.
Qed.

Lemma settles_def r D (body : M S unit) : settles r D body -> settles false D (def body).
Proof.
  intros Hb s. specialize (Hb s). unfold def.
  destruct (body s) as [[a|e|] s' t]; cbn [out trace final] in *; [exact Hb | exact Hb |].
  intros Hs Hc. apply Hb; assumption.
Qed.

(** No handler of [ClientError] runs where every request succeeds;
    what else is raised passes it. *)
Lemma settles_try_ClientError {A} r D (body : M S A) h :
  settles r D body -> settles r D (try_ body (except_ClientError h)).
Proof.
  intros Hb s. specialize (Hb s). unfold try_.
  destruct (body s) as [[a|[msg|msg]|] s' t]; cbn [out trace final except_ClientError] in *;
    [exact Hb | | exact Hb | exact Hb].
  intros Hs Hc. exfalso.
  apply all_succeed_app in Hs. apply without_error_app in Hc.
  destruct (Hb (proj1 Hs) (proj1 Hc)) as [msg' E]. discriminate E.
Qed.

(** A handler of every exception that logs an error does not run
    where no error is logged. *)
Lemma settles_try_Exception {A} r D (body : M S A) h :
  settles r D body -> (forall msg s, ~ without_error (trace (h msg s))) ->
  settles r D (try_ body (except_Exception h)).
Proof.
  intros Hb Hh s. specialize (Hb s). unfold try_.
  destruct (body s) as [[a|e|] s' t]; cbn [out trace final except_Exception] in *;
    [exact Hb | | exact Hb].
  intros _ Hc. exfalso. apply without_error_app in Hc. exact (Hh _ _ (proj2 Hc)).
Qed.

Lemma logger_error_logged msg (s : S) : ~ without_error (trace (logger_error msg s)).
Proof. intros Hc. inversion Hc as [|? ? Hev _]. apply Hev. exact I. Qed.

Lemma settles_for_each {X} r (Df : X -> list mutation) (l : list X) body :
  (forall x, In x l -> settles false (Df x) (body x)) ->
  settles r (flat_map Df l) (for_each l body).
Proof.
  induction l as [|x l IH]; intros Hb; simpl.
  - apply settles_ret.
  - apply settles_bind; [apply Hb; left; reflexivity|].
    intros _. apply IH. intros y Hy. apply Hb. right. exact Hy.
Qed.

Lemma settles_for_each_quiet {X} r (l : list X) body :
  (forall x, settles false [] (body x)) -> settles r [] (for_each l body).
Proof.
  intros Hb. induction l as [|x l IH]; simpl; [apply settles_ret|].
  apply settles_bind_l; [apply Hb | intros _; apply IH].
Qed.

Lemma settles_for_pages {X} r (Df : X -> list mutation) (p : pages X) body :
  iterated p ->
  (forall x, In x (entries p) -> settles false (Df x) (body x)) ->
  settles r (flat_map Df (entries p)) (for_pages p body).
Proof.
  intros Hp Hb. unfold for_pages, entries, iterated in *. rewrite Hp.
  apply settles_bind_r; [|intros _; apply settles_ret].
  destruct p as [pgs err]. simpl in *. clear err Hp.
  induction pgs as [|page pgs IH]; simpl.
  - apply settles_ret.
  - rewrite flat_map_app. apply settles_bind.
    + apply settles_for_each. intros x Hx. apply Hb. apply in_or_app. left. exact Hx.
    + intros _. apply IH. intros x Hx. apply Hb. apply in_or_app. right. exact Hx.
Qed.

Lemma settles_when r D (b : bool) (m : M S unit) :
  settles r D m -> settles r (if b then D else []) (when b m).
Proof. destruct b; simpl; [auto | intros _; apply settles_ret]. Qed.

Lemma settles_when_quiet r (b : bool) (m : M S unit) :
  settles r [] m -> settles r [] (when b m).
Proof. destruct b; simpl; [auto | intros _; apply settles_ret]. Qed.

Lemma settles_if {A} r D1 D2 (b : bool) (m1 m2 : M S A) :
  settles r D1 m1 -> settles r D2 m2 ->
  settles r (if b then D1 else D2) (if b then m1 else m2).
Proof. destruct b; auto. Qed.

Lemma settles_if_same {A} r D (b : bool) (m1 m2 : M S A) :
  settles r D m1 -> settles r D m2 -> settles r D (if b then m1 else m2).
Proof. destruct b; auto. Qed.

Lemma settles_match {A X} r D1 D2 (o : option X) (m1 : X -> M S A) (m2 : M S A) :
  (forall x, settles r (D1 x) (m1 x)) -> settles r D2 m2 ->
  settles r (match o with Some x => D1 x | None => D2 end)
          (match o with Some x => m1 x | None => m2 end).
Proof. destruct o; auto. Qed.

Lemma settles_match_same {A X} r D (o : option X) (m1 : X -> M S A) (m2 : M S A) :
  (forall x, settles r D (m1 x)) -> settles r D m2 ->
  settles r D (match o with Some x => m1 x | None => m2 end).
Proof. destruct o; auto. Qed.

Lemma settles_run {A} D (m : M S A) s a :
  settles false D m -> all_succeed (trace (m s)) -> without_error (trace (m s)) ->
  out (m s) = Done a ->
  le_bag (D ++ calls_for (trace (m s))) (mutations (trace (m s))).
Proof.
  intros Hm Hs Hc E. specialize (Hm s Hs Hc). rewrite E in Hm. exact Hm.
Qed.

End settled.

(** *** Tactics *)

Create HintDb duty.
#[global] Hint Unfold stack_calls_for stack_resources_call_for location_calls_for
  versioning_calls_for : duty.

(** Steps that send no request and read nothing that calls for one. *)
Ltac still :=
  binders; cbv zeta;
  lazymatch goal with
  | |- settles _ [] (bind _ _) => apply settles_bind_l; still
  | |- settles _ [] (log _ _) => apply settles_log
  | |- settles _ [] (ret _) => apply settles_ret
  | |- settles _ [] (sleep _) => apply settles_sleep
  | |- settles _ [] (call _ _) => apply settles_call; intros; reflexivity
  | |- settles _ [] (when _ _) => apply settles_when_quiet; still
  | |- settles _ [] (for_each _ _) => apply settles_for_each_quiet; still
  | |- settles _ [] (match _ with Some _ => _ | None => _ end) =>
      apply settles_match_same; still
  | |- settles _ [] (if _ then _ else _) => apply settles_if_same; still
  | |- settles _ [] (create _ _) => apply settles_create
  | |- settles _ [] (subscript _ _) => apply settles_subscript
  | |- settles _ [] (try_ _ (except_ClientError _)) => apply settles_try_ClientError; still
  | |- settles _ [] (try_ _ (except_Exception _)) =>
      apply settles_try_Exception; [still | intros; apply logger_error_logged]
  | |- settles _ [] ?m => let h := head_of m in unfold h; still
  end.

(** Comparison of what is called for with what is sent. *)
Ltac dues :=
  binders; cbv beta zeta; cbn [app licence_of calls_for_of negb];
  autounfold with licence duty; cbv beta zeta; rewrite ?app_nil_r;
  lazymatch goal with
  | E : negb true = true |- _ => discriminate E
  | E : negb false = false |- _ => discriminate E
  | |- le_bag [] _ => apply le_bag_nil
  | |- le_bag ?x ?x => apply le_bag_refl
  | |- context [is_nil ?l] => is_var l; destruct l; cbn [is_nil flat_map map]; dues
  | |- _ =>
      tryif split_condition then dues else
      lazymatch goal with
      | |- le_bag (flat_map _ _) [] => apply le_bag_flat_map_nil; dues
      | |- le_bag (flat_map _ ?l) (flat_map _ ?l) => apply le_bag_flat_map; dues
      | |- le_bag (map _ ?l) (flat_map _ ?l) => apply le_bag_map_flat_map; dues
      | |- le_bag (flat_map _ ?l) (flat_map _ (List.filter _ ?l)) =>
          apply le_bag_flat_map_kept; dues
      | |- le_bag (_ ++ _) [] => apply le_bag_app_nil; dues
      | |- le_bag (_ :: _) (_ :: _) => first [apply le_bag_cons; dues | count]
      | |- le_bag (_ ++ _) (_ ++ _) =>
          first [ apply le_bag_app; dues
                | apply le_bag_skip_l; [solve [dues] | dues]
                | count ]
      | |- le_bag (_ ++ _) _ =>
          first [ apply le_bag_skip_l; [solve [dues] | dues]
                | apply le_bag_skip_r; [solve [dues] | dues]
                | count ]
      | |- le_bag _ _ => count
      end
  end.

(** What a piece of code sends in a live run, by its structure.
    [known] proves the goals about the parts that have lemmas of their
    own. *)
Ltac settle known :=
  binders; cbv zeta;
  first
    [ known
    | lazymatch goal with
      | |- settles _ _ (when (negb false) ?m) => change (when (negb false) m) with m; settle known
      | |- settles _ _ (if negb false then ?m else _) =>
          cbn beta iota delta [negb]; settle known
      | |- settles _ _ (if false then _ else ?m) => cbv beta iota; settle known
      | |- settles _ _ (bind (log _ _) _) =>
          apply settles_bind_l; [apply settles_log | settle known]
      | |- settles _ _ (bind (sleep _) _) =>
          apply settles_bind_l; [apply settles_sleep | settle known]
      | |- settles _ _ (bind (call _ _) _) =>
          eapply (settles_call_bind _ []); [settle known | solve [dues]]
      | |- settles _ _ (bind _ _) =>
          first [ apply settles_bind_l; [ solve [still] | settle known ]
                | eapply settles_bind_r; [ | solve [still] ]; settle known
                | eapply settles_bind; [settle known | settle known] ]
      | |- settles _ _ (log _ _) => apply settles_log
      | |- settles _ _ (ret _) => apply settles_ret
      | |- settles _ _ (sleep _) => apply settles_sleep
      | |- settles _ _ (call _ _) => apply settles_call; intros; reflexivity
      | |- settles _ _ (mutate _ _) => apply settles_mutate
      | |- settles _ _ (def _) => eapply (settles_def true); settle known
      | |- settles _ _ (create _ _) => apply settles_create
      | |- settles _ _ (subscript _ _) => apply settles_subscript
      | |- settles _ _ (try_ _ (except_ClientError _)) =>
          eapply settles_try_ClientError; settle known
      | |- settles _ _ (try_ _ (except_Exception _)) =>
          eapply settles_try_Exception; [settle known | intros; apply logger_error_logged]
      | |- settles _ _ (for_each _ _) => eapply settles_for_each; settle known
      | |- settles _ _ (for_pages _ _) =>
          eapply settles_for_pages; [eassumption | settle known]
      | |- settles _ _ (when _ _) => eapply settles_when; settle known
      | |- settles _ _ (match _ with Some _ => _ | None => _ end) =>
          eapply settles_match; [settle known | settle known]
      | |- settles _ _ (if _ then _ else _) =>
          eapply settles_if; [settle known | settle known]
      | |- settles _ _ ?m => let h := head_of m in unfold h; settle known
      end ].

(** A piece of code against given requests. *)
Ltac sends known := eapply settles_weaken; [settle known | solve [dues]].

End duty_facts.

(** *** The cleaners in a live run *)

Module duty_of_cleaners.
Import aws facts licence_facts duty_facts bucket_facts aws_cleanup_gui.

(** What a bucket of the region calls for, apart from its objects. *)
Definition bucket_calls_for (n : string) : list mutation :=
  [s3.delete_bucket_lifecycle n; s3.delete_bucket_policy n; s3.delete_bucket n].

Section cleaners.
Context {S : Type} `{Provider S}.

Lemma settles_lambda region : settles false [] (lambda_module.clean (S:=S) region false).
Proof. sends fail. Qed.

Lemma settles_ec2 region : settles false [] (ec2.clean (S:=S) region false).
Proof. sends fail. Qed.

Lemma settles_rds region : settles false [] (rds.clean (S:=S) region false).
Proof. sends fail. Qed.

Lemma settles_iam : settles false [] (iam.clean (S:=S) false).
Proof. sends fail. Qed.

(** **** CloudFormation *)

Lemma settles_delete_failed_stack cf_client stack_name :
  settles false [] (cloudformation.delete_failed_stack (S:=S) cf_client stack_name).
Proof.
  unfold cloudformation.delete_failed_stack. apply settles_try_ClientError.
  apply (settles_call_bind _ [] (stack_resources_call_for stack_name));
    [|intros resources; apply le_bag_refl].
  intros resources _. apply settles_bind_l; [still|]. intros _. cbv zeta.
  unfold stack_resources_call_for.
  destruct (map LogicalResourceId (List.filter cloudformation.resource_failed resources));
    cbn [is_nil negb]; sends fail.
Qed.

Lemma settles_stack cf_client stack :
  settles false (stack_calls_for stack) (cloudformation.clean_stack (S:=S) cf_client false stack).
Proof. sends ltac:(apply settles_delete_failed_stack). Qed.

Lemma settles_cfn region :
  settles false [] (cloudformation.clean (S:=S) region false).
Proof. sends ltac:(apply settles_stack). Qed.

(** **** VPC *)

Lemma settles_vpc_resources ec2 v :
  settles false [] (vpc.clean_vpc_resources (S:=S) ec2 false v).
Proof. sends fail. Qed.

Lemma settles_peering_connections ec2 region :
  settles false [] (vpc.clean_vpc_peering_connections (S:=S) ec2 region false).
Proof. sends fail. Qed.

Lemma settles_vpcs ec2 region vpcs :
  settles false (flat_map for_vpc vpcs) (vpc.clean_vpcs (S:=S) ec2 region false vpcs).
Proof. sends fail. Qed.

Lemma settles_per_vpc ec2 region :
  settles true [] (vpc.clean_per_vpc (S:=S) ec2 region false).
Proof.
  unfold vpc.clean_per_vpc. apply settles_try_ClientError.
  apply (settles_call_bind _ [] (flat_map for_vpc)); [|intros vpcs; apply le_bag_refl].
  intros vpcs _.
  assert (Hrest : forall r, settles r (flat_map for_vpc vpcs)
            (bind (for_each vpcs (vpc.clean_vpc_resources (S:=S) ec2 false))
               (fun _ => bind (vpc.clean_vpc_peering_connections ec2 region false)
                  (fun _ => vpc.clean_vpcs ec2 region false vpcs)))).
  { intros r. apply settles_bind_l.
    - apply settles_for_each_quiet. intros v. apply settles_vpc_resources.
    - intros _. apply settles_bind_l; [apply settles_peering_connections|].
      intros _. apply settles_returning, settles_vpcs. }
  destruct vpcs as [|v vpcs]; cbn [is_nil].
  - apply (settles_bind_returning true); [|intros _; apply Hrest].
    apply settles_bind_l; [apply settles_log | intros _; apply settles_return].
  - apply settles_bind_l; [apply settles_ret | intros _; apply Hrest].
Qed.

Lemma settles_vpc region : settles false [] (vpc.clean (S:=S) region false).
Proof.
  unfold vpc.clean. cbv zeta. apply (settles_def true).
  apply settles_bind_l; [apply settles_create|]. intros _.
  apply settles_bind_l; [apply settles_create|]. intros _.
  apply (settles_bind_returning true); [|intros _; apply settles_log].
  apply settles_try_Exception; [|intros; apply logger_error_logged].
  repeat (apply settles_bind_l; [solve [sends fail] | intros _]).
  apply settles_per_vpc.
Qed.

(** **** S3 *)

Lemma all_succeed_bind_l {A B} (m : M S A) (f : A -> M S B) s :
  all_succeed (trace (bind m f s)) -> all_succeed (trace (m s)).
Proof.
  rewrite trace_bind. destruct (out (m s)); [|tauto..].
  intros Hs. apply all_succeed_app in Hs. tauto.
Qed.

Lemma all_succeed_bind_r {A B} (m : M S A) (f : A -> M S B) s a :
  out (m s) = Done a -> all_succeed (trace (bind m f s)) ->
  all_succeed (trace (f a (final (m s)))).
Proof.
  intros E. rewrite trace_bind, E. intros Hs. apply all_succeed_app in Hs. tauto.
Qed.

(** The step of the region filter for one bucket: in a run that
    succeeds it appends the bucket when the bucket is located in the
    region, which is when the answer about its location calls for its
    deletion. *)
Lemma locate_bucket_calls_for region bucket_name s :
  let locate :=
    try_ (bind (call (Some region) (get_bucket_location bucket_name)) (fun location =>
            let bucket_region := if pystr.truthy location then get_or "" location
                                 else "us-east-1" in
            if String.eqb bucket_region region then
              bind (logger_info ("Found S3 bucket in " ++ region ++ ": " ++ bucket_name))
                   (fun _ => ret [bucket_name])
            else ret []))
         (except_ClientError (fun e =>
            bind (logger_error ("Error getting location for bucket " ++ bucket_name
                                ++ ": " ++ e))
                 (fun _ => ret []))) in
  all_succeed (trace (locate s)) ->
  exists appended,
    out (locate s) = Done appended
    /\ mutations (trace (locate s)) = []
    /\ calls_for (trace (locate s)) = flat_map bucket_calls_for appended.
Proof.
  cbv zeta. unfold try_, bind, call, logger_info, logger_error, log, ret.
  destruct (answer (Some region) (get_bucket_location bucket_name) s) as [[location|e] s'];
    cbn [out final trace].
  - destruct (String.eqb _ region) eqn:Er; cbn [out final trace app]; intros _.
    + exists [bucket_name]. repeat split. unfold calls_for. simpl.
      unfold location_calls_for. rewrite Er. reflexivity.
    + exists []. repeat split. unfold calls_for. simpl.
      unfold location_calls_for. rewrite Er. reflexivity.
  - destruct e; cbn [except_ClientError out final trace app]; intros Hs;
      inversion Hs as [|? ? Hev _]; contradiction.
Qed.

Lemma filter_region_buckets_calls_for region buckets s :
  all_succeed (trace (s3.filter_region_buckets (S:=S) (Some region) region buckets s)) ->
  exists names,
    out (s3.filter_region_buckets (Some region) region buckets s) = Done names
    /\ mutations (trace (s3.filter_region_buckets (Some region) region buckets s)) = []
    /\ le_bag ([] ++ calls_for (trace (s3.filter_region_buckets (Some region) region buckets s)))
              (flat_map bucket_calls_for names).
Proof.
  revert s. induction buckets as [|bucket rest IH]; intros s.
  - intros _. exists []. repeat split. apply le_bag_nil.
  - cbn [s3.filter_region_buckets]. cbv zeta. intros Hs.
    destruct (locate_bucket_calls_for region (bucket_Name bucket) s
                (all_succeed_bind_l _ _ _ Hs)) as (appended & E1 & Q1 & L1).
    cbv zeta in E1, Q1, L1.
    pose proof (all_succeed_bind_r _ _ _ _ E1 Hs) as H2.
    destruct (IH _ (all_succeed_bind_l _ _ _ H2)) as (names & E2 & Q2 & L2).
    exists (appended ++ names).
    rewrite out_bind, E1, out_bind, E2.
    rewrite trace_bind, E1, trace_bind, E2. cbn [ret out trace].
    rewrite app_nil_r, mutations_app, calls_for_app, Q1, Q2, L1, flat_map_app.
    repeat split. rewrite app_nil_l in *. apply le_bag_app; [apply le_bag_refl | exact L2].
Qed.

Lemma settles_bucket region bucket_name :
  settles false (bucket_calls_for bucket_name)
          (s3.clean_bucket (S:=S) (Some region) false bucket_name).
Proof.
  unfold s3.clean_bucket. apply settles_bind_l; [apply settles_log|]. intros _.
  apply (settles_bind_dep _
           (fun v : bool => (if v then [s3.object_versions_delete bucket_name]
                             else [s3.objects_all_delete bucket_name])
                            ++ bucket_calls_for bucket_name)).
  - intros s. unfold try_, bind, call, logger_info, logger_error, log, ret.
    destruct (answer (Some region) (get_bucket_versioning bucket_name) s) as [[x|[e|e]] s'];
      cbn [out final trace app except_ClientError];
      try (intros Hs; inversion Hs as [|? ? Hev _]; contradiction).
    intros _. eexists. split; [reflexivity|]. split; [reflexivity|].
    unfold calls_for. simpl. unfold versioning_calls_for, is_versioned, bucket_calls_for.
    destruct x as [status|]; [destruct (_ || _)|]; count.
  - intros v. cbn [negb]. destruct v; unfold bucket_calls_for; sends fail.
Qed.

Lemma settles_s3 region : settles false [] (s3.clean (S:=S) region false).
Proof.
  unfold s3.clean. cbv zeta. apply (settles_def true).
  apply settles_bind_l; [apply settles_create|]. intros _.
  apply settles_bind_l; [apply settles_create|]. intros _.
  apply (settles_bind_returning true); [|intros _; apply settles_log].
  apply settles_try_ClientError. apply settles_bind_l; [apply settles_log|]. intros _.
  apply (settles_call_bind _ [] (fun _ => [])); [|intros x; apply le_bag_refl].
  intros buckets _.
  apply (settles_bind_dep _ (flat_map bucket_calls_for)).
  { intros s. apply filter_region_buckets_calls_for. }
  intros names.
  assert (Hrest : forall r, settles r (flat_map bucket_calls_for names)
            (for_each names (s3.clean_bucket (S:=S) (Some region) false))).
  { intros r. apply settles_for_each. intros n _. apply settles_bucket. }
  destruct names as [|n names]; cbn [is_nil].
  - apply (settles_bind_returning true); [|intros _; apply Hrest].
    apply settles_bind_l; [apply settles_log | intros _; apply settles_return].
  - apply settles_bind_l; [apply settles_ret | intros _; apply Hrest].
Qed.

(** **** All the cleaners *)

(** A cleaner that is called as the worker calls it settles; called
    otherwise it does nothing. *)
Lemma cleaner_settles module scope :
  settles false [] (cleaner_modules (S:=S) module scope false)
  \/ forall s, trace (cleaner_modules (S:=S) module scope false s) = [].
Proof.
  destruct module, scope as [region|];
    first [ right; intros s; reflexivity
          | left;
            first [ exact (settles_ec2 region) | exact (settles_s3 region)
                  | exact (settles_lambda region) | exact (settles_cfn region)
                  | exact (settles_rds region) | exact (settles_vpc region)
                  | exact settles_iam ] ].
Qed.

(** In a live run of a cleaner that ends normally, in which every
    request succeeds and no error is logged, each changing request is
    sent at least as often as the answers to the reading requests of
    the run call for it. *)
Lemma live_cleaner_settles module scope s :
  let r := cleaner_modules (S:=S) module scope false s in
  all_succeed (trace r) -> without_error (trace r) -> out r = Done tt ->
  le_bag (calls_for (trace r)) (mutations (trace r)).
Proof.
  intros r Hs Hc E. subst r.
  destruct (cleaner_settles module scope) as [Hm|Hq].
  - apply (settles_run [] _ s tt Hm Hs Hc E).
  - rewrite Hq. apply le_bag_nil.
Qed.

(** What an answer of such a run calls for is sent in the run. *)
Lemma live_cleaner_sends module scope s ev k :
  let r := cleaner_modules (S:=S) module scope false s in
  all_succeed (trace r) -> without_error (trace r) -> out r = Done tt ->
  In ev (trace r) -> In k (call_for ev) -> In k (mutations (trace r)).
Proof.
  intros r Hs Hc E Hev Hk. apply occ_In.
  pose proof (live_cleaner_settles module scope s Hs Hc E k) as Hle. fold r in Hle.
  assert (Hin : In k (calls_for (trace r))).
  { unfold calls_for. apply in_flat_map. exists ev. split; assumption. }
  apply occ_In in Hin. lia.
Qed.

End cleaners.
End duty_of_cleaners.


(** * The further properties *)

Module extras.
Import aws facts dry_run_facts licence_facts licence_of_cleaners origin_facts stack_facts.
Import aws_cleanup_gui worker_facts run_facts accounts.
Import ending_facts ending_of_cleaners scope_facts pause_facts.
Import order_facts order_of_cleaners bucket_facts more_origins nested_facts.
Import pystr posix update_logging log_facts lines_facts log_examples.
Import text_facts tree_facts filter_facts.
Import more_accounts audit_facts record_facts window_facts duty_facts duty_of_cleaners.
Import listings more_listings AWSCleanerGUI.

(** X1: no [ClientError] leaves a cleaner.  Whatever the provider
    answers, and in both modes, a call of [clean] of any of the seven
    modules is never left by a [botocore.exceptions.ClientError]: each
    one that a request raises is caught inside the module. *)
Theorem no_ClientError_leaves_a_cleaner {S : Type} `{Provider S}
    (module : cleaner_id) (scope : option string) (dry_run : bool) (s : S) (msg : string) :
  out (cleaner_modules module scope dry_run s) <> Raised (ClientError msg).
Proof.
  intros E. apply (cleaner_handles_ClientError module scope dry_run s msg).
  rewrite E. reflexivity.
Qed.

(** X2: the cleaners of RDS, VPC and IAM, whose body after the
    creation of the client is inside [try: ... except Exception], end
    normally whatever the provider does, once the client (and, for
    VPC, the resource object) is created: no exception of a request
    leaves them.  When the creation raises, its exception leaves
    [clean] before anything is logged or requested. *)
Theorem catch_all_cleaners_end_normally {S : Type} `{Provider S}
    (region : string) (dry_run : bool) (s : S) :
  match refuses (Client "rds") (Some region) s with
  | None => out (rds.clean region dry_run s) = Done tt
  | Some msg => rds.clean region dry_run s = Run (Raised (OtherError msg)) s []
  end
  /\ match refuses (Client "ec2") (Some region) s,
           refuses (Resource "ec2") (Some region) s with
     | None, None => out (vpc.clean region dry_run s) = Done tt
     | Some msg, _ | None, Some msg =>
         vpc.clean region dry_run s = Run (Raised (OtherError msg)) s []
     end
  /\ match refuses (Client "iam") None s with
     | None => out (iam.clean dry_run s) = Done tt
     | Some msg => iam.clean dry_run s = Run (Raised (OtherError msg)) s []
     end.
Proof.
  split; [apply rds_ends | split; [apply vpc_ends | apply iam_ends]].
Qed.

(** A session that cannot create the client of a region leaves the
    cleaner of RDS at once. *)
Example rds_clean_without_client :
  rds.clean "mars-1" false earthbound
  = Run (Raised (OtherError "Could not connect to the endpoint URL")) earthbound []
  /\ out (rds.clean "eu-west-1" false earthbound) = Done tt.
Proof. split; vm_compute; reflexivity. Qed.

(** X3: a call of [clean] that ends normally has logged its
    completion message last, at level INFO; except that the cleaners
    of S3 and of VPC return early when they find nothing, and then the
    last entry says so. *)
Theorem last_entry_of_a_cleaner {S : Type} `{Provider S}
    (module : cleaner_id) (region : string) (dry_run : bool) (s : S) :
  let r := cleaner_modules module (scope_for module region) dry_run s in
  out r = Done tt ->
  last (trace r) = Some (EvLog INFO (completed module region))
  \/ (exists msg, nothing_found module region = Some msg
                  /\ last (trace r) = Some (EvLog INFO msg)).
Proof.
  intros r E. destruct (cleaner_last_event module region dry_run s E) as [Hl|Hl];
    [left; exact Hl|].
  destruct (nothing_found module region) as [msg|]; [right | left; exact Hl].
  exists msg. split; [reflexivity | exact Hl].
Qed.

Lemma last_entry_of_a_cleaner_witness :
  let r := cleaner_modules S3 (scope_for S3 "eu-west-1") false with_instances in
  out r = Done tt
  /\ (last (trace r) = Some (EvLog INFO (completed S3 "eu-west-1"))
      \/ (exists msg, nothing_found S3 "eu-west-1" = Some msg
                      /\ last (trace r) = Some (EvLog INFO msg))).
Proof.
  split; [reflexivity|].
  apply (last_entry_of_a_cleaner S3 "eu-west-1" false with_instances). reflexivity.
Defined.

(** X4: the requests of a cleaner stay in the scope it is called
    with.  Every request of a cleaner that works on a region goes to a
    client of that region, except [get_caller_identity], which the
    cleaner of EC2 sends to an STS client without region; every request
    of the cleaner of IAM goes to a client without region.  So in a run
    of the worker each call of [clean] keeps to the region it is given. *)
Theorem requests_stay_in_scope {S : Type} `{Provider S}
    (module : cleaner_id) (scope : option string)
    (profile : string) (resources : list string) (dry_run : bool) (s : S) :
  Forall (in_scope scope) (trace (cleaner_modules module scope dry_run s))
  /\ Forall confined (trace (run_cleanup profile resources dry_run s)).
Proof.
  split; [apply cleaner_in_scope|].
  eapply List.Forall_impl; [|apply run_cleanup_calls_cleaners].
  intros [lvl msg|R sc q r|sc m r|n|m sc mode inner raised]; simpl; trivial.
  intros (-> & s' & ->). apply cleaner_in_scope.
Qed.

(** X5: the cleaners sleep only where the code says so.  The cleaner
    of RDS sleeps ten seconds for each request that has switched
    deletion protection off, the cleaner of VPC five seconds for each
    [delete_vpn_gateway] request it sends, and the other cleaners
    never sleep. *)
Theorem cleaners_sleep_as_due {S : Type} `{Provider S}
    (module : cleaner_id) (scope : option string) (dry_run : bool) (s : S) :
  slept (trace (cleaner_modules module scope dry_run s))
  = sleep_due module (trace (cleaner_modules module scope dry_run s)).
Proof. apply cleaner_sleeps_as_due. Qed.

(** X6: the requests of the cleaner of EC2 come in the order that the
    comment at its head declares: instances, security groups, Elastic
    IPs, volumes, snapshots, AMIs with the snapshots of their block
    device mappings. *)
Theorem ec2_requests_in_declared_order {S : Type} `{Provider S}
    (region : string) (dry_run : bool) (s : S) :
  staged ec2_stages (requests (trace (ec2.clean region dry_run s))).
Proof. apply ec2_staged. Qed.

(** X7: the requests of the cleaner of RDS come in the order that the
    comment at its head declares: DB instances, DB clusters, DB
    snapshots, DB cluster snapshots, DB parameter groups, DB cluster
    parameter groups, DB subnet groups, DB option groups, DB event
    subscriptions. *)
Theorem rds_requests_in_declared_order {S : Type} `{Provider S}
    (region : string) (dry_run : bool) (s : S) :
  staged rds_stages (requests (trace (rds.clean region dry_run s))).
Proof. apply rds_staged. Qed.

(** X8: the requests of the cleaner of IAM come in this order: the
    account alias; the users, each with its access keys, policies,
    group memberships, MFA devices and login profile; the groups with
    their policies; the roles with their policies and instance
    profiles; the customer managed policies with their attachments and
    versions. *)
Theorem iam_requests_in_order {S : Type} `{Provider S} (dry_run : bool) (s : S) :
  staged iam_stages (requests (trace (iam.clean dry_run s))).
Proof. apply iam_staged. Qed.

(** X9: the cleaner of Lambda works on the functions, with their
    event source mappings, before it works on the layers. *)
Theorem lambda_requests_in_order {S : Type} `{Provider S}
    (region : string) (dry_run : bool) (s : S) :
  staged lambda_stages (requests (trace (lambda_module.clean region dry_run s))).
Proof. apply lambda_staged. Qed.

(** X10: the cleaner of S3 lists the buckets, then asks for the
    location of each, and only then works on the buckets it keeps. *)
Theorem s3_requests_in_order {S : Type} `{Provider S}
    (region : string) (dry_run : bool) (s : S) :
  staged s3_stages (requests (trace (s3.clean region dry_run s))).
Proof. apply s3_staged. Qed.

(** X11: the cleaner of S3 works only on buckets of its region.
    Every request that names a bucket, apart from the request for its
    location, comes after an answer of the same run that locates this
    bucket in the region of the cleaner; a bucket without location
    constraint counts as one of us-east-1. *)
Theorem s3_works_on_buckets_of_the_region {S : Type} `{Provider S}
    (region : string) (dry_run : bool) (s : S) :
  each_after bucket_of (locates region) (trace (s3.clean region dry_run s)).
Proof. apply s3_works_on_located. Qed.

(** X12: the cleaner of S3 asks to delete a bucket only after a
    request of the same run to delete all its objects, or all its
    object versions, has succeeded. *)
Theorem s3_deletes_only_emptied_buckets {S : Type} `{Provider S}
    (region : string) (dry_run : bool) (s : S) :
  each_after bucket_deleted empties (trace (s3.clean region dry_run s)).
Proof. apply s3_deletes_emptied. Qed.

(** A request that a run sends was listed by the run. *)
Lemma request_origin {S : Type} `{Provider S} module scope dry_run (s : S) k :
  In k (mutations (trace (cleaner_modules module scope dry_run s))) ->
  exists ev, In ev (trace (cleaner_modules module scope dry_run s)) /\ In k (licence ev).
Proof.
  intros Hk. apply licences_origin. apply (cleaner_mutation_licensed _ _ _ _ _ Hk).
Qed.

Ltac listed_in origin :=
  let Hk := fresh "Hk" in
  intros ? Hk; apply request_origin in Hk;
  destruct Hk as (ev & Hev & Hk); apply origin in Hk;
  destruct Hk as (d & Hd & Hrest); exists d; split; [exists ev; split; assumption | exact Hrest].

(** X13: the cleaner of RDS leaves the instances of a cluster to the
    deletion of the cluster, and switches deletion protection off only
    where it is on.  In every run, a request to delete or to modify a
    DB instance names an instance that the run has listed without
    [DBClusterIdentifier]; a request to modify an instance or a cluster
    names one listed with [DeletionProtection]. *)
Theorem rds_requests_are_for_listed_resources {S : Type} `{Provider S}
    (module : cleaner_id) (scope : option string) (dry_run : bool) (s : S) :
  let t := trace (cleaner_modules module scope dry_run s) in
  (forall id, In (rds.delete_db_instance id) (mutations t) ->
     exists i, listed db_instances_of t i /\ DBInstanceIdentifier i = id
       /\ dbi_DBClusterIdentifier i = None)
  /\ (forall id, In (rds.modify_db_instance id) (mutations t) ->
     exists i, listed db_instances_of t i /\ DBInstanceIdentifier i = id
       /\ dbi_DBClusterIdentifier i = None /\ dbi_DeletionProtection i = true)
  /\ (forall id, In (rds.modify_db_cluster id) (mutations t) ->
     exists c, listed db_clusters_of t c /\ DBClusterIdentifier c = id
       /\ dbc_DeletionProtection c = true).
Proof.
  intros t. subst t. repeat split.
  - listed_in delete_db_instance_origin.
  - listed_in modify_db_instance_origin.
  - listed_in modify_db_cluster_origin.
Qed.

(** X14: what is in use or built in is left alone.  In every run, a
    request to delete a volume names a volume that the run has listed
    in a state other than in-use; a request to release an address
    names the allocation of a listed address; a request to delete a
    route table, or to remove one of its associations, is for a listed
    route table that is not the main one of its VPC; a request to
    delete an option group names a listed group whose name does not
    start with "default:"; and a request to delete a version of a
    policy names a version listed for this policy that is not its
    default version. *)
Theorem guarded_resources_are_left_alone {S : Type} `{Provider S}
    (module : cleaner_id) (scope : option string) (dry_run : bool) (s : S) :
  let t := trace (cleaner_modules module scope dry_run s) in
  (forall id, In (ec2.volume_delete id) (mutations t) ->
     exists v, listed volumes_of t v /\ volume_id v = id
       /\ String.eqb (volume_state v) "in-use" = false)
  /\ (forall id, In (ec2.release_address id) (mutations t) ->
     exists eip, listed addresses_of t eip /\ AllocationId eip = Some id /\ id <> "")
  /\ (forall id, In (vpc.delete_route_table id) (mutations t) ->
     exists rt, listed route_tables_of t rt /\ RouteTableId rt = id /\ is_main rt = false)
  /\ (forall id, In (vpc.disassociate_route_table id) (mutations t) ->
     exists rt, listed route_tables_of t rt /\ is_main rt = false
       /\ exists a, In a (rt_Associations rt) /\ RouteTableAssociationId a = id
                    /\ rta_SubnetId a <> None)
  /\ (forall name, In (rds.delete_option_group name) (mutations t) ->
     exists g, listed option_groups_of t g /\ OptionGroupName g = name
       /\ pystr.startswith "default:" name = false)
  /\ (forall arn id, In (iam.delete_policy_version arn id) (mutations t) ->
     exists v, listed (policy_versions_of arn) t v /\ VersionId v = id
       /\ IsDefaultVersion v = false).
Proof.
  intros t. subst t. repeat split.
  - listed_in volume_delete_origin.
  - listed_in release_address_origin.
  - listed_in delete_route_table_origin.
  - listed_in disassociate_route_table_origin.
  - listed_in delete_option_group_origin.
  - intros arn. listed_in delete_policy_version_origin.
Qed.

(** X15: the cleaner of CloudFormation deletes root stacks only, and
    retains what has failed.  In every run, a [delete_stack] request
    names a stack that the run has listed, that is not being deleted
    already and that is not nested in another stack; and the resources
    it asks to retain, if any, are the resources that the run has
    listed for this stack in the state CREATE_FAILED or DELETE_FAILED. *)
Theorem stacks_deleted_are_root_stacks {S : Type} `{Provider S}
    (module : cleaner_id) (scope : option string) (dry_run : bool) (s : S) :
  let t := trace (cleaner_modules module scope dry_run s) in
  forall name retain, In (cloudformation.delete_stack name retain) (mutations t) ->
    (exists stack, listed stacks_of t stack /\ StackName stack = name
       /\ str_in (StackStatus stack) ["DELETE_IN_PROGRESS"] = false
       /\ cloudformation.is_nested stack = false)
    /\ (retain = [] \/
        exists resources, listed (stack_resources_of name) t resources
          /\ retain = map LogicalResourceId
                         (List.filter cloudformation.resource_failed resources)).
Proof.
  intros t name retain Hk. subst t. split.
  - eapply delete_root_stack_origin; [apply cleaner_root_stacks | exact Hk].
  - apply request_origin in Hk. destruct Hk as (ev & Hev & Hk).
    apply delete_stack_retain_origin in Hk. destruct Hk as [->|(resources & Hr & ->)];
      [left; reflexivity | right].
    exists resources. split; [exists ev; split; assumption | reflexivity].
Qed.

Lemma stacks_deleted_are_root_stacks_witness :
  let t := trace (cleaner_modules CloudFormation (Some "eu-west-1") false
                                  with_nested_stacks) in
  In (cloudformation.delete_stack "app" ["Bucket"]) (mutations t)
  /\ (exists stack, listed stacks_of t stack /\ StackName stack = "app"
        /\ str_in (StackStatus stack) ["DELETE_IN_PROGRESS"] = false
        /\ cloudformation.is_nested stack = false)
  /\ (["Bucket"] = [] \/
      exists resources, listed (stack_resources_of "app") t resources
        /\ ["Bucket"] = map LogicalResourceId
                            (List.filter cloudformation.resource_failed resources)).
Proof.
  assert (Hk : In (cloudformation.delete_stack "app" ["Bucket"])
                  (mutations (trace (cleaner_modules CloudFormation (Some "eu-west-1") false
                                                     with_nested_stacks))))
    by (vm_compute; auto).
  split; [exact Hk|].
  exact (stacks_deleted_are_root_stacks CloudFormation (Some "eu-west-1") false
           with_nested_stacks "app" ["Bucket"] Hk).
Defined.

(** X16: [filter_log_file] never loses the text of the file it
    filters, and touches no other file.  Whatever can and cannot be
    read and written, after the call the file holds the bytes that it
    held, or the backup of this call, beside the file, holds its text:
    the bytes with LF for every CR LF and CR, as Python reads them.
    Every file other than the two and every directory is as before;
    and when the file cannot be read as UTF-8 text, nothing changes at
    all. *)
Theorem filter_keeps_the_original (env : os_env) (st : os_state) (file_path : string) :
  let timestamp := strftime_now env (clock st) in
  let st' := filter_log_file env file_path st in
  timestamp_ok timestamp ->
  (read_text env st file_path = None -> st' = st)
  /\ (forall k bytes,
        resolve env (root st) file_path = Some k -> file_at (root st) k = Some bytes ->
        file_at (root st') k = Some bytes
        \/ exists text, newlines_unified bytes text
                        /\ file_at (root st') (backup_key k timestamp) = Some text)
  /\ (forall k k',
        resolve env (root st) file_path = Some k -> k' <> k -> k' <> backup_key k timestamp ->
        file_at (root st') k' = file_at (root st) k')
  /\ (resolve env (root st) file_path = None -> root st' = root st)
  /\ (forall k', is_dir (root st') k' = is_dir (root st) k').
Proof.
  intros timestamp st' Hts.
  pose proof (filter_log_file_root env st file_path Hts) as Hroot.
  fold timestamp st' in Hroot.
  split; [|split; [|split; [|split]]].
  - intros Hr. subst st'. unfold filter_log_file. rewrite Hr. reflexivity.
  - intros k bytes Hk Hf.
    destruct Hroot as [-> | (k0 & bytes0 & r1 & Hk0 & Hf0 & _ & _ & _ & Hs1 & Hrest)];
      [left; exact Hf|].
    rewrite Hk in Hk0. injection Hk0 as <-. rewrite Hf in Hf0. injection Hf0 as <-.
    destruct Hrest as [-> | [_ Hs2]].
    + left. rewrite (store_file_at_other _ _ _ _ _ Hs1); [exact Hf|].
      apply not_eq_sym, backup_key_differs.
    + right. exists (universal_newlines bytes). split; [apply universal_newlines_unified|].
      rewrite (store_file_at_other _ _ _ _ _ Hs2) by apply backup_key_differs.
      exact (store_file_at _ _ _ _ Hs1).
  - intros k k' Hk H1 H2.
    destruct Hroot as [-> | (k0 & bytes0 & r1 & Hk0 & _ & _ & _ & _ & Hs1 & Hrest)];
      [reflexivity|].
    rewrite Hk in Hk0. injection Hk0 as <-.
    destruct Hrest as [-> | [_ Hs2]].
    + exact (store_file_at_other _ _ _ _ _ Hs1 H2).
    + rewrite (store_file_at_other _ _ _ _ _ Hs2 H1).
      exact (store_file_at_other _ _ _ _ _ Hs1 H2).
  - intros Hr. destruct Hroot as [E | (k0 & bytes0 & r1 & Hk0 & _)]; [exact E|].
    rewrite Hr in Hk0. discriminate Hk0.
  - intros k'.
    destruct Hroot as [-> | (k0 & bytes0 & r1 & _ & _ & _ & _ & _ & Hs1 & Hrest)];
      [reflexivity|].
    destruct Hrest as [-> | [_ Hs2]].
    + exact (store_is_dir _ _ _ _ k' Hs1 (store_not_dir _ _ _ _ Hs1)).
    + rewrite (store_is_dir _ _ _ _ k' Hs2 (store_not_dir _ _ _ _ Hs2)).
      exact (store_is_dir _ _ _ _ k' Hs1 (store_not_dir _ _ _ _ Hs1)).
Qed.

Lemma filter_keeps_the_original_witness :
  let env := demo_env [] in
  let st := demo_state [("aws_cleanup.log", File dos_log)] [] in
  let st' := filter_log_file env "aws_cleanup.log" st in
  file_at (root st') ["work"; "aws_cleanup.log"] = Some dos_log
  \/ exists text, newlines_unified dos_log text
                  /\ file_at (root st') ["work"; "aws_cleanup.log.20240501_100500.bak"]
                     = Some text.
Proof.
  assert (Hts : timestamp_ok "20240501_100500") by (split; vm_compute; reflexivity).
  exact (proj1 (proj2 (filter_keeps_the_original
                         (demo_env []) (demo_state [("aws_cleanup.log", File dos_log)] [])
                         "aws_cleanup.log" Hts))
               ["work"; "aws_cleanup.log"] dos_log eq_refl eq_refl).
Defined.

(** X19: a cleaner says in the log what it is about to change.  In
    every run of a cleaner, each changing request, the requests
    [delete_bucket_lifecycle] and [delete_bucket_policy] apart, comes
    directly after a log entry at the level WARNING, which is the level
    of the records that [aws_cleanup_gui.py] lets through. *)
Theorem requests_are_announced {S : Type} `{Provider S}
    (module : cleaner_id) (scope : option string) (dry_run : bool) (s : S) :
  each_announced (trace (cleaner_modules module scope dry_run s))
  /\ logging_config.isEnabledFor WARNING = true.
Proof. split; [apply cleaner_announces | reflexivity]. Qed.

(** X20: under the configuration of [aws_cleanup_gui.py] a dry run
    leaves no record of what it has found.  The level of the root
    logger is WARNING, and a dry run reports what it finds and what it
    would delete at the level INFO: the records of a dry run of a
    cleaner are records of errors and of volumes that are in use, and
    so are the records of every call of a cleaner in a dry run of the
    worker, which itself leaves records of errors only. *)
Theorem dry_run_records_no_finding {S : Type} `{Provider S}
    (module : cleaner_id) (scope : option string)
    (profile : string) (resources : list string) (s : S) :
  Forall error_or_volume_in_use (records (trace (cleaner_modules module scope true s)))
  /\ Forall leaves_no_finding (trace (run_cleanup profile resources true s))
  /\ (forall t msg, ~ In (INFO, msg) (records t)).
Proof.
  split; [apply records_of_dry_entries, cleaner_dry_entries|].
  split; [apply run_cleanup_leaves_no_finding|].
  intros t msg Hin. unfold records in Hin. apply in_flat_map in Hin.
  destruct Hin as ([[| |] m| | | |] & _ & Hin); simpl in Hin;
    repeat destruct Hin as [Hin|Hin]; try discriminate Hin; try contradiction.
Qed.

(** X21: the selection of the window reaches the worker as it is.
    In a window with the checkboxes that [__init__] creates, the names
    that are selected are names for which [run_cleanup] imports a
    module, in the same order, so that no selected resource type is
    left out; [select_all_resources] selects the seven resource types
    and [deselect_all_resources] none, and both keep the checkboxes. *)
Theorem selection_reaches_the_worker (g : gui) :
  checkboxes_as_created g ->
  map fst (resource_modules (selected_resources g)) = selected_resources g
  /\ selected_resources (select_all_resources g)
     = ["EC2"; "S3"; "Lambda"; "CloudFormation"; "RDS"; "VPC"; "IAM"]
  /\ selected_resources (deselect_all_resources g) = []
  /\ checkboxes_as_created (select_all_resources g)
  /\ checkboxes_as_created (deselect_all_resources g).
Proof.
  intros Hg. split; [apply selected_have_modules, Hg|].
  split; [apply (select_all_selected g Hg)|].
  split; [apply deselect_all_selected|].
  unfold checkboxes_as_created, select_all_resources, deselect_all_resources.
  rewrite !set_all_keys. split; exact Hg.
Qed.

Lemma selection_reaches_the_worker_witness :
  let g := select_all_resources (init ["default"]) in
  map fst (resource_modules (selected_resources g)) = selected_resources g
  /\ selected_resources (deselect_all_resources g) = [].
Proof.
  destruct (selection_reaches_the_worker (select_all_resources (init ["default"])) eq_refl)
    as (H1 & _ & H3 & _).
  split; [exact H1 | exact H3].
Defined.

(** X22: the window starts a run only after a yes, and a run that it
    starts changes something only in live mode.  When [start_cleanup]
    starts the thread of the worker, a profile and at least one
    resource type are selected, the worker gets the profile, the
    selection and the mode of the window, and the user has answered
    yes to a question that names the mode and, in live mode, says
    that resources will be deleted permanently; and when the dry-run
    box is ticked, as it is in a new window, the run of the worker
    that is started sends no changing request. *)
Theorem start_cleanup_asks_first {S : Type} `{Provider S}
    (g : gui) (answer : bool) (profile : string) (resources : list string)
    (dry_run : bool) (s : S) :
  In (start_thread profile resources dry_run) (snd (start_cleanup answer g)) ->
  answer = true
  /\ profile = profile_var g /\ profile <> ""
  /\ resources = selected_resources g /\ resources <> []
  /\ dry_run = dry_run_var g
  /\ (exists text,
        snd (start_cleanup answer g)
        = [askyesno "Confirm Cleanup" text true; start_thread profile resources dry_run;
           after 100]
        /\ startswith ("WARNING: You are about to run in "
                       +:+ (if dry_run then "DRY RUN" else "LIVE") +:+ " mode!") text = true
        /\ (dry_run = false ->
            contains "THIS WILL PERMANENTLY DELETE AWS RESOURCES!" text = true))
  /\ (dry_run = true ->
      Forall changes_nothing (trace (run_cleanup profile resources dry_run s)))
  /\ (forall profiles, dry_run_var (init profiles) = true).
Proof.
  intros Hin. unfold start_cleanup in *. cbv zeta in *.
  destruct (truthy (Some (profile_var g))) eqn:Ep; cbn [negb snd fst] in *;
    [|destruct Hin as [E|[]]; discriminate E].
  destruct (is_nil (selected_resources g)) eqn:En; cbn [negb snd fst] in *;
    [destruct Hin as [E|[]]; discriminate E|].
  destruct answer; cbn [negb snd fst] in *; [|destruct Hin as [E|[]]; discriminate E].
  destruct Hin as [E|[E|[E|[]]]]; try discriminate E.
  injection E as <- <- <-.
  split; [reflexivity|]. split; [reflexivity|].
  split; [apply truthy_nonempty, Ep|]. split; [reflexivity|].
  split; [apply is_nil_nonempty, En|]. split; [reflexivity|].
  split.
  { eexists. split; [reflexivity|]. split; [apply warning_mode|].
    intros E. rewrite E. apply live_warning. }
  split; [|intros profiles; reflexivity].
  intros E. rewrite E.
  eapply List.Forall_impl; [|apply run_cleanup_calls_cleaners].
  intros [lvl msg|R sc q r|sc m r|n|m sc mode inner raised]; simpl; trivial.
  intros (-> & s' & ->). apply claims.cleaner_dry.
Qed.

Lemma start_cleanup_asks_first_witness :
  let g := select_all_resources (init ["default"]) in
  In (start_thread "default" (selected_resources g) true) (snd (start_cleanup true g))
  /\ Forall changes_nothing
            (trace (run_cleanup "default" (selected_resources g) true with_leftovers)).
Proof.
  assert (Hin : In (start_thread "default"
                      (selected_resources (select_all_resources (init ["default"]))) true)
                   (snd (start_cleanup true (select_all_resources (init ["default"])))))
    by (vm_compute; auto).
  split; [exact Hin|].
  destruct (start_cleanup_asks_first _ true "default" _ true with_leftovers Hin)
    as (_ & _ & _ & _ & _ & _ & _ & Hdry & _).
  apply Hdry. reflexivity.
Defined.

(** X23: a live run that meets no failure sends every request that
    its answers call for.  In a run of a cleaner with [dry_run=False]
    that ends normally, in which every request succeeds, every listing
    is read to its end and nothing is logged at level ERROR, each
    changing request is sent at least as often as the answers to the
    reading requests of the run call for it; so every listed instance
    that is neither terminated nor shutting down is asked to terminate,
    every listed volume that is not in use and every listed DB instance
    outside a cluster is asked to be deleted, and so is every listed
    VPC that is not a default VPC.  A run in which an exception other
    than that of a request is met, such as the [KeyError] for a subnet
    without [CidrBlock] or the exception of a client that cannot be
    created, does not end normally or logs the exception at level
    ERROR. *)
Theorem live_run_sends_what_is_called_for {S : Type} `{Provider S}
    (module : cleaner_id) (scope : option string) (s : S) :
  let r := cleaner_modules module scope false s in
  let t := trace r in
  all_succeed t -> without_error t -> out r = Done tt ->
  (forall k, occ k (calls_for t) <= occ k (mutations t))
  /\ (forall i, listed instances_of t i ->
        str_in (instance_state i) ["terminated"; "shutting-down"] = false ->
        In (ec2.terminate (instance_id i)) (mutations t))
  /\ (forall v, listed volumes_of t v -> String.eqb (volume_state v) "in-use" = false ->
        In (ec2.volume_delete (volume_id v)) (mutations t))
  /\ (forall i, listed db_instances_of t i -> dbi_DBClusterIdentifier i = None ->
        In (rds.delete_db_instance (DBInstanceIdentifier i)) (mutations t))
  /\ (forall v, listed vpcs_of t v -> vpc_IsDefault v = false ->
        In (vpc.delete_vpc (VpcId v)) (mutations t)).
Proof.
  intros r t Hs Hc E. subst t r.
  split; [apply (live_cleaner_settles module scope s Hs Hc E)|].
  repeat split.
  - intros i (ev & Hev & Hi) Hn. apply (live_cleaner_sends module scope s ev _ Hs Hc E Hev).
    destruct ev as [lvl msg|R sc q [x|e]|sc m r|n|m sc mode inner raised];
      try contradiction.
    destruct q; simpl in Hi; try contradiction.
    simpl. apply in_flat_map. exists i. split; [exact Hi|].
    unfold for_instance. rewrite Hn. left. reflexivity.
  - intros v (ev & Hev & Hv) Hn. apply (live_cleaner_sends module scope s ev _ Hs Hc E Hev).
    destruct ev as [lvl msg|R sc q [x|e]|sc m r|n|m sc mode inner raised];
      try contradiction.
    destruct q; simpl in Hv; try contradiction.
    simpl. apply in_flat_map. exists v. split; [exact Hv|].
    unfold for_volume. rewrite Hn. left. reflexivity.
  - intros i (ev & Hev & Hi) Hn. apply (live_cleaner_sends module scope s ev _ Hs Hc E Hev).
    destruct ev as [lvl msg|R sc q [x|e]|sc m r|n|m sc mode inner raised];
      try contradiction.
    destruct q; simpl in Hi; try contradiction.
    simpl. apply in_flat_map. exists i. split; [exact Hi|].
    unfold for_db_instance. rewrite Hn. apply in_or_app. right. left. reflexivity.
  - intros v (ev & Hev & Hv) Hn. apply (live_cleaner_sends module scope s ev _ Hs Hc E Hev).
    destruct ev as [lvl msg|R sc q [x|e]|sc m r|n|m sc mode inner raised];
      try contradiction.
    destruct q; simpl in Hv; try contradiction.
    simpl. apply in_flat_map. exists v. split; [exact Hv|].
    unfold for_vpc. rewrite Hn. left. reflexivity.
Qed.

Lemma live_run_sends_what_is_called_for_witness :
  let r := cleaner_modules EC2 (Some "eu-west-1") false with_leftovers in
  let t := trace r in
  all_succeed t /\ without_error t /\ out r = Done tt
  /\ In (ec2.terminate "i-1") (mutations t)
  /\ In (ec2.volume_delete "vol-1") (mutations t).
Proof.
  assert (Hs : all_succeed (trace (cleaner_modules EC2 (Some "eu-west-1") false
                                                   with_leftovers)))
    by (vm_compute; repeat constructor).
  assert (Hc : without_error (trace (cleaner_modules EC2 (Some "eu-west-1") false
                                                     with_leftovers)))
    by (vm_compute; repeat constructor; intros []).
  assert (E : out (cleaner_modules EC2 (Some "eu-west-1") false with_leftovers) = Done tt)
    by (vm_compute; reflexivity).
  split; [exact Hs|]. split; [exact Hc|]. split; [exact E|].
  destruct (live_run_sends_what_is_called_for EC2 (Some "eu-west-1") with_leftovers Hs Hc E)
    as (_ & Hi & Hv & _).
  split.
  - apply (Hi {| instance_id := "i-1"; instance_state := "running"; instance_tags := [] |});
      [|reflexivity].
    eexists. split; [vm_compute; right; left; reflexivity | left; reflexivity].
  - apply (Hv {| volume_id := "vol-1"; volume_state := "available"; volume_tags := [] |});
      [|reflexivity].
    eexists (EvRead (Some "eu-west-1") volumes_all (Ok _)).
    split; [vm_compute; auto 20 | left; reflexivity].
Defined.

(** A run in which every request succeeds and that ends normally, but
    in which the [KeyError] for a subnet without [CidrBlock] is
    caught: the VPC is listed and not deleted, and the error is in the
    log. *)
Example vpc_with_ipv6_subnet_is_left :
  let r := vpc.clean "eu-west-1" false with_ipv6_subnet in
  all_succeed (trace r) /\ out r = Done tt
  /\ ~ In (vpc.delete_vpc "vpc-1") (mutations (trace r))
  /\ In (EvLog ERROR "Error cleaning VPC resources in eu-west-1: 'CidrBlock'") (trace r).
Proof.
  split; [vm_compute; repeat constructor|]. split; [vm_compute; reflexivity|].
  split; [vm_compute; tauto | vm_compute; auto 50].
Qed.

End extras.

